(** * LCM::PeridigmManager

    A shallow embedding of [src/LCM/utils/PeridigmManager.cpp]: the coupling
    layer between the finite-element discretization and the peridynamic
    solver.  The development follows the order of the source file:

    - machine integers and the outcome of a call (normal return, an exception
      raised by [TEUCHOS_TEST_FOR_EXCEPT_MSG], undefined behaviour);
    - the global-id allocator of [initialize] (lines 160-196);
    - block-name parsing (lines 93-101);
    - the mesh, the quadrature library and the solver as [initialize] sees
      them, and [initialize] itself;
    - [setCurrentTimeAndDisplacement], [updateState], [evaluateInternalForce],
      [getForce], [setOutputFields];
    - [writePeridigmSubModel], [getPartialStress] and [getBlockData].

    [double] is idealised as the exact rationals [Qc]: the statements give
    the arithmetic of the source operation by operation, and where the
    rounding of IEEE double precision decides what a call returns, the
    operations are given on binary64 numbers as well (module [Double]).
    [overlappingElementSearch], whose only call is commented out (line 405),
    is not embedded. *)

From Stdlib Require Import PrimFloat.
From Stdlib Require Import Ascii String QArith Qcanon.
From stdpp Require Import base decidable option list numbers strings gmap.

Local Open Scope Z_scope.

(* A decimal in [float_scope] stands for the nearest binary64 number. *)
Set Warnings "-inexact-float".

(** ** Machine integers

    [int] is the 32-bit two's-complement integer; results of arithmetic are
    reduced into its range. *)
Module Int.

Definition min_signed : Z := -2147483648.
Definition max_signed : Z := 2147483647.

Definition in_range (z : Z) : Prop := min_signed ≤ z ≤ max_signed.

Definition wrap (z : Z) : Z :=
  (z + 2147483648) `mod` 4294967296 - 2147483648.

Definition add (a b : Z) : Z := wrap (a + b).
Definition mul (a b : Z) : Z := wrap (a * b).

(** [static_cast<int>(v.size())] *)
Definition of_size (n : nat) : Z := wrap (Z.of_nat n).

End Int.

(** ** Outcomes

    Every [TEUCHOS_TEST_FOR_EXCEPT_MSG] of the file is one constructor of
    [failure], named after the condition it tests; the line of the test is
    given with it. *)
Inductive failure : Type :=
  | NotSTKMesh                  (* l.43  *)
  | NotThreeDimensional         (* l.46  *)
  | NoCoordinatesField          (* l.68  *)
  | InvalidBlockName (blockName : string) (* l.97 *)
  | MultipleNodesPerElement     (* l.121 *)
  | NoVolumeField               (* l.248 *)
  | NotSphereElement            (* l.251 *)
  | InitializeInvalidGlobalId   (* l.255 *)
  | NoElementVolume             (* l.258 *)
  | NoElementCoordinates        (* l.261 *)
  | NodeCountMismatch           (* l.323 *)
  | NotMpiComm                  (* l.373 *)
  | UnexpectedWorksetLocalId    (* l.394 *)
  | InvalidSphereLocalId        (* l.562 *)
  | InvalidPartialStressLocalId (* l.640 *)
  | InvalidAlbanyLocalId        (* l.564 *)
  | GetForceInvalidGlobalId     (* l.685 *)
  | GetPartialStressInvalidGlobalId (* l.701 *)
  | UnknownVariable.            (* l.751 *)

(** The error taxonomy of the specification (section 7). *)
Inductive error_class : Type :=
  | ParseError
  | InvalidDiscretization
  | InvalidTopology
  | InvalidId
  | DegenerateElement
  | ConfigurationError.

(** Modelled from the spec: the class section 7 gives to each fatal check
    of the source (the source raises one exception type with a message). *)
Definition classify (f : failure) : error_class :=
  match f with
  | InvalidBlockName _ => ParseError
  | NotSTKMesh | NotThreeDimensional | NoCoordinatesField | NoVolumeField
  | NoElementVolume | NoElementCoordinates | NotMpiComm
  | UnexpectedWorksetLocalId => InvalidDiscretization
  | MultipleNodesPerElement | NotSphereElement | NodeCountMismatch => InvalidTopology
  | InitializeInvalidGlobalId | InvalidSphereLocalId
  | InvalidPartialStressLocalId | InvalidAlbanyLocalId
  | GetForceInvalidGlobalId | GetPartialStressInvalidGlobalId => InvalidId
  | UnknownVariable => ConfigurationError
  end.

(** A call returns, aborts with a failure, or does what C++ leaves
    undefined: an access outside an array, a read of an uninitialised
    variable, a null pointer dereferenced. *)
Inductive outcome (A : Type) : Type :=
  | Ok (a : A)
  | Fatal (f : failure)
  | Undefined.
Arguments Ok {A} a.
Arguments Fatal {A} f.
Arguments Undefined {A}.

#[global] Instance outcome_ret : MRet outcome := λ A, Ok.
#[global] Instance outcome_bind : MBind outcome := λ A B k m,
  match m with
  | Ok a => k a
  | Fatal f => Fatal f
  | Undefined => Undefined
  end.

#[global] Instance outcome_fmap : FMap outcome := λ A B f m,
  match m with
  | Ok a => Ok (f a)
  | Fatal e => Fatal e
  | Undefined => Undefined
  end.

(** [TEUCHOS_TEST_FOR_EXCEPT_MSG(cond, msg)] *)
Definition test_for_except (cond : bool) (f : failure) : outcome unit :=
  if cond then Fatal f else Ok tt.

(** A [for] loop over the elements of a container, threading the state. *)
Fixpoint for_each {A S} (body : S → A → outcome S) (s : S) (l : list A) : outcome S :=
  match l with
  | [] => Ok s
  | a :: l' => s' ← body s a; for_each body s' l'
  end.

(** ** The global-id allocator (lines 160-196) *)

(** Lines 166-168, on one rank. *)
Definition localLowestPossiblePartialStressId (maxAlbanyElementId maxAlbanyNodeId : Z) : Z :=
  let lowestPossiblePartialStressId := Int.add maxAlbanyElementId 1 in
  if bool_decide (maxAlbanyNodeId > lowestPossiblePartialStressId)
  then Int.add maxAlbanyNodeId 1
  else lowestPossiblePartialStressId.

(** [Teuchos::reduceAll(comm, REDUCE_MAX, 1, local, global)]: every rank
    receives the maximum of the values the ranks contribute; [localVals]
    lists them in rank order. *)
Definition reduceAll_MAX (localVals : list Z) : Z :=
  match localVals with
  | [] => 0
  | v :: vs => foldl Z.max v vs
  end.

(** What pass 1 leaves on a rank for the allocator. *)
Record RankScan : Type := {
  maxAlbanyElementId : Z;
  maxAlbanyNodeId : Z;
  numPartialStressIds : Z
}.

(** Lines 169-172. *)
Definition lowestPossiblePartialStressId (scans : list RankScan) : Z :=
  reduceAll_MAX
    ((λ r, localLowestPossiblePartialStressId (maxAlbanyElementId r) (maxAlbanyNodeId r)) <$> scans).

(** Lines 179-181: what rank [q] contributes in iteration [iProc]. *)
Definition offsetLocalVal (q iProc : nat) (numPartialStressIds : Z) : Z :=
  if bool_decide (q = iProc) then numPartialStressIds else 0.

(** Lines 178-186: one iteration of the loop, seen from rank [pid]. *)
Definition offsetStep (counts : list Z) (pid : nat) (minId : Z) (iProc : nat) : Z :=
  let globalVal := reduceAll_MAX (imap (λ q c, offsetLocalVal q iProc c) counts) in
  if bool_decide (iProc < pid)%nat then Int.add minId globalVal else minId.

(** Lines 174-187, with [numProc = length counts]. *)
Definition minPeridigmPartialStressId (lowest : Z) (counts : list Z) (pid : nat) : Z :=
  foldl (offsetStep counts pid) lowest (seq 0 (length counts)).

(** Lines 190-191: the global ids the loop produces. *)
Definition partialStressGlobalIds (minId numIds : Z) : list Z :=
  (λ i, Int.add minId i) <$> seqZ 0 numIds.

Definition rankCounts (scans : list RankScan) : list Z := numPartialStressIds <$> scans.

Definition rankMinId (scans : list RankScan) (pid : nat) : Z :=
  minPeridigmPartialStressId (lowestPossiblePartialStressId scans) (rankCounts scans) pid.

Definition rankPartialStressIds (scans : list RankScan) (pid : nat) : list Z :=
  partialStressGlobalIds (rankMinId scans pid) (default 0 (rankCounts scans !! pid)).

Definition sumZ (l : list Z) : Z := foldr Z.add 0 l.

(** ** Containers

    [std::vector::operator[]], [Epetra_Vector::operator[]] and
    [Teuchos::ArrayRCP::operator[]] with an [int] index: defined inside the
    array only. *)
Definition read_at {A} (v : list A) (i : Z) : outcome A :=
  if bool_decide (0 ≤ i) then
    match v !! Z.to_nat i with
    | Some x => Ok x
    | None => Undefined
    end
  else Undefined.

Definition write_at {A} (v : list A) (i : Z) (x : A) : outcome (list A) :=
  if bool_decide (0 ≤ i ∧ i < Z.of_nat (length v))
  then Ok (<[Z.to_nat i := x]> v)
  else Undefined.

(** [std::map<K,V>::operator[]]: an absent key is inserted with the
    value-initialised [V] and that value is returned. *)
Definition map_index `{Countable K} {V} (dflt : V) (m : gmap K V) (k : K) : V * gmap K V :=
  match m !! k with
  | Some v => (v, m)
  | None => (dflt, <[k := dflt]> m)
  end.

(** ** Block names (lines 93-101) *)

(** [std::string::find_last_of(c)]; [None] is [npos]. *)
Fixpoint find_last_of (c : ascii) (s : string) : option nat :=
  match s with
  | EmptyString => None
  | String a s' =>
      match find_last_of c s' with
      | Some i => Some (S i)
      | None => if decide (a = c) then Some 0%nat else None
      end
  end.

(** [std::string::substr(pos, count)] for [pos ≤ size]: [count] is cut
    at the end of the string. *)
Definition substr (pos count : nat) (s : string) : string := substring pos count s.

(** [std::isspace] in the "C" locale. *)
Definition is_space (a : ascii) : bool :=
  let n := N_of_ascii a in
  bool_decide (n = 32 ∨ 9 ≤ n ≤ 13)%N.

Fixpoint skip_ws (s : string) : string :=
  match s with
  | String a s' => if is_space a then skip_ws s' else s
  | EmptyString => EmptyString
  end.

Definition digit_of (a : ascii) : option Z :=
  let n := N_of_ascii a in
  if bool_decide (48 ≤ n ≤ 57)%N then Some (Z.of_N n - 48) else None.

(** The digits at the front of [s], read in base ten; [acc] is [None] until
    a digit has been read. *)
Fixpoint read_digits (acc : option Z) (s : string) : option Z :=
  match s with
  | String a s' =>
      match digit_of a with
      | Some d => read_digits (Some (10 * default 0 acc + d)) s'
      | None => acc
      end
  | EmptyString => acc
  end.

Definition clamp_int (z : Z) : Z := Int.min_signed `max` (z `min` Int.max_signed).

(** [std::istream::operator>>(int&)] on a fresh [stringstream] over [s]
    (C++11): white space is skipped; when nothing is left the variable is not
    written ([None]); otherwise an optional sign and the decimal digits are
    read, a field without digits stores 0 and a value outside [int] stores
    the nearest bound. *)
Definition stream_extract_int (s : string) : option Z :=
  match skip_ws s with
  | EmptyString => None
  | String a s' =>
      let '(negative, digits) :=
        if decide (a = "-"%char) then (true, s')
        else if decide (a = "+"%char) then (false, s')
        else (false, String a s') in
      match read_digits None digits with
      | None => Some 0
      | Some v => Some (clamp_int (if negative : bool then - v else v))
      end
  end.

(** Lines 95-100: the block id of a block name.  [bId] is declared without
    an initialiser, so a stream that writes nothing leaves it indeterminate. *)
Definition parseBlockId (blockName : string) : outcome Z :=
  match find_last_of "_"%char blockName with
  | None => Fatal (InvalidBlockName blockName)
  | Some loc =>
      match stream_extract_int (substr (loc + 1) (String.length blockName) blockName) with
      | Some bId => Ok bId
      | None => Undefined
      end
  end.

(** Vocabulary for statements about block names: whether a character occurs
    in a string, and the decimal numeral of a list of digits with its value. *)
Fixpoint has_char (c : ascii) (s : string) : bool :=
  match s with
  | EmptyString => false
  | String a s' => bool_decide (a = c) || has_char c s'
  end.

Definition digit_char (d : Z) : ascii := ascii_of_N (Z.to_N (48 + d)).

Fixpoint numeral (digits : list Z) : string :=
  match digits with
  | [] => EmptyString
  | d :: digits' => String (digit_char d) (numeral digits')
  end.

Definition decimal_value (digits : list Z) : Z := foldl (λ acc d, 10 * acc + d) 0 digits.

(** ** The mesh, as the STK discretization presents it *)

(** [double], idealised: the exact rationals.  No statement of this file
    relies on an identity of exact arithmetic that rounding breaks without
    saying so; see [Double] for the operations on binary64 numbers. *)
Definition Scalar : Type := Qc.
Definition Point : Type := Scalar * Scalar * Scalar.

(** [p[dof]] for the three components of a point. *)
Definition coord (p : Point) (dof : nat) : Scalar :=
  match dof with
  | 0%nat => p.1.1
  | 1%nat => p.1.2
  | _ => p.2
  end.

(** The interleaved storage [x0 y0 z0 x1 y1 z1 ...]. *)
Definition flatten_points (ps : list Point) : list Scalar :=
  ps ≫= λ p, [p.1.1; p.1.2; p.2].

Inductive EntityRank : Type := NODE_RANK | EDGE_RANK | FACE_RANK | ELEMENT_RANK.

#[global] Instance EntityRank_eq_dec : EqDecision EntityRank.
Proof. solve_decision. Defined.

(** The shards cell topologies that occur in three-dimensional meshes. *)
Inductive CellTopologyData : Type :=
  | Node | Particle | Tetrahedron_4 | Pyramid_5 | Wedge_6 | Hexahedron_8.

#[global] Instance CellTopologyData_eq_dec : EqDecision CellTopologyData.
Proof. solve_decision. Defined.

(** [shards::CellTopology::getNodeCount] *)
Definition getNodeCount (t : CellTopologyData) : nat :=
  match t with
  | Node => 0
  | Particle => 1
  | Tetrahedron_4 => 4
  | Pyramid_5 => 5
  | Wedge_6 => 6
  | Hexahedron_8 => 8
  end.

(** An element: [bulkData->identifier(e)] and the identifiers of the nodes
    [bulkData->begin_nodes(e)] lists. *)
Record Element : Type := {
  identifier : Z;
  begin_nodes : list Z
}.

Definition num_nodes (e : Element) : Z := Z.of_nat (length (begin_nodes e)).

(** [bulkData->identifier(x) - 1], stored in an [int]. *)
Definition albanyId (stkIdentifier : Z) : Z := Int.wrap (stkIdentifier - 1).

(** A mesh part with the elements of it this rank owns. *)
Record Part : Type := {
  part_name : string;
  is_auto_declared_part : bool;
  primary_entity_rank : EntityRank;
  get_cell_topology : CellTopologyData;
  locally_owned_elements : list Element
}.

Record STKDiscretization : Type := {
  spatial_dimension : Z;
  get_parts : list Part;
  (** [metaData->get_field(NODE_RANK, "coordinates")], by node identifier;
      the inner [None] is a null [field_data] pointer. *)
  coordinatesField : option (Z → option Point);
  (** [metaData->get_field(ELEMENT_RANK, "volume")], by element identifier. *)
  volumeField : option (Z → option Scalar);
  (** [getElemGIDws()]: global element id ↦ (workset, local id), in key order. *)
  getElemGIDws : list (Z * (Z * Z))
}.

Record Params : Type := {
  (** [params->sublist("Problem").isSublist("Peridigm Parameters")] *)
  hasPeridigmParameters : bool;
  (** ["Cubature Degree"] of the discretization sublist, when given. *)
  cubatureDegreeParam : option Z;
  (** The material data base, when ["MaterialDB Filename"] is given:
      block name ↦ ["Model Name"] of its ["Material Model"] sublist. *)
  materialDataBase : option (string → string)
}.

(** The communicator: the rank of this process, whether it is a
    [Teuchos::MpiComm], and what the ranks contribute to the collectives of
    [initialize], in rank order (the entry of this rank is replaced by what
    this rank computes). *)
Record Comm : Type := {
  getRank : nat;
  isMpiComm : bool;
  rankScans : list RankScan
}.

(** ** The quadrature library and the peridynamic solver *)

Definition Matrix : Type := list (list Scalar).

(** Intrepid, for one cell: arrays indexed by quadrature point are functions
    of the index. *)
Class Intrepid : Type := {
  (** [cubFactory.create(topology, degree)->getCubature]: points and weights *)
  getCubature : CellTopologyData → Z → list (Point * Scalar);
  (** [CellTools::mapToPhysicalFrame(physPoints, refPoints, cellWorkset, topology)] *)
  mapToPhysicalFrame : list Point → list Point → CellTopologyData → nat → Point;
  (** [CellTools::setJacobian(jacobians, refPoints, cellWorkset, topology)] *)
  setJacobian : list Point → list Point → CellTopologyData → nat → Matrix;
  (** [CellTools::setJacobianDet(jacobianDeterminants, jacobians)] *)
  setJacobianDet : (nat → Matrix) → nat → Scalar;
  (** [FunctionSpaceTools::computeCellMeasure(weightedMeasures, dets, weights)] *)
  computeCellMeasure : (nat → Scalar) → list Scalar → nat → Scalar
}.

(** The state of the [PeridigmNS::Peridigm] object the manager reads and
    writes: the global ids of its map in local order, the time step, and the
    vectors behind [getX], [getY], [getU], [getV] and [getForce]. *)
Record Peridigm : Type := {
  peridigm_globalIds : list Z;
  peridigm_cellVolume : list Scalar;
  peridigm_blockId : list Z;
  peridigm_timeStep : Scalar;
  getX : list Scalar;
  getY : list Scalar;
  getU : list Scalar;
  getV : list Scalar;
  getForce_vector : list Scalar
}.

(** The solver's own operations, which the manager only calls. *)
Class PeridigmKernels : Type := {
  computeInternalForce : Peridigm → Peridigm;
  Peridigm_updateState : Peridigm → Peridigm
}.

(** [Epetra_BlockMap::LID(gid)]: the local index of a global id, -1 when the
    map does not hold it. *)
Definition LID (globalIds : list Z) (gid : Z) : Z :=
  match list_find (λ g, g = gid) globalIds with
  | Some (i, _) => Z.of_nat i
  | None => -1
  end.

(** Modelled from the spec: the solver object built from the flat arrays of
    ids, positions, volumes and block ids (its constructor is not part of
    this file).  Reference and current positions start at the initial
    positions, the other vectors at zero. *)
Definition Peridigm_new (globalIds : list Z) (initialX cellVolume : list Scalar)
    (blockId : list Z) : Peridigm :=
  {| peridigm_globalIds := globalIds;
     peridigm_cellVolume := cellVolume;
     peridigm_blockId := blockId;
     peridigm_timeStep := 0%Qc;
     getX := initialX;
     getY := initialX;
     getU := replicate (length initialX) 0%Qc;
     getV := replicate (length initialX) 0%Qc;
     getForce_vector := replicate (length initialX) 0%Qc |}.

(** ** The manager *)

Record IdTable : Type := {
  peridigmNodeGlobalIds : list Z;
  peridigmGlobalIdToPeridigmLocalId : gmap Z Z
}.

Record PartialStressElement : Type := {
  albanyElement : Element;
  cellTopologyData : CellTopologyData;
  albanyNodeInitialPositions : list Scalar;
  peridigmGlobalIds : list Z
}.

Module Output.
Record OutputField : Type := {
  albanyName : string;
  peridigmName : string;
  relation : string;
  initType : string;
  length : Z
}.
End Output.
Abbreviation OutputField := Output.OutputField.

(** [OutputField::operator==] compares the five members. *)
#[global] Instance OutputField_eq_dec : EqDecision OutputField.
Proof. solve_decision. Defined.

Record PeridigmManager : Type := {
  hasPeridynamics : bool;
  previousTime : Scalar;
  currentTime : Scalar;
  timeStep : Scalar;
  cubatureDegree : Z;
  blockNameToBlockId : gmap string Z;
  idTable : IdTable;
  sphereElementGlobalNodeIds : list Z;
  partialStressElements : list PartialStressElement;
  previousSolutionPositions : list Scalar;
  (** [Teuchos::RCP<PeridigmNS::Peridigm>], null until [initialize] builds it *)
  peridigm : option Peridigm;
  worksetLocalIdToGlobalId : gmap Z (list Z);
  albanyPartialStressElementGlobalIdToPeridigmGlobalIds : gmap Z (list Z);
  outputFields : list OutputField
}.

(** Line 17: the constructor. *)
Definition PeridigmManager_new : PeridigmManager :=
  {| hasPeridynamics := false;
     previousTime := 0%Qc;
     currentTime := 0%Qc;
     timeStep := 0%Qc;
     cubatureDegree := -1;
     blockNameToBlockId := ∅;
     idTable := {| peridigmNodeGlobalIds := []; peridigmGlobalIdToPeridigmLocalId := ∅ |};
     sphereElementGlobalNodeIds := [];
     partialStressElements := [];
     previousSolutionPositions := [];
     peridigm := None;
     worksetLocalIdToGlobalId := ∅;
     albanyPartialStressElementGlobalIdToPeridigmGlobalIds := ∅;
     outputFields := [] |}.

(** ** [initialize], pass 1 (lines 81-158) *)

(** The locals and members the first loop over the blocks updates. *)
Record Pass1 : Type := {
  p1_blockNameToBlockId : gmap string Z;
  p1_idTable : IdTable;
  p1_peridynamicsBlocks : list string;
  p1_peridynamicPartialStressBlocks : list string;
  p1_classicalContinuumMechanicsBlocks : list string;
  p1_numPartialStressIds : Z;
  p1_maxAlbanyElementId : Z;
  p1_maxAlbanyNodeId : Z
}.

(** Lines 125-127 and 192-195: a global id takes the next local id. *)
Definition registerId (t : IdTable) (globalId : Z) : Z * IdTable :=
  let localId := Int.of_size (length (peridigmNodeGlobalIds t)) in
  (localId,
   {| peridigmNodeGlobalIds := peridigmNodeGlobalIds t ++ [globalId];
      peridigmGlobalIdToPeridigmLocalId :=
        <[globalId := localId]> (peridigmGlobalIdToPeridigmLocalId t) |}).

(** Lines 120-127: one sphere element of a "Peridynamics" block. *)
Definition registerSphereElement (t : IdTable) (e : Element) : outcome IdTable :=
  test_for_except (bool_decide (num_nodes e ≠ 1)) MultipleNodesPerElement;;
  node ← read_at (begin_nodes e) 0;
  Ok (registerId t (albanyId node)).2.

(** Lines 147-156: the running maxima over one element. *)
Definition trackMaxIds (maxima : Z * Z) (e : Element) : Z * Z :=
  let '(maxElementId, maxNodeId) := maxima in
  let elementId := albanyId (identifier e) in
  let maxElementId :=
    if bool_decide (elementId > maxElementId) then elementId else maxElementId in
  let maxNodeId :=
    foldl (λ m node, let nodeId := albanyId node in
                     if bool_decide (nodeId > m) then nodeId else m)
          maxNodeId (begin_nodes e) in
  (maxElementId, maxNodeId).

(** Lines 112-114. *)
Definition materialModelNameOf (db : option (string → string)) (blockName : string) : string :=
  match db with
  | Some modelName => modelName blockName
  | None => ""
  end.

(** Lines 51-60: the element blocks, and the topology stored under each
    block name. *)
Definition isElementBlock (part : Part) : bool :=
  negb (is_auto_declared_part part) && bool_decide (primary_entity_rank part = ELEMENT_RANK).

Definition stkElementBlocks (parts : list Part) : list Part :=
  List.filter isElementBlock parts.

Definition partCellTopologyData (parts : list Part) : gmap string CellTopologyData :=
  foldl (λ m part, <[part_name part := get_cell_topology part]> m) ∅ (stkElementBlocks parts).

Section Manager.
Context `{!Intrepid} `{!PeridigmKernels}.

(** Lines 95-157: one iteration of the first loop. *)
Definition pass1_block (db : option (string → string)) (topologies : gmap string CellTopologyData)
    (cubatureDegree : Z) (st : Pass1) (part : Part) : outcome Pass1 :=
  let blockName := part_name part in
  bId ← parseBlockId blockName;
  let names := <[blockName := bId]> (p1_blockNameToBlockId st) in
  let elementsInElementBlock := locally_owned_elements part in
  let materialModelName := materialModelNameOf db blockName in
  '(table, blocks, numIds) ←
    (if decide (materialModelName = "Peridynamics") then
       table ← for_each registerSphereElement (p1_idTable st) elementsInElementBlock;
       Ok (table,
           (p1_peridynamicsBlocks st ++ [blockName],
            p1_peridynamicPartialStressBlocks st,
            p1_classicalContinuumMechanicsBlocks st),
           p1_numPartialStressIds st)
     else if decide (materialModelName = "Peridynamic Partial Stress") then
       let numQPts := Z.of_nat (length (getCubature (default Node (topologies !! blockName)) cubatureDegree)) in
       Ok (p1_idTable st,
           (p1_peridynamicsBlocks st,
            p1_peridynamicPartialStressBlocks st ++ [blockName],
            p1_classicalContinuumMechanicsBlocks st),
           Int.wrap (p1_numPartialStressIds st
                     + numQPts * Z.of_nat (length elementsInElementBlock)))
     else
       Ok (p1_idTable st,
           (p1_peridynamicsBlocks st,
            p1_peridynamicPartialStressBlocks st,
            p1_classicalContinuumMechanicsBlocks st ++ [blockName]),
           p1_numPartialStressIds st));
  let maxima :=
    foldl trackMaxIds (p1_maxAlbanyElementId st, p1_maxAlbanyNodeId st) elementsInElementBlock in
  Ok {| p1_blockNameToBlockId := names;
        p1_idTable := table;
        p1_peridynamicsBlocks := blocks.1.1;
        p1_peridynamicPartialStressBlocks := blocks.1.2;
        p1_classicalContinuumMechanicsBlocks := blocks.2;
        p1_numPartialStressIds := numIds;
        p1_maxAlbanyElementId := maxima.1;
        p1_maxAlbanyNodeId := maxima.2 |}.

(** Lines 82-87: the state the first loop starts from. *)
Definition pass1_start (s : PeridigmManager) : Pass1 :=
  {| p1_blockNameToBlockId := blockNameToBlockId s;
     p1_idTable := idTable s;
     p1_peridynamicsBlocks := [];
     p1_peridynamicPartialStressBlocks := [];
     p1_classicalContinuumMechanicsBlocks := [];
     p1_numPartialStressIds := 0;
     p1_maxAlbanyElementId := 0;
     p1_maxAlbanyNodeId := 0 |}.

Definition pass1 (db : option (string → string)) (cubatureDegree : Z) (parts : list Part)
    (s : PeridigmManager) : outcome Pass1 :=
  for_each (pass1_block db (partCellTopologyData parts) cubatureDegree)
           (pass1_start s) (stkElementBlocks parts).

Definition scanOf (st : Pass1) : RankScan :=
  {| maxAlbanyElementId := p1_maxAlbanyElementId st;
     maxAlbanyNodeId := p1_maxAlbanyNodeId st;
     numPartialStressIds := p1_numPartialStressIds st |}.

(** Lines 189-196: the partial-stress ids of this rank take the next local
    ids; the local ids are also kept in [peridigmPartialStressLocalIds]. *)
Definition registerPartialStressIds (t : IdTable) (globalIds : list Z) : IdTable * list Z :=
  foldl (λ acc peridigmGlobalId,
           let '(localId, t') := registerId acc.1 peridigmGlobalId in
           (t', acc.2 ++ [localId]))
        (t, []) globalIds.


(** ** [initialize], pass 2 (lines 223-364) *)

(** The arrays handed to the solver and the members the second loop over the
    blocks updates. *)
Record Pass2 : Type := {
  p2_blockNameToBlockId : gmap string Z;
  p2_peridigmGlobalIdToPeridigmLocalId : gmap Z Z;
  initialX : list Scalar;
  cellVolume : list Scalar;
  blockId : list Z;
  peridigmPartialStressIndex : Z;
  p2_sphereElementGlobalNodeIds : list Z;
  p2_partialStressElements : list PartialStressElement
}.

(** [initialX[localId*3] = p[0]; initialX[localId*3+1] = p[1];
    initialX[localId*3+2] = p[2]] *)
Definition write_point (v : list Scalar) (localId : Z) (p : Point) : outcome (list Scalar) :=
  v ← write_at v (Int.mul localId 3) (coord p 0);
  v ← write_at v (Int.add (Int.mul localId 3) 1) (coord p 1);
  write_at v (Int.add (Int.mul localId 3) 2) (coord p 2).

(** Lines 250-265: one sphere element. *)
Definition pass2_sphereElement (coordinates : Z → option Point)
    (volume : Z → option Scalar) (bId : Z) (st : Pass2) (e : Element) : outcome Pass2 :=
  test_for_except (bool_decide (num_nodes e ≠ 1)) NotSphereElement;;
  node ← read_at (begin_nodes e) 0;
  let globalId := albanyId node in
  let '(localId, table) := map_index 0 (p2_peridigmGlobalIdToPeridigmLocalId st) globalId in
  test_for_except (bool_decide (localId = -1)) InitializeInvalidGlobalId;;
  blockId' ← write_at (blockId st) localId bId;
  exodusVolume ← from_option Ok (Fatal NoElementVolume) (volume (identifier e));
  cellVolume' ← write_at (cellVolume st) localId exodusVolume;
  exodusCoordinates ← from_option Ok (Fatal NoElementCoordinates) (coordinates node);
  initialX' ← write_point (initialX st) localId exodusCoordinates;
  Ok {| p2_blockNameToBlockId := p2_blockNameToBlockId st;
        p2_peridigmGlobalIdToPeridigmLocalId := table;
        initialX := initialX';
        cellVolume := cellVolume';
        blockId := blockId';
        peridigmPartialStressIndex := peridigmPartialStressIndex st;
        p2_sphereElementGlobalNodeIds := p2_sphereElementGlobalNodeIds st ++ [globalId];
        p2_partialStressElements := p2_partialStressElements st |}.

(** What the loop over the quadrature points of one element updates
    (lines 350-359). *)
Record QuadPointLoop : Type := {
  qp_initialX : list Scalar;
  qp_cellVolume : list Scalar;
  qp_blockId : list Z;
  qp_index : Z;
  qp_peridigmGlobalIds : list Z
}.

(** Lines 351-358: one quadrature point. *)
Definition pass2_quadPoint (nodeGlobalIds peridigmPartialStressLocalIds : list Z) (bId : Z)
    (weightedMeasures : nat → Scalar) (physPoints : nat → Point)
    (st : QuadPointLoop) (qp : nat) : outcome QuadPointLoop :=
  localId ← read_at peridigmPartialStressLocalIds (qp_index st);
  globalId ← read_at nodeGlobalIds localId;
  blockId' ← write_at (qp_blockId st) localId bId;
  cellVolume' ← write_at (qp_cellVolume st) localId (weightedMeasures qp);
  initialX' ← write_point (qp_initialX st) localId (physPoints qp);
  Ok {| qp_initialX := initialX';
        qp_cellVolume := cellVolume';
        qp_blockId := blockId';
        qp_index := Int.add (qp_index st) 1;
        qp_peridigmGlobalIds := qp_peridigmGlobalIds st ++ [globalId] |}.

(** Lines 322-361: one element of a partial-stress block. *)
Definition pass2_partialStressElement (coordinates : Z → option Point)
    (nodeGlobalIds peridigmPartialStressLocalIds : list Z)
    (topology : CellTopologyData) (degree : Z) (bId : Z)
    (st : Pass2) (e : Element) : outcome Pass2 :=
  let cubature := getCubature topology degree in
  let numQuadPoints := length cubature in
  let numNodes := getNodeCount topology in
  let refPoints := cubature.*1 in
  let quadratureRefWeights := cubature.*2 in
  test_for_except (bool_decide (num_nodes e ≠ Z.of_nat numNodes)) NodeCountMismatch;;
  cellWorkset ← mapM (λ node, from_option Ok Undefined (coordinates node)) (begin_nodes e);
  let physPoints := mapToPhysicalFrame refPoints cellWorkset topology in
  let jacobians := setJacobian refPoints cellWorkset topology in
  let jacobianDeterminants := setJacobianDet jacobians in
  let weightedMeasures := computeCellMeasure jacobianDeterminants quadratureRefWeights in
  points ← for_each
    (pass2_quadPoint nodeGlobalIds peridigmPartialStressLocalIds bId weightedMeasures physPoints)
    {| qp_initialX := initialX st;
       qp_cellVolume := cellVolume st;
       qp_blockId := blockId st;
       qp_index := peridigmPartialStressIndex st;
       qp_peridigmGlobalIds := [] |}
    (seq 0 numQuadPoints);
  Ok {| p2_blockNameToBlockId := p2_blockNameToBlockId st;
        p2_peridigmGlobalIdToPeridigmLocalId := p2_peridigmGlobalIdToPeridigmLocalId st;
        initialX := qp_initialX points;
        cellVolume := qp_cellVolume points;
        blockId := qp_blockId points;
        peridigmPartialStressIndex := qp_index points;
        p2_sphereElementGlobalNodeIds := p2_sphereElementGlobalNodeIds st;
        p2_partialStressElements :=
          p2_partialStressElements st ++
          [{| albanyElement := e;
              cellTopologyData := topology;
              albanyNodeInitialPositions := flatten_points cellWorkset;
              peridigmGlobalIds := qp_peridigmGlobalIds points |}] |}.

(** Lines 231-363: one iteration of the second loop. *)
Definition pass2_block (disc : STKDiscretization) (coordinates : Z → option Point)
    (db : option (string → string)) (topologies : gmap string CellTopologyData)
    (degree : Z) (nodeGlobalIds peridigmPartialStressLocalIds : list Z)
    (st : Pass2) (part : Part) : outcome Pass2 :=
  let blockName := part_name part in
  let '(bId, names) := map_index 0 (p2_blockNameToBlockId st) blockName in
  let st := {| p2_blockNameToBlockId := names;
               p2_peridigmGlobalIdToPeridigmLocalId := p2_peridigmGlobalIdToPeridigmLocalId st;
               initialX := initialX st;
               cellVolume := cellVolume st;
               blockId := blockId st;
               peridigmPartialStressIndex := peridigmPartialStressIndex st;
               p2_sphereElementGlobalNodeIds := p2_sphereElementGlobalNodeIds st;
               p2_partialStressElements := p2_partialStressElements st |} in
  let elementsInElementBlock := locally_owned_elements part in
  let materialModelName := materialModelNameOf db blockName in
  if decide (materialModelName = "Peridynamics") then
    volume ← from_option Ok (Fatal NoVolumeField) (volumeField disc);
    for_each (pass2_sphereElement coordinates volume bId) st elementsInElementBlock
  else if decide (materialModelName = "Peridynamic Partial Stress") then
    for_each
      (pass2_partialStressElement coordinates nodeGlobalIds peridigmPartialStressLocalIds
         (default Node (topologies !! blockName)) degree bId)
      st elementsInElementBlock
  else Ok st.

(** ** [initialize], after the loops (lines 366-403) *)

(** Lines 389-396: one entry of the workset list. *)
Definition worksetEntry (table : gmap Z (list Z)) (entry : Z * (Z * Z)) : outcome (gmap Z (list Z)) :=
  let globalElementId := Int.wrap entry.1 in
  let worksetIndex := entry.2.1 in
  let worksetLocalId := entry.2.2 in
  let '(wsGIDs, table) := map_index [] table worksetIndex in
  test_for_except (bool_decide (worksetLocalId ≠ Z.of_nat (length wsGIDs))) UnexpectedWorksetLocalId;;
  Ok (<[worksetIndex := wsGIDs ++ [globalElementId]]> table).

(** Lines 399-403. *)
Definition partialStressElementIds (table : gmap Z (list Z)) (elements : list PartialStressElement)
    : gmap Z (list Z) :=
  foldl (λ m pse, <[albanyId (identifier (albanyElement pse)) := peridigmGlobalIds pse]> m)
        table elements.

(** ** [initialize] (lines 20-406)

    [disc] is [None] when the discretization is not an
    [Albany::STKDiscretization]. *)
Definition initialize (params : Params) (disc : option STKDiscretization) (comm : Comm)
    (s : PeridigmManager) : outcome PeridigmManager :=
  if negb (hasPeridigmParameters params) then
    Ok {| hasPeridynamics := false;
          previousTime := previousTime s; currentTime := currentTime s; timeStep := timeStep s;
          cubatureDegree := cubatureDegree s;
          blockNameToBlockId := blockNameToBlockId s;
          idTable := idTable s;
          sphereElementGlobalNodeIds := sphereElementGlobalNodeIds s;
          partialStressElements := partialStressElements s;
          previousSolutionPositions := previousSolutionPositions s;
          peridigm := peridigm s;
          worksetLocalIdToGlobalId := worksetLocalIdToGlobalId s;
          albanyPartialStressElementGlobalIdToPeridigmGlobalIds :=
            albanyPartialStressElementGlobalIdToPeridigmGlobalIds s;
          outputFields := outputFields s |}
  else
    let degree := default 2 (cubatureDegreeParam params) in
    let db := materialDataBase params in
    stkDisc ← from_option Ok (Fatal NotSTKMesh) disc;
    test_for_except (bool_decide (spatial_dimension stkDisc ≠ 3)) NotThreeDimensional;;
    let blocks := stkElementBlocks (get_parts stkDisc) in
    let topologies := partCellTopologyData (get_parts stkDisc) in
    coordinates ← from_option Ok (Fatal NoCoordinatesField) (coordinatesField stkDisc);
    (* lines 91-158 *)
    p1 ← pass1 db degree (get_parts stkDisc) s;
    (* lines 162-187 *)
    let pid := getRank comm in
    let scans := <[pid := scanOf p1]> (rankScans comm) in
    let minPeridigmPartialStressId := rankMinId scans pid in
    (* lines 189-196 *)
    let '(table, peridigmPartialStressLocalIds) :=
      registerPartialStressIds (p1_idTable p1)
        (partialStressGlobalIds minPeridigmPartialStressId (p1_numPartialStressIds p1)) in
    (* lines 214-221 *)
    if bool_decide (p1_peridynamicsBlocks p1 = [] ∧ p1_peridynamicPartialStressBlocks p1 = []) then
      Ok {| hasPeridynamics := false;
            previousTime := previousTime s; currentTime := currentTime s; timeStep := timeStep s;
            cubatureDegree := degree;
            blockNameToBlockId := p1_blockNameToBlockId p1;
            idTable := table;
            sphereElementGlobalNodeIds := sphereElementGlobalNodeIds s;
            partialStressElements := partialStressElements s;
            previousSolutionPositions := previousSolutionPositions s;
            peridigm := peridigm s;
            worksetLocalIdToGlobalId := worksetLocalIdToGlobalId s;
            albanyPartialStressElementGlobalIdToPeridigmGlobalIds :=
              albanyPartialStressElementGlobalIdToPeridigmGlobalIds s;
            outputFields := outputFields s |}
    else
      (* lines 223-364 *)
      let numPoints := length (peridigmNodeGlobalIds table) in
      p2 ← for_each
        (pass2_block stkDisc coordinates db topologies degree
           (peridigmNodeGlobalIds table) peridigmPartialStressLocalIds)
        {| p2_blockNameToBlockId := p1_blockNameToBlockId p1;
           p2_peridigmGlobalIdToPeridigmLocalId := peridigmGlobalIdToPeridigmLocalId table;
           initialX := replicate (3 * numPoints) 0%Qc;
           cellVolume := replicate numPoints 0%Qc;
           blockId := replicate numPoints 0;
           peridigmPartialStressIndex := 0;
           p2_sphereElementGlobalNodeIds := sphereElementGlobalNodeIds s;
           p2_partialStressElements := partialStressElements s |}
        blocks;
      (* lines 372-385; [&v[0]] at lines 377-380 needs a first entry in each
         of the four vectors *)
      test_for_except (negb (isMpiComm comm)) NotMpiComm;;
      read_at (peridigmNodeGlobalIds table) 0;;
      read_at (initialX p2) 0;;
      read_at (cellVolume p2) 0;;
      read_at (blockId p2) 0;;
      let solver := Peridigm_new (peridigmNodeGlobalIds table) (initialX p2) (cellVolume p2) (blockId p2) in
      (* lines 388-396 *)
      worksets ← for_each worksetEntry (worksetLocalIdToGlobalId s) (getElemGIDws stkDisc);
      Ok {| hasPeridynamics := true;
            previousTime := previousTime s; currentTime := currentTime s; timeStep := timeStep s;
            cubatureDegree := degree;
            blockNameToBlockId := p2_blockNameToBlockId p2;
            idTable := {| peridigmNodeGlobalIds := peridigmNodeGlobalIds table;
                          peridigmGlobalIdToPeridigmLocalId :=
                            p2_peridigmGlobalIdToPeridigmLocalId p2 |};
            sphereElementGlobalNodeIds := p2_sphereElementGlobalNodeIds p2;
            partialStressElements := p2_partialStressElements p2;
            previousSolutionPositions := initialX p2;
            peridigm := Some solver;
            worksetLocalIdToGlobalId := worksets;
            albanyPartialStressElementGlobalIdToPeridigmGlobalIds :=
              partialStressElementIds
                (albanyPartialStressElementGlobalIdToPeridigmGlobalIds s)
                (p2_partialStressElements p2);
            outputFields := outputFields s |}.

(** ** [setCurrentTimeAndDisplacement] (lines 535-653) *)

(** The Albany solution vector: the global indices of its map in local
    order, and its data. *)
Record Tpetra_Vector : Type := {
  tpetra_globalIndices : list Z;
  getData : list Scalar
}.

(** [Tpetra_Map::getLocalElement(gid)]; -1 is
    [Teuchos::OrdinalTraits<LO>::invalid()]. *)
Definition getLocalElement (v : Tpetra_Vector) (gid : Z) : Z :=
  LID (tpetra_globalIndices v) gid.

(** The index expressions [3*i], [3*i+1], [3*i+2] and [a], [a+1], [a+2]. *)
Definition index3 (i : Z) (dof : Z) : Z :=
  if bool_decide (dof = 0) then Int.mul 3 i else Int.add (Int.mul 3 i) dof.

Definition offset (a : Z) (dof : Z) : Z :=
  if bool_decide (dof = 0) then a else Int.add a dof.

(** Three statements that differ in the component only. *)
Definition for_dof {S} (body : S → Z → outcome S) (s : S) : outcome S :=
  s ← body s 0; s ← body s 1; body s 2.

(** The solver vectors the call overwrites. *)
Record Kinematics : Type := {
  positions : list Scalar;      (* peridigmCurrentPositions *)
  displacements : list Scalar;  (* peridigmDisplacements *)
  velocities : list Scalar      (* peridigmVelocities *)
}.

(** Lines 571-573 and 647-649. *)
Definition setVelocity (previous : list Scalar) (dt : Scalar) (lid : Z)
    (k : Kinematics) (dof : Z) : outcome Kinematics :=
  y ← read_at (positions k) (index3 lid dof);
  p ← read_at previous (index3 lid dof);
  v ← write_at (velocities k) (index3 lid dof) ((y - p) / dt)%Qc;
  Ok {| positions := positions k; displacements := displacements k; velocities := v |}.

(** Lines 560-573: one sphere element. *)
Definition setSpherePoint (globalIds : list Z) (reference previous : list Scalar) (dt : Scalar)
    (solution : Tpetra_Vector) (k : Kinematics) (globalId : Z) : outcome Kinematics :=
  let peridigmLocalId := LID globalIds globalId in
  test_for_except (bool_decide (peridigmLocalId = -1)) InvalidSphereLocalId;;
  let albanyLocalId := getLocalElement solution (Int.mul 3 globalId) in
  test_for_except (bool_decide (albanyLocalId = -1)) InvalidAlbanyLocalId;;
  k ← for_dof (λ k dof,
         d ← read_at (getData solution) (offset albanyLocalId dof);
         u ← write_at (displacements k) (index3 peridigmLocalId dof) d;
         Ok {| positions := positions k; displacements := u; velocities := velocities k |}) k;
  k ← for_dof (λ k dof,
         x ← read_at reference (index3 peridigmLocalId dof);
         u ← read_at (displacements k) (index3 peridigmLocalId dof);
         y ← write_at (positions k) (index3 peridigmLocalId dof) (x + u)%Qc;
         Ok {| positions := y; displacements := displacements k; velocities := velocities k |}) k;
  for_dof (setVelocity previous dt peridigmLocalId) k.

(** Lines 627-633: the current coordinates of node [i] of an element. *)
Definition setCellWorksetNode (solution : Tpetra_Vector) (initialPositions : list Scalar)
    (cellWorkset : list Point) (item : nat * Z) : outcome (list Point) :=
  let i := Z.of_nat item.1 in
  let globalAlbanyNodeId := albanyId item.2 in
  let albanyCurrentDisplacementIndex := getLocalElement solution (Int.mul 3 globalAlbanyNodeId) in
  x ← read_at initialPositions (index3 i 0);
  dx ← read_at (getData solution) (offset albanyCurrentDisplacementIndex 0);
  y ← read_at initialPositions (index3 i 1);
  dy ← read_at (getData solution) (offset albanyCurrentDisplacementIndex 1);
  z ← read_at initialPositions (index3 i 2);
  dz ← read_at (getData solution) (offset albanyCurrentDisplacementIndex 2);
  write_at cellWorkset i ((x + dx)%Qc, (y + dy)%Qc, (z + dz)%Qc).

(** Lines 638-649: one material point of a partial-stress element. *)
Definition setPartialStressPoint (reference previous : list Scalar) (dt : Scalar)
    (physPoints : nat → Point) (st : gmap Z Z * Kinematics) (item : nat * Z)
    : outcome (gmap Z Z * Kinematics) :=
  let '(peridigmLocalId, table) := map_index 0 st.1 item.2 in
  test_for_except (bool_decide (peridigmLocalId = -1)) InvalidPartialStressLocalId;;
  k ← for_dof (λ k dof,
         y ← write_at (positions k) (index3 peridigmLocalId dof)
                      (coord (physPoints item.1) (Z.to_nat dof));
         Ok {| positions := y; displacements := displacements k; velocities := velocities k |}) st.2;
  k ← for_dof (λ k dof,
         y ← read_at (positions k) (index3 peridigmLocalId dof);
         x ← read_at reference (index3 peridigmLocalId dof);
         u ← write_at (displacements k) (index3 peridigmLocalId dof) (y - x)%Qc;
         Ok {| positions := positions k; displacements := u; velocities := velocities k |}) k;
  k ← for_dof (setVelocity previous dt peridigmLocalId) k;
  Ok (table, k).

(** Lines 578-651: one partial-stress element. *)
Definition setPartialStressElement (degree : Z) (reference previous : list Scalar) (dt : Scalar)
    (solution : Tpetra_Vector) (st : gmap Z Z * Kinematics) (pse : PartialStressElement)
    : outcome (gmap Z Z * Kinematics) :=
  let topology := cellTopologyData pse in
  let refPoints := (getCubature topology degree).*1 in
  let numNodes := getNodeCount topology in
  cellWorkset ← for_each (setCellWorksetNode solution (albanyNodeInitialPositions pse))
                  (replicate numNodes (0, 0, 0)%Qc)
                  (imap pair (begin_nodes (albanyElement pse)));
  let physPoints := mapToPhysicalFrame refPoints cellWorkset topology in
  for_each (setPartialStressPoint reference previous dt physPoints) st
           (imap pair (peridigmGlobalIds pse)).

Definition setCurrentTimeAndDisplacement (time : Scalar) (albanySolutionVector : Tpetra_Vector)
    (s : PeridigmManager) : outcome PeridigmManager :=
  if hasPeridynamics s then
    let currentTime' := time in
    let timeStep' := (currentTime' - previousTime s)%Qc in
    let timeStep' := if bool_decide (timeStep' ≤ 0)%Qc then 1%Qc else timeStep' in
    solver ← from_option Ok Undefined (peridigm s);
    k ← for_each
          (setSpherePoint (peridigm_globalIds solver) (getX solver)
             (previousSolutionPositions s) timeStep' albanySolutionVector)
          {| positions := getY solver; displacements := getU solver; velocities := getV solver |}
          (sphereElementGlobalNodeIds s);
    '(table, k) ← for_each
          (setPartialStressElement (cubatureDegree s) (getX solver)
             (previousSolutionPositions s) timeStep' albanySolutionVector)
          (peridigmGlobalIdToPeridigmLocalId (idTable s), k)
          (partialStressElements s);
    Ok {| hasPeridynamics := hasPeridynamics s;
          previousTime := previousTime s; currentTime := currentTime'; timeStep := timeStep';
          cubatureDegree := cubatureDegree s;
          blockNameToBlockId := blockNameToBlockId s;
          idTable := {| peridigmNodeGlobalIds := peridigmNodeGlobalIds (idTable s);
                        peridigmGlobalIdToPeridigmLocalId := table |};
          sphereElementGlobalNodeIds := sphereElementGlobalNodeIds s;
          partialStressElements := partialStressElements s;
          previousSolutionPositions := previousSolutionPositions s;
          peridigm := Some
            {| peridigm_globalIds := peridigm_globalIds solver;
               peridigm_cellVolume := peridigm_cellVolume solver;
               peridigm_blockId := peridigm_blockId solver;
               peridigm_timeStep := timeStep';
               getX := getX solver;
               getY := positions k;
               getU := displacements k;
               getV := velocities k;
               getForce_vector := getForce_vector solver |};
          worksetLocalIdToGlobalId := worksetLocalIdToGlobalId s;
          albanyPartialStressElementGlobalIdToPeridigmGlobalIds :=
            albanyPartialStressElementGlobalIdToPeridigmGlobalIds s;
          outputFields := outputFields s |}
  else Ok s.

(** ** [updateState], [evaluateInternalForce], [getForce] (lines 655-689) *)

Definition withSolver (s : PeridigmManager) (previousTime' : Scalar)
    (previous : list Scalar) (solver : Peridigm) : PeridigmManager :=
  {| hasPeridynamics := hasPeridynamics s;
     previousTime := previousTime'; currentTime := currentTime s; timeStep := timeStep s;
     cubatureDegree := cubatureDegree s;
     blockNameToBlockId := blockNameToBlockId s;
     idTable := idTable s;
     sphereElementGlobalNodeIds := sphereElementGlobalNodeIds s;
     partialStressElements := partialStressElements s;
     previousSolutionPositions := previous;
     peridigm := Some solver;
     worksetLocalIdToGlobalId := worksetLocalIdToGlobalId s;
     albanyPartialStressElementGlobalIdToPeridigmGlobalIds :=
       albanyPartialStressElementGlobalIdToPeridigmGlobalIds s;
     outputFields := outputFields s |}.

Definition updateState (s : PeridigmManager) : outcome PeridigmManager :=
  if hasPeridynamics s then
    solver ← from_option Ok Undefined (peridigm s);
    previous ← mapM (λ i, read_at (getY solver) (Z.of_nat i))
                    (seq 0 (length (previousSolutionPositions s)));
    Ok (withSolver s (currentTime s) previous (Peridigm_updateState solver))
  else Ok s.

Definition evaluateInternalForce (s : PeridigmManager) : outcome PeridigmManager :=
  if hasPeridynamics s then
    solver ← from_option Ok Undefined (peridigm s);
    Ok (withSolver s (previousTime s) (previousSolutionPositions s) (computeInternalForce solver))
  else Ok s.

Definition getForce (globalAlbanyNodeId dof : Z) (s : PeridigmManager) : outcome Scalar :=
  let force := 0%Qc in
  if hasPeridynamics s then
    solver ← from_option Ok Undefined (peridigm s);
    let peridigmLocalId := LID (peridigm_globalIds solver) globalAlbanyNodeId in
    test_for_except (bool_decide (peridigmLocalId = -1)) GetForceInvalidGlobalId;;
    read_at (getForce_vector solver) (Int.add (Int.mul 3 peridigmLocalId) dof)
  else Ok force.

End Manager.

(** ** Vocabulary for statements about the solver vectors *)

(** The three consecutive entries of a vector that start at [j], and the
    entries [3l], [3l+1], [3l+2] of the point with local id [l]. *)
Definition point_from (v : list Scalar) (j : nat) : option Point :=
  x ← v !! j; y ← v !! (j + 1)%nat; z ← v !! (j + 2)%nat; Some (x, y, z).

Definition point_at (v : list Scalar) (l : nat) : option Point := point_from v (3 * l).

Definition set_point (v : list Scalar) (l : nat) (p : Point) : list Scalar :=
  <[(3 * l + 2)%nat := p.2]> (<[(3 * l + 1)%nat := p.1.2]> (<[(3 * l)%nat := p.1.1]> v)).

Definition zeroPoint : Point := (0, 0, 0)%Qc.
Definition padd (p q : Point) : Point := (p.1.1 + q.1.1, p.1.2 + q.1.2, p.2 + q.2)%Qc.
Definition psub (p q : Point) : Point := (p.1.1 - q.1.1, p.1.2 - q.1.2, p.2 - q.2)%Qc.
Definition pdiv (p : Point) (c : Scalar) : Point := (p.1.1 / c, p.1.2 / c, p.2 / c)%Qc.

(** The local id lines 254 and 639 read for a global id. *)
Definition localIdOf (table : gmap Z Z) (gid : Z) : Z := default 0 (table !! gid).

(** The time step lines 540-544 compute. *)
Definition timeStepFor (time previous : Scalar) : Scalar :=
  if bool_decide (time - previous ≤ 0)%Qc then 1%Qc else (time - previous)%Qc.

(** The solver vectors hold three entries per point and their indices fit
    in [int]. *)
Definition solverSized (solver : Peridigm) (previous : list Scalar) : Prop :=
  let n := length (peridigm_globalIds solver) in
  length (getX solver) = (3 * n)%nat ∧ length (getY solver) = (3 * n)%nat
  ∧ length (getU solver) = (3 * n)%nat ∧ length (getV solver) = (3 * n)%nat
  ∧ length previous = (3 * n)%nat ∧ 3 * Z.of_nat n ≤ Int.max_signed.

(** The solution vector holds the three displacements of Albany node [g]. *)
Definition displacementAt (solution : Tpetra_Vector) (g : Z) (u : Point) : Prop :=
  ∃ a : nat, getLocalElement solution (Int.mul 3 g) = Z.of_nat a
    ∧ point_from (getData solution) a = Some u.

(** What one pass over a point stores: its local id with the position, the
    displacement and the velocity written there. *)
Definition PointUpdate : Type := nat * (Point * Point * Point).

Definition put (k : Kinematics) (w : PointUpdate) : Kinematics :=
  {| positions := set_point (positions k) w.1 w.2.1.1;
     displacements := set_point (displacements k) w.1 w.2.1.2;
     velocities := set_point (velocities k) w.1 w.2.2 |}.

Definition same_lengths (k k' : Kinematics) : Prop :=
  length (positions k') = length (positions k)
  ∧ length (displacements k') = length (displacements k)
  ∧ length (velocities k') = length (velocities k).

Definition pointOr0 (p : option Point) : Point := default zeroPoint p.

(** The displacement the solution vector holds for Albany node [g]. *)
Definition displacementOf (solution : Tpetra_Vector) (g : Z) : Point :=
  pointOr0 (point_from (getData solution) (Z.to_nat (getLocalElement solution (Int.mul 3 g)))).

(** Lines 565-573 for the sphere element with global id [g]. *)
Definition sphereUpdate (globalIds : list Z) (reference previous : list Scalar) (dt : Scalar)
    (solution : Tpetra_Vector) (g : Z) : PointUpdate :=
  let l := Z.to_nat (LID globalIds g) in
  let x := pointOr0 (point_at reference l) in
  let p := pointOr0 (point_at previous l) in
  let u := displacementOf solution g in
  (l, (padd x u, u, pdiv (psub (padd x u) p) dt)).

(** ** Double precision

    The arithmetic of lines 540-544 and 568-573 on IEEE binary64 numbers, the
    [double] of the source, with the operations in the order of the source. *)
Module Double.

Definition Point : Type := float * float * float.

Definition padd (p q : Point) : Point := (p.1.1 + q.1.1, p.1.2 + q.1.2, p.2 + q.2)%float.
Definition psub (p q : Point) : Point := (p.1.1 - q.1.1, p.1.2 - q.1.2, p.2 - q.2)%float.
Definition pdiv (p : Point) (c : float) : Point := (p.1.1 / c, p.1.2 / c, p.2 / c)%float.

(** Lines 540-544. *)
Definition timeStepFor (time previous : float) : float :=
  let timeStep := (time - previous)%float in
  if (timeStep <=? 0)%float then 1%float else timeStep.


End Double.

(** A sphere element the loop at lines 559-574 passes without failure. *)
Definition sphereReady (globalIds : list Z) (solution : Tpetra_Vector) (g : Z) : Prop :=
  g ∈ globalIds ∧ ∃ u, displacementAt solution g u.

(** All global ids of the material points of the partial-stress elements. *)
Definition partialStressPointIds (elements : list PartialStressElement) : list Z :=
  elements ≫= peridigmGlobalIds.

(** The id table after the lookups of lines 639. *)
Definition touchTable (table : gmap Z Z) (gids : list Z) : gmap Z Z :=
  foldl (λ m gid, (map_index 0 m gid).2) table gids.

Section Statements.
Context `{!Intrepid}.

(** Lines 627-633: the current node coordinates of a partial-stress
    element, for an element with at most as many nodes as its topology. *)
Definition currentCellWorkset (solution : Tpetra_Vector) (pse : PartialStressElement) : list Point :=
  let nodes := begin_nodes (albanyElement pse) in
  imap (λ i node, padd (pointOr0 (point_at (albanyNodeInitialPositions pse) i))
                       (displacementOf solution (albanyId node))) nodes
  ++ replicate (getNodeCount (cellTopologyData pse) - length nodes) zeroPoint.

(** Lines 636-649 for the material points of one partial-stress element. *)
Definition partialStressUpdates (degree : Z) (reference previous : list Scalar) (dt : Scalar)
    (solution : Tpetra_Vector) (table : gmap Z Z) (pse : PartialStressElement)
    : list PointUpdate :=
  let topology := cellTopologyData pse in
  let physPoints :=
    mapToPhysicalFrame (getCubature topology degree).*1 (currentCellWorkset solution pse) topology in
  imap (λ i gid,
          let l := Z.to_nat (localIdOf table gid) in
          (l, (physPoints i,
               psub (physPoints i) (pointOr0 (point_at reference l)),
               pdiv (psub (physPoints i) (pointOr0 (point_at previous l))) dt)))
       (peridigmGlobalIds pse).

(** A partial-stress element the loop at lines 578-651 passes without
    failure. *)
Definition elementReady (numPoints : nat) (solution : Tpetra_Vector) (table : gmap Z Z)
    (pse : PartialStressElement) : Prop :=
  (length (begin_nodes (albanyElement pse)) ≤ getNodeCount (cellTopologyData pse))%nat
  ∧ Z.of_nat (length (albanyNodeInitialPositions pse)) ≤ Int.max_signed
  ∧ (∀ i node, begin_nodes (albanyElement pse) !! i = Some node →
       is_Some (point_at (albanyNodeInitialPositions pse) i)
       ∧ ∃ u, displacementAt solution (albanyId node) u)
  ∧ (∀ gid, gid ∈ peridigmGlobalIds pse → 0 ≤ localIdOf table gid < Z.of_nat numPoints).

(** The node coordinates [initialize] stored for a partial-stress element
    (lines 344-348), as a cell workset. *)
Definition initialCellWorkset (pse : PartialStressElement) : list Point :=
  let nodes := begin_nodes (albanyElement pse) in
  imap (λ i _, pointOr0 (point_at (albanyNodeInitialPositions pse) i)) nodes
  ++ replicate (getNodeCount (cellTopologyData pse) - length nodes) zeroPoint.

(** The reference position of every material point of the element is the
    image of its quadrature point under the map of the initial node
    coordinates (what lines 332 and 355-357 store). *)
Definition referencePositionsMapped (degree : Z) (reference : list Scalar) (table : gmap Z Z)
    (pse : PartialStressElement) : Prop :=
  let topology := cellTopologyData pse in
  ∀ i gid, peridigmGlobalIds pse !! i = Some gid →
    point_at reference (Z.to_nat (localIdOf table gid))
    = Some (mapToPhysicalFrame (getCubature topology degree).*1 (initialCellWorkset pse) topology i).

(** The solver vectors after [setCurrentTimeAndDisplacement]. *)
Definition kinematicsAfter (time : Scalar) (solution : Tpetra_Vector) (s : PeridigmManager)
    (solver : Peridigm) : Kinematics :=
  let dt := timeStepFor time (previousTime s) in
  let previous := previousSolutionPositions s in
  let table := peridigmGlobalIdToPeridigmLocalId (idTable s) in
  foldl put
    (foldl put
       {| positions := getY solver; displacements := getU solver; velocities := getV solver |}
       (sphereUpdate (peridigm_globalIds solver) (getX solver) previous dt solution
          <$> sphereElementGlobalNodeIds s))
    (partialStressElements s
       ≫= partialStressUpdates (cubatureDegree s) (getX solver) previous dt solution table).

End Statements.

(** No global id is mapped to the local id -1. *)
Definition noInvalidLocalId (table : gmap Z Z) : Prop :=
  map_Forall (λ _ localId, localId ≠ -1) table.

(** The number of elements this rank owns in the element blocks. *)
Definition numOwnedElements (parts : list Part) : nat :=
  sum_list_with (λ part, length (locally_owned_elements part)) (stkElementBlocks parts).

(** The points registered so far and the elements of the mesh are fewer
    than 2^31. *)
Definition pointsFit (s : PeridigmManager) (disc : option STKDiscretization) : Prop :=
  match disc with
  | Some stk =>
      Z.of_nat (length (peridigmNodeGlobalIds (idTable s)) + numOwnedElements (get_parts stk))
      ≤ Int.max_signed
  | None => True
  end.

(** No element block carries one of the two peridynamic material models. *)
Definition noPeridynamicBlocks (params : Params) (disc : STKDiscretization) : Prop :=
  ∀ part, part ∈ stkElementBlocks (get_parts disc) →
    materialModelNameOf (materialDataBase params) (part_name part) ≠ "Peridynamics"
    ∧ materialModelNameOf (materialDataBase params) (part_name part)
      ≠ "Peridynamic Partial Stress".

Section Inert.
Context `{!Intrepid} `{!PeridigmKernels}.

(** The manager behaves as without peridynamics: the three calls leave it
    as it is and every force is 0.0. *)
Definition withoutPeridynamics (s : PeridigmManager) : Prop :=
  hasPeridynamics s = false
  ∧ (∀ time solution, setCurrentTimeAndDisplacement time solution s = Ok s)
  ∧ updateState s = Ok s
  ∧ evaluateInternalForce s = Ok s
  ∧ ∀ globalAlbanyNodeId dof, getForce globalAlbanyNodeId dof s = Ok 0%Qc.

End Inert.

(** ** [setOutputFields] (lines 720-757) *)

(** Lines 735-752: relation and length of a catalogued name. *)
Definition catalog (name : string) : option (string * Z) :=
  if bool_decide (name = "Dilatation" ∨ name = "Weighted_Volume" ∨ name = "Radius"
                  ∨ name = "Number_Of_Neighbors" ∨ name = "Horizon" ∨ name = "Volume")
  then Some ("element", 1)
  else if bool_decide (name = "Model_Coordinates" ∨ name = "Coordinates"
                       ∨ name = "Displacement" ∨ name = "Velocity" ∨ name = "Force")
  then Some ("node", 3)
  else if bool_decide (name = "Deformation_Gradient" ∨ name = "Unrotated_Rate_Of_Deformation"
                       ∨ name = "Cauchy_Stress" ∨ name = "Partial_Stress")
  then Some ("element", 9)
  else None.


(** The record lines 731-749 build for a catalogued name. *)
Definition outputFieldOf (name relation : string) (length : Z) : OutputField :=
  {| Output.albanyName := "Peridigm_" +:+ name;
     Output.peridigmName := name;
     Output.relation := relation;
     Output.initType := "scalar";
     Output.length := length |}.

(** Lines 723-755: one requested name. *)
Definition setOutputField (fields : list OutputField) (name : string) : outcome (list OutputField) :=
  match catalog name with
  | Some (relation, length) =>
      let field := outputFieldOf name relation length in
      if bool_decide (field ∈ fields) then Ok fields else Ok (fields ++ [field])
  | None => Fatal UnknownVariable
  end.

Definition setOutputFields (names : list string) (s : PeridigmManager) : outcome PeridigmManager :=
  fields ← for_each setOutputField (outputFields s) names;
  Ok {| hasPeridynamics := hasPeridynamics s;
        previousTime := previousTime s; currentTime := currentTime s; timeStep := timeStep s;
        cubatureDegree := cubatureDegree s;
        blockNameToBlockId := blockNameToBlockId s;
        idTable := idTable s;
        sphereElementGlobalNodeIds := sphereElementGlobalNodeIds s;
        partialStressElements := partialStressElements s;
        previousSolutionPositions := previousSolutionPositions s;
        peridigm := peridigm s;
        worksetLocalIdToGlobalId := worksetLocalIdToGlobalId s;
        albanyPartialStressElementGlobalIdToPeridigmGlobalIds :=
          albanyPartialStressElementGlobalIdToPeridigmGlobalIds s;
        outputFields := fields |}.

(** [f] is the record of a catalogued name among [names]. *)
Definition requested (names : list string) (f : OutputField) : Prop :=
  ∃ name relation length,
    name ∈ names ∧ catalog name = Some (relation, length)
    ∧ f = outputFieldOf name relation length.


(** ** An instance of the libraries for evaluation

    The four-node tetrahedron with the one-point rule (degrees 0 and 1):
    shape functions [1 - r - s - t], [r], [s], [t], the centroid with weight
    1/6, a constant Jacobian.  The solver kernels leave the state as it is. *)
Module LinearTet.

Definition qc (n : Z) (d : positive) : Scalar := Q2Qc (n # d).

Definition shape (p : Point) : list Scalar :=
  [(1 - p.1.1 - p.1.2 - p.2)%Qc; p.1.1; p.1.2; p.2].

(** [Σ_i w_i · p_i] *)
Definition combine (ws : list Scalar) (ps : list Point) : Point :=
  foldr (λ wp acc, let '(w, p) := wp in
                   ((w * p.1.1 + acc.1.1)%Qc, (w * p.1.2 + acc.1.2)%Qc, (w * p.2 + acc.2)%Qc))
        (0, 0, 0)%Qc (zip ws ps).

Definition edge (cellWorkset : list Point) (k : nat) (dof : nat) : Scalar :=
  (coord (default (0, 0, 0)%Qc (cellWorkset !! k)) dof
   - coord (default (0, 0, 0)%Qc (cellWorkset !! 0%nat)) dof)%Qc.

Definition jacobian (cellWorkset : list Point) : Matrix :=
  (λ dof, (λ k, edge cellWorkset k dof) <$> [1; 2; 3]%nat) <$> [0; 1; 2]%nat.

Definition det3 (m : Matrix) : Scalar :=
  match m with
  | [[a; b; c]; [d; e; f]; [g; h; i]] =>
      (a * (e * i - f * h) - b * (d * i - f * g) + c * (d * h - e * g))%Qc
  | _ => 0%Qc
  end.

Definition Qc_abs (x : Scalar) : Scalar := if bool_decide (x < 0)%Qc then (- x)%Qc else x.

#[export] Instance intrepid : Intrepid :=
  {| getCubature topology degree :=
       match topology with
       | Tetrahedron_4 =>
           if bool_decide (degree ≤ 1) then [((qc 1 4, qc 1 4, qc 1 4), qc 1 6)] else []
       | _ => []
       end;
     mapToPhysicalFrame refPoints cellWorkset topology qp :=
       combine (shape (default (0, 0, 0)%Qc (refPoints !! qp))) cellWorkset;
     setJacobian refPoints cellWorkset topology qp := jacobian cellWorkset;
     setJacobianDet jacobians qp := det3 (jacobians qp);
     (* Modelled from the spec: |det(Jacobian)| × cubature weight. *)
     computeCellMeasure dets weights qp :=
       (Qc_abs (dets qp) * default 0 (weights !! qp))%Qc |}.

#[export] Instance kernels : PeridigmKernels :=
  {| computeInternalForce solver := solver;
     Peridigm_updateState solver := solver |}.

End LinearTet.

(** ** Inputs for evaluation *)
Module Examples.
Import LinearTet.

Definition singleRank : Comm :=
  {| getRank := 0;
     isMpiComm := true;
     rankScans := [{| maxAlbanyElementId := 0; maxAlbanyNodeId := 0; numPartialStressIds := 0 |}] |}.

Definition params (modelName : string) : Params :=
  {| hasPeridigmParameters := true;
     cubatureDegreeParam := Some 1;
     materialDataBase := Some (λ _, modelName) |}.

(** One tetrahedron, identifier 5, on the nodes 3, 4, 5, 6, in a block
    [block_1]; [apex] is the position of node 6. *)
Definition tet : Element := {| identifier := 5; begin_nodes := [3; 4; 5; 6] |}.

Definition tetCoordinates (apex : Point) (node : Z) : option Point :=
  if bool_decide (node = 3) then Some (0, 0, 0)%Qc
  else if bool_decide (node = 4) then Some (1, 0, 0)%Qc
  else if bool_decide (node = 5) then Some (0, 1, 0)%Qc
  else if bool_decide (node = 6) then Some apex
  else None.

Definition tetMesh (apex : Point) : STKDiscretization :=
  {| spatial_dimension := 3;
     get_parts :=
       [{| part_name := "block_1";
           is_auto_declared_part := false;
           primary_entity_rank := ELEMENT_RANK;
           get_cell_topology := Tetrahedron_4;
           locally_owned_elements := [tet] |}];
     coordinatesField := Some (tetCoordinates apex);
     volumeField := None;
     getElemGIDws := [(4, (0, 0))] |}.

(** The arrays of pass 2 before the element of [tetMesh] is processed. *)
Definition tetPass2 : Pass2 :=
  {| p2_blockNameToBlockId := {["block_1" := 1]};
     p2_peridigmGlobalIdToPeridigmLocalId := {[5 := 0]};
     initialX := [0; 0; 0]%Qc;
     cellVolume := [0%Qc];
     blockId := [0];
     peridigmPartialStressIndex := 0;
     p2_sphereElementGlobalNodeIds := [];
     p2_partialStressElements := [] |}.

(** One sphere element, identifier 1, on the node with identifier 6 (Albany
    node id 5) at (1,0,0), in a block [block_1]. *)
Definition sphereMesh : STKDiscretization :=
  {| spatial_dimension := 3;
     get_parts :=
       [{| part_name := "block_1";
           is_auto_declared_part := false;
           primary_entity_rank := ELEMENT_RANK;
           get_cell_topology := Particle;
           locally_owned_elements := [{| identifier := 1; begin_nodes := [6] |}] |}];
     coordinatesField := Some (λ node, if bool_decide (node = 6) then Some (1, 0, 0)%Qc else None);
     volumeField := Some (λ element, if bool_decide (element = 1) then Some 1%Qc else None);
     getElemGIDws := [(0, (0, 0))] |}.

(** The solution vector with the displacement [u] at Albany node 5. *)
Definition solutionAtNode5 (u : Point) : Tpetra_Vector :=
  {| tpetra_globalIndices := [15; 16; 17];
     getData := [u.1.1; u.1.2; u.2] |}.

(** A solution vector with zero displacements at the Albany nodes 2..5. *)
Definition zeroSolution : Tpetra_Vector :=
  {| tpetra_globalIndices := seqZ 6 12;
     getData := replicate 12 0%Qc |}.

(** What [initialize] leaves for [sphereMesh]. *)
Definition sphereSolver : Peridigm := Peridigm_new [5] [1; 0; 0]%Qc [1%Qc] [1].

Definition sphereState : PeridigmManager :=
  {| hasPeridynamics := true;
     previousTime := 0%Qc; currentTime := 0%Qc; timeStep := 0%Qc;
     cubatureDegree := 1;
     blockNameToBlockId := {["block_1" := 1]};
     idTable := {| peridigmNodeGlobalIds := [5];
                   peridigmGlobalIdToPeridigmLocalId := {[5 := 0]} |};
     sphereElementGlobalNodeIds := [5];
     partialStressElements := [];
     previousSolutionPositions := [1; 0; 0]%Qc;
     peridigm := Some sphereSolver;
     worksetLocalIdToGlobalId := {[0 := [0]]};
     albanyPartialStressElementGlobalIdToPeridigmGlobalIds := ∅;
     outputFields := [] |}.

(** What [initialize] leaves for [tetMesh (0,0,1)]. *)
Definition tetElement : PartialStressElement :=
  {| albanyElement := tet;
     cellTopologyData := Tetrahedron_4;
     albanyNodeInitialPositions := [0; 0; 0; 1; 0; 0; 0; 1; 0; 0; 0; 1]%Qc;
     peridigmGlobalIds := [5] |}.

Definition tetSolver : Peridigm :=
  Peridigm_new [5] [qc 1 4; qc 1 4; qc 1 4] [qc 1 6] [1].

Definition tetState : PeridigmManager :=
  {| hasPeridynamics := true;
     previousTime := 0%Qc; currentTime := 0%Qc; timeStep := 0%Qc;
     cubatureDegree := 1;
     blockNameToBlockId := {["block_1" := 1]};
     idTable := {| peridigmNodeGlobalIds := [5];
                   peridigmGlobalIdToPeridigmLocalId := {[5 := 0]} |};
     sphereElementGlobalNodeIds := [];
     partialStressElements := [tetElement];
     previousSolutionPositions := [qc 1 4; qc 1 4; qc 1 4];
     peridigm := Some tetSolver;
     worksetLocalIdToGlobalId := {[0 := [4]]};
     albanyPartialStressElementGlobalIdToPeridigmGlobalIds := {[4 := [5]]};
     outputFields := [] |}.

(** [tetState] with an id table that does not hold the global id 5 of the
    material point. *)
Definition unregisteredTetState : PeridigmManager :=
  {| hasPeridynamics := true;
     previousTime := 0%Qc; currentTime := 0%Qc; timeStep := 0%Qc;
     cubatureDegree := 1;
     blockNameToBlockId := {["block_1" := 1]};
     idTable := {| peridigmNodeGlobalIds := [5];
                   peridigmGlobalIdToPeridigmLocalId := ∅ |};
     sphereElementGlobalNodeIds := [];
     partialStressElements := [tetElement];
     previousSolutionPositions := [qc 1 4; qc 1 4; qc 1 4];
     peridigm := Some tetSolver;
     worksetLocalIdToGlobalId := {[0 := [4]]};
     albanyPartialStressElementGlobalIdToPeridigmGlobalIds := {[4 := [5]]};
     outputFields := [] |}.

(** A mesh of two blocks: [block_1] holds one tetrahedron, identifier 1, on
    the nodes 1, 2, 3, 4; [block_2] holds one sphere element, identifier 5,
    on the node with identifier 6 (Albany node id 5) at (2,2,2).  The largest
    Albany element id is 4 and the largest Albany node id is 5. *)
Definition twoBlockMesh : STKDiscretization :=
  {| spatial_dimension := 3;
     get_parts :=
       [{| part_name := "block_1";
           is_auto_declared_part := false;
           primary_entity_rank := ELEMENT_RANK;
           get_cell_topology := Tetrahedron_4;
           locally_owned_elements := [{| identifier := 1; begin_nodes := [1; 2; 3; 4] |}] |};
        {| part_name := "block_2";
           is_auto_declared_part := false;
           primary_entity_rank := ELEMENT_RANK;
           get_cell_topology := Particle;
           locally_owned_elements := [{| identifier := 5; begin_nodes := [6] |}] |}];
     coordinatesField := Some (λ node,
       if bool_decide (node = 1) then Some (0, 0, 0)%Qc
       else if bool_decide (node = 2) then Some (1, 0, 0)%Qc
       else if bool_decide (node = 3) then Some (0, 1, 0)%Qc
       else if bool_decide (node = 4) then Some (0, 0, 1)%Qc
       else if bool_decide (node = 6) then Some (2, 2, 2)%Qc
       else None);
     volumeField := Some (λ element, if bool_decide (element = 5) then Some 1%Qc else None);
     getElemGIDws := [(0, (0, 0)); (4, (0, 1))] |}.

(** [block_1] is a partial-stress block, every other block a block of sphere
    elements. *)
Definition twoBlockParams : Params :=
  {| hasPeridigmParameters := true;
     cubatureDegreeParam := Some 1;
     materialDataBase := Some (λ blockName,
       if bool_decide (blockName = "block_1") then "Peridynamic Partial Stress"
       else "Peridynamics") |}.

(** A solution vector with zero displacements at the Albany nodes 0..5. *)
Definition zeroSolutionAllNodes : Tpetra_Vector :=
  {| tpetra_globalIndices := seqZ 0 18;
     getData := replicate 18 0%Qc |}.

End Examples.
(** ** The manager after [setCurrentTimeAndDisplacement] *)

Section StateAfter.
Context `{!Intrepid}.

(** The manager a call of [setCurrentTimeAndDisplacement] that passes both
    loops leaves: the time step, the id table after the lookups of line 639
    and the solver vectors of [kinematicsAfter]. *)
Definition stateAfter (time : Scalar) (solution : Tpetra_Vector) (s : PeridigmManager)
    (solver : Peridigm) : PeridigmManager :=
  let dt := timeStepFor time (previousTime s) in
  let k := kinematicsAfter time solution s solver in
  {| hasPeridynamics := hasPeridynamics s;
     previousTime := previousTime s; currentTime := time; timeStep := dt;
     cubatureDegree := cubatureDegree s;
     blockNameToBlockId := blockNameToBlockId s;
     idTable :=
       {| peridigmNodeGlobalIds := peridigmNodeGlobalIds (idTable s);
          peridigmGlobalIdToPeridigmLocalId :=
            touchTable (peridigmGlobalIdToPeridigmLocalId (idTable s))
              (partialStressPointIds (partialStressElements s)) |};
     sphereElementGlobalNodeIds := sphereElementGlobalNodeIds s;
     partialStressElements := partialStressElements s;
     previousSolutionPositions := previousSolutionPositions s;
     peridigm := Some
       {| peridigm_globalIds := peridigm_globalIds solver;
          peridigm_cellVolume := peridigm_cellVolume solver;
          peridigm_blockId := peridigm_blockId solver;
          peridigm_timeStep := dt;
          getX := getX solver;
          getY := positions k;
          getU := displacements k;
          getV := velocities k;
          getForce_vector := getForce_vector solver |};
     worksetLocalIdToGlobalId := worksetLocalIdToGlobalId s;
     albanyPartialStressElementGlobalIdToPeridigmGlobalIds :=
       albanyPartialStressElementGlobalIdToPeridigmGlobalIds s;
     outputFields := outputFields s |}.

End StateAfter.

(** ** The steps of [initialize] *)

(** The material model of an element block (lines 112-114). *)
Definition modelOf (db : option (string → string)) (part : Part) : string :=
  materialModelNameOf db (part_name part).

(** The element blocks with sphere elements, and those with partial-stress
    elements, among [blocks]. *)
Definition sphereBlocks (db : option (string → string)) (blocks : list Part) : list Part :=
  filter (λ part, modelOf db part = "Peridynamics") blocks.

Definition partialStressBlocks (db : option (string → string)) (blocks : list Part)
    : list Part :=
  filter (λ part, modelOf db part = "Peridynamic Partial Stress") blocks.

(** The Albany id of the node of a sphere element (line 123). *)
Definition sphereNodeId (e : Element) : Z := albanyId (default 0 (head (begin_nodes e))).

(** The node ids of the sphere elements, in the order the loops visit
    them. *)
Definition sphereNodeIds (db : option (string → string)) (blocks : list Part) : list Z :=
  sphereBlocks db blocks ≫= λ part, sphereNodeId <$> locally_owned_elements part.

(** Lines 124-127 and 192-195 for a list of global ids. *)
Definition registerAll (t : IdTable) (globalIds : list Z) : IdTable :=
  foldl (λ t globalId, (registerId t globalId).2) t globalIds.

(** The running maxima of lines 147-156 over the elements of [blocks]. *)
Definition maxAlbanyIds (blocks : list Part) : Z * Z :=
  foldl trackMaxIds (0, 0) (blocks ≫= locally_owned_elements).

(** Lines 162-191: the id table with the partial-stress ids of this rank
    registered, and their local ids. *)
Definition allocatedIds (comm : Comm) (p1 : Pass1) : list Z :=
  let pid := getRank comm in
  let scans := <[pid := scanOf p1]> (rankScans comm) in
  partialStressGlobalIds (rankMinId scans pid) (p1_numPartialStressIds p1).

(** Lines 223-226: the state the second loop over the blocks starts from. *)
Definition pass2_start (s : PeridigmManager) (p1 : Pass1) (table : IdTable) : Pass2 :=
  let numPoints := length (peridigmNodeGlobalIds table) in
  {| p2_blockNameToBlockId := p1_blockNameToBlockId p1;
     p2_peridigmGlobalIdToPeridigmLocalId := peridigmGlobalIdToPeridigmLocalId table;
     initialX := replicate (3 * numPoints) 0%Qc;
     cellVolume := replicate numPoints 0%Qc;
     blockId := replicate numPoints 0;
     peridigmPartialStressIndex := 0;
     p2_sphereElementGlobalNodeIds := sphereElementGlobalNodeIds s;
     p2_partialStressElements := partialStressElements s |}.

(** The manager [initialize] leaves at line 216, without peridynamic
    blocks. *)
Definition stateWithoutBlocks (s : PeridigmManager) (degree : Z) (p1 : Pass1) (table : IdTable)
    : PeridigmManager :=
  {| hasPeridynamics := false;
     previousTime := previousTime s; currentTime := currentTime s; timeStep := timeStep s;
     cubatureDegree := degree;
     blockNameToBlockId := p1_blockNameToBlockId p1;
     idTable := table;
     sphereElementGlobalNodeIds := sphereElementGlobalNodeIds s;
     partialStressElements := partialStressElements s;
     previousSolutionPositions := previousSolutionPositions s;
     peridigm := peridigm s;
     worksetLocalIdToGlobalId := worksetLocalIdToGlobalId s;
     albanyPartialStressElementGlobalIdToPeridigmGlobalIds :=
       albanyPartialStressElementGlobalIdToPeridigmGlobalIds s;
     outputFields := outputFields s |}.

(** The manager [initialize] leaves at line 406. *)
Definition stateInitialized (s : PeridigmManager) (degree : Z) (table : IdTable) (p2 : Pass2)
    (worksets : gmap Z (list Z)) : PeridigmManager :=
  {| hasPeridynamics := true;
     previousTime := previousTime s; currentTime := currentTime s; timeStep := timeStep s;
     cubatureDegree := degree;
     blockNameToBlockId := p2_blockNameToBlockId p2;
     idTable := {| peridigmNodeGlobalIds := peridigmNodeGlobalIds table;
                   peridigmGlobalIdToPeridigmLocalId :=
                     p2_peridigmGlobalIdToPeridigmLocalId p2 |};
     sphereElementGlobalNodeIds := p2_sphereElementGlobalNodeIds p2;
     partialStressElements := p2_partialStressElements p2;
     previousSolutionPositions := initialX p2;
     peridigm := Some (Peridigm_new (peridigmNodeGlobalIds table) (initialX p2)
                         (cellVolume p2) (blockId p2));
     worksetLocalIdToGlobalId := worksets;
     albanyPartialStressElementGlobalIdToPeridigmGlobalIds :=
       partialStressElementIds
         (albanyPartialStressElementGlobalIdToPeridigmGlobalIds s)
         (p2_partialStressElements p2);
     outputFields := outputFields s |}.

Section Counting.
Context `{!Intrepid}.

(** The number of quadrature points of the elements of a block (lines
    134-136). *)
Definition numQuadPointsOf (topologies : gmap string CellTopologyData) (degree : Z)
    (part : Part) : nat :=
  length (getCubature (default Node (topologies !! part_name part)) degree).

(** The count of line 137 over the partial-stress blocks among [blocks]. *)
Definition countPartialStressIds (db : option (string → string))
    (topologies : gmap string CellTopologyData) (degree : Z) (blocks : list Part) : Z :=
  foldl (λ n part, Int.wrap (n + Z.of_nat (numQuadPointsOf topologies degree part)
                                 * Z.of_nat (length (locally_owned_elements part))))
        0 (partialStressBlocks db blocks).

(** The number of quadrature points of all elements of the partial-stress
    blocks among [blocks]. *)
Definition totalQuadPoints (db : option (string → string))
    (topologies : gmap string CellTopologyData) (degree : Z) (blocks : list Part) : nat :=
  sum_list_with (λ part, (numQuadPointsOf topologies degree part
                          * length (locally_owned_elements part))%nat)
                (partialStressBlocks db blocks).

(** What the first loop leaves for the allocator on this rank. *)
Definition rankScanOf (db : option (string → string)) (degree : Z) (parts : list Part)
    : RankScan :=
  let blocks := stkElementBlocks parts in
  {| maxAlbanyElementId := (maxAlbanyIds blocks).1;
     maxAlbanyNodeId := (maxAlbanyIds blocks).2;
     numPartialStressIds := countPartialStressIds db (partCellTopologyData parts) degree blocks |}.

End Counting.

(** The partial-stress ids of this rank, given what its first loop left. *)
Definition partialStressIdsOf (comm : Comm) (scan : RankScan) : list Z :=
  let pid := getRank comm in
  let scans := <[pid := scan]> (rankScans comm) in
  partialStressGlobalIds (rankMinId scans pid) (numPartialStressIds scan).

(** ** [writePeridigmSubModel], [getPartialStress], [getBlockData]
    (lines 666-718) *)

(** An [Epetra_Vector]: the global ids of its map in local order, and its
    values. *)
Record Epetra_Vector : Type := {
  epetra_globalIds : list Z;
  epetra_values : list Scalar
}.

(** The solver's block data and its output, which the manager only calls.
    [None] is a null [Teuchos::RCP]. *)
Class PeridigmBlocks : Type := {
  Peridigm_getBlockData : Peridigm → string → string → option Epetra_Vector;
  Peridigm_writePeridigmSubModel : Peridigm → Scalar → Peridigm
}.

(** The manager with its two element tables replaced. *)
Definition withElementTables (s : PeridigmManager) (worksets elementIds : gmap Z (list Z))
    : PeridigmManager :=
  {| hasPeridynamics := hasPeridynamics s;
     previousTime := previousTime s; currentTime := currentTime s; timeStep := timeStep s;
     cubatureDegree := cubatureDegree s;
     blockNameToBlockId := blockNameToBlockId s;
     idTable := idTable s;
     sphereElementGlobalNodeIds := sphereElementGlobalNodeIds s;
     partialStressElements := partialStressElements s;
     previousSolutionPositions := previousSolutionPositions s;
     peridigm := peridigm s;
     worksetLocalIdToGlobalId := worksets;
     albanyPartialStressElementGlobalIdToPeridigmGlobalIds := elementIds;
     outputFields := outputFields s |}.

Section Blocks.
Context `{!PeridigmBlocks}.

Definition writePeridigmSubModel (currentTime : Scalar) (s : PeridigmManager)
    : outcome PeridigmManager :=
  if hasPeridynamics s then
    solver ← from_option Ok Undefined (peridigm s);
    Ok (withSolver s (previousTime s) (previousSolutionPositions s)
          (Peridigm_writePeridigmSubModel solver currentTime))
  else Ok s.

(** Lines 702-704: the nine values of material point [i]. *)
Definition copyPartialStress (data : Epetra_Vector) (peridigmLocalId : Z) (i : nat)
    (partialStressValues : list (list Scalar)) (j : Z) : outcome (list (list Scalar)) :=
  d ← read_at (epetra_values data) (Int.add (Int.mul 9 peridigmLocalId) j);
  row ← read_at partialStressValues (Z.of_nat i);
  row ← write_at row j d;
  write_at partialStressValues (Z.of_nat i) row.

(** Lines 699-705: one material point of the element.  [data] is
    dereferenced here, not where it is fetched. *)
Definition getPartialStressPoint (data : option Epetra_Vector)
    (partialStressValues : list (list Scalar)) (item : nat * Z) : outcome (list (list Scalar)) :=
  data ← from_option Ok Undefined data;
  let peridigmLocalId := LID (epetra_globalIds data) item.2 in
  test_for_except (bool_decide (peridigmLocalId = -1)) GetPartialStressInvalidGlobalId;;
  for_each (copyPartialStress data peridigmLocalId item.1) partialStressValues (seqZ 0 9).

(** Lines 691-707.  The two lookups with [operator[]] may insert into the
    members, so the manager is returned with the values.  The block data
    ["Displacement"] is fetched at line 698 and not used. *)
Definition getPartialStress (blockName : string) (worksetIndex worksetLocalElementId : Z)
    (partialStressValues : list (list Scalar)) (s : PeridigmManager)
    : outcome (PeridigmManager * list (list Scalar)) :=
  if hasPeridynamics s then
    let '(wsGIDs, worksets) := map_index [] (worksetLocalIdToGlobalId s) worksetIndex in
    globalElementId ← read_at wsGIDs worksetLocalElementId;
    let '(peridigmGlobalIds, elementIds) :=
      map_index [] (albanyPartialStressElementGlobalIdToPeridigmGlobalIds s) globalElementId in
    solver ← from_option Ok Undefined (peridigm s);
    let data := Peridigm_getBlockData solver blockName "Partial_Stress" in
    values ← for_each (getPartialStressPoint data) partialStressValues
                (imap pair peridigmGlobalIds);
    Ok (withElementTables s worksets elementIds, values)
  else Ok (s, partialStressValues).

(** Lines 709-718. *)
Definition getBlockData (blockName fieldName : string) (s : PeridigmManager)
    : outcome (option Epetra_Vector) :=
  if hasPeridynamics s then
    solver ← from_option Ok Undefined (peridigm s);
    Ok (Peridigm_getBlockData solver blockName fieldName)
  else Ok None.

End Blocks.

(** The first nine entries of a row replaced by the nine values of the point
    with local id [l]. *)
Definition stressRow (data : Epetra_Vector) (l : nat) (row : list Scalar) : list Scalar :=
  take 9 (drop (9 * l) (epetra_values data)) ++ drop 9 row.

(** The rows of [partialStressValues] after the loop of lines 699-705 over
    the material points [peridigmGlobalIds]. *)
Definition stressRows (data : Epetra_Vector) (peridigmGlobalIds : list Z)
    (partialStressValues : list (list Scalar)) : list (list Scalar) :=
  imap (λ i row, match peridigmGlobalIds !! i with
                 | Some globalId =>
                     stressRow data (Z.to_nat (LID (epetra_globalIds data) globalId)) row
                 | None => row
                 end) partialStressValues.

(** The Albany id under which a partial-stress element is entered at lines
    400-402. *)
Definition elementIdOf (pse : PartialStressElement) : Z :=
  albanyId (identifier (albanyElement pse)).

(** ** More inputs for evaluation *)
Module MoreExamples.
Import LinearTet Examples.

(** A solution vector over the degrees of freedom of the Albany nodes 2..5,
    the nodes of [tet]. *)
Definition tetSolution (data : list Scalar) : Tpetra_Vector :=
  {| tpetra_globalIndices := seqZ 6 12;
     getData := data |}.

(** The displacement (0,0,1) at the apex of [tet] (Albany node 5), zero at
    the other nodes. *)
Definition apexLifted : Tpetra_Vector :=
  tetSolution [0; 0; 0; 0; 0; 0; 0; 0; 0; 0; 0; 1]%Qc.

(** A solution vector that holds the degrees of freedom of Albany node 0
    only. *)
Definition solutionAtNode0 : Tpetra_Vector :=
  {| tpetra_globalIndices := [0; 1; 2];
     getData := [0; 0; 0]%Qc |}.

(** A solver whose block data hold the stress [1..9] for the point with
    global id 5 in every block. *)
#[export] Instance blocks : PeridigmBlocks :=
  {| Peridigm_getBlockData solver blockName fieldName :=
       Some {| epetra_globalIds := [5];
               epetra_values := (λ n, qc n 1) <$> [1; 2; 3; 4; 5; 6; 7; 8; 9] |};
     Peridigm_writePeridigmSubModel solver currentTime := solver |}.

(** A solver whose block data hold no point. *)
Definition noStressData : PeridigmBlocks :=
  {| Peridigm_getBlockData solver blockName fieldName :=
       Some {| epetra_globalIds := []; epetra_values := [] |};
     Peridigm_writePeridigmSubModel solver currentTime := solver |}.

End MoreExamples.

(** * Properties

    ** Machine integers *)

Lemma Int_wrap_in_range z : Int.in_range (Int.wrap z).
Proof.
  unfold Int.in_range, Int.wrap, Int.min_signed, Int.max_signed.
  pose proof (Z.mod_pos_bound (z + 2147483648) 4294967296). lia.
Qed.

Lemma Int_wrap_id z : Int.in_range z → Int.wrap z = z.
Proof.
  unfold Int.in_range, Int.wrap, Int.min_signed, Int.max_signed. intros Hz.
  rewrite Z.mod_small; lia.
Qed.

Lemma Int_add_exact a b : Int.in_range (a + b) → Int.add a b = a + b.
Proof. apply Int_wrap_id. Qed.

Lemma Int_mul_exact a b : Int.in_range (a * b) → Int.mul a b = a * b.
Proof. apply Int_wrap_id. Qed.

Lemma Int_of_size_exact (n : nat) : Z.of_nat n ≤ Int.max_signed → Int.of_size n = Z.of_nat n.
Proof. intros Hn. apply Int_wrap_id. unfold Int.in_range, Int.min_signed. lia. Qed.

(** *** The reduction *)

Lemma foldl_max_ge (vs : list Z) (v : Z) : v ≤ foldl Z.max v vs.
Proof.
  revert v. induction vs as [|w vs IH]; intros v; simpl; [lia|].
  specialize (IH (v `max` w)). lia.
Qed.

Lemma foldl_max_upper (vs : list Z) (v : Z) : ∀ w, w ∈ vs → w ≤ foldl Z.max v vs.
Proof.
  revert v. induction vs as [|u vs IH]; intros v w Hw; simpl.
  - by apply elem_of_nil in Hw.
  - apply elem_of_cons in Hw as [->|Hw].
    + pose proof (foldl_max_ge vs (v `max` u)). lia.
    + by apply IH.
Qed.

Lemma foldl_max_elem (vs : list Z) (v : Z) : foldl Z.max v vs ∈ v :: vs.
Proof.
  revert v. induction vs as [|u vs IH]; intros v; simpl; [set_solver|].
  specialize (IH (v `max` u)).
  apply elem_of_cons in IH as [Heq|Hin].
  - rewrite Heq. destruct (Z.max_spec v u) as [[_ ->]|[_ ->]]; set_solver.
  - set_solver.
Qed.

Lemma reduceAll_MAX_upper (vals : list Z) (w : Z) : w ∈ vals → w ≤ reduceAll_MAX vals.
Proof.
  destruct vals as [|v vs]; simpl; intros Hw; [by apply elem_of_nil in Hw|].
  apply elem_of_cons in Hw as [->|Hw]; [apply foldl_max_ge | by apply foldl_max_upper].
Qed.

Lemma reduceAll_MAX_elem (vals : list Z) : vals ≠ [] → reduceAll_MAX vals ∈ vals.
Proof. destruct vals as [|v vs]; [done|]. intros _. apply foldl_max_elem. Qed.

(** In iteration [iProc] the reduction delivers the count of rank [iProc]. *)
Lemma offset_globalVal (counts : list Z) (iProc : nat) (c : Z) :
  Forall (λ c, 0 ≤ c) counts →
  counts !! iProc = Some c →
  reduceAll_MAX (imap (λ q c, offsetLocalVal q iProc c) counts) = c.
Proof.
  intros Hpos Hc.
  set (vals := imap (λ q c, offsetLocalVal q iProc c) counts).
  assert (Hin : c ∈ vals).
  { apply list_elem_of_lookup. exists iProc. unfold vals.
    rewrite list_lookup_imap, Hc. simpl. unfold offsetLocalVal.
    by rewrite bool_decide_eq_true_2. }
  assert (Hc0 : 0 ≤ c) by (eapply Forall_lookup_1 in Hpos; eauto).
  pose proof (reduceAll_MAX_upper vals c Hin) as Hle.
  assert (Hne : vals ≠ []) by (intros E; rewrite E in Hin; by apply elem_of_nil in Hin).
  pose proof (reduceAll_MAX_elem vals Hne) as Hel.
  remember (reduceAll_MAX vals) as M eqn:HM.
  apply list_elem_of_lookup in Hel as [q Hq]. unfold vals in Hq.
  rewrite list_lookup_imap in Hq.
  destruct (counts !! q) as [cq|] eqn:Hcq; simpl in Hq; [|done].
  injection Hq as Hq. unfold offsetLocalVal in Hq.
  case_bool_decide as Hd.
  - rewrite Hd, Hc in Hcq. congruence.
  - lia.
Qed.

(** *** Sums of counts *)

Lemma sumZ_app (l k : list Z) : sumZ (l ++ k) = sumZ l + sumZ k.
Proof. unfold sumZ. induction l as [|x l IH]; simpl; lia. Qed.

Lemma sumZ_nonneg (l : list Z) : Forall (λ c, 0 ≤ c) l → 0 ≤ sumZ l.
Proof. unfold sumZ. induction 1; simpl; lia. Qed.

Lemma sumZ_take_mono (l : list Z) (i j : nat) :
  Forall (λ c, 0 ≤ c) l → (i ≤ j)%nat → sumZ (take i l) ≤ sumZ (take j l).
Proof.
  intros Hpos Hij.
  replace j with (i + (j - i))%nat by lia.
  rewrite <- take_take_drop, sumZ_app.
  assert (0 ≤ sumZ (take (j - i) (drop i l))); [|lia].
  apply sumZ_nonneg, Forall_take, Forall_drop, Hpos.
Qed.

Lemma sumZ_take_le (l : list Z) (i : nat) :
  Forall (λ c, 0 ≤ c) l → 0 ≤ sumZ (take i l) ≤ sumZ l.
Proof.
  intros Hpos. split; [apply sumZ_nonneg, Forall_take, Hpos|].
  rewrite <- (take_ge l (i `max` length l)) at 2 by lia.
  apply sumZ_take_mono; [done | lia].
Qed.

(** *** The offset loop *)

Lemma offsetStep_below (counts : list Z) (pid iProc : nat) (minId c : Z) :
  Forall (λ c, 0 ≤ c) counts → counts !! iProc = Some c → (iProc < pid)%nat →
  offsetStep counts pid minId iProc = Int.add minId c.
Proof.
  intros Hpos Hc Hlt. unfold offsetStep.
  rewrite bool_decide_eq_true_2 by done. by rewrite (offset_globalVal counts iProc c).
Qed.

Lemma offsetStep_above (counts : list Z) (pid iProc : nat) (minId : Z) :
  (pid ≤ iProc)%nat → offsetStep counts pid minId iProc = minId.
Proof. intros Hge. unfold offsetStep. rewrite bool_decide_eq_false_2; [done | lia]. Qed.

Lemma offset_loop_prefix (lowest : Z) (counts : list Z) (pid k : nat) :
  Forall (λ c, 0 ≤ c) counts →
  Int.min_signed ≤ lowest →
  lowest + sumZ counts ≤ Int.max_signed →
  (k ≤ length counts)%nat →
  foldl (offsetStep counts pid) lowest (seq 0 k) = lowest + sumZ (take (k `min` pid) counts).
Proof.
  intros Hpos Hlo Hhi. induction k as [|k IH]; intros Hk.
  { simpl. unfold sumZ. simpl. lia. }
  rewrite seq_S, foldl_app, IH by lia. cbn [foldl Nat.add].
  destruct (decide (k < pid)%nat) as [Hlt|Hge].
  - destruct (lookup_lt_is_Some_2 counts k) as [c Hc]; [lia|].
    rewrite (offsetStep_below counts pid k _ c) by done.
    replace (S k `min` pid)%nat with (S k) by lia.
    replace (k `min` pid)%nat with k by lia.
    rewrite (take_S_r counts k c), sumZ_app by done.
    replace (sumZ [c]) with c by (unfold sumZ; simpl; lia).
    pose proof (sumZ_take_le counts (S k) Hpos) as Hb.
    rewrite (take_S_r counts k c), sumZ_app in Hb by done.
    replace (sumZ [c]) with c in Hb by (unfold sumZ; simpl; lia).
    pose proof (sumZ_take_le counts k Hpos).
    rewrite Int_add_exact; [lia | unfold Int.in_range; lia].
  - rewrite offsetStep_above by lia.
    by replace (S k `min` pid)%nat with (k `min` pid)%nat by lia.
Qed.

Lemma minPeridigmPartialStressId_sum (lowest : Z) (counts : list Z) (pid : nat) :
  Forall (λ c, 0 ≤ c) counts →
  Int.min_signed ≤ lowest →
  lowest + sumZ counts ≤ Int.max_signed →
  minPeridigmPartialStressId lowest counts pid = lowest + sumZ (take pid counts).
Proof.
  intros Hpos Hlo Hhi. unfold minPeridigmPartialStressId.
  rewrite offset_loop_prefix by done.
  destruct (decide (pid ≤ length counts)%nat).
  - by replace (length counts `min` pid)%nat with pid by lia.
  - rewrite !take_ge by lia. done.
Qed.

Lemma partialStressGlobalIds_seqZ (minId numIds : Z) :
  Int.min_signed ≤ minId → minId + numIds ≤ Int.max_signed + 1 →
  partialStressGlobalIds minId numIds = seqZ minId numIds.
Proof.
  intros Hlo Hhi. unfold partialStressGlobalIds.
  transitivity (Z.add minId <$> seqZ 0 numIds).
  - apply Forall_fmap_ext, Forall_seqZ.
    intros i Hi. apply Int_add_exact. unfold Int.in_range. lia.
  - rewrite fmap_add_seqZ. f_equal. lia.
Qed.

Lemma localLowest_in_range (e n : Z) : Int.in_range (localLowestPossiblePartialStressId e n).
Proof.
  unfold localLowestPossiblePartialStressId, Int.add.
  case_bool_decide; apply Int_wrap_in_range.
Qed.

Lemma lowestPossiblePartialStressId_in_range (scans : list RankScan) :
  scans ≠ [] → Int.in_range (lowestPossiblePartialStressId scans).
Proof.
  intros Hne. unfold lowestPossiblePartialStressId.
  set (vals := _ <$> scans).
  assert (Hv : vals ≠ []) by (unfold vals; by destruct scans).
  pose proof (reduceAll_MAX_elem vals Hv) as Hel.
  apply list_elem_of_fmap in Hel as (r & -> & _). apply localLowest_in_range.
Qed.

Lemma rankCounts_lookup (scans : list RankScan) (p : nat) (r : RankScan) :
  scans !! p = Some r → rankCounts scans !! p = Some (numPartialStressIds r).
Proof. intros Hp. unfold rankCounts. by rewrite list_lookup_fmap, Hp. Qed.

Lemma rankCounts_nonneg (scans : list RankScan) :
  Forall (λ r, 0 ≤ numPartialStressIds r) scans → Forall (λ c, 0 ≤ c) (rankCounts scans).
Proof. intros H. unfold rankCounts. by apply Forall_fmap. Qed.

(** C2: for every number of ranks and every assignment of non-negative
    counts whose ids fit in [int], the offset loop gives rank [p] the block
    [[base + Σ_{q<p} count q, base + Σ_{q≤p} count q)], where [base] is the
    reduced lowest id; the blocks of distinct ranks are disjoint; a rank with
    count 0 receives no id and leaves the offset of the next rank where its
    own is. *)
Theorem offset_loop_blocks (scans : list RankScan) :
  Forall (λ r, 0 ≤ numPartialStressIds r) scans →
  lowestPossiblePartialStressId scans + sumZ (rankCounts scans) ≤ Int.max_signed →
  ∀ (p : nat) (r : RankScan), scans !! p = Some r →
    let base := lowestPossiblePartialStressId scans in
    let lo := base + sumZ (take p (rankCounts scans)) in
    let hi := base + sumZ (take (S p) (rankCounts scans)) in
    rankMinId scans p = lo
    ∧ hi = lo + numPartialStressIds r
    ∧ rankPartialStressIds scans p = seqZ lo (numPartialStressIds r)
    ∧ (∀ x, x ∈ rankPartialStressIds scans p ↔ lo ≤ x < hi)
    ∧ (∀ q, q ≠ p → ∀ x, x ∈ rankPartialStressIds scans p → x ∉ rankPartialStressIds scans q)
    ∧ (numPartialStressIds r = 0 →
       rankPartialStressIds scans p = [] ∧ rankMinId scans (S p) = rankMinId scans p).
Proof.
  intros Hpos Hhi p r Hp base lo hi.
  pose proof (rankCounts_nonneg scans Hpos) as Hc.
  assert (Hne : scans ≠ []) by (intros E; by rewrite E in Hp).
  pose proof (lowestPossiblePartialStressId_in_range scans Hne) as [Hb _]. fold base in Hb, Hhi.
  assert (Hmin : ∀ q, rankMinId scans q = base + sumZ (take q (rankCounts scans))).
  { intros q. unfold rankMinId. by apply minPeridigmPartialStressId_sum. }
  assert (Hids : ∀ q rq, scans !! q = Some rq →
            rankPartialStressIds scans q
            = seqZ (base + sumZ (take q (rankCounts scans))) (numPartialStressIds rq)
            ∧ sumZ (take (S q) (rankCounts scans))
              = sumZ (take q (rankCounts scans)) + numPartialStressIds rq).
  { intros q rq Hq. pose proof (rankCounts_lookup scans q rq Hq) as Hcq.
    assert (Hs : sumZ (take (S q) (rankCounts scans))
                 = sumZ (take q (rankCounts scans)) + numPartialStressIds rq).
    { rewrite (take_S_r _ q _ Hcq), sumZ_app. unfold sumZ at 2. simpl. lia. }
    split; [|done].
    unfold rankPartialStressIds. rewrite Hcq, Hmin. simpl.
    pose proof (sumZ_take_le (rankCounts scans) q Hc).
    pose proof (sumZ_take_le (rankCounts scans) (S q) Hc).
    apply partialStressGlobalIds_seqZ; lia. }
  destruct (Hids p r Hp) as [Hidp Hsp].
  assert (Hmem : ∀ x, x ∈ rankPartialStressIds scans p ↔ lo ≤ x < hi).
  { intros x. rewrite Hidp, elem_of_seqZ. unfold lo, hi. lia. }
  split_and!; [apply Hmin | unfold hi, lo; lia | exact Hidp | exact Hmem | |].
  - intros q Hqp x Hx Hxq. apply Hmem in Hx.
    destruct (scans !! q) as [rq|] eqn:Hq.
    + destruct (Hids q rq Hq) as [Hidq Hsq]. rewrite Hidq, elem_of_seqZ in Hxq.
      destruct (decide (p < q)%nat).
      * pose proof (sumZ_take_mono (rankCounts scans) (S p) q Hc ltac:(lia)).
        unfold lo, hi in Hx. lia.
      * pose proof (sumZ_take_mono (rankCounts scans) (S q) p Hc ltac:(lia)).
        unfold lo, hi in Hx. lia.
    + unfold rankPartialStressIds, rankCounts in Hxq.
      rewrite list_lookup_fmap, Hq in Hxq. simpl in Hxq.
      unfold partialStressGlobalIds in Hxq. by apply elem_of_nil in Hxq.
  - intros H0. split.
    + rewrite Hidp, H0. done.
    + rewrite !Hmin. lia.
Qed.

Lemma offset_loop_blocks_witness :
  rankPartialStressIds
    [ {| maxAlbanyElementId := 7; maxAlbanyNodeId := 26; numPartialStressIds := 3 |};
      {| maxAlbanyElementId := 3; maxAlbanyNodeId := 11; numPartialStressIds := 0 |};
      {| maxAlbanyElementId := 5; maxAlbanyNodeId := 17; numPartialStressIds := 2 |} ] 2
  = seqZ 30 2.
Proof.
  pose (scans :=
    [ {| maxAlbanyElementId := 7; maxAlbanyNodeId := 26; numPartialStressIds := 3 |};
      {| maxAlbanyElementId := 3; maxAlbanyNodeId := 11; numPartialStressIds := 0 |};
      {| maxAlbanyElementId := 5; maxAlbanyNodeId := 17; numPartialStressIds := 2 |} ]).
  assert (Hpos : Forall (λ r, 0 ≤ numPartialStressIds r) scans).
  { repeat constructor; simpl; lia. }
  assert (Hhi : lowestPossiblePartialStressId scans + sumZ (rankCounts scans) ≤ Int.max_signed).
  { vm_compute. discriminate. }
  exact (proj1 (proj2 (proj2
    (offset_loop_blocks scans Hpos Hhi 2%nat
       {| maxAlbanyElementId := 5; maxAlbanyNodeId := 17; numPartialStressIds := 2 |}
       eq_refl)))).
Defined.

(** Away from the end of the [int] range the bound exceeds the largest
    element id, and it exceeds the largest node id unless that is the
    largest element id plus one. *)
Lemma localLowest_spec (e n : Z) :
  Int.min_signed ≤ e < Int.max_signed → Int.min_signed ≤ n < Int.max_signed →
  let lowest := localLowestPossiblePartialStressId e n in
  e < lowest ∧ n ≤ lowest ∧ (n < lowest ↔ n ≠ e + 1).
Proof.
  intros He Hn. unfold localLowestPossiblePartialStressId.
  rewrite (Int_add_exact e 1) by (unfold Int.in_range; lia).
  case_bool_decide.
  - rewrite Int_add_exact by (unfold Int.in_range; lia). lia.
  - lia.
Qed.

Section LowestId.
Import LinearTet Examples.

(** C1: on a rank whose largest element id is 4 and largest node id is 5
    the bound computed at lines 166-168 is 5, not 6: it is not above the
    largest node id, and the reduction over that one rank returns it.  On a
    mesh with one partial-stress tetrahedron (Albany element id 4, Albany
    node ids 2..5) the material point receives global id 5, the id of a mesh
    node. *)
Theorem lowest_partial_stress_id_reaches_node_id :
  localLowestPossiblePartialStressId 4 5 = 5
  ∧ lowestPossiblePartialStressId
      [{| maxAlbanyElementId := 4; maxAlbanyNodeId := 5; numPartialStressIds := 1 |}] = 5
  ∧ ∃ s, initialize (params "Peridynamic Partial Stress") (Some (tetMesh (0, 0, 1)%Qc))
           singleRank PeridigmManager_new = Ok s
         ∧ peridigmNodeGlobalIds (idTable s) = [5]
         ∧ albanyId 6 = 5.
Proof.
  split; [reflexivity|]. split; [reflexivity|].
  eexists. split; [vm_compute; reflexivity|]. split; reflexivity.
Qed.
End LowestId.

(** ** Block names *)

Lemma find_last_of_absent (c : ascii) (s : string) :
  has_char c s = false → find_last_of c s = None.
Proof.
  induction s as [|a s IH]; simpl; [done|].
  intros H. apply orb_false_iff in H as [Ha Hs]. rewrite (IH Hs).
  apply bool_decide_eq_false in Ha. by rewrite decide_False.
Qed.

Lemma find_last_of_present (c : ascii) (s : string) :
  has_char c s = true → is_Some (find_last_of c s).
Proof.
  induction s as [|a s IH]; simpl; [done|].
  destruct (find_last_of c s) eqn:E; [eauto|].
  intros H. apply orb_true_iff in H as [Ha|Hs].
  - apply bool_decide_eq_true in Ha. rewrite decide_True by done. eauto.
  - destruct (IH Hs) as [? ?]. done.
Qed.

Lemma find_last_of_split (c : ascii) (pre suf : string) :
  has_char c suf = false →
  find_last_of c (pre +:+ String c suf) = Some (String.length pre).
Proof.
  intros Hsuf. induction pre as [|a pre IH]; simpl.
  - rewrite (find_last_of_absent c suf Hsuf). by rewrite decide_True.
  - by rewrite IH.
Qed.

Lemma substr_suffix (pre suf : string) (c : ascii) (n : nat) :
  (String.length suf ≤ n)%nat →
  substr (String.length pre + 1) n (pre +:+ String c suf) = suf.
Proof.
  intros Hn. unfold substr. induction pre as [|a pre IH]; simpl.
  - clear -Hn. revert n Hn. induction suf as [|b suf IH]; intros n Hn.
    + by destruct n.
    + destruct n as [|n]; simpl in *; [lia|]. f_equal. apply IH. lia.
  - apply IH.
Qed.

Lemma length_app_string (s t : string) :
  String.length (s +:+ t) = (String.length s + String.length t)%nat.
Proof. induction s as [|a s IH]; simpl; [done | by rewrite IH]. Qed.

Lemma digit_of_digit_char (d : Z) : 0 ≤ d ≤ 9 → digit_of (digit_char d) = Some d.
Proof.
  intros Hd.
  assert (d = 0 ∨ d = 1 ∨ d = 2 ∨ d = 3 ∨ d = 4 ∨ d = 5 ∨ d = 6 ∨ d = 7 ∨ d = 8 ∨ d = 9)
    as Hcases by lia.
  destruct_or!; subst; reflexivity.
Qed.

Lemma digit_char_plain (d : Z) :
  0 ≤ d ≤ 9 →
  is_space (digit_char d) = false ∧ digit_char d ≠ "-"%char ∧ digit_char d ≠ "+"%char
  ∧ digit_char d ≠ "_"%char.
Proof.
  intros Hd.
  assert (d = 0 ∨ d = 1 ∨ d = 2 ∨ d = 3 ∨ d = 4 ∨ d = 5 ∨ d = 6 ∨ d = 7 ∨ d = 8 ∨ d = 9)
    as Hcases by lia.
  destruct_or!; subst; (split_and!; [reflexivity | discriminate..]).
Qed.

Lemma read_digits_numeral (digits : list Z) (acc : Z) :
  Forall (λ d, 0 ≤ d ≤ 9) digits →
  read_digits (Some acc) (numeral digits) = Some (foldl (λ acc d, 10 * acc + d) acc digits).
Proof.
  intros Hd. revert acc. induction Hd as [|d digits Hd _ IH]; intros acc; simpl; [done|].
  by rewrite (digit_of_digit_char d Hd), IH.
Qed.

(** A numeral is read back as its value, cut at the bounds of [int]. *)
Lemma stream_extract_int_numeral (digits : list Z) :
  digits ≠ [] → Forall (λ d, 0 ≤ d ≤ 9) digits →
  stream_extract_int (numeral digits) = Some (clamp_int (decimal_value digits)).
Proof.
  intros Hne Hd. destruct digits as [|d digits]; [done|].
  apply Forall_cons in Hd as [Hd Hds].
  destruct (digit_char_plain d Hd) as (Hsp & Hminus & Hplus & _).
  unfold stream_extract_int. simpl. rewrite Hsp.
  rewrite !decide_False by done. simpl.
  rewrite (digit_of_digit_char d Hd). simpl.
  rewrite (read_digits_numeral digits _ Hds). unfold decimal_value. simpl.
  done.
Qed.

Lemma has_char_numeral (digits : list Z) :
  Forall (λ d, 0 ≤ d ≤ 9) digits → has_char "_" (numeral digits) = false.
Proof.
  induction 1 as [|d digits Hd _ IH]; simpl; [done|].
  destruct (digit_char_plain d Hd) as (_ & _ & _ & Hu).
  by rewrite bool_decide_eq_false_2, IH.
Qed.

(** C6: the block id is what the stream reads from the text after the last
    underscore of the block name; a name without an underscore is a fatal
    parse error; when the text after the last underscore is a numeral the id
    is its value (cut at the [int] bounds).  ["block_7"] has id 7,
    ["blockA"] aborts. *)
Theorem parseBlockId_last_underscore :
  (∀ name, has_char "_" name = false →
     parseBlockId name = Fatal (InvalidBlockName name)
     ∧ classify (InvalidBlockName name) = ParseError)
  ∧ (∀ name, has_char "_" name = true → ∀ f, parseBlockId name ≠ Fatal f)
  ∧ (∀ pre suf, has_char "_" suf = false →
       parseBlockId (pre +:+ String "_" suf)
       = from_option Ok Undefined (stream_extract_int suf))
  ∧ (∀ pre digits, digits ≠ [] → Forall (λ d, 0 ≤ d ≤ 9) digits →
       parseBlockId (pre +:+ String "_" (numeral digits))
       = Ok (clamp_int (decimal_value digits)))
  ∧ parseBlockId "block_7" = Ok 7
  ∧ parseBlockId "blockA" = Fatal (InvalidBlockName "blockA").
Proof.
  assert (Hsplit : ∀ pre suf, has_char "_" suf = false →
            parseBlockId (pre +:+ String "_" suf)
            = from_option Ok Undefined (stream_extract_int suf)).
  { intros pre suf Hsuf. unfold parseBlockId.
    rewrite (find_last_of_split _ pre suf Hsuf).
    rewrite substr_suffix; [by destruct (stream_extract_int suf)|].
    rewrite length_app_string. simpl. lia. }
  split_and!; [| |exact Hsplit| |reflexivity|reflexivity].
  - intros name Hno. unfold parseBlockId. by rewrite (find_last_of_absent _ name Hno).
  - intros name Hyes f. unfold parseBlockId.
    destruct (find_last_of_present _ name Hyes) as [loc ->].
    by destruct (stream_extract_int _).
  - intros pre digits Hne Hd.
    rewrite (Hsplit pre (numeral digits) (has_char_numeral digits Hd)).
    by rewrite (stream_extract_int_numeral digits Hne Hd).
Qed.

Lemma parseBlockId_last_underscore_witness :
  has_char "_" "42" = false
  ∧ parseBlockId ("my_block" +:+ String "_" "42") = from_option Ok Undefined (stream_extract_int "42")
  ∧ parseBlockId ("my_block" +:+ String "_" "42") = Ok 42.
Proof.
  split; [reflexivity|]. split.
  - apply (proj1 (proj2 (proj2 parseBlockId_last_underscore)) "my_block" "42"). reflexivity.
  - apply (proj1 (proj2 (proj2 (proj2 parseBlockId_last_underscore))) "my_block" [4; 2]).
    + discriminate.
    + repeat constructor; lia.
Defined.

(** ** The output-field catalog *)


Lemma setOutputField_known (fields : list OutputField) (name relation : string) (length : Z) :
  catalog name = Some (relation, length) →
  setOutputField fields name =
    Ok (if bool_decide (outputFieldOf name relation length ∈ fields) then fields
        else fields ++ [outputFieldOf name relation length]).
Proof. intros Hc. unfold setOutputField. rewrite Hc. by case_bool_decide. Qed.

Lemma setOutputField_unknown (fields : list OutputField) (name : string) :
  catalog name = None → setOutputField fields name = Fatal UnknownVariable.
Proof. intros Hc. unfold setOutputField. by rewrite Hc. Qed.

Lemma for_each_setOutputField_known (names : list string) (fields : list OutputField) :
  Forall (λ name, is_Some (catalog name)) names →
  ∃ fields', for_each setOutputField fields names = Ok fields'
    ∧ (∀ f, f ∈ fields' ↔ f ∈ fields ∨ requested names f)
    ∧ (NoDup fields → NoDup fields')
    ∧ fields `prefix_of` fields'.
Proof.
  intros Hall. revert fields.
  induction Hall as [|name names [[relation length] Hc] _ IH]; intros fields.
  { exists fields. simpl. split_and!; [done| |done|done].
    intros f. split; [auto|]. intros [?|(n & ? & ? & Hn & _)]; [done|].
    by apply elem_of_nil in Hn. }
  simpl. rewrite (setOutputField_known fields name relation length Hc). simpl.
  set (field := outputFieldOf name relation length).
  set (fields1 := if bool_decide (field ∈ fields) then fields else fields ++ [field]).
  destruct (IH fields1) as (fields' & Hrun & Hmem & Hnd & Hpre).
  exists fields'. split; [exact Hrun|].
  assert (Hmem1 : ∀ f, f ∈ fields1 ↔ f ∈ fields ∨ f = field).
  { intros f. unfold fields1. case_bool_decide as Hin.
    - split; [auto|]. intros [?| ->]; done.
    - rewrite elem_of_app, list_elem_of_singleton. done. }
  split_and!.
  - intros f. rewrite Hmem, Hmem1. split.
    + intros [[?| ->]|(n & r & l & Hn & Hcn & ->)]; [by left| |].
      * right. exists name, relation, length. split_and!; [left|done|done].
      * right. exists n, r, l. split_and!; [by right|done|done].
    + intros [?|(n & r & l & Hn & Hcn & ->)]; [by left; left|].
      apply elem_of_cons in Hn as [->|Hn].
      * left. right. rewrite Hc in Hcn. by injection Hcn as <- <-.
      * right. by exists n, r, l.
  - intros Hfields. apply Hnd. unfold fields1. case_bool_decide as Hin; [done|].
    apply NoDup_app. split_and!; [done| |apply NoDup_singleton].
    intros f Hf Hf'. apply list_elem_of_singleton in Hf'. by subst.
  - etrans; [|exact Hpre]. unfold fields1. case_bool_decide; [done|].
    by apply prefix_app_r.
Qed.

Lemma for_each_setOutputField_unknown (names : list string) (fields : list OutputField) :
  (∃ name, name ∈ names ∧ catalog name = None) →
  for_each setOutputField fields names = Fatal UnknownVariable.
Proof.
  intros (bad & Hbad & Hc). revert fields.
  induction names as [|name names IH]; intros fields; [by apply elem_of_nil in Hbad|].
  simpl. destruct (catalog name) as [[relation length]|] eqn:Hn.
  - rewrite (setOutputField_known fields name relation length Hn). simpl.
    apply elem_of_cons in Hbad as [->|Hbad]; [congruence|]. by apply IH.
  - by rewrite (setOutputField_unknown fields name Hn).
Qed.



(** ** Arrays and maps *)

Lemma read_at_lookup {A} (v : list A) (i : nat) (x : A) :
  v !! i = Some x → read_at v (Z.of_nat i) = Ok x.
Proof.
  intros Hx. unfold read_at. rewrite bool_decide_eq_true_2 by lia.
  by rewrite Nat2Z.id, Hx.
Qed.

Lemma read_at_Ok {A} (v : list A) (i : Z) (x : A) :
  read_at v i = Ok x ↔ 0 ≤ i ∧ v !! Z.to_nat i = Some x.
Proof.
  unfold read_at. case_bool_decide as Hi.
  - destruct (v !! Z.to_nat i) eqn:E; split; intros H; try done.
    + injection H as ->. done.
    + destruct H as [_ H]. by injection H as ->.
    + by destruct H.
  - split; [done|]. intros [? _]. lia.
Qed.

Lemma read_at_not_Fatal {A} (v : list A) (i : Z) (f : failure) : read_at v i ≠ Fatal f.
Proof. unfold read_at. case_bool_decide; [by destruct (v !! Z.to_nat i)|done]. Qed.

Lemma write_at_in_range {A} (v : list A) (i : nat) (x : A) :
  (i < length v)%nat → write_at v (Z.of_nat i) x = Ok (<[i := x]> v).
Proof.
  intros Hi. unfold write_at. rewrite bool_decide_eq_true_2 by lia. by rewrite Nat2Z.id.
Qed.

Lemma write_at_Ok {A} (v w : list A) (i : Z) (x : A) :
  write_at v i x = Ok w ↔ (0 ≤ i < Z.of_nat (length v)) ∧ w = <[Z.to_nat i := x]> v.
Proof.
  unfold write_at. case_bool_decide as Hi.
  - split; [intros [= <-]; done | intros [_ ->]; done].
  - split; [done | intros [? _]; lia].
Qed.

Lemma write_at_not_Fatal {A} (v : list A) (i : Z) (x : A) (f : failure) : write_at v i x ≠ Fatal f.
Proof. unfold write_at. by case_bool_decide. Qed.

(** *** The local index of a global id *)

Lemma LID_absent (globalIds : list Z) (gid : Z) : gid ∉ globalIds → LID globalIds gid = -1.
Proof.
  intros Hno. unfold LID.
  destruct (list_find _ globalIds) as [[i g]|] eqn:E; [|done].
  apply list_find_Some in E as (Hi & -> & _). exfalso. apply Hno.
  by eapply list_elem_of_lookup_2.
Qed.

Lemma LID_present (globalIds : list Z) (gid : Z) :
  gid ∈ globalIds →
  ∃ i : nat, LID globalIds gid = Z.of_nat i ∧ globalIds !! i = Some gid
    ∧ ∀ j, globalIds !! j = Some gid → (i ≤ j)%nat.
Proof.
  intros Hin. unfold LID.
  destruct (list_find _ globalIds) as [[i g]|] eqn:E.
  - apply list_find_Some in E as (Hi & -> & Hfirst). exists i. split_and!; [done..|].
    intros j Hj. destruct (decide (i ≤ j)%nat); [done|].
    exfalso. by apply (Hfirst j gid Hj); [lia|].
  - apply list_find_None in E. rewrite Forall_forall in E. by destruct (E gid Hin).
Qed.

Lemma LID_first (globalIds : list Z) (gid : Z) (i : nat) :
  globalIds !! i = Some gid → (∀ j, globalIds !! j = Some gid → (i ≤ j)%nat) →
  LID globalIds gid = Z.of_nat i.
Proof.
  intros Hi Hfirst.
  destruct (LID_present globalIds gid) as (k & -> & Hk & Hkfirst).
  { by eapply list_elem_of_lookup_2. }
  specialize (Hfirst k Hk). specialize (Hkfirst i Hi). f_equal. lia.
Qed.

Lemma LID_range (globalIds : list Z) (gid : Z) :
  -1 ≤ LID globalIds gid < Z.of_nat (length globalIds).
Proof.
  destruct (decide (gid ∈ globalIds)) as [Hin|Hno].
  - destruct (LID_present globalIds gid Hin) as (i & -> & Hi & _).
    apply lookup_lt_Some in Hi. lia.
  - rewrite (LID_absent globalIds gid Hno). lia.
Qed.

(** ** [getForce] *)

Section GetForce.
Context `{!Intrepid} `{!PeridigmKernels}.

(** C5: without peridynamics the force is 0.0 for every input; with
    peridynamics a global id the solver's map does not hold aborts with the
    invalid-id failure (and so never returns 0.0), and an id it holds returns
    component [dof] of the force of the point with that id. *)
Theorem getForce_registered_or_fatal (globalAlbanyNodeId dof : Z) (s : PeridigmManager) :
  (hasPeridynamics s = false → getForce globalAlbanyNodeId dof s = Ok 0%Qc)
  ∧ (∀ solver, hasPeridynamics s = true → peridigm s = Some solver →
       (globalAlbanyNodeId ∉ peridigm_globalIds solver →
          getForce globalAlbanyNodeId dof s = Fatal GetForceInvalidGlobalId
          ∧ classify GetForceInvalidGlobalId = InvalidId
          ∧ getForce globalAlbanyNodeId dof s ≠ Ok 0%Qc)
       ∧ (globalAlbanyNodeId ∈ peridigm_globalIds solver →
          0 ≤ dof < 3 →
          length (getForce_vector solver) = (3 * length (peridigm_globalIds solver))%nat →
          3 * Z.of_nat (length (peridigm_globalIds solver)) ≤ Int.max_signed →
          ∃ (i : nat) (force : Scalar),
            peridigm_globalIds solver !! i = Some globalAlbanyNodeId
            ∧ (∀ j, peridigm_globalIds solver !! j = Some globalAlbanyNodeId → (i ≤ j)%nat)
            ∧ getForce_vector solver !! (3 * i + Z.to_nat dof)%nat = Some force
            ∧ getForce globalAlbanyNodeId dof s = Ok force)).
Proof.
  split.
  - intros Hno. unfold getForce. by rewrite Hno.
  - intros solver Hhas Hsolver. unfold getForce. rewrite Hhas, Hsolver. simpl. split.
    + intros Habsent. rewrite (LID_absent _ _ Habsent). done.
    + intros Hin Hdof Hlen Hsmall.
      destruct (LID_present _ _ Hin) as (i & -> & Hi & Hfirst).
      pose proof (lookup_lt_Some _ _ _ Hi) as Hlt.
      rewrite bool_decide_eq_false_2 by lia. simpl.
      rewrite Int_mul_exact by (unfold Int.in_range, Int.min_signed; lia).
      rewrite Int_add_exact by (unfold Int.in_range, Int.min_signed; lia).
      destruct (lookup_lt_is_Some_2 (getForce_vector solver) (3 * i + Z.to_nat dof)%nat)
        as [force Hforce]; [lia|].
      exists i, force. split_and!; [done..|].
      replace (3 * Z.of_nat i + dof) with (Z.of_nat (3 * i + Z.to_nat dof)) by lia.
      by apply read_at_lookup.
Qed.

End GetForce.

Section GetForceWitness.
Import LinearTet Examples.

Lemma getForce_registered_or_fatal_witness :
  ∃ s, initialize (params "Peridynamics") (Some sphereMesh) singleRank PeridigmManager_new = Ok s
    ∧ getForce 4 0 s = Fatal GetForceInvalidGlobalId
    ∧ getForce 5 0 s = Ok 0%Qc.
Proof.
  eexists. split; [vm_compute; reflexivity|].
  match goal with |- getForce _ _ ?s = _ ∧ _ =>
    pose proof (proj2 (getForce_registered_or_fatal 4 0 s)) as Habsent;
    pose proof (proj2 (getForce_registered_or_fatal 5 0 s)) as Hpresent
  end.
  split.
  - refine (proj1 (proj1 (Habsent _ eq_refl eq_refl) _)).
    simpl. intros H. apply list_elem_of_singleton in H. discriminate.
  - destruct (proj2 (Hpresent _ eq_refl eq_refl)) as (i & force & Hi & _ & Hforce & ->).
    + simpl. apply list_elem_of_singleton. reflexivity.
    + lia.
    + reflexivity.
    + simpl. unfold Int.max_signed. lia.
    + simpl in Hi. apply list_lookup_singleton_Some in Hi as [-> _].
      simpl in Hforce. injection Hforce as <-. reflexivity.
Defined.

End GetForceWitness.

(** ** Points in flat vectors *)

Lemma point_from_Some (v : list Scalar) (j : nat) (p : Point) :
  point_from v j = Some p ↔
  v !! j = Some p.1.1 ∧ v !! (j + 1)%nat = Some p.1.2 ∧ v !! (j + 2)%nat = Some p.2.
Proof.
  unfold point_from. destruct p as [[x y] z]. simpl.
  destruct (v !! j) as [x'|]; simpl; [|split; [done | intros (? & _); done]].
  destruct (v !! (j + 1)%nat) as [y'|]; simpl; [|split; [done | intros (_ & ? & _); done]].
  destruct (v !! (j + 2)%nat) as [z'|]; simpl; [|split; [done | intros (_ & _ & ?); done]].
  split; [intros [= -> -> ->]; done | intros ([= ->] & [= ->] & [= ->]); done].
Qed.

Lemma point_from_is_Some (v : list Scalar) (j : nat) :
  (j + 2 < length v)%nat → is_Some (point_from v j).
Proof.
  intros Hj. unfold point_from.
  destruct (lookup_lt_is_Some_2 v j) as [x ->]; [lia|].
  destruct (lookup_lt_is_Some_2 v (j + 1)%nat) as [y ->]; [lia|].
  destruct (lookup_lt_is_Some_2 v (j + 2)%nat) as [z ->]; [lia|].
  simpl. eauto.
Qed.

Lemma point_from_length (v : list Scalar) (j : nat) (p : Point) :
  point_from v j = Some p → (j + 2 < length v)%nat.
Proof. intros H. apply point_from_Some in H as (_ & _ & H). by apply lookup_lt_Some in H. Qed.

Lemma length_set_point (v : list Scalar) (l : nat) (p : Point) :
  length (set_point v l p) = length v.
Proof. unfold set_point. by rewrite !length_insert. Qed.

Lemma point_at_set_point (v : list Scalar) (l : nat) (p : Point) :
  (3 * l + 2 < length v)%nat → point_at (set_point v l p) l = Some p.
Proof.
  intros Hl. unfold point_at. apply point_from_Some. unfold set_point.
  destruct p as [[x y] z]. simpl. split_and!.
  - rewrite !list_lookup_insert_ne by lia. apply list_lookup_insert_eq. lia.
  - rewrite list_lookup_insert_ne by lia. apply list_lookup_insert_eq.
    rewrite length_insert. lia.
  - apply list_lookup_insert_eq. rewrite !length_insert. lia.
Qed.

Lemma lookup_set_point_ne (v : list Scalar) (l : nat) (p : Point) (j : nat) :
  (j < 3 * l ∨ 3 * l + 2 < j)%nat → set_point v l p !! j = v !! j.
Proof. intros Hj. unfold set_point. rewrite !list_lookup_insert_ne by lia. done. Qed.

Lemma point_at_set_point_ne (v : list Scalar) (l l' : nat) (p : Point) :
  l ≠ l' → point_at (set_point v l p) l' = point_at v l'.
Proof.
  intros Hne. unfold point_at, point_from.
  rewrite !lookup_set_point_ne by lia. done.
Qed.

(** *** Index arithmetic *)

Lemma index3_exact (l : nat) :
  3 * Z.of_nat l + 2 ≤ Int.max_signed →
  index3 (Z.of_nat l) 0 = Z.of_nat (3 * l)
  ∧ index3 (Z.of_nat l) 1 = Z.of_nat (3 * l + 1)
  ∧ index3 (Z.of_nat l) 2 = Z.of_nat (3 * l + 2).
Proof.
  intros Hl. unfold index3. simpl.
  rewrite Int_mul_exact by (unfold Int.in_range, Int.min_signed; lia).
  rewrite !Int_add_exact by (unfold Int.in_range, Int.min_signed; lia). lia.
Qed.

Lemma offset_exact (a : nat) :
  Z.of_nat a + 2 ≤ Int.max_signed →
  offset (Z.of_nat a) 0 = Z.of_nat a
  ∧ offset (Z.of_nat a) 1 = Z.of_nat (a + 1)
  ∧ offset (Z.of_nat a) 2 = Z.of_nat (a + 2).
Proof.
  intros Ha. unfold offset. simpl.
  rewrite !Int_add_exact by (unfold Int.in_range, Int.min_signed; lia). lia.
Qed.

(** Lines 262-264 and 355-357 store a point. *)
Lemma write_point_set_point (v : list Scalar) (l : nat) (p : Point) :
  (3 * l + 2 < length v)%nat → 3 * Z.of_nat l + 2 ≤ Int.max_signed →
  write_point v (Z.of_nat l) p = Ok (set_point v l p).
Proof.
  intros Hl Hsmall. unfold write_point.
  replace (Int.mul (Z.of_nat l) 3) with (Z.of_nat (3 * l)); cycle 1.
  { rewrite Int_mul_exact by (unfold Int.in_range, Int.min_signed; lia). lia. }
  replace (Int.add (Z.of_nat (3 * l)) 1) with (Z.of_nat (3 * l + 1)); cycle 1.
  { rewrite Int_add_exact by (unfold Int.in_range, Int.min_signed; lia). lia. }
  replace (Int.add (Z.of_nat (3 * l)) 2) with (Z.of_nat (3 * l + 2)); cycle 1.
  { rewrite Int_add_exact by (unfold Int.in_range, Int.min_signed; lia). lia. }
  rewrite write_at_in_range by lia. simpl.
  rewrite write_at_in_range by (rewrite length_insert; lia). simpl.
  rewrite write_at_in_range by (rewrite !length_insert; lia).
  by destruct p as [[x y] z].
Qed.

(** *** The statements of [setCurrentTimeAndDisplacement] on one point *)

Ltac run_step :=
  first
    [ erewrite read_at_lookup by eassumption
    | rewrite write_at_in_range by (rewrite ?length_insert; lia) ];
  cbn [mbind outcome_bind positions displacements velocities].


Lemma for_dof_unfold {S} (body : S → Z → outcome S) (s : S) :
  for_dof body s = (s ← body s 0; s ← body s 1; body s 2).
Proof. reflexivity. Qed.

Ltac run_dofs l Hsmall :=
  rewrite for_dof_unfold; cbv beta;
  let E0 := fresh in let E1 := fresh in let E2 := fresh in
  destruct (index3_exact l Hsmall) as (E0 & E1 & E2);
  rewrite ?E0, ?E1, ?E2; clear E0 E1 E2.

(** Lines 571-573 and 647-649. *)
Lemma velocity_phase (previous : list Scalar) (dt : Scalar) (l : nat) (k : Kinematics) (y p : Point) :
  3 * Z.of_nat l + 2 ≤ Int.max_signed →
  point_at (positions k) l = Some y → point_at previous l = Some p →
  (3 * l + 2 < length (velocities k))%nat →
  for_dof (setVelocity previous dt (Z.of_nat l)) k
  = Ok {| positions := positions k; displacements := displacements k;
          velocities := set_point (velocities k) l (pdiv (psub y p) dt) |}.
Proof.
  intros Hsmall Hy Hp Hlen.
  apply point_from_Some in Hy as (Hy0 & Hy1 & Hy2).
  apply point_from_Some in Hp as (Hp0 & Hp1 & Hp2).
  unfold setVelocity. run_dofs l Hsmall.
  do 9 run_step. done.
Qed.

(** Lines 560-573: a sphere point with local id [l] whose displacement the
    solution vector holds. *)
Lemma setSpherePoint_run (globalIds : list Z) (reference previous : list Scalar) (dt : Scalar)
    (solution : Tpetra_Vector) (k : Kinematics) (globalId : Z) (l : nat) (x p u : Point) :
  LID globalIds globalId = Z.of_nat l →
  displacementAt solution globalId u →
  Z.of_nat (length (getData solution)) ≤ Int.max_signed →
  3 * Z.of_nat l + 2 ≤ Int.max_signed →
  point_at reference l = Some x → point_at previous l = Some p →
  (3 * l + 2 < length (positions k))%nat →
  (3 * l + 2 < length (displacements k))%nat →
  (3 * l + 2 < length (velocities k))%nat →
  setSpherePoint globalIds reference previous dt solution k globalId
  = Ok {| positions := set_point (positions k) l (padd x u);
          displacements := set_point (displacements k) l u;
          velocities := set_point (velocities k) l (pdiv (psub (padd x u) p) dt) |}.
Proof.
  intros Hl (a & Ha & Hu) Hdata Hsmall Hx Hp HlenY HlenU HlenV.
  unfold setSpherePoint. rewrite Hl, Ha.
  rewrite !bool_decide_eq_false_2 by lia. cbn [test_for_except mbind outcome_bind].
  pose proof (point_from_length _ _ _ Hu) as Halen.
  assert (Hasmall : Z.of_nat a + 2 ≤ Int.max_signed) by lia.
  destruct (offset_exact a Hasmall) as (E0 & E1 & E2).
  pose proof Hu as Hu'. apply point_from_Some in Hu' as (Hu0 & Hu1 & Hu2).
  pose proof Hx as Hx'. apply point_from_Some in Hx' as (Hx0 & Hx1 & Hx2).
  (* the displacements *)
  run_dofs l Hsmall. rewrite E0, E1, E2. do 6 run_step.
  (* the current positions *)
  pose proof (point_at_set_point (displacements k) l u HlenU) as HU.
  apply point_from_Some in HU as (HU0 & HU1 & HU2). unfold set_point in HU0, HU1, HU2.
  run_dofs l Hsmall. do 9 run_step.
  (* the velocities *)
  rewrite (velocity_phase previous dt l _ (padd x u) p); [done|done| |done|done].
  exact (point_at_set_point (positions k) l (padd x u) HlenY).
Qed.

Lemma setSpherePoint_absent (globalIds : list Z) (reference previous : list Scalar) (dt : Scalar)
    (solution : Tpetra_Vector) (k : Kinematics) (globalId : Z) :
  globalId ∉ globalIds →
  setSpherePoint globalIds reference previous dt solution k globalId = Fatal InvalidSphereLocalId.
Proof. intros Hno. unfold setSpherePoint. by rewrite (LID_absent _ _ Hno). Qed.

(** [map_index] reads [localIdOf] and leaves every reading as it was. *)
Lemma map_index_localIdOf (table : gmap Z Z) (gid : Z) :
  (map_index 0 table gid).1 = localIdOf table gid
  ∧ ∀ gid', localIdOf (map_index 0 table gid).2 gid' = localIdOf table gid'.
Proof.
  unfold map_index, localIdOf. destruct (table !! gid) as [v|] eqn:E; simpl; [done|].
  split; [done|]. intros gid'. destruct (decide (gid = gid')) as [<-|Hne].
  - by rewrite lookup_insert_eq, E.
  - by rewrite lookup_insert_ne.
Qed.

(** Lines 638-649: a partial-stress point with local id [l]. *)
Lemma setPartialStressPoint_run (reference previous : list Scalar) (dt : Scalar)
    (physPoints : nat → Point) (table : gmap Z Z) (k : Kinematics) (i : nat) (gid : Z)
    (l : nat) (x p : Point) :
  localIdOf table gid = Z.of_nat l →
  3 * Z.of_nat l + 2 ≤ Int.max_signed →
  point_at reference l = Some x → point_at previous l = Some p →
  (3 * l + 2 < length (positions k))%nat →
  (3 * l + 2 < length (displacements k))%nat →
  (3 * l + 2 < length (velocities k))%nat →
  setPartialStressPoint reference previous dt physPoints (table, k) (i, gid)
  = Ok ((map_index 0 table gid).2,
        {| positions := set_point (positions k) l (physPoints i);
           displacements := set_point (displacements k) l (psub (physPoints i) x);
           velocities := set_point (velocities k) l (pdiv (psub (physPoints i) p) dt) |}).
Proof.
  intros Hl Hsmall Hx Hp HlenY HlenU HlenV.
  unfold setPartialStressPoint. cbn [fst snd].
  destruct (map_index_localIdOf table gid) as [Hread _].
  destruct (map_index 0 table gid) as [lid table'] eqn:Hm. cbn [fst snd] in *.
  rewrite Hread, Hl. rewrite bool_decide_eq_false_2 by lia.
  cbn [test_for_except mbind outcome_bind].
  pose proof Hx as Hx'. apply point_from_Some in Hx' as (Hx0 & Hx1 & Hx2).
  run_dofs l Hsmall. do 3 run_step.
  change (coord (physPoints i) (Z.to_nat 0)) with (physPoints i).1.1.
  change (coord (physPoints i) (Z.to_nat 1)) with (physPoints i).1.2.
  change (coord (physPoints i) (Z.to_nat 2)) with (physPoints i).2.
  pose proof (point_at_set_point (positions k) l (physPoints i) HlenY) as HY.
  pose proof HY as HY'. apply point_from_Some in HY' as (HY0 & HY1 & HY2).
  unfold set_point in HY0, HY1, HY2.
  run_dofs l Hsmall. do 9 run_step.
  rewrite (velocity_phase previous dt l _ (physPoints i) p); [done|done| |done|done].
  exact HY.
Qed.

(** ** Loops *)

(** The loop rule: an invariant indexed by the items already passed. *)
Lemma for_each_inv {A S} (body : S → A → outcome S) (Inv : list A → S → Prop)
    (l : list A) (s : S) :
  Inv [] s →
  (∀ passed a rest s, l = passed ++ a :: rest → Inv passed s →
     ∃ s', body s a = Ok s' ∧ Inv (passed ++ [a]) s') →
  ∃ s', for_each body s l = Ok s' ∧ Inv l s'.
Proof.
  intros H0 Hstep.
  assert (Hgen : ∀ rest passed s, l = passed ++ rest → Inv passed s →
            ∃ s', for_each body s rest = Ok s' ∧ Inv l s').
  { induction rest as [|a rest IH]; intros passed s1 Hl Hinv.
    - exists s1. rewrite app_nil_r in Hl. by subst.
    - destruct (Hstep passed a rest s1 Hl Hinv) as (s2 & Hrun & Hinv2).
      simpl. rewrite Hrun. simpl. apply (IH (passed ++ [a])); [|done].
      by rewrite <- app_assoc. }
  by apply (Hgen l []).
Qed.

(** A loop whose body is a pure update is a fold. *)
Lemma for_each_foldl {A S} (body : S → A → outcome S) (f : S → A → S) (P : S → Prop)
    (l : list A) (s : S) :
  P s →
  (∀ s a, a ∈ l → P s → body s a = Ok (f s a) ∧ P (f s a)) →
  for_each body s l = Ok (foldl f s l) ∧ P (foldl f s l).
Proof.
  revert s. induction l as [|a l IH]; intros s Hs Hstep; [done|].
  destruct (Hstep s a) as [Hrun Hs']; [by left|done|].
  simpl. rewrite Hrun. simpl. apply IH; [done|].
  intros s1 a1 Ha1. apply Hstep. by right.
Qed.

(** *** Folds of point updates *)

Lemma put_projections (k : Kinematics) (w : PointUpdate) :
  positions (put k w) = set_point (positions k) w.1 w.2.1.1
  ∧ displacements (put k w) = set_point (displacements k) w.1 w.2.1.2
  ∧ velocities (put k w) = set_point (velocities k) w.1 w.2.2.
Proof. done. Qed.

Lemma put_lengths (k : Kinematics) (w : PointUpdate) : same_lengths k (put k w).
Proof. unfold same_lengths, put. simpl. by rewrite !length_set_point. Qed.

Lemma foldl_put_lengths (ws : list PointUpdate) (k : Kinematics) :
  same_lengths k (foldl put k ws).
Proof.
  revert k. induction ws as [|w ws IH]; intros k; [done|]. simpl.
  destruct (IH (put k w)) as (? & ? & ?). destruct (put_lengths k w) as (? & ? & ?).
  unfold same_lengths. split_and!; congruence.
Qed.

(** A local id no update names keeps its entries. *)
Lemma foldl_put_frame (ws : list PointUpdate) (k : Kinematics) (l : nat) :
  (∀ w, w ∈ ws → w.1 ≠ l) →
  point_at (positions (foldl put k ws)) l = point_at (positions k) l
  ∧ point_at (displacements (foldl put k ws)) l = point_at (displacements k) l
  ∧ point_at (velocities (foldl put k ws)) l = point_at (velocities k) l.
Proof.
  revert k. induction ws as [|w ws IH]; intros k Hws; [done|]. simpl.
  destruct (IH (put k w)) as (-> & -> & ->); [intros w' Hw'; apply Hws; by right|].
  assert (w.1 ≠ l) by (apply Hws; by left).
  unfold put. simpl. by rewrite !point_at_set_point_ne.
Qed.

(** A local id whose updates all carry the same values holds them. *)
Lemma foldl_put_values (ws : list PointUpdate) (k : Kinematics) (w : PointUpdate) :
  w ∈ ws →
  (∀ w', w' ∈ ws → w'.1 = w.1 → w'.2 = w.2) →
  (3 * w.1 + 2 < length (positions k))%nat →
  (3 * w.1 + 2 < length (displacements k))%nat →
  (3 * w.1 + 2 < length (velocities k))%nat →
  point_at (positions (foldl put k ws)) w.1 = Some w.2.1.1
  ∧ point_at (displacements (foldl put k ws)) w.1 = Some w.2.1.2
  ∧ point_at (velocities (foldl put k ws)) w.1 = Some w.2.2.
Proof.
  intros Hin Hsame HY HU HV. revert Hin Hsame.
  induction ws as [|w0 ws IH] using rev_ind; intros Hin Hsame.
  { by apply elem_of_nil in Hin. }
  rewrite foldl_app. cbn [foldl].
  destruct (foldl_put_lengths ws k) as (LY & LU & LV).
  destruct (put_projections (foldl put k ws) w0) as (-> & -> & ->).
  destruct (decide (w0.1 = w.1)) as [Heq|Hne].
  - assert (w0.2 = w.2) as Hval.
    { apply Hsame; [|done]. apply elem_of_app. right. by left. }
    rewrite Heq, Hval.
    rewrite !point_at_set_point by lia. done.
  - rewrite !point_at_set_point_ne by done.
    apply IH.
    + apply elem_of_app in Hin as [Hin|Hin]; [done|].
      apply list_elem_of_singleton in Hin. by subst.
    + intros w' Hw'. apply Hsame. apply elem_of_app. by left.
Qed.

(** A loop over the items of a container with their indices. *)
Lemma for_each_indexed {A St} (body : St → nat * A → outcome St) (Inv : nat → St → Prop)
    (l : list A) (s : St) :
  Inv 0%nat s →
  (∀ j a s, l !! j = Some a → Inv j s → ∃ s', body s (j, a) = Ok s' ∧ Inv (S j) s') →
  ∃ s', for_each body s (imap pair l) = Ok s' ∧ Inv (length l) s'.
Proof.
  intros H0 Hstep.
  destruct (for_each_inv body (λ passed s, Inv (length passed) s) (imap pair l) s)
    as (s' & Hrun & Hinv); [done| |].
  - intros passed a rest s1 Hsplit Hinv.
    assert (Ha : imap pair l !! length passed = Some a).
    { rewrite Hsplit. apply list_lookup_middle. done. }
    rewrite list_lookup_imap in Ha.
    destruct (l !! length passed) as [x|] eqn:Hx; [|done]. injection Ha as <-.
    destruct (Hstep _ x s1 Hx Hinv) as (s2 & Hrun & Hinv2).
    exists s2. split; [done|]. rewrite length_app. simpl.
    by replace (length passed + 1)%nat with (S (length passed)) by lia.
  - exists s'. split; [done|]. by rewrite length_imap in Hinv.
Qed.

(** ** [setCurrentTimeAndDisplacement] *)

Lemma displacementAt_displacementOf (solution : Tpetra_Vector) (g : Z) (u : Point) :
  displacementAt solution g u → displacementOf solution g = u.
Proof.
  intros (a & Ha & Hu). unfold displacementOf. by rewrite Ha, Nat2Z.id, Hu.
Qed.

(** *** The loop over the sphere elements (lines 559-574) *)

Lemma sphere_loop_run (globalIds : list Z) (reference previous : list Scalar) (dt : Scalar)
    (solution : Tpetra_Vector) (k : Kinematics) (ids : list Z) :
  let n := length globalIds in
  length reference = (3 * n)%nat → length previous = (3 * n)%nat →
  length (positions k) = (3 * n)%nat → length (displacements k) = (3 * n)%nat →
  length (velocities k) = (3 * n)%nat →
  3 * Z.of_nat n ≤ Int.max_signed →
  Z.of_nat (length (getData solution)) ≤ Int.max_signed →
  Forall (sphereReady globalIds solution) ids →
  for_each (setSpherePoint globalIds reference previous dt solution) k ids
  = Ok (foldl put k (sphereUpdate globalIds reference previous dt solution <$> ids)).
Proof.
  intros n HX Hprev HY HU HV Hsmall Hdata Hready.
  rewrite foldl_fmap.
  apply (for_each_foldl _
           (λ k g, put k (sphereUpdate globalIds reference previous dt solution g))
           (λ k', same_lengths k k')); [done|].
  intros k' g Hg (LY & LU & LV).
  rewrite Forall_forall in Hready. destruct (Hready g Hg) as (Hin & u & Hu).
  destruct (LID_present globalIds g Hin) as (l & Hl & Hlook & _).
  apply lookup_lt_Some in Hlook. fold n in Hlook.
  destruct (point_from_is_Some reference (3 * l)) as [x Hx]; [lia|].
  destruct (point_from_is_Some previous (3 * l)) as [p Hp]; [lia|].
  change (point_at reference l = Some x) in Hx.
  change (point_at previous l = Some p) in Hp.
  split.
  - rewrite (setSpherePoint_run globalIds reference previous dt solution k' g l x p u);
      try done; try lia.
    unfold sphereUpdate, put. rewrite Hl, Nat2Z.id.
    rewrite Hx, Hp, (displacementAt_displacementOf _ _ _ Hu). done.
  - destruct (put_lengths k' (sphereUpdate globalIds reference previous dt solution g))
      as (? & ? & ?).
    unfold same_lengths. split_and!; congruence.
Qed.

(** *** The loop over the partial-stress elements (lines 578-651) *)

(** Lines 627-633 for node [i]. *)
Lemma setCellWorksetNode_run (solution : Tpetra_Vector) (initialPositions : list Scalar)
    (cellWorkset : list Point) (i : nat) (node : Z) (x u : Point) :
  Z.of_nat (length initialPositions) ≤ Int.max_signed →
  Z.of_nat (length (getData solution)) ≤ Int.max_signed →
  point_at initialPositions i = Some x →
  displacementAt solution (albanyId node) u →
  (i < length cellWorkset)%nat →
  setCellWorksetNode solution initialPositions cellWorkset (i, node)
  = Ok (<[i := padd x u]> cellWorkset).
Proof.
  intros Hinit Hdata Hx (a & Ha & Hu) Hi.
  unfold setCellWorksetNode. cbn [fst snd]. rewrite Ha.
  pose proof (point_from_length _ _ _ Hx) as Hxlen.
  pose proof (point_from_length _ _ _ Hu) as Hulen.
  destruct (index3_exact i ltac:(lia)) as (-> & -> & ->).
  destruct (offset_exact a ltac:(lia)) as (-> & -> & ->).
  apply point_from_Some in Hx as (Hx0 & Hx1 & Hx2).
  apply point_from_Some in Hu as (Hu0 & Hu1 & Hu2).
  do 6 run_step. by rewrite write_at_in_range.
Qed.

Section PartialStressLoop.
Context `{!Intrepid}.

Lemma cellWorkset_run (solution : Tpetra_Vector) (pse : PartialStressElement) :
  Z.of_nat (length (getData solution)) ≤ Int.max_signed →
  Z.of_nat (length (albanyNodeInitialPositions pse)) ≤ Int.max_signed →
  (length (begin_nodes (albanyElement pse)) ≤ getNodeCount (cellTopologyData pse))%nat →
  (∀ i node, begin_nodes (albanyElement pse) !! i = Some node →
     is_Some (point_at (albanyNodeInitialPositions pse) i)
     ∧ ∃ u, displacementAt solution (albanyId node) u) →
  for_each (setCellWorksetNode solution (albanyNodeInitialPositions pse))
    (replicate (getNodeCount (cellTopologyData pse)) (0, 0, 0)%Qc)
    (imap pair (begin_nodes (albanyElement pse)))
  = Ok (currentCellWorkset solution pse).
Proof.
  intros Hdata Hinit Hcount Hnodes.
  set (nodes := begin_nodes (albanyElement pse)) in *.
  set (N := getNodeCount (cellTopologyData pse)) in *.
  set (F := λ (i : nat) (node : Z),
         padd (pointOr0 (point_at (albanyNodeInitialPositions pse) i))
              (displacementOf solution (albanyId node))).
  destruct (for_each_indexed
              (setCellWorksetNode solution (albanyNodeInitialPositions pse))
              (λ j cw, cw = take j (imap F nodes) ++ replicate (N - j) zeroPoint)
              nodes (replicate N (0, 0, 0)%Qc)) as (cw & Hrun & Hcw).
  - simpl. by rewrite Nat.sub_0_r.
  - intros j node cw Hj ->.
    destruct (Hnodes j node Hj) as ([x Hx] & u & Hu).
    pose proof (lookup_lt_Some _ _ _ Hj) as Hjlt.
    assert (Hlen : length (take j (imap F nodes)) = j).
    { rewrite length_take, length_imap. lia. }
    rewrite (setCellWorksetNode_run _ _ _ j node x u); try done; cycle 1.
    { rewrite length_app, Hlen, length_replicate. lia. }
    eexists. split; [reflexivity|].
    replace (N - j)%nat with (S (N - S j)) by lia. cbn [replicate].
    rewrite <- Hlen at 1. rewrite <- (Nat.add_0_r (length _)), insert_app_r. cbn.
    erewrite (take_S_r (imap F nodes) j); cycle 1.
    { rewrite list_lookup_imap, Hj. reflexivity. }
    rewrite <- app_assoc. cbn. unfold F. rewrite Hx.
    by rewrite (displacementAt_displacementOf _ _ _ Hu).
  - rewrite Hrun. f_equal. rewrite Hcw. unfold currentCellWorkset. fold nodes N F.
    rewrite take_ge by (rewrite length_imap; lia). done.
Qed.

Lemma touchTable_localIdOf (table : gmap Z Z) (gids : list Z) (gid : Z) :
  localIdOf (touchTable table gids) gid = localIdOf table gid.
Proof.
  unfold touchTable. revert table.
  induction gids as [|g gids IH]; intros table; [done|]. simpl.
  rewrite IH. apply map_index_localIdOf.
Qed.

Lemma touchTable_app (table : gmap Z Z) (gids gids' : list Z) :
  touchTable table (gids ++ gids') = touchTable (touchTable table gids) gids'.
Proof. unfold touchTable. apply foldl_app. Qed.

(** The updates depend on the id table through the local ids only. *)
Lemma partialStressUpdates_ext (degree : Z) (reference previous : list Scalar) (dt : Scalar)
    (solution : Tpetra_Vector) (table table' : gmap Z Z) (pse : PartialStressElement) :
  (∀ gid, localIdOf table' gid = localIdOf table gid) →
  partialStressUpdates degree reference previous dt solution table' pse
  = partialStressUpdates degree reference previous dt solution table pse.
Proof.
  intros Hext. unfold partialStressUpdates. apply imap_ext. intros i gid _. cbn.
  by rewrite Hext.
Qed.

(** Lines 638-650: the material points of one element. *)
Lemma partialStressPoints_run (reference previous : list Scalar) (dt : Scalar)
    (physPoints : nat → Point) (table : gmap Z Z) (k : Kinematics) (gids : list Z) (n : nat) :
  length reference = (3 * n)%nat → length previous = (3 * n)%nat →
  length (positions k) = (3 * n)%nat → length (displacements k) = (3 * n)%nat →
  length (velocities k) = (3 * n)%nat →
  3 * Z.of_nat n ≤ Int.max_signed →
  (∀ gid, gid ∈ gids → 0 ≤ localIdOf table gid < Z.of_nat n) →
  for_each (setPartialStressPoint reference previous dt physPoints) (table, k) (imap pair gids)
  = Ok (touchTable table gids,
        foldl put k
          (imap (λ i gid,
                   let l := Z.to_nat (localIdOf table gid) in
                   (l, (physPoints i,
                        psub (physPoints i) (pointOr0 (point_at reference l)),
                        pdiv (psub (physPoints i) (pointOr0 (point_at previous l))) dt)))
                gids)).
Proof.
  intros HX Hprev HY HU HV Hsmall Hids.
  match goal with |- _ = Ok (_, foldl put k ?u) => set (updates := u) end.
  destruct (for_each_indexed
              (setPartialStressPoint reference previous dt physPoints)
              (λ j st, st = (touchTable table (take j gids), foldl put k (take j updates)))
              gids (table, k)) as (st & Hrun & Hst).
  - done.
  - intros j gid st Hj ->.
    set (l := Z.to_nat (localIdOf table gid)).
    assert (Hgid : gid ∈ gids) by (by eapply list_elem_of_lookup_2).
    specialize (Hids gid Hgid).
    destruct (foldl_put_lengths (take j updates) k) as (LY & LU & LV).
    destruct (point_from_is_Some reference (3 * l)) as [x Hx]; [lia|].
    destruct (point_from_is_Some previous (3 * l)) as [p Hp]; [lia|].
    change (point_at reference l = Some x) in Hx.
    change (point_at previous l = Some p) in Hp.
    rewrite (setPartialStressPoint_run reference previous dt physPoints _ _ j gid l x p);
      try done; try lia; cycle 1.
    { rewrite touchTable_localIdOf. unfold l. lia. }
    eexists. split; [reflexivity|].
    rewrite (take_S_r gids j gid Hj), touchTable_app.
    erewrite (take_S_r updates j); cycle 1.
    { unfold updates. rewrite list_lookup_imap, Hj. reflexivity. }
    rewrite foldl_app. cbn. fold l. rewrite Hx, Hp. done.
  - rewrite Hrun, Hst. rewrite !take_ge; [done| |done].
    unfold updates. by rewrite length_imap.
Qed.

(** Lines 578-651: one element. *)
Lemma setPartialStressElement_run (degree : Z) (reference previous : list Scalar) (dt : Scalar)
    (solution : Tpetra_Vector) (table : gmap Z Z) (k : Kinematics)
    (pse : PartialStressElement) (n : nat) :
  length reference = (3 * n)%nat → length previous = (3 * n)%nat →
  length (positions k) = (3 * n)%nat → length (displacements k) = (3 * n)%nat →
  length (velocities k) = (3 * n)%nat →
  3 * Z.of_nat n ≤ Int.max_signed →
  Z.of_nat (length (getData solution)) ≤ Int.max_signed →
  elementReady n solution table pse →
  setPartialStressElement degree reference previous dt solution (table, k) pse
  = Ok (touchTable table (peridigmGlobalIds pse),
        foldl put k (partialStressUpdates degree reference previous dt solution table pse)).
Proof.
  intros HX Hprev HY HU HV Hsmall Hdata (Hcount & Hinit & Hnodes & Hids).
  unfold setPartialStressElement.
  rewrite (cellWorkset_run solution pse Hdata Hinit Hcount Hnodes). cbn [mbind outcome_bind].
  by rewrite (partialStressPoints_run reference previous dt _ table k _ n).
Qed.

Lemma elementReady_ext (n : nat) (solution : Tpetra_Vector) (table table' : gmap Z Z)
    (pse : PartialStressElement) :
  (∀ gid, localIdOf table' gid = localIdOf table gid) →
  elementReady n solution table pse → elementReady n solution table' pse.
Proof.
  intros Hext (? & ? & ? & Hids). split_and!; [done..|].
  intros gid Hgid. rewrite Hext. by apply Hids.
Qed.

Lemma partialStress_loop_run (degree : Z) (reference previous : list Scalar) (dt : Scalar)
    (solution : Tpetra_Vector) (table : gmap Z Z) (k : Kinematics)
    (elements : list PartialStressElement) (n : nat) :
  length reference = (3 * n)%nat → length previous = (3 * n)%nat →
  length (positions k) = (3 * n)%nat → length (displacements k) = (3 * n)%nat →
  length (velocities k) = (3 * n)%nat →
  3 * Z.of_nat n ≤ Int.max_signed →
  Z.of_nat (length (getData solution)) ≤ Int.max_signed →
  Forall (elementReady n solution table) elements →
  for_each (setPartialStressElement degree reference previous dt solution) (table, k) elements
  = Ok (touchTable table (partialStressPointIds elements),
        foldl put k
          (elements ≫= partialStressUpdates degree reference previous dt solution table)).
Proof.
  intros HX Hprev HY HU HV Hsmall Hdata Hready.
  assert (Hgen : ∀ table' k',
            (∀ gid, localIdOf table' gid = localIdOf table gid) → same_lengths k k' →
            for_each (setPartialStressElement degree reference previous dt solution)
              (table', k') elements
            = Ok (touchTable table' (partialStressPointIds elements),
                  foldl put k'
                    (elements ≫= partialStressUpdates degree reference previous dt solution table))).
  { induction Hready as [|pse elements Hpse _ IH]; intros table' k' Hext (LY & LU & LV); [done|].
    cbn [for_each].
    rewrite (setPartialStressElement_run degree reference previous dt solution table' k' pse n);
      try done; try congruence; [|by apply (elementReady_ext n solution table)].
    cbn [mbind outcome_bind]. rewrite IH; cycle 1.
    { intros gid. by rewrite touchTable_localIdOf. }
    { destruct (foldl_put_lengths
                  (partialStressUpdates degree reference previous dt solution table' pse) k')
        as (? & ? & ?).
      unfold same_lengths. split_and!; congruence. }
    unfold partialStressPointIds. rewrite !bind_cons, touchTable_app, foldl_app.
    by rewrite (partialStressUpdates_ext _ _ _ _ _ table table' pse Hext). }
  by apply Hgen.
Qed.

End PartialStressLoop.

(** *** The call *)

Section SetCurrent.
Context `{!Intrepid} `{!PeridigmKernels}.

Lemma setCurrentTimeAndDisplacement_run (time : Scalar) (solution : Tpetra_Vector)
    (s : PeridigmManager) (solver : Peridigm) :
  hasPeridynamics s = true → peridigm s = Some solver →
  solverSized solver (previousSolutionPositions s) →
  Z.of_nat (length (getData solution)) ≤ Int.max_signed →
  Forall (sphereReady (peridigm_globalIds solver) solution) (sphereElementGlobalNodeIds s) →
  Forall (elementReady (length (peridigm_globalIds solver)) solution
            (peridigmGlobalIdToPeridigmLocalId (idTable s))) (partialStressElements s) →
  ∃ s' solver',
    setCurrentTimeAndDisplacement time solution s = Ok s'
    ∧ peridigm s' = Some solver'
    ∧ hasPeridynamics s' = true
    ∧ currentTime s' = time ∧ previousTime s' = previousTime s
    ∧ timeStep s' = timeStepFor time (previousTime s)
    ∧ peridigm_timeStep solver' = timeStepFor time (previousTime s)
    ∧ previousSolutionPositions s' = previousSolutionPositions s
    ∧ peridigm_globalIds solver' = peridigm_globalIds solver
    ∧ getX solver' = getX solver
    ∧ getY solver' = positions (kinematicsAfter time solution s solver)
    ∧ getU solver' = displacements (kinematicsAfter time solution s solver)
    ∧ getV solver' = velocities (kinematicsAfter time solution s solver).
Proof.
  intros Hhas Hsolver (HX & HY & HU & HV & Hprev & Hsmall) Hdata Hspheres Helements.
  set (dt := timeStepFor time (previousTime s)).
  set (k0 := {| positions := getY solver; displacements := getU solver;
                velocities := getV solver |}).
  set (updates := sphereUpdate (peridigm_globalIds solver) (getX solver)
                    (previousSolutionPositions s) dt solution <$> sphereElementGlobalNodeIds s).
  assert (Hloop1 : for_each
            (setSpherePoint (peridigm_globalIds solver) (getX solver)
               (previousSolutionPositions s) dt solution) k0 (sphereElementGlobalNodeIds s)
            = Ok (foldl put k0 updates)).
  { by apply sphere_loop_run. }
  destruct (foldl_put_lengths updates k0) as (LY & LU & LV).
  cbn [positions displacements velocities k0] in LY, LU, LV.
  assert (Hloop2 : for_each
            (setPartialStressElement (cubatureDegree s) (getX solver)
               (previousSolutionPositions s) dt solution)
            (peridigmGlobalIdToPeridigmLocalId (idTable s), foldl put k0 updates)
            (partialStressElements s)
            = Ok (touchTable (peridigmGlobalIdToPeridigmLocalId (idTable s))
                    (partialStressPointIds (partialStressElements s)),
                  kinematicsAfter time solution s solver)).
  { apply (partialStress_loop_run _ _ _ _ _ _ _ _ (length (peridigm_globalIds solver)));
      try done; congruence. }
  unfold setCurrentTimeAndDisplacement. rewrite Hhas, Hsolver. cbv zeta.
  cbn [from_option mbind outcome_bind].
  change (if bool_decide (time - previousTime s ≤ 0)%Qc then 1%Qc
          else (time - previousTime s)%Qc) with dt.
  fold k0. rewrite Hloop1. cbn [mbind outcome_bind]. rewrite Hloop2. cbn [mbind outcome_bind].
  eexists _, _. split; [reflexivity|]. split_and!; reflexivity.
Qed.

End SetCurrent.

(** ** Sphere points after [setCurrentTimeAndDisplacement] *)

Lemma LID_inj (globalIds : list Z) (g g' : Z) :
  g ∈ globalIds → LID globalIds g = LID globalIds g' → g = g'.
Proof.
  intros Hg Heq.
  destruct (LID_present globalIds g Hg) as (l & Hl & Hlook & _).
  destruct (decide (g' ∈ globalIds)) as [Hg'|Hg'].
  - destruct (LID_present globalIds g' Hg') as (l' & Hl' & Hlook' & _).
    assert (l = l') by lia. subst. congruence.
  - rewrite (LID_absent _ _ Hg') in Heq. lia.
Qed.

Lemma timeStepFor_cases (time previous : Scalar) :
  ((time - previous ≤ 0)%Qc → timeStepFor time previous = 1%Qc)
  ∧ ((0 < time - previous)%Qc → timeStepFor time previous = (time - previous)%Qc).
Proof.
  unfold timeStepFor. split; intros Hc.
  - by rewrite bool_decide_eq_true_2.
  - rewrite bool_decide_eq_false_2; [done|]. by apply Qclt_not_le.
Qed.

Section Spheres.
Context `{!Intrepid} `{!PeridigmKernels}.
Import Examples.

(** The updates of the partial-stress loop name the local ids of the
    material points. *)
Lemma partialStressUpdates_ids (degree : Z) (reference previous : list Scalar) (dt : Scalar)
    (solution : Tpetra_Vector) (table : gmap Z Z) (elements : list PartialStressElement)
    (w : PointUpdate) :
  w ∈ elements ≫= partialStressUpdates degree reference previous dt solution table →
  ∃ pse i gid, pse ∈ elements ∧ peridigmGlobalIds pse !! i = Some gid
    ∧ w.1 = Z.to_nat (localIdOf table gid)
    ∧ w.2.1.1 = mapToPhysicalFrame (getCubature (cellTopologyData pse) degree).*1
                  (currentCellWorkset solution pse) (cellTopologyData pse) i
    ∧ w.2.1.2 = psub w.2.1.1 (pointOr0 (point_at reference w.1))
    ∧ w.2.2 = pdiv (psub w.2.1.1 (pointOr0 (point_at previous w.1))) dt.
Proof.
  intros Hw. apply list_elem_of_bind in Hw as (pse & Hw & Hpse).
  unfold partialStressUpdates in Hw. apply list_elem_of_lookup in Hw as (i & Hi).
  rewrite list_lookup_imap in Hi.
  destruct (peridigmGlobalIds pse !! i) as [gid|] eqn:Hgid; [|done].
  injection Hi as <-. exists pse, i, gid. done.
Qed.


End Spheres.

Section SpheresWitness.
Import LinearTet Examples.




End SpheresWitness.

(** ** The zero displacement field *)

Lemma padd_zero (x : Point) : padd x zeroPoint = x.
Proof. destruct x as [[a b] c]. unfold padd, zeroPoint. cbn. repeat f_equal; ring. Qed.

Lemma psub_diag (x : Point) : psub x x = zeroPoint.
Proof. destruct x as [[a b] c]. unfold psub, zeroPoint. cbn. repeat f_equal; ring. Qed.

Lemma pdiv_zero (dt : Scalar) : pdiv zeroPoint dt = zeroPoint.
Proof. unfold pdiv, zeroPoint, Qcdiv. cbn. repeat f_equal; ring. Qed.

Lemma point_from_zero (v : list Scalar) (j : nat) :
  Forall (λ d, d = 0%Qc) v → pointOr0 (point_from v j) = zeroPoint.
Proof.
  intros Hzero. destruct (point_from v j) as [u|] eqn:Hu; [|done]. simpl.
  apply point_from_Some in Hu as (H0 & H1 & H2).
  rewrite Forall_lookup in Hzero.
  apply Hzero in H0, H1, H2. destruct u as [[a b] c]. cbn in *. by subst.
Qed.

Lemma displacementOf_zero (solution : Tpetra_Vector) (g : Z) :
  Forall (λ d, d = 0%Qc) (getData solution) → displacementOf solution g = zeroPoint.
Proof. intros Hzero. unfold displacementOf. by apply point_from_zero. Qed.

Section RoundTrip.
Context `{!Intrepid} `{!PeridigmKernels}.

Lemma currentCellWorkset_zero (solution : Tpetra_Vector) (pse : PartialStressElement) :
  Forall (λ d, d = 0%Qc) (getData solution) →
  currentCellWorkset solution pse = initialCellWorkset pse.
Proof.
  intros Hzero. unfold currentCellWorkset, initialCellWorkset. f_equal.
  apply imap_ext. intros i node _. cbn.
  by rewrite (displacementOf_zero solution _ Hzero), padd_zero.
Qed.

(** With a zero displacement field and the previous positions at the
    reference positions every update stores the reference position and no
    displacement and velocity. *)
Lemma sphereUpdate_zero (globalIds : list Z) (reference : list Scalar) (dt : Scalar)
    (solution : Tpetra_Vector) (g : Z) :
  Forall (λ d, d = 0%Qc) (getData solution) →
  let w := sphereUpdate globalIds reference reference dt solution g in
  w.2 = (pointOr0 (point_at reference w.1), zeroPoint, zeroPoint).
Proof.
  intros Hzero. unfold sphereUpdate. cbn.
  rewrite (displacementOf_zero solution g Hzero), padd_zero, psub_diag, pdiv_zero. done.
Qed.

Lemma partialStressUpdates_zero (degree : Z) (reference : list Scalar) (dt : Scalar)
    (solution : Tpetra_Vector) (table : gmap Z Z) (elements : list PartialStressElement)
    (w : PointUpdate) :
  Forall (λ d, d = 0%Qc) (getData solution) →
  Forall (referencePositionsMapped degree reference table) elements →
  w ∈ elements ≫= partialStressUpdates degree reference reference dt solution table →
  w.2 = (pointOr0 (point_at reference w.1), zeroPoint, zeroPoint).
Proof.
  intros Hzero Hmapped Hw.
  apply partialStressUpdates_ids in Hw
    as (pse & i & gid & Hpse & Hgid & Hw1 & HwY & HwU & HwV).
  rewrite Forall_forall in Hmapped. specialize (Hmapped pse Hpse i gid Hgid).
  rewrite <- Hw1, <- (currentCellWorkset_zero solution pse Hzero), <- HwY in Hmapped.
  rewrite Hmapped in HwU, HwV. cbn in HwU, HwV.
  rewrite psub_diag in HwU, HwV. rewrite pdiv_zero in HwV.
  destruct w as [l [[y u] v]]. cbn in *. rewrite Hmapped. cbn. by subst.
Qed.

(** X5: the round trip on a state whose solver holds, for every partial-stress
    point, the image of its quadrature point as reference position
    ([referencePositionsMapped]): with an all-zero mesh displacement vector
    and the previous solution positions still at the reference positions,
    every peridynamic point, sphere or partial-stress quadrature point, ends
    with its current position at its reference position and with zero
    velocity; with [time > previousTime] the time step is their
    difference. *)
Theorem zero_displacement_round_trip (time : Scalar) (solution : Tpetra_Vector)
    (s : PeridigmManager) (solver : Peridigm) :
  hasPeridynamics s = true → peridigm s = Some solver →
  solverSized solver (previousSolutionPositions s) →
  Z.of_nat (length (getData solution)) ≤ Int.max_signed →
  Forall (sphereReady (peridigm_globalIds solver) solution) (sphereElementGlobalNodeIds s) →
  Forall (elementReady (length (peridigm_globalIds solver)) solution
            (peridigmGlobalIdToPeridigmLocalId (idTable s))) (partialStressElements s) →
  Forall (λ d, d = 0%Qc) (getData solution) →
  previousSolutionPositions s = getX solver →
  Forall (referencePositionsMapped (cubatureDegree s) (getX solver)
            (peridigmGlobalIdToPeridigmLocalId (idTable s))) (partialStressElements s) →
  (previousTime s < time)%Qc →
  ∃ s' solver',
    setCurrentTimeAndDisplacement time solution s = Ok s'
    ∧ peridigm s' = Some solver'
    ∧ getX solver' = getX solver
    ∧ timeStep s' = (time - previousTime s)%Qc
    ∧ (∀ g, g ∈ sphereElementGlobalNodeIds s →
         ∃ l x, LID (peridigm_globalIds solver) g = Z.of_nat l
           ∧ point_at (getX solver') l = Some x
           ∧ point_at (getY solver') l = Some x
           ∧ point_at (getV solver') l = Some zeroPoint)
    ∧ (∀ pse gid, pse ∈ partialStressElements s → gid ∈ peridigmGlobalIds pse →
         ∃ l x, localIdOf (peridigmGlobalIdToPeridigmLocalId (idTable s)) gid = Z.of_nat l
           ∧ point_at (getX solver') l = Some x
           ∧ point_at (getY solver') l = Some x
           ∧ point_at (getV solver') l = Some zeroPoint).
Proof.
  intros Hhas Hsolver Hsized Hdata Hspheres Helements Hzero Hprev Hmapped Htime.
  destruct (setCurrentTimeAndDisplacement_run time solution s solver)
    as (s' & solver' & Hrun & Hs' & _ & _ & _ & Hdt & _ & _ & _ & HX' & HY & _ & HV);
    try done.
  destruct Hsized as (HX & HY0 & HU0 & HV0 & _ & Hsmall).
  assert (Hpos : (0 < time - previousTime s)%Qc).
  { apply Qclt_minus_iff in Htime. exact Htime. }
  destruct (timeStepFor_cases time (previousTime s)) as [_ Hgt].
  exists s', solver'. split_and!; [done|done|done|by rewrite Hdt, Hgt| |].
  all: rewrite HX', HY, HV; unfold kinematicsAfter; rewrite Hprev, <- foldl_app.
  all: set (dt := timeStepFor time (previousTime s)).
  all: set (k0 := {| positions := getY solver; displacements := getU solver;
                     velocities := getV solver |}).
  all: set (A := sphereUpdate _ _ _ _ _ <$> _).
  all: set (B := _ ≫= _).
  all: assert (Hvalues : ∀ w, w ∈ A ++ B →
                w.2 = (pointOr0 (point_at (getX solver) w.1), zeroPoint, zeroPoint)).
  1, 3: intros w Hw; apply elem_of_app in Hw as [Hw|Hw];
        [ apply list_elem_of_fmap in Hw as (g & -> & _); by apply sphereUpdate_zero
        | by eapply partialStressUpdates_zero ].
  all: assert (Hpoint : ∀ w, w ∈ A ++ B → (w.1 < length (peridigm_globalIds solver))%nat →
                ∃ x, point_at (getX solver) w.1 = Some x
                  ∧ point_at (positions (foldl put k0 (A ++ B))) w.1 = Some x
                  ∧ point_at (velocities (foldl put k0 (A ++ B))) w.1 = Some zeroPoint).
  1, 3: intros w Hw Hrange;
        destruct (point_from_is_Some (getX solver) (3 * w.1)) as [x Hx]; [lia|];
        change (point_at (getX solver) w.1 = Some x) in Hx;
        exists x; split; [done|];
        destruct (foldl_put_values (A ++ B) k0 w) as (HYw & _ & HVw);
          [ done
          | intros w' Hw' Heq; rewrite (Hvalues w Hw), (Hvalues w' Hw'), Heq; done
          | cbn; lia | cbn; lia | cbn; lia | ];
        rewrite (Hvalues w Hw), Hx in HYw, HVw; done.
  - intros g Hg. rewrite Forall_forall in Hspheres.
    destruct (Hspheres g Hg) as (Hin & _).
    destruct (LID_present _ _ Hin) as (l & Hl & Hlook & _).
    apply lookup_lt_Some in Hlook.
    set (w := sphereUpdate (peridigm_globalIds solver) (getX solver) (getX solver) dt solution g).
    assert (Hw1 : w.1 = l) by (unfold w, sphereUpdate; cbn; rewrite Hl; lia).
    destruct (Hpoint w) as (x & Hx & HYx & HVx).
    { apply elem_of_app. left. apply list_elem_of_fmap. by exists g. }
    { lia. }
    rewrite Hw1 in Hx, HYx, HVx. by exists l, x.
  - intros pse gid Hpse Hgid. rewrite Forall_forall in Helements.
    destruct (Helements pse Hpse) as (_ & _ & _ & Hrange). specialize (Hrange gid Hgid).
    apply list_elem_of_lookup in Hgid as (i & Hi).
    set (l := Z.to_nat (localIdOf (peridigmGlobalIdToPeridigmLocalId (idTable s)) gid)).
    assert (Hw : ∃ w, w ∈ B ∧ w.1 = l).
    { eexists. split.
      - apply list_elem_of_bind. exists pse. split; [|done].
        unfold partialStressUpdates. eapply elem_of_lookup_imap_2. exact Hi.
      - done. }
    destruct Hw as (w & HwB & Hw1).
    destruct (Hpoint w) as (x & Hx & HYx & HVx).
    { apply elem_of_app. by right. }
    { lia. }
    rewrite Hw1 in Hx, HYx, HVx. exists l, x. split; [unfold l; lia|done].
Qed.

End RoundTrip.

Section RoundTripWitness.
Import LinearTet Examples.

Example zero_displacement_round_trip_tet :
  ∃ s' solver',
    setCurrentTimeAndDisplacement 1%Qc zeroSolution tetState = Ok s'
    ∧ peridigm s' = Some solver'
    ∧ timeStep s' = (1 - 0)%Qc
    ∧ point_at (getX solver') 0 = Some (qc 1 4, qc 1 4, qc 1 4)
    ∧ point_at (getY solver') 0 = Some (qc 1 4, qc 1 4, qc 1 4)
    ∧ point_at (getV solver') 0 = Some zeroPoint.
Proof.
  destruct (zero_displacement_round_trip 1%Qc zeroSolution tetState tetSolver)
    as (s' & solver' & Hrun & Hsolver & HX & Hdt & _ & Hpoint).
  - reflexivity.
  - reflexivity.
  - unfold solverSized. cbn. unfold Int.max_signed. lia.
  - cbn. unfold Int.max_signed. lia.
  - constructor.
  - constructor; [|constructor]. split_and!.
    + cbn. lia.
    + cbn. unfold Int.max_signed. lia.
    + intros i node Hi. cbn in Hi.
      destruct i as [|[|[|[|i]]]]; cbn in Hi; try discriminate; injection Hi as <-;
        (split; [by eexists|]).
      * exists zeroPoint, 0%nat. split; reflexivity.
      * exists zeroPoint, 3%nat. split; reflexivity.
      * exists zeroPoint, 6%nat. split; reflexivity.
      * exists zeroPoint, 9%nat. split; reflexivity.
    + intros gid Hgid. cbn in Hgid. apply list_elem_of_singleton in Hgid as ->.
      vm_compute. split; [discriminate|reflexivity].
  - repeat constructor.
  - reflexivity.
  - constructor; [|constructor]. intros i gid Hi. cbn in Hi.
    destruct i as [|i]; cbn in Hi; [|discriminate]. injection Hi as <-.
    vm_compute. reflexivity.
  - reflexivity.
  - destruct (Hpoint tetElement 5) as (l & x & Hl & Hx & HY & HV).
    + cbn. apply list_elem_of_singleton. reflexivity.
    + cbn. apply list_elem_of_singleton. reflexivity.
    + change (0 = Z.of_nat l) in Hl. assert (l = 0%nat) as -> by lia.
      assert (x = (qc 1 4, qc 1 4, qc 1 4)) as ->.
      { rewrite HX in Hx. vm_compute in Hx. injection Hx as <-. reflexivity. }
      exists s', solver'. split_and!; [exact Hrun|exact Hsolver|exact Hdt|exact Hx|exact HY|exact HV].
Defined.

End RoundTripWitness.
(** ** The round trip when a material point shares its id with a node

    [twoBlockMesh] has the largest Albany element id 4 and the largest Albany
    node id 5 = 4 + 1, so lines 166-168 reserve the ids from 5 on and the
    material point of the tetrahedron receives the global id 5 of the
    sphere's node.  The registration at line 195 redirects the id table's
    entry of 5 to the material point's local id 1, and in the second pass the
    sphere block, which comes after the partial-stress block, stores its
    block id, volume and coordinates at that local id (line 254). *)

Section Collision.
Import LinearTet Examples.

(** C8: on [twoBlockMesh], with the previous solution positions still the
    initial positions, an all-zero displacement vector and time 1 after the
    previous time 0, [setCurrentTimeAndDisplacement] leaves the material
    point of the tetrahedron (global id 5, local id 1) at the current
    position (1/4,1/4,1/4), which is not its reference position (2,2,2) in
    the solver, with the velocity (-7/4,-7/4,-7/4), which is not zero. *)
Theorem round_trip_fails_on_colliding_ids :
  ∃ s solver s' solver',
    initialize twoBlockParams (Some twoBlockMesh) singleRank PeridigmManager_new = Ok s
    ∧ hasPeridynamics s = true
    ∧ peridigm s = Some solver
    ∧ previousTime s = 0%Qc
    ∧ previousSolutionPositions s = getX solver
    ∧ sphereElementGlobalNodeIds s = [5]
    ∧ peridigmGlobalIds <$> partialStressElements s = [[5]]
    ∧ peridigmNodeGlobalIds (idTable s) = [5; 5]
    ∧ localIdOf (peridigmGlobalIdToPeridigmLocalId (idTable s)) 5 = 1
    ∧ setCurrentTimeAndDisplacement 1%Qc zeroSolutionAllNodes s = Ok s'
    ∧ peridigm s' = Some solver'
    ∧ timeStep s' = 1%Qc
    ∧ point_at (getX solver') 1 = Some (2, 2, 2)%Qc
    ∧ point_at (getY solver') 1 = Some (qc 1 4, qc 1 4, qc 1 4)
    ∧ point_at (getV solver') 1 = Some (qc (-7) 4, qc (-7) 4, qc (-7) 4).
Proof.
  destruct (initialize twoBlockParams (Some twoBlockMesh) singleRank PeridigmManager_new)
    as [s| |] eqn:Hinit; vm_compute in Hinit; try discriminate.
  injection Hinit as <-.
  eexists _, _, _, _.
  do 9 (split; [reflexivity|]).
  split; [vm_compute; reflexivity|].
  split_and!; vm_compute; reflexivity.
Qed.

End Collision.

(** ** Outcomes of sequenced calls *)

Lemma bind_Ok {A B} (m : outcome A) (k : A → outcome B) (b : B) :
  m ≫= k = Ok b ↔ ∃ a, m = Ok a ∧ k a = Ok b.
Proof.
  destruct m as [a| |]; cbn; split; try done.
  - intros Hk. by exists a.
  - by intros (a' & [= <-] & Hk).
  - by intros (? & ? & _).
  - by intros (? & ? & _).
Qed.

Lemma bind_Fatal {A B} (m : outcome A) (k : A → outcome B) (f : failure) :
  m ≫= k = Fatal f ↔ m = Fatal f ∨ ∃ a, m = Ok a ∧ k a = Fatal f.
Proof.
  destruct m as [a| |]; cbn; split; try done.
  - intros Hk. right. by exists a.
  - intros [?|(a' & [= <-] & Hk)]; done.
  - intros [= ->]. by left.
  - intros [[= ->]|(? & ? & _)]; done.
  - intros [?|(? & ? & _)]; done.
Qed.

Lemma test_for_except_Ok (cond : bool) (f : failure) (u : unit) :
  test_for_except cond f = Ok u ↔ cond = false.
Proof. destruct cond, u; cbn; split; done. Qed.

Lemma test_for_except_Fatal (cond : bool) (f f' : failure) :
  test_for_except cond f = Fatal f' ↔ cond = true ∧ f' = f.
Proof.
  destruct cond; cbn; split; try done.
  - intros [= ->]. done.
  - intros [_ ->]. done.
  - intros [? _]. done.
Qed.

(** What holds before a loop and is kept by every iteration that returns
    holds when the loop returns. *)
Lemma for_each_Ok_inv {A St} (body : St → A → outcome St) (Inv : St → Prop)
    (l : list A) (s s' : St) :
  Inv s →
  (∀ s a s', a ∈ l → Inv s → body s a = Ok s' → Inv s') →
  for_each body s l = Ok s' → Inv s'.
Proof.
  revert s. induction l as [|a l IH]; intros s Hs Hstep Hrun.
  - cbn in Hrun. by injection Hrun as <-.
  - cbn in Hrun. apply bind_Ok in Hrun as (s1 & Hbody & Hrun).
    apply (IH s1); [|intros ? ? ? ?; apply Hstep; by right|done].
    apply (Hstep s a); [by left|done|done].
Qed.

(** A failure no iteration raises is not raised by the loop. *)
Lemma for_each_not_Fatal {A St} (body : St → A → outcome St) (Inv : St → Prop)
    (f : failure) (l : list A) (s : St) :
  Inv s →
  (∀ s a, a ∈ l → Inv s → body s a ≠ Fatal f ∧ ∀ s', body s a = Ok s' → Inv s') →
  for_each body s l ≠ Fatal f.
Proof.
  revert s. induction l as [|a l IH]; intros s Hs Hstep; [done|].
  cbn. intros Hrun. apply bind_Fatal in Hrun as [Hbody|(s1 & Hbody & Hrun)].
  - destruct (Hstep s a) as [Hno _]; [by left|done|]. by apply Hno.
  - apply (IH s1); [|intros ? ? ?; apply Hstep; by right|done].
    destruct (Hstep s a) as [_ Hinv]; [by left|done|]. by apply Hinv.
Qed.

(** ** [initialize] without peridynamic blocks *)

Section NoBlocks.
Context `{!Intrepid} `{!PeridigmKernels}.

Lemma withoutPeridynamics_intro (s : PeridigmManager) :
  hasPeridynamics s = false → withoutPeridynamics s.
Proof.
  intros Hno. unfold withoutPeridynamics, setCurrentTimeAndDisplacement, updateState,
    evaluateInternalForce, getForce. rewrite Hno. done.
Qed.

(** Lines 95-157 for a block of a classical material model. *)
Lemma pass1_block_classical (db : option (string → string))
    (topologies : gmap string CellTopologyData) (degree : Z) (st : Pass1) (part : Part) :
  materialModelNameOf db (part_name part) ≠ "Peridynamics" →
  materialModelNameOf db (part_name part) ≠ "Peridynamic Partial Stress" →
  (∀ st', pass1_block db topologies degree st part = Ok st' →
     p1_idTable st' = p1_idTable st
     ∧ p1_peridynamicsBlocks st' = p1_peridynamicsBlocks st
     ∧ p1_peridynamicPartialStressBlocks st' = p1_peridynamicPartialStressBlocks st
     ∧ p1_numPartialStressIds st' = p1_numPartialStressIds st)
  ∧ (∀ bId, parseBlockId (part_name part) = Ok bId →
     ∃ st', pass1_block db topologies degree st part = Ok st').
Proof.
  intros Hno1 Hno2. unfold pass1_block.
  rewrite !decide_False by done.
  destruct (parseBlockId (part_name part)) as [bId| |]; cbn; split; try done.
  - by intros st' [= <-].
  - intros ? _. eauto.
Qed.

Lemma pass1_classical (params : Params) (degree : Z) (disc : STKDiscretization)
    (s : PeridigmManager) :
  noPeridynamicBlocks params disc →
  (∀ p1, pass1 (materialDataBase params) degree (get_parts disc) s = Ok p1 →
     p1_idTable p1 = idTable s
     ∧ p1_peridynamicsBlocks p1 = []
     ∧ p1_peridynamicPartialStressBlocks p1 = []
     ∧ p1_numPartialStressIds p1 = 0)
  ∧ ((∀ part, part ∈ stkElementBlocks (get_parts disc) →
        ∃ bId, parseBlockId (part_name part) = Ok bId) →
     ∃ p1, pass1 (materialDataBase params) degree (get_parts disc) s = Ok p1).
Proof.
  intros Hno. unfold pass1. split.
  - intros p1 Hrun.
    refine (for_each_Ok_inv _
              (λ st, p1_idTable st = idTable s ∧ p1_peridynamicsBlocks st = []
                     ∧ p1_peridynamicPartialStressBlocks st = []
                     ∧ p1_numPartialStressIds st = 0) _ _ _ _ _ Hrun); [done|].
    intros st part st' Hpart (H1 & H2 & H3 & H4) Hbody.
    destruct (Hno part Hpart) as [Hno1 Hno2].
    destruct (proj1 (pass1_block_classical _ _ _ st part Hno1 Hno2) st' Hbody)
      as (-> & -> & -> & ->). done.
  - intros Hparse.
    destruct (for_each_inv
                (pass1_block (materialDataBase params) (partCellTopologyData (get_parts disc)) degree)
                (λ _ _, True) (stkElementBlocks (get_parts disc)) (pass1_start s))
      as (p1 & Hrun & _); [done| |by exists p1].
    intros passed part rest st Hsplit _.
    assert (Hpart : part ∈ stkElementBlocks (get_parts disc)).
    { rewrite Hsplit. apply elem_of_app. right. by left. }
    destruct (Hno part Hpart) as [Hno1 Hno2]. destruct (Hparse part Hpart) as [bId HbId].
    destruct (proj2 (pass1_block_classical (materialDataBase params)
                       (partCellTopologyData (get_parts disc)) degree st part Hno1 Hno2)
                bId HbId) as [st' Hst'].
    by exists st'.
Qed.

(** C10: with the Peridigm parameter list present but no block of a
    peridynamic material model, [initialize], when it returns, has set
    [hasPeridynamics] to false and has not built the solver; it returns
    whenever the mesh is a three-dimensional STK mesh with a coordinates
    field whose block names parse.  The manager then behaves as when the
    parameter list is absent: [setCurrentTimeAndDisplacement], [updateState]
    and [evaluateInternalForce] leave it as it is and [getForce] is 0.0. *)
Theorem initialize_without_peridynamic_blocks (params : Params) (disc : STKDiscretization)
    (comm : Comm) (s : PeridigmManager) :
  hasPeridigmParameters params = true →
  noPeridynamicBlocks params disc →
  (∀ s', initialize params (Some disc) comm s = Ok s' →
     peridigm s' = peridigm s ∧ withoutPeridynamics s')
  ∧ (spatial_dimension disc = 3 → is_Some (coordinatesField disc) →
     (∀ part, part ∈ stkElementBlocks (get_parts disc) →
        ∃ bId, parseBlockId (part_name part) = Ok bId) →
     ∃ s', initialize params (Some disc) comm s = Ok s')
  ∧ (∀ params' disc', hasPeridigmParameters params' = false →
     ∃ s0, initialize params' disc' comm s = Ok s0
       ∧ peridigm s0 = peridigm s ∧ withoutPeridynamics s0).
Proof.
  intros Hparams Hno.
  destruct (pass1_classical params (default 2 (cubatureDegreeParam params)) disc s Hno)
    as [Hp1 Hp1run].
  split_and!.
  - intros s'. unfold initialize. rewrite Hparams. cbn [negb from_option].
    cbn [mbind outcome_bind].
    destruct (bool_decide (spatial_dimension disc ≠ 3)); [done|].
    cbn [test_for_except mbind outcome_bind].
    destruct (coordinatesField disc) as [coordinates|]; [|done].
    cbn [from_option mbind outcome_bind].
    destruct (pass1 _ _ _ s) as [p1| |] eqn:Hrun; [|done..].
    cbn [mbind outcome_bind].
    destruct (Hp1 p1 eq_refl) as (Htable & Hblocks & Hps & Hnum).
    destruct (registerPartialStressIds _ _) as [table localIds].
    rewrite bool_decide_eq_true_2 by done.
    intros [= <-]. split; [done|]. by apply withoutPeridynamics_intro.
  - intros Hdim [coordinates Hcoords] Hparse.
    destruct (Hp1run Hparse) as [p1 Hrun].
    destruct (Hp1 p1 Hrun) as (Htable & Hblocks & Hps & Hnum).
    unfold initialize. rewrite Hparams. cbn [negb from_option mbind outcome_bind].
    rewrite bool_decide_eq_false_2 by (intros ?; done).
    cbn [test_for_except mbind outcome_bind]. rewrite Hcoords.
    cbn [from_option mbind outcome_bind]. rewrite Hrun. cbn [mbind outcome_bind].
    destruct (registerPartialStressIds _ _) as [table localIds].
    rewrite bool_decide_eq_true_2 by done. eauto.
  - intros params' disc' Hparams'. unfold initialize. rewrite Hparams'. cbn [negb].
    eexists. split; [reflexivity|]. split; [done|]. by apply withoutPeridynamics_intro.
Qed.

End NoBlocks.

Section NoBlocksWitness.
Import LinearTet Examples.

Lemma initialize_without_peridynamic_blocks_witness :
  ∃ s', initialize (params "Elastic") (Some (tetMesh (0, 0, 1)%Qc)) singleRank PeridigmManager_new
        = Ok s'
    ∧ peridigm s' = None
    ∧ withoutPeridynamics s'.
Proof.
  assert (Hno : noPeridynamicBlocks (params "Elastic") (tetMesh (0, 0, 1)%Qc)).
  { intros part Hpart. cbn in *. split; discriminate. }
  destruct (initialize_without_peridynamic_blocks (params "Elastic") (tetMesh (0, 0, 1)%Qc)
              singleRank PeridigmManager_new eq_refl Hno) as (Hinert & Hruns & _).
  destruct Hruns as [s' Hrun].
  - reflexivity.
  - cbn. eauto.
  - intros part Hpart. cbn in Hpart. apply list_elem_of_singleton in Hpart as ->.
    exists 1. reflexivity.
  - exists s'. split; [exact Hrun|]. exact (Hinert s' Hrun).
Defined.

End NoBlocksWitness.

(** ** Lookups in the id table *)

Lemma map_index_absent `{Countable K} {V} (dflt : V) (m : gmap K V) (k : K) :
  m !! k = None → map_index dflt m k = (dflt, <[k := dflt]> m).
Proof. intros Hk. unfold map_index. by rewrite Hk. Qed.

Lemma map_index_present `{Countable K} {V} (dflt : V) (m : gmap K V) (k : K) (v : V) :
  m !! k = Some v → map_index dflt m k = (v, m).
Proof. intros Hk. unfold map_index. by rewrite Hk. Qed.

Lemma map_index_noInvalidLocalId (table : gmap Z Z) (gid : Z) :
  noInvalidLocalId table →
  (map_index 0 table gid).1 ≠ -1 ∧ noInvalidLocalId (map_index 0 table gid).2.
Proof.
  intros Hinv. unfold map_index. destruct (table !! gid) as [v|] eqn:Hv; cbn.
  - split; [|done]. by apply (Hinv gid v).
  - split; [done|]. apply map_Forall_insert_2; done.
Qed.

Lemma of_size_not_minus_one (n : nat) : Z.of_nat n < 4294967295 → Int.of_size n ≠ -1.
Proof.
  intros Hn. unfold Int.of_size, Int.wrap.
  destruct (decide (Z.of_nat n < 2147483648)).
  - rewrite Z.mod_small by lia. lia.
  - replace (Z.of_nat n + 2147483648) with (Z.of_nat n - 2147483648 + 1 * 4294967296) by lia.
    rewrite Z.mod_add by lia. rewrite Z.mod_small by lia. lia.
Qed.

Lemma registerId_spec (t : IdTable) (globalId : Z) :
  length (peridigmNodeGlobalIds (registerId t globalId).2)
  = S (length (peridigmNodeGlobalIds t))
  ∧ (noInvalidLocalId (peridigmGlobalIdToPeridigmLocalId t) →
     Z.of_nat (length (peridigmNodeGlobalIds t)) < 4294967295 →
     noInvalidLocalId (peridigmGlobalIdToPeridigmLocalId (registerId t globalId).2)).
Proof.
  unfold registerId. cbn. split.
  - rewrite length_app. cbn. lia.
  - intros Hinv Hn. apply map_Forall_insert_2; [|done]. by apply of_size_not_minus_one.
Qed.

(** The loop rule for loops that return, with the items already passed. *)
Lemma for_each_Ok_passed {A St} (body : St → A → outcome St) (Inv : list A → St → Prop)
    (l : list A) (s s' : St) :
  Inv [] s →
  (∀ passed a rest s s', l = passed ++ a :: rest → Inv passed s → body s a = Ok s' →
     Inv (passed ++ [a]) s') →
  for_each body s l = Ok s' → Inv l s'.
Proof.
  intros H0 Hstep.
  assert (Hgen : ∀ rest passed s, l = passed ++ rest → Inv passed s →
            for_each body s rest = Ok s' → Inv l s').
  { induction rest as [|a rest IH]; intros passed s1 Hl Hinv Hrun.
    - cbn in Hrun. injection Hrun as <-. rewrite app_nil_r in Hl. by subst.
    - cbn in Hrun. apply bind_Ok in Hrun as (s2 & Hbody & Hrun).
      apply (IH (passed ++ [a]) s2); [by rewrite <- app_assoc| |done].
      by apply (Hstep passed a rest s1). }
  by apply (Hgen l []).
Qed.

(** *** Pass 1 registers below 2^32 - 1 points *)

Lemma registerSphereElement_spec (t t' : IdTable) (e : Element) :
  registerSphereElement t e = Ok t' →
  length (peridigmNodeGlobalIds t') = S (length (peridigmNodeGlobalIds t))
  ∧ (noInvalidLocalId (peridigmGlobalIdToPeridigmLocalId t) →
     Z.of_nat (length (peridigmNodeGlobalIds t)) < 4294967295 →
     noInvalidLocalId (peridigmGlobalIdToPeridigmLocalId t')).
Proof.
  unfold registerSphereElement. intros Hrun.
  apply bind_Ok in Hrun as (_ & _ & Hrun). apply bind_Ok in Hrun as (node & _ & Hrun).
  injection Hrun as <-. apply registerId_spec.
Qed.

Lemma registerSphereElement_failure (t : IdTable) (e : Element) (f : failure) :
  registerSphereElement t e = Fatal f → f = MultipleNodesPerElement.
Proof.
  unfold registerSphereElement. intros Hrun.
  apply bind_Fatal in Hrun as [Hrun|(_ & _ & Hrun)].
  - by apply test_for_except_Fatal in Hrun as [_ ->].
  - apply bind_Fatal in Hrun as [Hrun|(node & _ & Hrun)]; [|done].
    by apply read_at_not_Fatal in Hrun.
Qed.

Lemma registerSphereElements_spec (elements : list Element) (t t' : IdTable) :
  for_each registerSphereElement t elements = Ok t' →
  length (peridigmNodeGlobalIds t') = (length (peridigmNodeGlobalIds t) + length elements)%nat
  ∧ (noInvalidLocalId (peridigmGlobalIdToPeridigmLocalId t) →
     Z.of_nat (length (peridigmNodeGlobalIds t) + length elements) ≤ 4294967295 →
     noInvalidLocalId (peridigmGlobalIdToPeridigmLocalId t')).
Proof.
  revert t. induction elements as [|e elements IH]; intros t Hrun.
  - cbn in Hrun. injection Hrun as <-. split; [cbn; lia|done].
  - cbn in Hrun. apply bind_Ok in Hrun as (t1 & He & Hrun).
    destruct (registerSphereElement_spec t t1 e He) as [Hlen Hinv].
    destruct (IH t1 Hrun) as [Hlen' Hinv']. split.
    + rewrite Hlen', Hlen. cbn. lia.
    + intros Ht Hbound. cbn in Hbound. apply Hinv'; [apply Hinv; [done|lia]|]. lia.
Qed.

Lemma for_each_failure {A St} (body : St → A → outcome St) (P : failure → Prop)
    (l : list A) (s : St) (f : failure) :
  (∀ s a f, a ∈ l → body s a = Fatal f → P f) →
  for_each body s l = Fatal f → P f.
Proof.
  revert s. induction l as [|a l IH]; intros s Hbody Hrun; [done|].
  cbn in Hrun. apply bind_Fatal in Hrun as [Hrun|(s1 & _ & Hrun)].
  - apply (Hbody s a f); [by left|done].
  - apply (IH s1); [|done]. intros ? ? ? ?. apply Hbody. by right.
Qed.

(** *** Which failures the passes of [initialize] raise *)

Ltac fatal_cases H :=
  repeat first
    [ apply bind_Fatal in H as [H|(? & ? & H)]
    | apply test_for_except_Fatal in H as [? ->]
    | by apply read_at_not_Fatal in H
    | by apply write_at_not_Fatal in H
    | discriminate H ].

Lemma write_point_not_Fatal (v : list Scalar) (l : Z) (p : Point) (f : failure) :
  write_point v l p ≠ Fatal f.
Proof. unfold write_point. intros H. fatal_cases H. Qed.

Section Passes.
Context `{!Intrepid} `{!PeridigmKernels}.

Lemma pass1_block_spec (db : option (string → string))
    (topologies : gmap string CellTopologyData) (degree : Z) (st : Pass1) (part : Part) :
  (∀ f, pass1_block db topologies degree st part = Fatal f →
     f = InvalidBlockName (part_name part) ∨ f = MultipleNodesPerElement)
  ∧ (∀ st', pass1_block db topologies degree st part = Ok st' →
       (length (peridigmNodeGlobalIds (p1_idTable st'))
        ≤ length (peridigmNodeGlobalIds (p1_idTable st))
          + length (locally_owned_elements part))%nat
       ∧ (Int.in_range (p1_numPartialStressIds st) → Int.in_range (p1_numPartialStressIds st'))
       ∧ (noInvalidLocalId (peridigmGlobalIdToPeridigmLocalId (p1_idTable st)) →
          Z.of_nat (length (peridigmNodeGlobalIds (p1_idTable st))
                    + length (locally_owned_elements part)) ≤ 4294967295 →
          noInvalidLocalId (peridigmGlobalIdToPeridigmLocalId (p1_idTable st')))).
Proof.
  unfold pass1_block. split.
  - intros f Hrun. apply bind_Fatal in Hrun as [Hrun|(bId & _ & Hrun)].
    + unfold parseBlockId in Hrun. destruct (find_last_of _ _).
      * by destruct (stream_extract_int _).
      * injection Hrun as <-. by left.
    + apply bind_Fatal in Hrun as [Hrun|([[table blocks] numIds] & _ & Hrun)]; [|done].
      repeat case_decide; try done.
      apply bind_Fatal in Hrun as [Hrun|(? & _ & Hrun)]; [|done].
      right. apply (for_each_failure _ (λ f, f = MultipleNodesPerElement) _ _ _) in Hrun; [done|].
      intros ? ? ? _. apply registerSphereElement_failure.
  - intros st' Hrun. apply bind_Ok in Hrun as (bId & _ & Hrun).
    apply bind_Ok in Hrun as ([[table blocks] numIds] & Hbranch & Hrun).
    injection Hrun as <-. cbn.
    repeat case_decide.
    + apply bind_Ok in Hbranch as (table' & Hloop & Hbranch).
      injection Hbranch as <- <- <-.
      destruct (registerSphereElements_spec _ _ _ Hloop) as [Hlen Hinv].
      split_and!; [lia|done|done].
    + injection Hbranch as <- <- <-. split_and!; [lia| |done].
      intros _. apply Int_wrap_in_range.
    + injection Hbranch as <- <- <-. split_and!; [lia|done|done].
Qed.

Lemma pass1_spec (db : option (string → string)) (degree : Z) (parts : list Part)
    (s : PeridigmManager) :
  (∀ f, pass1 db degree parts s = Fatal f →
     (∃ name, f = InvalidBlockName name) ∨ f = MultipleNodesPerElement)
  ∧ (∀ p1, pass1 db degree parts s = Ok p1 →
       (length (peridigmNodeGlobalIds (p1_idTable p1))
        ≤ length (peridigmNodeGlobalIds (idTable s)) + numOwnedElements parts)%nat
       ∧ Int.in_range (p1_numPartialStressIds p1)
       ∧ (noInvalidLocalId (peridigmGlobalIdToPeridigmLocalId (idTable s)) →
          Z.of_nat (length (peridigmNodeGlobalIds (idTable s)) + numOwnedElements parts)
          ≤ 4294967295 →
          noInvalidLocalId (peridigmGlobalIdToPeridigmLocalId (p1_idTable p1)))).
Proof.
  unfold pass1. split.
  - intros f Hrun.
    apply (for_each_failure _
             (λ f, (∃ name, f = InvalidBlockName name) ∨ f = MultipleNodesPerElement)
             _ _ _) in Hrun; [done|].
    intros st part f' _ Hbody.
    destruct (proj1 (pass1_block_spec _ _ _ st part) f' Hbody) as [->| ->]; eauto.
  - intros p1 Hrun. unfold numOwnedElements.
    set (count := sum_list_with (λ part : Part, length (locally_owned_elements part))).
    assert (Hcount : ∀ passed rest, stkElementBlocks parts = passed ++ rest →
              (count passed ≤ count (stkElementBlocks parts))%nat).
    { intros passed rest ->. unfold count. rewrite sum_list_with_app. lia. }
    refine (for_each_Ok_passed _
              (λ passed st,
                 (length (peridigmNodeGlobalIds (p1_idTable st))
                  ≤ length (peridigmNodeGlobalIds (idTable s)) + count passed)%nat
                 ∧ Int.in_range (p1_numPartialStressIds st)
                 ∧ (noInvalidLocalId (peridigmGlobalIdToPeridigmLocalId (idTable s)) →
                    Z.of_nat (length (peridigmNodeGlobalIds (idTable s))
                              + count (stkElementBlocks parts)) ≤ 4294967295 →
                    noInvalidLocalId (peridigmGlobalIdToPeridigmLocalId (p1_idTable st))))
              _ _ _ _ _ Hrun).
    + cbn. split_and!; [lia| |done]. unfold Int.in_range, Int.min_signed, Int.max_signed. lia.
    + intros passed part rest st st' Hsplit (Hlen & Hnum & Hinv) Hbody.
      destruct (proj2 (pass1_block_spec _ _ _ st part) st' Hbody) as (Hlen' & Hnum' & Hinv').
      assert (Hc : count (passed ++ [part])
                   = (count passed + length (locally_owned_elements part))%nat).
      { unfold count. rewrite sum_list_with_app. cbn. lia. }
      pose proof (Hcount (passed ++ [part]) rest) as Hle.
      rewrite <- app_assoc in Hle. specialize (Hle Hsplit). rewrite Hc in Hle.
      split_and!; [lia|by apply Hnum'|].
      intros Hs Hbound. apply Hinv'; [by apply Hinv|lia].
Qed.

Lemma registerPartialStressIds_spec (globalIds : list Z) (t : IdTable) :
  length (peridigmNodeGlobalIds (registerPartialStressIds t globalIds).1)
  = (length (peridigmNodeGlobalIds t) + length globalIds)%nat
  ∧ (noInvalidLocalId (peridigmGlobalIdToPeridigmLocalId t) →
     Z.of_nat (length (peridigmNodeGlobalIds t) + length globalIds) ≤ 4294967295 →
     noInvalidLocalId (peridigmGlobalIdToPeridigmLocalId (registerPartialStressIds t globalIds).1)).
Proof.
  unfold registerPartialStressIds.
  induction globalIds as [|g globalIds IH] using rev_ind; [cbn; split; [lia|done]|].
  rewrite foldl_app. cbn.
  destruct (foldl _ (t, []) globalIds) as [t1 localIds]. cbn in *.
  destruct IH as [Hlen Hinv]. rewrite !length_app. cbn. split; [lia|].
  intros Ht Hbound.
  apply map_Forall_insert_2; [apply of_size_not_minus_one; lia|].
  apply Hinv; [done|lia].
Qed.

Lemma length_partialStressGlobalIds (minId numIds : Z) :
  length (partialStressGlobalIds minId numIds) = Z.to_nat numIds.
Proof. unfold partialStressGlobalIds. by rewrite length_fmap, length_seqZ. Qed.

(** Lines 250-265 never raise "invalid global id" on a table without -1. *)
Lemma pass2_sphereElement_spec (coordinates : Z → option Point) (volume : Z → option Scalar)
    (bId : Z) (st : Pass2) (e : Element) :
  noInvalidLocalId (p2_peridigmGlobalIdToPeridigmLocalId st) →
  pass2_sphereElement coordinates volume bId st e ≠ Fatal InitializeInvalidGlobalId
  ∧ ∀ st', pass2_sphereElement coordinates volume bId st e = Ok st' →
      noInvalidLocalId (p2_peridigmGlobalIdToPeridigmLocalId st').
Proof.
  intros Hinv. unfold pass2_sphereElement. split.
  - intros Hrun. apply bind_Fatal in Hrun as [Hrun|(_ & _ & Hrun)].
    { by apply test_for_except_Fatal in Hrun as [_ ?]. }
    apply bind_Fatal in Hrun as [Hrun|(node & _ & Hrun)].
    { by apply read_at_not_Fatal in Hrun. }
    destruct (map_index_noInvalidLocalId _ (albanyId node) Hinv) as [Hlid _].
    destruct (map_index 0 _ (albanyId node)) as [localId table]. cbn in Hlid.
    rewrite bool_decide_eq_false_2 in Hrun by done. cbn in Hrun.
    apply bind_Fatal in Hrun as [Hrun|(? & _ & Hrun)].
    { by apply write_at_not_Fatal in Hrun. }
    apply bind_Fatal in Hrun as [Hrun|(? & _ & Hrun)].
    { by destruct (volume (identifier e)). }
    apply bind_Fatal in Hrun as [Hrun|(? & _ & Hrun)].
    { by apply write_at_not_Fatal in Hrun. }
    apply bind_Fatal in Hrun as [Hrun|(? & _ & Hrun)].
    { by destruct (coordinates node). }
    apply bind_Fatal in Hrun as [Hrun|(? & _ & Hrun)]; [|done].
    by apply write_point_not_Fatal in Hrun.
  - intros st' Hrun. apply bind_Ok in Hrun as (_ & _ & Hrun).
    apply bind_Ok in Hrun as (node & _ & Hrun).
    destruct (map_index_noInvalidLocalId _ (albanyId node) Hinv) as [_ Htable].
    destruct (map_index 0 _ (albanyId node)) as [localId table]. cbn in Htable.
    apply bind_Ok in Hrun as (_ & _ & Hrun).
    apply bind_Ok in Hrun as (? & _ & Hrun). apply bind_Ok in Hrun as (? & _ & Hrun).
    apply bind_Ok in Hrun as (? & _ & Hrun). apply bind_Ok in Hrun as (? & _ & Hrun).
    apply bind_Ok in Hrun as (? & _ & Hrun). by injection Hrun as <-.
Qed.

Lemma pass2_quadPoint_not_Fatal (nodeGlobalIds localIds : list Z) (bId : Z)
    (weightedMeasures : nat → Scalar) (physPoints : nat → Point)
    (st : QuadPointLoop) (qp : nat) (f : failure) :
  pass2_quadPoint nodeGlobalIds localIds bId weightedMeasures physPoints st qp ≠ Fatal f.
Proof.
  unfold pass2_quadPoint, write_point. intros Hrun. fatal_cases Hrun.
Qed.

Lemma mapM_not_Fatal {A B} (g : A → outcome B) (l : list A) (f : failure) :
  (∀ a, g a ≠ Fatal f) → mapM g l ≠ Fatal f.
Proof.
  intros Hg. induction l as [|a l IH]; [done|]. cbn. intros Hrun.
  apply bind_Fatal in Hrun as [Hrun|(? & _ & Hrun)]; [by apply Hg in Hrun|].
  apply bind_Fatal in Hrun as [Hrun|(? & _ & Hrun)]; done.
Qed.

(** Lines 322-361 raise the node-count failure only, and leave the id table
    as it is. *)
Lemma pass2_partialStressElement_spec (coordinates : Z → option Point)
    (nodeGlobalIds localIds : list Z) (topology : CellTopologyData) (degree bId : Z)
    (st : Pass2) (e : Element) :
  (∀ f, pass2_partialStressElement coordinates nodeGlobalIds localIds topology degree bId st e
        = Fatal f → f = NodeCountMismatch)
  ∧ ∀ st', pass2_partialStressElement coordinates nodeGlobalIds localIds topology degree bId st e
           = Ok st' →
      p2_peridigmGlobalIdToPeridigmLocalId st' = p2_peridigmGlobalIdToPeridigmLocalId st.
Proof.
  unfold pass2_partialStressElement. split.
  - intros f Hrun. apply bind_Fatal in Hrun as [Hrun|(_ & _ & Hrun)].
    { by apply test_for_except_Fatal in Hrun as [_ ->]. }
    exfalso. apply bind_Fatal in Hrun as [Hrun|(cellWorkset & _ & Hrun)].
    { apply mapM_not_Fatal in Hrun; [done|]. intros node. by destruct (coordinates node). }
    apply bind_Fatal in Hrun as [Hrun|(? & _ & Hrun)]; [|done].
    apply (for_each_failure _ (λ _, False) _ _ _) in Hrun; [done|].
    intros ? ? ? _ Hq. by apply pass2_quadPoint_not_Fatal in Hq.
  - intros st' Hrun. apply bind_Ok in Hrun as (_ & _ & Hrun).
    apply bind_Ok in Hrun as (? & _ & Hrun). apply bind_Ok in Hrun as (? & _ & Hrun).
    by injection Hrun as <-.
Qed.

Lemma pass2_block_spec (disc : STKDiscretization) (coordinates : Z → option Point)
    (db : option (string → string)) (topologies : gmap string CellTopologyData)
    (degree : Z) (nodeGlobalIds localIds : list Z) (st : Pass2) (part : Part) :
  noInvalidLocalId (p2_peridigmGlobalIdToPeridigmLocalId st) →
  pass2_block disc coordinates db topologies degree nodeGlobalIds localIds st part
  ≠ Fatal InitializeInvalidGlobalId
  ∧ ∀ st', pass2_block disc coordinates db topologies degree nodeGlobalIds localIds st part
           = Ok st' →
      noInvalidLocalId (p2_peridigmGlobalIdToPeridigmLocalId st').
Proof.
  intros Hinv. unfold pass2_block.
  destruct (map_index 0 (p2_blockNameToBlockId st) (part_name part)) as [bId names].
  repeat case_decide.
  - destruct (volumeField disc) as [volume|]; cbn; [|done]. split.
    + apply (for_each_not_Fatal _
               (λ st, noInvalidLocalId (p2_peridigmGlobalIdToPeridigmLocalId st))); [done|].
      intros st1 e _ Hst1. by apply pass2_sphereElement_spec.
    + intros st'.
      apply (for_each_Ok_inv _
               (λ st, noInvalidLocalId (p2_peridigmGlobalIdToPeridigmLocalId st))); [done|].
      intros st1 e st2 _ Hst1. by apply pass2_sphereElement_spec.
  - split.
    + intros Hrun. apply (for_each_failure _ (λ f, f = NodeCountMismatch) _ _ _) in Hrun; [done|].
      intros ? ? ? _. apply pass2_partialStressElement_spec.
    + intros st'.
      apply (for_each_Ok_inv _
               (λ st, noInvalidLocalId (p2_peridigmGlobalIdToPeridigmLocalId st))); [done|].
      intros st1 e st2 _ Hst1 Hrun.
      by rewrite (proj2 (pass2_partialStressElement_spec _ _ _ _ _ _ st1 e) st2 Hrun).
  - split; [done|]. by intros st' [= <-].
Qed.

Lemma worksetEntry_failure (table : gmap Z (list Z)) (entry : Z * (Z * Z)) (f : failure) :
  worksetEntry table entry = Fatal f → f = UnexpectedWorksetLocalId.
Proof.
  unfold worksetEntry. destruct (map_index [] table entry.2.1) as [wsGIDs table'].
  intros Hrun. apply bind_Fatal in Hrun as [Hrun|(_ & _ & Hrun)]; [|done].
  by apply test_for_except_Fatal in Hrun as [_ ->].
Qed.

End Passes.

(** ** The checks [localId == -1] after lookups in the id table *)

Section Unreachable.
Context `{!Intrepid} `{!PeridigmKernels}.

Lemma initialize_localIds (params : Params) (disc : option STKDiscretization) (comm : Comm)
    (s : PeridigmManager) :
  noInvalidLocalId (peridigmGlobalIdToPeridigmLocalId (idTable s)) →
  pointsFit s disc →
  initialize params disc comm s ≠ Fatal InitializeInvalidGlobalId
  ∧ ∀ s', initialize params disc comm s = Ok s' →
      noInvalidLocalId (peridigmGlobalIdToPeridigmLocalId (idTable s')).
Proof.
  intros Hinv Hfit. unfold initialize.
  destruct (hasPeridigmParameters params); cbn [negb]; [|split; [done|by intros s' [= <-]]].
  destruct disc as [stk|]; cbn [from_option mbind outcome_bind]; [|done].
  destruct (bool_decide (spatial_dimension stk ≠ 3)); cbn [test_for_except mbind outcome_bind];
    [done|].
  destruct (coordinatesField stk) as [coordinates|]; cbn [from_option mbind outcome_bind];
    [|done].
  destruct (pass1_spec (materialDataBase params) (default 2 (cubatureDegreeParam params))
              (get_parts stk) s) as [Hfail1 Hok1].
  destruct (pass1 _ _ _ s) as [p1|f|]; cbn [mbind outcome_bind]; [| |done].
  2: { split; [|done]. intros [= ->]. destruct (Hfail1 _ eq_refl) as [[? ?]|?]; done. }
  destruct (Hok1 p1 eq_refl) as (Hlen1 & Hnum & Hinv1). clear Hfail1 Hok1.
  cbn in Hfit. unfold Int.max_signed in Hfit.
  match goal with |- context [registerPartialStressIds ?t ?ids] =>
    pose proof (registerPartialStressIds_spec ids t) as [Hlen2 Hinv2];
    rewrite length_partialStressGlobalIds in Hlen2, Hinv2;
    destruct (registerPartialStressIds t ids) as [table localIds]
  end.
  cbn [fst] in Hlen2, Hinv2.
  assert (Htable : noInvalidLocalId (peridigmGlobalIdToPeridigmLocalId table)).
  { unfold Int.in_range, Int.min_signed, Int.max_signed in Hnum.
    apply Hinv2; [apply Hinv1; [done|lia]|lia]. }
  case_bool_decide; [split; [done|by intros s' [= <-]]|].
  match goal with |- context [for_each ?body ?st0 ?blocks] =>
    pose proof (for_each_not_Fatal body
                  (λ st, noInvalidLocalId (p2_peridigmGlobalIdToPeridigmLocalId st))
                  InitializeInvalidGlobalId blocks st0 Htable) as Hfail2;
    pose proof (λ st', for_each_Ok_inv body
                  (λ st, noInvalidLocalId (p2_peridigmGlobalIdToPeridigmLocalId st))
                  blocks st0 st' Htable) as Hok2;
    destruct (for_each body st0 blocks) as [p2|f|] eqn:Hpass2
  end; cbn [mbind outcome_bind]; [| |done].
  2: { split; [|done]. intros [= ->]. apply Hfail2; [|done].
       intros st part _ Hst. by apply pass2_block_spec. }
  assert (Hp2 : noInvalidLocalId (p2_peridigmGlobalIdToPeridigmLocalId p2)).
  { apply Hok2; [|done]. intros st part st' _ Hst. by apply pass2_block_spec. }
  destruct (isMpiComm comm); cbn [negb test_for_except mbind outcome_bind]; [|done].
  destruct (read_at (peridigmNodeGlobalIds table) 0) as [?|f|] eqn:Hr1;
    cbn [mbind outcome_bind]; [|by destruct (read_at_not_Fatal _ _ _ Hr1)|done].
  destruct (read_at (initialX p2) 0) as [?|f|] eqn:Hr2;
    cbn [mbind outcome_bind]; [|by destruct (read_at_not_Fatal _ _ _ Hr2)|done].
  destruct (read_at (cellVolume p2) 0) as [?|f|] eqn:Hr3;
    cbn [mbind outcome_bind]; [|by destruct (read_at_not_Fatal _ _ _ Hr3)|done].
  destruct (read_at (blockId p2) 0) as [?|f|] eqn:Hr4;
    cbn [mbind outcome_bind]; [|by destruct (read_at_not_Fatal _ _ _ Hr4)|done].
  destruct (for_each worksetEntry _ _) as [worksets|f|] eqn:Hws; cbn [mbind outcome_bind];
    [| |done].
  - split; [done|]. by intros s' [= <-].
  - split; [|done]. intros [= ->].
    apply (for_each_failure _ (λ f, f = UnexpectedWorksetLocalId) _ _ _) in Hws; [done|].
    intros ? ? ? _. apply worksetEntry_failure.
Qed.

Lemma for_dof_not_Fatal {St} (body : St → Z → outcome St) (s : St) (f : failure) :
  (∀ s dof, body s dof ≠ Fatal f) → for_dof body s ≠ Fatal f.
Proof.
  intros Hbody. unfold for_dof. intros Hrun.
  apply bind_Fatal in Hrun as [Hrun|(? & _ & Hrun)]; [by apply Hbody in Hrun|].
  apply bind_Fatal in Hrun as [Hrun|(? & _ & Hrun)]; by apply Hbody in Hrun.
Qed.

Lemma setVelocity_not_Fatal (previous : list Scalar) (dt : Scalar) (lid : Z)
    (k : Kinematics) (dof : Z) (f : failure) :
  setVelocity previous dt lid k dof ≠ Fatal f.
Proof. unfold setVelocity. intros Hrun. fatal_cases Hrun. Qed.

Lemma setSpherePoint_failure (globalIds : list Z) (reference previous : list Scalar)
    (dt : Scalar) (solution : Tpetra_Vector) (k : Kinematics) (globalId : Z) (f : failure) :
  setSpherePoint globalIds reference previous dt solution k globalId = Fatal f →
  f = InvalidSphereLocalId ∨ f = InvalidAlbanyLocalId.
Proof.
  unfold setSpherePoint. intros Hrun.
  apply bind_Fatal in Hrun as [Hrun|(_ & _ & Hrun)].
  { apply test_for_except_Fatal in Hrun as [_ ->]. by left. }
  apply bind_Fatal in Hrun as [Hrun|(_ & _ & Hrun)].
  { apply test_for_except_Fatal in Hrun as [_ ->]. by right. }
  exfalso. apply bind_Fatal in Hrun as [Hrun|(? & _ & Hrun)].
  { apply for_dof_not_Fatal in Hrun; [done|]. intros ? ? Hb. fatal_cases Hb. }
  apply bind_Fatal in Hrun as [Hrun|(? & _ & Hrun)].
  { apply for_dof_not_Fatal in Hrun; [done|]. intros ? ? Hb. fatal_cases Hb. }
  apply for_dof_not_Fatal in Hrun; [done|]. intros ? ?. apply setVelocity_not_Fatal.
Qed.

Lemma setPartialStressPoint_spec (reference previous : list Scalar) (dt : Scalar)
    (physPoints : nat → Point) (st : gmap Z Z * Kinematics) (item : nat * Z) :
  noInvalidLocalId st.1 →
  setPartialStressPoint reference previous dt physPoints st item
  ≠ Fatal InvalidPartialStressLocalId
  ∧ ∀ st', setPartialStressPoint reference previous dt physPoints st item = Ok st' →
      noInvalidLocalId st'.1.
Proof.
  intros Hinv. unfold setPartialStressPoint.
  destruct (map_index_noInvalidLocalId st.1 item.2 Hinv) as [Hlid Htable].
  destruct (map_index 0 st.1 item.2) as [lid table]. cbn [fst snd] in Hlid, Htable.
  rewrite bool_decide_eq_false_2 by done. cbn [test_for_except mbind outcome_bind]. split.
  - intros Hrun. apply bind_Fatal in Hrun as [Hrun|(? & _ & Hrun)].
    { apply for_dof_not_Fatal in Hrun; [done|]. intros ? ? Hb. fatal_cases Hb. }
    apply bind_Fatal in Hrun as [Hrun|(? & _ & Hrun)].
    { apply for_dof_not_Fatal in Hrun; [done|]. intros ? ? Hb. fatal_cases Hb. }
    apply bind_Fatal in Hrun as [Hrun|(? & _ & Hrun)]; [|done].
    apply for_dof_not_Fatal in Hrun; [done|]. intros ? ?. apply setVelocity_not_Fatal.
  - intros st' Hrun. apply bind_Ok in Hrun as (? & _ & Hrun).
    apply bind_Ok in Hrun as (? & _ & Hrun). apply bind_Ok in Hrun as (? & _ & Hrun).
    by injection Hrun as <-.
Qed.

Lemma setCellWorksetNode_not_Fatal (solution : Tpetra_Vector) (initialPositions : list Scalar)
    (cellWorkset : list Point) (item : nat * Z) (f : failure) :
  setCellWorksetNode solution initialPositions cellWorkset item ≠ Fatal f.
Proof. unfold setCellWorksetNode. intros Hrun. fatal_cases Hrun. Qed.

Lemma setPartialStressElement_spec (degree : Z) (reference previous : list Scalar) (dt : Scalar)
    (solution : Tpetra_Vector) (st : gmap Z Z * Kinematics) (pse : PartialStressElement) :
  noInvalidLocalId st.1 →
  setPartialStressElement degree reference previous dt solution st pse
  ≠ Fatal InvalidPartialStressLocalId
  ∧ ∀ st', setPartialStressElement degree reference previous dt solution st pse = Ok st' →
      noInvalidLocalId st'.1.
Proof.
  intros Hinv. unfold setPartialStressElement.
  destruct (for_each (setCellWorksetNode _ _) _ _) as [cellWorkset|f|] eqn:Hcw;
    cbn [mbind outcome_bind]; [| |done].
  - split.
    + apply (for_each_not_Fatal _ (λ st, noInvalidLocalId st.1)); [done|].
      intros st1 item _ Hst1. by apply setPartialStressPoint_spec.
    + intros st'. apply (for_each_Ok_inv _ (λ st, noInvalidLocalId st.1)); [done|].
      intros st1 item st2 _ Hst1. by apply setPartialStressPoint_spec.
  - exfalso. apply (for_each_failure _ (λ _, False) _ _ _) in Hcw; [done|].
    intros ? ? ? _ Hb. by apply setCellWorksetNode_not_Fatal in Hb.
Qed.

Lemma setCurrentTimeAndDisplacement_localIds (time : Scalar) (solution : Tpetra_Vector)
    (s : PeridigmManager) :
  noInvalidLocalId (peridigmGlobalIdToPeridigmLocalId (idTable s)) →
  setCurrentTimeAndDisplacement time solution s ≠ Fatal InvalidPartialStressLocalId
  ∧ ∀ s', setCurrentTimeAndDisplacement time solution s = Ok s' →
      noInvalidLocalId (peridigmGlobalIdToPeridigmLocalId (idTable s')).
Proof.
  intros Hinv. unfold setCurrentTimeAndDisplacement.
  destruct (hasPeridynamics s); [|split; [done|by intros s' [= <-]]].
  cbv zeta. destruct (peridigm s) as [solver|]; cbn [from_option mbind outcome_bind]; [|done].
  destruct (for_each (setSpherePoint _ _ _ _ _) _ _) as [k|f|] eqn:Hspheres;
    cbn [mbind outcome_bind]; [| |done].
  2: { split; [|done]. intros [= ->].
       apply (for_each_failure _ (λ f, f = InvalidSphereLocalId ∨ f = InvalidAlbanyLocalId)
                _ _ _) in Hspheres; [by destruct Hspheres|].
       intros ? ? ? _. apply setSpherePoint_failure. }
  match goal with |- context [for_each ?body ?st0 ?elements] =>
    pose proof (for_each_not_Fatal body (λ st, noInvalidLocalId st.1)
                  InvalidPartialStressLocalId elements st0 Hinv) as Hfail;
    pose proof (λ st', for_each_Ok_inv body (λ st, noInvalidLocalId st.1)
                  elements st0 st' Hinv) as Hok;
    destruct (for_each body st0 elements) as [[table k']|f|] eqn:Hloop
  end; cbn [mbind outcome_bind]; [| |done].
  - split; [done|]. intros s' [= <-]. cbn.
    apply (Hok (table, k')); [|done]. intros st pse st' _ Hst.
    by apply setPartialStressElement_spec.
  - split; [|done]. intros [= ->]. apply Hfail; [|done].
    intros st pse _ Hst. by apply setPartialStressElement_spec.
Qed.

(** C9: [std::map::operator[]] inserts the value 0 for an absent key, so
    on an id table that maps no global id to -1 (the table of a new manager,
    and every table [initialize] and [setCurrentTimeAndDisplacement] leave,
    as long as the points of a rank are fewer than 2^31) the checks
    [localId == -1] at lines 255 and 640 never fire; a global id the table
    does not hold is processed exactly as an id registered with local
    index 0. *)
Theorem localId_checks_unreachable :
  noInvalidLocalId (peridigmGlobalIdToPeridigmLocalId (idTable PeridigmManager_new))
  ∧ (∀ (table : gmap Z Z) (gid : Z),
       table !! gid = None → map_index 0 table gid = (0, <[gid := 0]> table))
  ∧ (∀ params disc comm s,
       noInvalidLocalId (peridigmGlobalIdToPeridigmLocalId (idTable s)) →
       pointsFit s disc →
       initialize params disc comm s ≠ Fatal InitializeInvalidGlobalId
       ∧ ∀ s', initialize params disc comm s = Ok s' →
           noInvalidLocalId (peridigmGlobalIdToPeridigmLocalId (idTable s')))
  ∧ (∀ time solution s,
       noInvalidLocalId (peridigmGlobalIdToPeridigmLocalId (idTable s)) →
       setCurrentTimeAndDisplacement time solution s ≠ Fatal InvalidPartialStressLocalId
       ∧ ∀ s', setCurrentTimeAndDisplacement time solution s = Ok s' →
           noInvalidLocalId (peridigmGlobalIdToPeridigmLocalId (idTable s')))
  ∧ (∀ coordinates volume bId names table x v b index spheres elements e node,
       begin_nodes e = [node] → table !! albanyId node = None →
       let st table :=
         {| p2_blockNameToBlockId := names;
            p2_peridigmGlobalIdToPeridigmLocalId := table;
            initialX := x; cellVolume := v; blockId := b;
            peridigmPartialStressIndex := index;
            p2_sphereElementGlobalNodeIds := spheres;
            p2_partialStressElements := elements |} in
       pass2_sphereElement coordinates volume bId (st table) e
       = pass2_sphereElement coordinates volume bId (st (<[albanyId node := 0]> table)) e)
  ∧ (∀ reference previous dt physPoints (table : gmap Z Z) k i gid,
       table !! gid = None →
       setPartialStressPoint reference previous dt physPoints (table, k) (i, gid)
       = setPartialStressPoint reference previous dt physPoints (<[gid := 0]> table, k) (i, gid)).
Proof.
  split_and!.
  - apply map_Forall_empty.
  - intros table gid. apply map_index_absent.
  - apply initialize_localIds.
  - apply setCurrentTimeAndDisplacement_localIds.
  - intros coordinates volume bId names table x v b index spheres elements e node Hnodes Hno.
    cbv zeta. unfold pass2_sphereElement. cbn [p2_peridigmGlobalIdToPeridigmLocalId].
    rewrite Hnodes. destruct (test_for_except _ _); cbn [mbind outcome_bind]; [|done..].
    change (read_at [node] 0) with (Ok node). cbn [mbind outcome_bind].
    rewrite (map_index_absent 0 table _ Hno).
    rewrite (map_index_present 0 (<[albanyId node := 0]> table) _ 0)
      by apply lookup_insert_eq.
    done.
  - intros reference previous dt physPoints table k i gid Hno.
    unfold setPartialStressPoint. cbn [fst snd].
    rewrite (map_index_absent 0 table _ Hno).
    rewrite (map_index_present 0 (<[gid := 0]> table) _ 0) by apply lookup_insert_eq.
    done.
Qed.

End Unreachable.

Section UnreachableWitness.
Import LinearTet Examples.

Lemma localId_checks_unreachable_witness :
  initialize (params "Peridynamics") (Some sphereMesh) singleRank PeridigmManager_new
  ≠ Fatal InitializeInvalidGlobalId
  ∧ setCurrentTimeAndDisplacement 1%Qc zeroSolution unregisteredTetState
    ≠ Fatal InvalidPartialStressLocalId
  ∧ ∃ s' solver',
      setCurrentTimeAndDisplacement 1%Qc zeroSolution unregisteredTetState = Ok s'
      ∧ peridigm s' = Some solver'
      ∧ peridigmGlobalIdToPeridigmLocalId (idTable s') = {[5 := 0]}
      ∧ point_at (getY solver') 0 = Some (qc 1 4, qc 1 4, qc 1 4).
Proof.
  destruct localId_checks_unreachable as (Hnew & _ & Hinit & Hset & _).
  split_and!.
  - apply (Hinit (params "Peridynamics") (Some sphereMesh) singleRank PeridigmManager_new).
    + exact Hnew.
    + vm_compute. discriminate.
  - apply (Hset 1%Qc zeroSolution unregisteredTetState). cbn. apply map_Forall_empty.
  - eexists _, _. split; [vm_compute; reflexivity|]. split; [reflexivity|].
    split; vm_compute; reflexivity.
Defined.

End UnreachableWitness.

(** ** The volume of a partial-stress point (lines 334-357) *)

Lemma for_each_seq {St} (body : St → nat → outcome St) (Inv : nat → St → Prop)
    (n : nat) (s : St) :
  Inv 0%nat s →
  (∀ k s, (k < n)%nat → Inv k s → ∃ s', body s k = Ok s' ∧ Inv (S k) s') →
  ∃ s', for_each body s (seq 0 n) = Ok s' ∧ Inv n s'.
Proof.
  intros H0 Hstep.
  destruct (for_each_inv body (λ passed s, Inv (length passed) s) (seq 0 n) s)
    as (s' & Hrun & Hinv); [done| |].
  - intros passed a rest s1 Hsplit Hinv.
    assert (Ha : seq 0 n !! length passed = Some a).
    { rewrite Hsplit. by apply list_lookup_middle. }
    apply lookup_seq in Ha as [-> Hlt]. cbn in *.
    destruct (Hstep _ s1 Hlt Hinv) as (s2 & Hrun & Hinv2).
    exists s2. split; [done|]. rewrite length_app. cbn.
    by replace (length passed + 1)%nat with (S (length passed)) by lia.
  - exists s'. split; [done|]. by rewrite length_seq in Hinv.
Qed.

Lemma mapM_coordinates (coordinates : Z → option Point) (nodes : list Z) :
  Forall (λ node, is_Some (coordinates node)) nodes →
  ∃ cellWorkset, mapM (λ node, from_option Ok Undefined (coordinates node)) nodes = Ok cellWorkset
    ∧ length cellWorkset = length nodes.
Proof.
  induction 1 as [|node nodes [p Hp] _ (cw & Hcw & Hlen)]; [by exists []|].
  exists (p :: cw). cbn. rewrite Hp. cbn. rewrite Hcw. cbn. split; [done|]. by rewrite Hlen.
Qed.

Section Volume.
Context `{!Intrepid} `{!PeridigmKernels}.

(** C3, as the code has it: [initialize] does not test the Jacobian
    determinant.  A partial-stress element whose node count matches its
    topology and whose nodes have coordinates is processed without failure
    whatever its determinants are, and the volume stored for quadrature point
    [qp], at the local id of that point, is the weighted measure
    [computeCellMeasure] returns for [qp] (the local ids of the points of the
    element being distinct and inside the arrays).  No failure of the file
    is of the class DegenerateElement. *)
Theorem partialStress_volume_is_weighted_measure (coordinates : Z → option Point)
    (nodeGlobalIds localIds : list Z) (topology : CellTopologyData) (degree bId : Z)
    (st : Pass2) (e : Element) (first : nat) :
  let cubature := getCubature topology degree in
  num_nodes e = Z.of_nat (getNodeCount topology) →
  Forall (λ node, is_Some (coordinates node)) (begin_nodes e) →
  peridigmPartialStressIndex st = Z.of_nat first →
  Z.of_nat (first + length cubature) ≤ Int.max_signed →
  3 * Z.of_nat (length (cellVolume st)) ≤ Int.max_signed →
  length (blockId st) = length (cellVolume st) →
  length (initialX st) = (3 * length (cellVolume st))%nat →
  (∀ qp, (qp < length cubature)%nat →
     ∃ l : nat, localIds !! (first + qp)%nat = Some (Z.of_nat l)
       ∧ (l < length nodeGlobalIds)%nat ∧ (l < length (cellVolume st))%nat) →
  (∀ qp qp' l, (qp < length cubature)%nat → (qp' < length cubature)%nat →
     localIds !! (first + qp)%nat = Some l → localIds !! (first + qp')%nat = Some l →
     qp = qp') →
  (∀ f, classify f ≠ DegenerateElement)
  ∧ ∃ st' cellWorkset,
      pass2_partialStressElement coordinates nodeGlobalIds localIds topology degree bId st e
      = Ok st'
      ∧ mapM (λ node, from_option Ok Undefined (coordinates node)) (begin_nodes e)
        = Ok cellWorkset
      ∧ ∀ qp l, (qp < length cubature)%nat →
          localIds !! (first + qp)%nat = Some (Z.of_nat l) →
          cellVolume st' !! l
          = Some (computeCellMeasure
                    (setJacobianDet (setJacobian cubature.*1 cellWorkset topology))
                    cubature.*2 qp).
Proof.
  intros cubature Hcount Hcoords Hindex Hsmall Hvsmall HlenB HlenX Hids Hinj.
  split; [by intros []|].
  destruct (mapM_coordinates coordinates (begin_nodes e) Hcoords) as (cellWorkset & Hcw & _).
  unfold pass2_partialStressElement. fold cubature.
  rewrite bool_decide_eq_false_2 by (intros Hne; done).
  cbn [test_for_except mbind outcome_bind]. rewrite Hcw. cbn [mbind outcome_bind].
  set (physPoints := mapToPhysicalFrame _ _ _).
  set (measures := computeCellMeasure _ _).
  destruct (for_each_seq
              (pass2_quadPoint nodeGlobalIds localIds bId measures physPoints)
              (λ k q, qp_index q = Z.of_nat (first + k)
                      ∧ length (qp_cellVolume q) = length (cellVolume st)
                      ∧ length (qp_blockId q) = length (cellVolume st)
                      ∧ length (qp_initialX q) = (3 * length (cellVolume st))%nat
                      ∧ ∀ qp l, (qp < k)%nat →
                          localIds !! (first + qp)%nat = Some (Z.of_nat l) →
                          qp_cellVolume q !! l = Some (measures qp))
              (length cubature)
              {| qp_initialX := initialX st; qp_cellVolume := cellVolume st;
                 qp_blockId := blockId st; qp_index := peridigmPartialStressIndex st;
                 qp_peridigmGlobalIds := [] |})
    as (points & Hrun & _ & _ & _ & _ & Hvolumes).
  - cbn. split_and!; [rewrite Hindex; f_equal; lia|done|done|done|]. intros ? ? ?. lia.
  - intros k q Hk (Hqi & HqV & HqB & HqX & Hq).
    destruct (Hids k Hk) as (l & Hl & Hlg & Hlv).
    destruct (lookup_lt_is_Some_2 nodeGlobalIds l Hlg) as [g Hg].
    unfold pass2_quadPoint. rewrite Hqi.
    rewrite (read_at_lookup _ _ _ Hl). cbn [mbind outcome_bind].
    rewrite (read_at_lookup _ _ _ Hg). cbn [mbind outcome_bind].
    rewrite write_at_in_range by lia. cbn [mbind outcome_bind].
    rewrite write_at_in_range by lia. cbn [mbind outcome_bind].
    rewrite write_point_set_point by lia. cbn [mbind outcome_bind].
    eexists. split; [reflexivity|].
    cbn [qp_index qp_cellVolume qp_blockId qp_initialX].
    rewrite !length_insert, length_set_point.
    split_and!; [|done|done|done|].
    + rewrite Int_add_exact by (unfold Int.in_range, Int.min_signed; lia). lia.
    + intros qp l' Hqp Hl'. destruct (decide (qp = k)) as [->|Hne].
      * rewrite Hl in Hl'. injection Hl' as Hl'. apply Nat2Z.inj in Hl'. subst l'.
        apply list_lookup_insert_eq. lia.
      * assert (l ≠ l').
        { intros <-. apply Hne. by apply (Hinj qp k (Z.of_nat l)); [lia|..]. }
        rewrite list_lookup_insert_ne by done. apply Hq; [lia|done].
  - rewrite Hrun. cbn [mbind outcome_bind]. eexists _, cellWorkset.
    split; [reflexivity|]. split; [done|]. cbn. exact Hvolumes.
Qed.

End Volume.

Section VolumeExamples.
Import LinearTet Examples.

(** C3, as stated, fails: for the flat tetrahedron (all four nodes in the
    plane z = 0) the Jacobian determinant at the quadrature point is 0, yet
    [initialize] returns normally and hands the solver the volume 0; for the
    inverted tetrahedron (apex below the base) the determinant is -1 and
    [initialize] returns normally as well. *)
Lemma degenerate_element_accepted :
  let refPoints := (getCubature Tetrahedron_4 1).*1 in
  let flat := [(0, 0, 0); (1, 0, 0); (0, 1, 0); (1, 1, 0)]%Qc in
  let inverted := [(0, 0, 0); (1, 0, 0); (0, 1, 0); (0, 0, -1)]%Qc in
  (setJacobianDet (setJacobian refPoints flat Tetrahedron_4) 0%nat ≤ 0)%Qc
  ∧ (setJacobianDet (setJacobian refPoints inverted Tetrahedron_4) 0%nat < 0)%Qc
  ∧ (∃ s solver,
       initialize (params "Peridynamic Partial Stress") (Some (tetMesh (1, 1, 0)%Qc))
         singleRank PeridigmManager_new = Ok s
       ∧ peridigm s = Some solver
       ∧ Forall (λ volume, ¬ (0 < volume)%Qc) (peridigm_cellVolume solver))
  ∧ (∃ s, initialize (params "Peridynamic Partial Stress") (Some (tetMesh (0, 0, -1)%Qc))
            singleRank PeridigmManager_new = Ok s).
Proof.
  cbv zeta. split_and!.
  - vm_compute. discriminate.
  - vm_compute. reflexivity.
  - eexists _, _. split; [vm_compute; reflexivity|]. split; [reflexivity|].
    constructor; [|constructor]. vm_compute. intros Hlt. discriminate Hlt.
  - eexists. vm_compute. reflexivity.
Qed.

Lemma partialStress_volume_is_weighted_measure_witness :
  ∃ st', pass2_partialStressElement (tetCoordinates (1, 1, 0)%Qc) [5] [0] Tetrahedron_4 1 1
           tetPass2 tet = Ok st'
    ∧ cellVolume st' !! 0%nat
      = Some (computeCellMeasure
                (setJacobianDet
                   (setJacobian (getCubature Tetrahedron_4 1).*1
                      [(0, 0, 0); (1, 0, 0); (0, 1, 0); (1, 1, 0)]%Qc Tetrahedron_4))
                (getCubature Tetrahedron_4 1).*2 0).
Proof.
  destruct (partialStress_volume_is_weighted_measure (tetCoordinates (1, 1, 0)%Qc) [5] [0]
              Tetrahedron_4 1 1 tetPass2 tet 0) as (_ & st' & cellWorkset & Hrun & Hcw & Hvol).
  - reflexivity.
  - repeat constructor; by eexists.
  - reflexivity.
  - vm_compute. discriminate.
  - vm_compute. discriminate.
  - reflexivity.
  - reflexivity.
  - intros qp Hqp. change (qp < 1)%nat in Hqp. assert (qp = 0%nat) as -> by lia.
    exists 0%nat. split_and!; [reflexivity|cbv; lia|cbv; lia].
  - intros qp qp' l Hqp Hqp' _ _.
    change (qp < 1)%nat in Hqp. change (qp' < 1)%nat in Hqp'. lia.
  - exists st'. split; [exact Hrun|].
    vm_compute in Hcw. injection Hcw as <-.
    apply (Hvol 0%nat 0%nat); [change (0 < 1)%nat; lia|reflexivity].
Defined.

End VolumeExamples.
(** ** What the stream reads after the last underscore (lines 95-100) *)

Lemma parseBlockId_split (pre suf : string) :
  has_char "_" suf = false →
  parseBlockId (pre +:+ String "_" suf) = from_option Ok Undefined (stream_extract_int suf).
Proof.
  intros Hsuf. unfold parseBlockId.
  rewrite (find_last_of_split _ pre suf Hsuf).
  rewrite substr_suffix; [by destruct (stream_extract_int suf)|].
  rewrite length_app_string. simpl. lia.
Qed.

Lemma has_char_app (c : ascii) (s t : string) :
  has_char c (s +:+ t) = has_char c s || has_char c t.
Proof. induction s as [|a s IH]; simpl; [done|]. by rewrite IH, orb_assoc. Qed.

Lemma read_digits_numeral_then (digits : list Z) (rest : string) (acc : option Z) :
  Forall (λ d, 0 ≤ d ≤ 9) digits →
  read_digits acc (numeral digits +:+ rest)
  = read_digits (if digits is [] then acc
                 else Some (foldl (λ acc d, 10 * acc + d) (default 0 acc) digits)) rest.
Proof.
  intros Hd. revert acc. induction Hd as [|d digits Hd _ IH]; intros acc; simpl; [done|].
  rewrite (digit_of_digit_char d Hd), IH. simpl. by destruct digits.
Qed.

Lemma read_digits_stop (acc : option Z) (c : ascii) (rest : string) :
  digit_of c = None → read_digits acc (String c rest) = acc.
Proof. intros Hc. simpl. by rewrite Hc. Qed.

Lemma skip_ws_spaces (ws : string) (rest : string) :
  (∀ c, has_char c ws = true → is_space c = true) →
  skip_ws (ws +:+ rest) = skip_ws rest.
Proof.
  induction ws as [|a ws IH]; intros Hws; simpl; [done|].
  rewrite (Hws a) by (simpl; by rewrite bool_decide_eq_true_2).
  apply IH. intros c Hc. apply Hws. simpl. by rewrite Hc, orb_true_r.
Qed.

Lemma decimal_value_nonneg (digits : list Z) :
  Forall (λ d, 0 ≤ d ≤ 9) digits → 0 ≤ decimal_value digits.
Proof.
  intros Hd. unfold decimal_value.
  assert (Hfold : ∀ acc, 0 ≤ acc → 0 ≤ foldl (λ acc d, 10 * acc + d) acc digits).
  { induction Hd as [|d digits Hd0 _ IH]; intros acc Hacc; cbn [foldl]; [done|].
    apply IH. lia. }
  by apply Hfold.
Qed.

(** A value that is not negative is cut at the upper bound of [int] only. *)
Lemma clamp_int_nonneg (v : Z) : 0 ≤ v → clamp_int v = v `min` 2147483647.
Proof. intros Hv. unfold clamp_int, Int.min_signed, Int.max_signed. lia. Qed.

(** X1: when the text after the last underscore of a block name starts with
    a character that is neither white space, a sign nor a digit (as in
    ["block_left"]), the block id is 0 and no error is raised; when it
    starts with digits that other text follows (as in ["block_12a"]), the id
    is the value of the digits when that is at most 2147483647 and
    2147483647 otherwise (as in ["block_4294967297a"]), and the rest is
    ignored. *)
Theorem parseBlockId_text_after_underscore (pre : string) (digits : list Z) (c : ascii)
    (rest : string) :
  Forall (λ d, 0 ≤ d ≤ 9) digits →
  digit_of c = None → is_space c = false → c ≠ "-"%char → c ≠ "+"%char →
  has_char "_" (String c rest) = false →
  parseBlockId (pre +:+ String "_" (numeral digits +:+ String c rest))
  = Ok (if digits is [] then 0
        else if bool_decide (decimal_value digits ≤ 2147483647) then decimal_value digits
        else 2147483647).
Proof.
  intros Hd Hc Hsp Hminus Hplus Hrest.
  rewrite parseBlockId_split.
  2: { rewrite has_char_app, (has_char_numeral digits Hd). exact Hrest. }
  unfold stream_extract_int.
  destruct digits as [|d digits].
  - simpl. rewrite Hsp. rewrite !decide_False by done. simpl. by rewrite Hc.
  - pose proof (decimal_value_nonneg _ Hd) as Hnonneg.
    apply Forall_cons in Hd as [Hd0 Hds].
    destruct (digit_char_plain d Hd0) as (Hsp' & Hminus' & Hplus' & _).
    simpl. rewrite Hsp'. rewrite !decide_False by done. simpl.
    rewrite (digit_of_digit_char d Hd0).
    rewrite (read_digits_numeral_then digits _ _ Hds).
    rewrite read_digits_stop by done.
    assert (Hvalue : (if digits is [] then Some (10 * 0 + d)
                      else Some (foldl (λ acc d0, 10 * acc + d0)
                                   (default 0 (Some (10 * 0 + d))) digits))
                     = Some (decimal_value (d :: digits))).
    { unfold decimal_value. simpl. by destruct digits. }
    rewrite Hvalue, (clamp_int_nonneg _ Hnonneg). cbn [from_option]. f_equal.
    case_bool_decide; lia.
Qed.

Lemma parseBlockId_text_after_underscore_witness :
  parseBlockId "block_left" = Ok 0
  ∧ parseBlockId "my_block_12a" = Ok 12
  ∧ parseBlockId "block_4294967297a" = Ok 2147483647.
Proof.
  split_and!.
  - apply (parseBlockId_text_after_underscore "block" [] "l" "eft");
      [constructor|reflexivity|reflexivity|discriminate|discriminate|reflexivity].
  - apply (parseBlockId_text_after_underscore "my_block" [1; 2] "a" "");
      [repeat constructor; lia|reflexivity|reflexivity|discriminate|discriminate|reflexivity].
  - apply (parseBlockId_text_after_underscore "block" [4; 2; 9; 4; 9; 6; 7; 2; 9; 7] "a" "");
      [repeat constructor; lia|reflexivity|reflexivity|discriminate|discriminate|reflexivity].
Defined.

(** X2: a block name that ends with its last underscore, or has only white
    space after it, makes the stream write nothing: [bId] keeps the
    indeterminate value it was declared with, and reading it is undefined
    behaviour, not a parse error. *)
Theorem parseBlockId_nothing_after_underscore (pre ws : string) :
  (∀ c, has_char c ws = true → is_space c = true) →
  parseBlockId (pre +:+ String "_" ws) = Undefined.
Proof.
  intros Hws. rewrite parseBlockId_split.
  - unfold stream_extract_int.
    assert (Hnil : (ws +:+ "")%string = ws).
    { clear. induction ws as [|a ws IH]; [done|].
      change (String a (ws +:+ "") = String a ws). by rewrite IH. }
    rewrite <- Hnil. by rewrite (skip_ws_spaces ws "" Hws).
  - destruct (has_char "_" ws) eqn:Hu; [|done].
    by apply Hws in Hu.
Qed.

Lemma parseBlockId_nothing_after_underscore_witness :
  parseBlockId "block_" = Undefined ∧ parseBlockId "block_ " = Undefined.
Proof.
  split.
  - apply (parseBlockId_nothing_after_underscore "block" ""). intros c Hc. discriminate Hc.
  - apply (parseBlockId_nothing_after_underscore "block" " "). intros c Hc.
    simpl in Hc. rewrite orb_false_r in Hc. apply bool_decide_eq_true in Hc. by subst.
Defined.
(** ** The reserved ids and the ids of the mesh (lines 165-191) *)

Lemma lowestPossiblePartialStressId_upper (scans : list RankScan) (r : RankScan) :
  r ∈ scans →
  localLowestPossiblePartialStressId (maxAlbanyElementId r) (maxAlbanyNodeId r)
  ≤ lowestPossiblePartialStressId scans.
Proof.
  intros Hr. unfold lowestPossiblePartialStressId. apply reduceAll_MAX_upper.
  apply list_elem_of_fmap. by exists r.
Qed.

Lemma rankPartialStressIds_lower (scans : list RankScan) (p : nat) (x : Z) :
  Forall (λ r, 0 ≤ numPartialStressIds r) scans →
  lowestPossiblePartialStressId scans + sumZ (rankCounts scans) ≤ Int.max_signed →
  x ∈ rankPartialStressIds scans p → lowestPossiblePartialStressId scans ≤ x.
Proof.
  intros Hpos Hhi Hx.
  pose proof (rankCounts_nonneg scans Hpos) as Hc.
  destruct (scans !! p) as [r|] eqn:Hp.
  - assert (Hne : scans ≠ []) by (intros E; by rewrite E in Hp).
    pose proof (lowestPossiblePartialStressId_in_range scans Hne) as [Hb _].
    pose proof (rankCounts_lookup scans p r Hp) as Hcp.
    unfold rankPartialStressIds, rankMinId in Hx. rewrite Hcp in Hx. simpl in Hx.
    rewrite minPeridigmPartialStressId_sum in Hx by done.
    pose proof (sumZ_take_le (rankCounts scans) p Hc).
    pose proof (sumZ_take_le (rankCounts scans) (S p) Hc).
    assert (Hs : sumZ (take (S p) (rankCounts scans))
                 = sumZ (take p (rankCounts scans)) + numPartialStressIds r).
    { rewrite (take_S_r _ p _ Hcp), sumZ_app. unfold sumZ at 2. simpl. lia. }
    rewrite partialStressGlobalIds_seqZ in Hx by lia.
    apply elem_of_seqZ in Hx. lia.
  - unfold rankPartialStressIds, rankCounts in Hx.
    rewrite list_lookup_fmap, Hp in Hx. simpl in Hx.
    unfold partialStressGlobalIds in Hx. by apply elem_of_nil in Hx.
Qed.

(** X3: when the ids fit in [int], every id the allocator gives to any rank
    is greater than the largest element id of every rank and not smaller
    than the largest node id of every rank; it is greater than the largest
    node id of a rank unless that rank's largest node id is its largest
    element id plus one. *)
Theorem partial_stress_ids_and_mesh_ids (scans : list RankScan) (p : nat) (x : Z)
    (r : RankScan) :
  Forall (λ r, 0 ≤ numPartialStressIds r
               ∧ 0 ≤ maxAlbanyElementId r < Int.max_signed
               ∧ 0 ≤ maxAlbanyNodeId r < Int.max_signed) scans →
  lowestPossiblePartialStressId scans + sumZ (rankCounts scans) ≤ Int.max_signed →
  x ∈ rankPartialStressIds scans p →
  r ∈ scans →
  maxAlbanyElementId r < x
  ∧ maxAlbanyNodeId r ≤ x
  ∧ (maxAlbanyNodeId r ≠ maxAlbanyElementId r + 1 → maxAlbanyNodeId r < x).
Proof.
  intros Hall Hhi Hx Hr.
  assert (Hpos : Forall (λ r, 0 ≤ numPartialStressIds r) scans).
  { eapply Forall_impl; [exact Hall|]. by intros ? (? & _). }
  pose proof (rankPartialStressIds_lower scans p x Hpos Hhi Hx) as Hlow.
  pose proof (lowestPossiblePartialStressId_upper scans r Hr) as Hup.
  rewrite Forall_forall in Hall. destruct (Hall r Hr) as (_ & He & Hn).
  destruct (localLowest_spec (maxAlbanyElementId r) (maxAlbanyNodeId r))
    as (H1 & H2 & H3); [unfold Int.min_signed; lia..|].
  split_and!; [lia|lia|]. intros Hne. apply H3 in Hne. lia.
Qed.

Lemma partial_stress_ids_and_mesh_ids_witness :
  let scans := [{| maxAlbanyElementId := 9; maxAlbanyNodeId := 20; numPartialStressIds := 2 |};
                {| maxAlbanyElementId := 14; maxAlbanyNodeId := 15; numPartialStressIds := 3 |}] in
  rankPartialStressIds scans 1 = [23; 24; 25]
  ∧ 14 < 23 ∧ 15 ≤ 23 ∧ (15 ≠ 14 + 1 → 15 < 23).
Proof.
  intros scans. split; [reflexivity|].
  apply (partial_stress_ids_and_mesh_ids scans 1 23
           {| maxAlbanyElementId := 14; maxAlbanyNodeId := 15; numPartialStressIds := 3 |}).
  - repeat constructor; cbn; unfold Int.max_signed; lia.
  - vm_compute. discriminate.
  - vm_compute. left.
  - right. left.
Defined.
(** ** Requesting output fields again (lines 720-757) *)

Lemma for_each_setOutputField_present (names : list string) (fields : list OutputField) :
  (∀ name, name ∈ names →
     ∃ relation length, catalog name = Some (relation, length)
       ∧ outputFieldOf name relation length ∈ fields) →
  for_each setOutputField fields names = Ok fields.
Proof.
  induction names as [|name names IH]; intros Hall; [done|].
  destruct (Hall name) as (relation & length & Hc & Hin); [by left|].
  simpl. rewrite (setOutputField_known fields name relation length Hc).
  rewrite bool_decide_eq_true_2 by done. simpl.
  apply IH. intros n Hn. apply Hall. by right.
Qed.

Lemma for_each_setOutputField_Ok (names : list string) (fields fields' : list OutputField) :
  for_each setOutputField fields names = Ok fields' →
  Forall (λ name, is_Some (catalog name)) names.
Proof.
  intros Hrun. apply Forall_forall. intros name Hname.
  destruct (catalog name) as [x|] eqn:Hc; [by eexists|].
  rewrite (for_each_setOutputField_unknown names fields) in Hrun; [done|].
  by exists name.
Qed.

(** X4: a call of [setOutputFields] that returns has registered every field
    it was asked for, so the same call made again returns and leaves the
    manager exactly as it is. *)
Theorem setOutputFields_idempotent (names : list string) (s s' : PeridigmManager) :
  setOutputFields names s = Ok s' → setOutputFields names s' = Ok s'.
Proof.
  unfold setOutputFields. intros Hrun.
  apply bind_Ok in Hrun as (fields' & Hloop & Hrun). injection Hrun as <-. cbn.
  pose proof (for_each_setOutputField_Ok _ _ _ Hloop) as Hall.
  destruct (for_each_setOutputField_known names (outputFields s) Hall)
    as (fields'' & Hloop' & Hmem & _ & _).
  rewrite Hloop in Hloop'. injection Hloop' as <-.
  rewrite for_each_setOutputField_present; [done|].
  intros name Hname. rewrite Forall_forall in Hall.
  destruct (Hall name Hname) as [[relation length] Hc].
  exists relation, length. split; [done|]. apply Hmem. right.
  by exists name, relation, length.
Qed.

Lemma setOutputFields_idempotent_witness :
  ∃ s', setOutputFields ["Force"; "Volume"; "Force"] PeridigmManager_new = Ok s'
    ∧ setOutputFields ["Force"; "Volume"; "Force"] s' = Ok s'.
Proof.
  eexists. split; [reflexivity|].
  apply (setOutputFields_idempotent _ PeridigmManager_new). reflexivity.
Defined.
(** ** The result of [setCurrentTimeAndDisplacement] *)

Section SetCurrentResult.
Context `{!Intrepid} `{!PeridigmKernels}.

Lemma setCurrentTimeAndDisplacement_result (time : Scalar) (solution : Tpetra_Vector)
    (s : PeridigmManager) (solver : Peridigm) :
  hasPeridynamics s = true → peridigm s = Some solver →
  solverSized solver (previousSolutionPositions s) →
  Z.of_nat (length (getData solution)) ≤ Int.max_signed →
  Forall (sphereReady (peridigm_globalIds solver) solution) (sphereElementGlobalNodeIds s) →
  Forall (elementReady (length (peridigm_globalIds solver)) solution
            (peridigmGlobalIdToPeridigmLocalId (idTable s))) (partialStressElements s) →
  setCurrentTimeAndDisplacement time solution s = Ok (stateAfter time solution s solver).
Proof.
  intros Hhas Hsolver (HX & HY & HU & HV & Hprev & Hsmall) Hdata Hspheres Helements.
  set (dt := timeStepFor time (previousTime s)).
  set (k0 := {| positions := getY solver; displacements := getU solver;
                velocities := getV solver |}).
  set (updates := sphereUpdate (peridigm_globalIds solver) (getX solver)
                    (previousSolutionPositions s) dt solution <$> sphereElementGlobalNodeIds s).
  assert (Hloop1 : for_each
            (setSpherePoint (peridigm_globalIds solver) (getX solver)
               (previousSolutionPositions s) dt solution) k0 (sphereElementGlobalNodeIds s)
            = Ok (foldl put k0 updates)).
  { by apply sphere_loop_run. }
  destruct (foldl_put_lengths updates k0) as (LY & LU & LV).
  cbn [positions displacements velocities k0] in LY, LU, LV.
  assert (Hloop2 : for_each
            (setPartialStressElement (cubatureDegree s) (getX solver)
               (previousSolutionPositions s) dt solution)
            (peridigmGlobalIdToPeridigmLocalId (idTable s), foldl put k0 updates)
            (partialStressElements s)
            = Ok (touchTable (peridigmGlobalIdToPeridigmLocalId (idTable s))
                    (partialStressPointIds (partialStressElements s)),
                  kinematicsAfter time solution s solver)).
  { apply (partialStress_loop_run _ _ _ _ _ _ _ _ (length (peridigm_globalIds solver)));
      try done; congruence. }
  unfold setCurrentTimeAndDisplacement, stateAfter. rewrite Hhas, Hsolver. cbv zeta.
  cbn [from_option mbind outcome_bind].
  change (if bool_decide (time - previousTime s ≤ 0)%Qc then 1%Qc
          else (time - previousTime s)%Qc) with dt.
  fold k0. rewrite Hloop1. cbn [mbind outcome_bind]. rewrite Hloop2. cbn [mbind outcome_bind].
  reflexivity.
Qed.

(** The values a material point with a local id of its own holds after the
    call. *)
Lemma partialStress_point_values (time : Scalar) (solution : Tpetra_Vector)
    (s : PeridigmManager) (solver : Peridigm) (pse : PartialStressElement) (i : nat)
    (gid : Z) (l : nat) (x p : Point) :
  solverSized solver (previousSolutionPositions s) →
  Forall (elementReady (length (peridigm_globalIds solver)) solution
            (peridigmGlobalIdToPeridigmLocalId (idTable s))) (partialStressElements s) →
  pse ∈ partialStressElements s → peridigmGlobalIds pse !! i = Some gid →
  localIdOf (peridigmGlobalIdToPeridigmLocalId (idTable s)) gid = Z.of_nat l →
  point_at (getX solver) l = Some x →
  point_at (previousSolutionPositions s) l = Some p →
  (∀ pse' i' gid', pse' ∈ partialStressElements s → peridigmGlobalIds pse' !! i' = Some gid' →
     localIdOf (peridigmGlobalIdToPeridigmLocalId (idTable s)) gid' = Z.of_nat l →
     pse' = pse ∧ i' = i) →
  let y := mapToPhysicalFrame (getCubature (cellTopologyData pse) (cubatureDegree s)).*1
             (currentCellWorkset solution pse) (cellTopologyData pse) i in
  let k := kinematicsAfter time solution s solver in
  point_at (positions k) l = Some y
  ∧ point_at (displacements k) l = Some (psub y x)
  ∧ point_at (velocities k) l = Some (pdiv (psub y p) (timeStepFor time (previousTime s))).
Proof.
  intros (HX & HY & HU & HV & Hprev & Hsmall) Helements Hpse Hgid Hl Hx Hp Hunique y k.
  unfold k, kinematicsAfter.
  set (dt := timeStepFor time (previousTime s)).
  set (k0 := {| positions := getY solver; displacements := getU solver;
                velocities := getV solver |}).
  set (A := sphereUpdate _ _ _ _ _ <$> _).
  set (B := _ ≫= _).
  set (w := (l, (y, psub y x, pdiv (psub y p) dt)) : PointUpdate).
  destruct (foldl_put_lengths A k0) as (LY & LU & LV).
  cbn [positions displacements velocities k0] in LY, LU, LV.
  pose proof (point_from_length _ _ _ Hx) as Hlen.
  rewrite Forall_forall in Helements.
  assert (Hw : w ∈ B).
  { assert (Hex : ∃ w', w' ∈ B ∧ w' = w).
    { eexists. split.
      - apply list_elem_of_bind. exists pse. split; [|done].
        unfold partialStressUpdates. eapply elem_of_lookup_imap_2. exact Hgid.
      - cbv beta zeta. rewrite Hl, Nat2Z.id, Hx, Hp. reflexivity. }
    destruct Hex as (w' & Hw' & ->). exact Hw'. }
  destruct (foldl_put_values B (foldl put k0 A) w Hw) as (HYw & HUw & HVw).
  - intros w' Hw' Heq. apply partialStressUpdates_ids in Hw'
      as (pse' & i' & gid' & Hpse' & Hgid' & Hw1 & Hw2 & Hw3 & Hw4).
    assert (Hin : gid' ∈ peridigmGlobalIds pse') by (by eapply list_elem_of_lookup_2).
    destruct (Helements pse' Hpse') as (_ & _ & _ & Hrange). specialize (Hrange gid' Hin).
    cbn [fst w] in Heq.
    destruct (Hunique pse' i' gid' Hpse' Hgid') as [-> ->]; [lia|].
    destruct w' as [l' [[y' u'] v']]. cbn [fst snd] in Heq, Hw2, Hw3, Hw4 |- *.
    rewrite Heq, Hx in Hw3. rewrite Heq, Hp in Hw4. cbn in Hw3, Hw4.
    rewrite Hw3, Hw4, Hw2. done.
  - cbn [fst w]. lia.
  - cbn [fst w]. lia.
  - cbn [fst w]. lia.
  - done.
Qed.

(** X6: where both loops pass, every material point of a partial-stress
    element whose local id no other material point shares ends with its
    current position at the image of its quadrature point under the map of
    the current node coordinates (stored initial coordinates plus mesh
    displacement), its displacement at current minus reference position,
    and its velocity at (current - previous solution position) / time
    step. *)
Theorem setCurrentTimeAndDisplacement_partialStress (time : Scalar) (solution : Tpetra_Vector)
    (s : PeridigmManager) (solver : Peridigm) :
  hasPeridynamics s = true → peridigm s = Some solver →
  solverSized solver (previousSolutionPositions s) →
  Z.of_nat (length (getData solution)) ≤ Int.max_signed →
  Forall (sphereReady (peridigm_globalIds solver) solution) (sphereElementGlobalNodeIds s) →
  Forall (elementReady (length (peridigm_globalIds solver)) solution
            (peridigmGlobalIdToPeridigmLocalId (idTable s))) (partialStressElements s) →
  ∃ s' solver',
    setCurrentTimeAndDisplacement time solution s = Ok s'
    ∧ peridigm s' = Some solver'
    ∧ timeStep s' = timeStepFor time (previousTime s)
    ∧ ∀ pse i gid l x p,
        pse ∈ partialStressElements s → peridigmGlobalIds pse !! i = Some gid →
        localIdOf (peridigmGlobalIdToPeridigmLocalId (idTable s)) gid = Z.of_nat l →
        point_at (getX solver) l = Some x →
        point_at (previousSolutionPositions s) l = Some p →
        (∀ pse' i' gid', pse' ∈ partialStressElements s →
           peridigmGlobalIds pse' !! i' = Some gid' →
           localIdOf (peridigmGlobalIdToPeridigmLocalId (idTable s)) gid' = Z.of_nat l →
           pse' = pse ∧ i' = i) →
        let y := mapToPhysicalFrame (getCubature (cellTopologyData pse) (cubatureDegree s)).*1
                   (currentCellWorkset solution pse) (cellTopologyData pse) i in
        point_at (getY solver') l = Some y
        ∧ point_at (getU solver') l = Some (psub y x)
        ∧ point_at (getV solver') l = Some (pdiv (psub y p) (timeStep s')).
Proof.
  intros Hhas Hsolver Hsized Hdata Hspheres Helements.
  eexists _, _. split; [by apply setCurrentTimeAndDisplacement_result|].
  split; [reflexivity|]. split; [reflexivity|].
  intros pse i gid l x p Hpse Hgid Hl Hx Hp Hunique.
  by apply (partialStress_point_values time solution s solver pse i gid l x p).
Qed.

End SetCurrentResult.

Lemma Some_point_eq (p q : Point) :
  (p.1.1 == q.1.1)%Q → (p.1.2 == q.1.2)%Q → (p.2 == q.2)%Q → Some p = Some q.
Proof.
  destruct p as [[a b] c], q as [[a' b'] c']. cbn. intros Ha Hb Hc.
  by rewrite (Qc_is_canon _ _ Ha), (Qc_is_canon _ _ Hb), (Qc_is_canon _ _ Hc).
Qed.

Ltac same_point := apply Some_point_eq; vm_compute; reflexivity.

Section TetReady.
Import LinearTet Examples MoreExamples.

Lemma tetState_sized : solverSized tetSolver (previousSolutionPositions tetState).
Proof. unfold solverSized. cbn. unfold Int.max_signed. lia. Qed.

Lemma tetSolution_ready (data : list Scalar) :
  length data = 12%nat →
  Forall (elementReady (length (peridigm_globalIds tetSolver)) (tetSolution data)
            (peridigmGlobalIdToPeridigmLocalId (idTable tetState)))
         (partialStressElements tetState).
Proof.
  intros Hlen.
  do 12 (destruct data as [|? data]; [discriminate|]). destruct data; [|discriminate].
  constructor; [|constructor]. split_and!.
  - cbn. lia.
  - cbn. unfold Int.max_signed. lia.
  - intros i node Hi. cbn in Hi.
    destruct i as [|[|[|[|i]]]]; cbn in Hi; try discriminate; injection Hi as <-;
      (split; [by eexists|]).
    + eexists _, 0%nat. split; reflexivity.
    + eexists _, 3%nat. split; reflexivity.
    + eexists _, 6%nat. split; reflexivity.
    + eexists _, 9%nat. split; reflexivity.
  - intros gid Hgid. cbn in Hgid. apply list_elem_of_singleton in Hgid as ->.
    vm_compute. split; [discriminate|reflexivity].
Qed.

Lemma tetElement_only (pse : PartialStressElement) (i : nat) (gid : Z) :
  pse ∈ partialStressElements tetState → peridigmGlobalIds pse !! i = Some gid →
  pse = tetElement ∧ i = 0%nat.
Proof.
  intros Hpse Hgid. cbn in Hpse. apply list_elem_of_singleton in Hpse as ->.
  split; [done|]. destruct i as [|i]; [done|]. discriminate Hgid.
Qed.

Lemma setCurrentTimeAndDisplacement_partialStress_witness :
  ∃ s' solver',
    setCurrentTimeAndDisplacement 1%Qc apexLifted tetState = Ok s'
    ∧ peridigm s' = Some solver'
    ∧ point_at (getY solver') 0 = Some (qc 1 4, qc 1 4, qc 1 2)
    ∧ point_at (getU solver') 0 = Some (0%Qc, 0%Qc, qc 1 4)
    ∧ point_at (getV solver') 0 = Some (0%Qc, 0%Qc, qc 1 4).
Proof.
  destruct (setCurrentTimeAndDisplacement_partialStress 1%Qc apexLifted tetState tetSolver)
    as (s' & solver' & Hrun & Hsolver & Hdt & Hpoint).
  - reflexivity.
  - reflexivity.
  - exact tetState_sized.
  - cbn. unfold Int.max_signed. lia.
  - constructor.
  - by apply tetSolution_ready.
  - destruct (Hpoint tetElement 0%nat 5 0%nat (qc 1 4, qc 1 4, qc 1 4) (qc 1 4, qc 1 4, qc 1 4))
      as (HY & HU & HV).
    + cbn. apply list_elem_of_singleton. reflexivity.
    + reflexivity.
    + reflexivity.
    + reflexivity.
    + reflexivity.
    + intros pse' i' gid' Hpse' Hgid' _. by apply (tetElement_only pse' i' gid').
    + exists s', solver'. rewrite Hdt in HV.
      split_and!; [exact Hrun|exact Hsolver|rewrite HY|rewrite HU|rewrite HV]; same_point.
Defined.

End TetReady.

(** ** A later call overwrites an earlier one *)

Lemma set_point_set_point_eq (v : list Scalar) (l : nat) (p q : Point) :
  set_point (set_point v l p) l q = set_point v l q.
Proof.
  unfold set_point.
  rewrite (list_insert_insert_ne _ (3 * l) (3 * l + 2))%nat by lia.
  rewrite (list_insert_insert_ne _ (3 * l) (3 * l + 1))%nat by lia.
  rewrite list_insert_insert_eq.
  rewrite (list_insert_insert_ne _ (3 * l + 1) (3 * l + 2))%nat by lia.
  rewrite list_insert_insert_eq.
  by rewrite list_insert_insert_eq.
Qed.

Lemma set_point_commute (v : list Scalar) (l l' : nat) (p q : Point) :
  l ≠ l' → set_point (set_point v l p) l' q = set_point (set_point v l' q) l p.
Proof.
  intros Hne. unfold set_point.
  rewrite (list_insert_insert_ne _ (3 * l') (3 * l + 2))%nat by lia.
  rewrite (list_insert_insert_ne _ (3 * l') (3 * l + 1))%nat by lia.
  rewrite (list_insert_insert_ne _ (3 * l') (3 * l))%nat by lia.
  rewrite (list_insert_insert_ne _ (3 * l' + 1) (3 * l + 2))%nat by lia.
  rewrite (list_insert_insert_ne _ (3 * l' + 1) (3 * l + 1))%nat by lia.
  rewrite (list_insert_insert_ne _ (3 * l' + 1) (3 * l))%nat by lia.
  rewrite (list_insert_insert_ne _ (3 * l' + 2) (3 * l + 2))%nat by lia.
  rewrite (list_insert_insert_ne _ (3 * l' + 2) (3 * l + 1))%nat by lia.
  rewrite (list_insert_insert_ne _ (3 * l' + 2) (3 * l))%nat by lia.
  done.
Qed.

Lemma put_put_eq (k : Kinematics) (w w' : PointUpdate) :
  w'.1 = w.1 → put (put k w) w' = put k w'.
Proof.
  intros Heq. unfold put. cbn [positions displacements velocities].
  by rewrite Heq, !set_point_set_point_eq.
Qed.

Lemma put_put_ne (k : Kinematics) (w w' : PointUpdate) :
  w'.1 ≠ w.1 → put (put k w) w' = put (put k w') w.
Proof.
  intros Hne. unfold put. cbn [positions displacements velocities].
  by rewrite !(set_point_commute _ w.1 w'.1) by done.
Qed.

Lemma foldl_put_absorb1 (ws : list PointUpdate) (k : Kinematics) (w : PointUpdate) :
  (∃ w', w' ∈ ws ∧ w'.1 = w.1) → foldl put (put k w) ws = foldl put k ws.
Proof.
  revert k. induction ws as [|w0 ws IH]; intros k (w' & Hw' & Heq).
  { by apply elem_of_nil in Hw'. }
  cbn [foldl]. destruct (decide (w0.1 = w.1)) as [H0|H0].
  - by rewrite put_put_eq.
  - rewrite put_put_ne by done. apply IH. exists w'. split; [|done].
    apply elem_of_cons in Hw' as [->|Hw']; done.
Qed.

(** Updates whose local ids are all named again by later updates leave no
    trace. *)
Lemma foldl_put_absorb (ws1 ws2 : list PointUpdate) (k : Kinematics) :
  (∀ w, w ∈ ws1 → ∃ w', w' ∈ ws2 ∧ w'.1 = w.1) →
  foldl put (foldl put k ws1) ws2 = foldl put k ws2.
Proof.
  induction ws1 as [|w ws1 IH] using rev_ind; intros Hall; [done|].
  rewrite foldl_app. cbn [foldl]. rewrite foldl_put_absorb1.
  - apply IH. intros w1 Hw1. apply Hall. apply elem_of_app. by left.
  - apply Hall. apply elem_of_app. right. by left.
Qed.

Lemma kinematics_eta (k : Kinematics) :
  {| positions := positions k; displacements := displacements k; velocities := velocities k |}
  = k.
Proof. by destruct k. Qed.

Lemma touchTable_mono (table : gmap Z Z) (gids : list Z) (gid : Z) :
  is_Some (table !! gid) → is_Some (touchTable table gids !! gid).
Proof.
  unfold touchTable. revert table.
  induction gids as [|g gids IH]; intros table Hin; [done|]. cbn [foldl]. apply IH.
  unfold map_index. destruct (table !! g); cbn; [done|].
  apply lookup_insert_is_Some'. by right.
Qed.

Lemma touchTable_dom (table : gmap Z Z) (gids : list Z) (gid : Z) :
  gid ∈ gids → is_Some (touchTable table gids !! gid).
Proof.
  revert table. induction gids as [|g gids IH]; intros table Hin.
  { by apply elem_of_nil in Hin. }
  apply elem_of_cons in Hin as [->|Hin].
  - change (touchTable table (g :: gids)) with (touchTable (map_index 0 table g).2 gids).
    apply touchTable_mono. unfold map_index.
    destruct (table !! g) eqn:Hg; cbn; [by rewrite Hg|].
    rewrite lookup_insert_eq. by eexists.
  - change (touchTable table (g :: gids)) with (touchTable (map_index 0 table g).2 gids).
    by apply IH.
Qed.

Lemma touchTable_present (table : gmap Z Z) (gids : list Z) :
  (∀ gid, gid ∈ gids → is_Some (table !! gid)) → touchTable table gids = table.
Proof.
  unfold touchTable. induction gids as [|g gids IH]; intros Hall; [done|]. cbn [foldl].
  destruct (Hall g) as [l Hl]; [by left|].
  rewrite (map_index_present 0 table g l Hl). cbn. apply IH.
  intros gid Hgid. apply Hall. by right.
Qed.

Lemma touchTable_idemp (table : gmap Z Z) (gids : list Z) :
  touchTable (touchTable table gids) gids = touchTable table gids.
Proof. apply touchTable_present. intros gid. apply touchTable_dom. Qed.

Section Overwrite.
Context `{!Intrepid} `{!PeridigmKernels}.

Lemma kinematicsAfter_lengths (time : Scalar) (solution : Tpetra_Vector) (s : PeridigmManager)
    (solver : Peridigm) :
  length (positions (kinematicsAfter time solution s solver)) = length (getY solver)
  ∧ length (displacements (kinematicsAfter time solution s solver)) = length (getU solver)
  ∧ length (velocities (kinematicsAfter time solution s solver)) = length (getV solver).
Proof.
  unfold kinematicsAfter.
  match goal with |- context [foldl put (foldl put ?k0 ?A) ?B] =>
    destruct (foldl_put_lengths A k0) as (LY & LU & LV);
    destruct (foldl_put_lengths B (foldl put k0 A)) as (LY' & LU' & LV')
  end.
  cbn [positions displacements velocities] in LY, LU, LV.
  split_and!; congruence.
Qed.

Ltac state_fields :=
  cbn [hasPeridynamics previousTime currentTime timeStep cubatureDegree blockNameToBlockId
       idTable sphereElementGlobalNodeIds partialStressElements previousSolutionPositions
       peridigm worksetLocalIdToGlobalId albanyPartialStressElementGlobalIdToPeridigmGlobalIds
       outputFields peridigmNodeGlobalIds peridigmGlobalIdToPeridigmLocalId
       peridigm_globalIds peridigm_cellVolume peridigm_blockId peridigm_timeStep
       getX getY getU getV getForce_vector].

(** X7: the call overwrites, it does not increment: where the loops pass
    for two solution vectors, a call with the second vector after a call
    with the first leaves exactly the manager and solver state that the
    call with the second vector alone leaves. *)
Theorem setCurrentTimeAndDisplacement_overwrites (time1 time2 : Scalar)
    (solution1 solution2 : Tpetra_Vector) (s : PeridigmManager) (solver : Peridigm) :
  hasPeridynamics s = true → peridigm s = Some solver →
  solverSized solver (previousSolutionPositions s) →
  Z.of_nat (length (getData solution1)) ≤ Int.max_signed →
  Z.of_nat (length (getData solution2)) ≤ Int.max_signed →
  Forall (sphereReady (peridigm_globalIds solver) solution1) (sphereElementGlobalNodeIds s) →
  Forall (sphereReady (peridigm_globalIds solver) solution2) (sphereElementGlobalNodeIds s) →
  Forall (elementReady (length (peridigm_globalIds solver)) solution1
            (peridigmGlobalIdToPeridigmLocalId (idTable s))) (partialStressElements s) →
  Forall (elementReady (length (peridigm_globalIds solver)) solution2
            (peridigmGlobalIdToPeridigmLocalId (idTable s))) (partialStressElements s) →
  ∃ s1 s2,
    setCurrentTimeAndDisplacement time1 solution1 s = Ok s1
    ∧ setCurrentTimeAndDisplacement time2 solution2 s = Ok s2
    ∧ setCurrentTimeAndDisplacement time2 solution2 s1 = Ok s2.
Proof.
  intros Hhas Hsolver Hsized Hdata1 Hdata2 Hspheres1 Hspheres2 Helements1 Helements2.
  exists (stateAfter time1 solution1 s solver), (stateAfter time2 solution2 s solver).
  split; [by apply setCurrentTimeAndDisplacement_result|].
  split; [by apply setCurrentTimeAndDisplacement_result|].
  set (table := peridigmGlobalIdToPeridigmLocalId (idTable s)).
  set (ids := partialStressPointIds (partialStressElements s)).
  set (k1 := kinematicsAfter time1 solution1 s solver).
  set (solver1 :=
         {| peridigm_globalIds := peridigm_globalIds solver;
            peridigm_cellVolume := peridigm_cellVolume solver;
            peridigm_blockId := peridigm_blockId solver;
            peridigm_timeStep := timeStepFor time1 (previousTime s);
            getX := getX solver;
            getY := positions k1; getU := displacements k1; getV := velocities k1;
            getForce_vector := getForce_vector solver |}).
  destruct (kinematicsAfter_lengths time1 solution1 s solver) as (LY & LU & LV).
  fold k1 in LY, LU, LV.
  destruct Hsized as (HX & HY & HU & HV & Hprev & Hsmall).
  assert (Hk : kinematicsAfter time2 solution2 (stateAfter time1 solution1 s solver) solver1
               = kinematicsAfter time2 solution2 s solver).
  { unfold kinematicsAfter, stateAfter, solver1. state_fields. fold table ids k1.
    rewrite (kinematics_eta k1).
    rewrite (list_bind_ext _
               (partialStressUpdates (cubatureDegree s) (getX solver)
                  (previousSolutionPositions s) (timeStepFor time2 (previousTime s))
                  solution2 table) _ (partialStressElements s)); [|
      intros pse; apply partialStressUpdates_ext; intros gid; apply touchTable_localIdOf
      | done].
    unfold k1, kinematicsAfter. fold table.
    set (k0 := {| positions := getY solver; displacements := getU solver;
                  velocities := getV solver |}).
    match goal with
    | |- foldl put (foldl put (foldl put (foldl put _ ?a1) ?b1) ?a2) ?b2 = _ =>
        set (A1 := a1); set (B1 := b1); set (A2 := a2); set (B2 := b2)
    end.
    transitivity (foldl put (foldl put k0 (A1 ++ B1)) (A2 ++ B2)); [by rewrite !foldl_app|].
    rewrite foldl_put_absorb; [by rewrite foldl_app|].
    intros w Hw. apply elem_of_app in Hw as [Hw|Hw].
    - apply list_elem_of_fmap in Hw as (g & -> & Hg).
      eexists. split.
      + apply elem_of_app. left. apply list_elem_of_fmap. exists g. split; [reflexivity|done].
      + reflexivity.
    - apply list_elem_of_bind in Hw as (pse & Hw & Hpse).
      unfold partialStressUpdates in Hw. apply list_elem_of_lookup in Hw as (i & Hi).
      rewrite list_lookup_imap in Hi.
      destruct (peridigmGlobalIds pse !! i) as [gid|] eqn:Hgid; [|done].
      injection Hi as <-.
      eexists. split.
      + apply elem_of_app. right. apply list_elem_of_bind. exists pse. split; [|done].
        unfold partialStressUpdates. eapply elem_of_lookup_imap_2. exact Hgid.
      + reflexivity. }
  rewrite (setCurrentTimeAndDisplacement_result time2 solution2 _ solver1).
  - f_equal. set (s1 := stateAfter time1 solution1 s solver) in *.
    unfold stateAfter. rewrite Hk.
    unfold s1, stateAfter, solver1. state_fields. fold table ids.
    by rewrite touchTable_idemp.
  - exact Hhas.
  - reflexivity.
  - unfold solverSized, stateAfter, solver1. state_fields. fold k1.
    split_and!; [done|congruence..|done|done].
  - done.
  - exact Hspheres2.
  - unfold stateAfter, solver1. state_fields. fold table ids.
    eapply Forall_impl; [exact Helements2|]. intros pse.
    apply elementReady_ext. intros gid. apply touchTable_localIdOf.
Qed.

End Overwrite.
Section OverwriteWitness.
Import LinearTet Examples MoreExamples.

Lemma setCurrentTimeAndDisplacement_overwrites_witness :
  ∃ s1 s2,
    setCurrentTimeAndDisplacement 1%Qc zeroSolution tetState = Ok s1
    ∧ setCurrentTimeAndDisplacement (qc 2 1) apexLifted tetState = Ok s2
    ∧ setCurrentTimeAndDisplacement (qc 2 1) apexLifted s1 = Ok s2.
Proof.
  apply (setCurrentTimeAndDisplacement_overwrites 1%Qc (qc 2 1) zeroSolution apexLifted
           tetState tetSolver).
  - reflexivity.
  - reflexivity.
  - exact tetState_sized.
  - cbn. unfold Int.max_signed. lia.
  - cbn. unfold Int.max_signed. lia.
  - constructor.
  - constructor.
  - exact (tetSolution_ready (replicate 12 0%Qc) eq_refl).
  - by apply tetSolution_ready.
Defined.

End OverwriteWitness.
(** ** What [setCurrentTimeAndDisplacement] leaves as it is *)

Lemma for_dof_Ok_inv {St} (body : St → Z → outcome St) (Inv : St → Prop) (s s' : St) :
  Inv s → (∀ s dof s', Inv s → body s dof = Ok s' → Inv s') →
  for_dof body s = Ok s' → Inv s'.
Proof.
  intros Hs Hstep Hrun. unfold for_dof in Hrun.
  apply bind_Ok in Hrun as (s1 & H0 & Hrun). apply bind_Ok in Hrun as (s2 & H1 & H2).
  eauto.
Qed.

Lemma same_lengths_refl (k : Kinematics) : same_lengths k k.
Proof. by unfold same_lengths. Qed.

Lemma same_lengths_trans (k1 k2 k3 : Kinematics) :
  same_lengths k1 k2 → same_lengths k2 k3 → same_lengths k1 k3.
Proof. unfold same_lengths. intros (? & ? & ?) (? & ? & ?). split_and!; congruence. Qed.

Ltac write_lengths H :=
  repeat match type of H with
         | _ ≫= _ = Ok _ => let H1 := fresh in apply bind_Ok in H as (? & H1 & H)
         end;
  repeat match goal with
         | Hw : write_at _ _ _ = Ok _ |- _ => apply write_at_Ok in Hw as [_ ->]
         end;
  try (injection H as <-);
  unfold same_lengths; cbn [positions displacements velocities];
  rewrite ?length_insert; done.

Lemma setVelocity_lengths (previous : list Scalar) (dt : Scalar) (lid : Z)
    (k k' : Kinematics) (dof : Z) :
  setVelocity previous dt lid k dof = Ok k' → same_lengths k k'.
Proof. unfold setVelocity. intros Hrun. write_lengths Hrun. Qed.

Lemma setSpherePoint_lengths (globalIds : list Z) (reference previous : list Scalar)
    (dt : Scalar) (solution : Tpetra_Vector) (k k' : Kinematics) (globalId : Z) :
  setSpherePoint globalIds reference previous dt solution k globalId = Ok k' →
  same_lengths k k'.
Proof.
  unfold setSpherePoint. intros Hrun.
  apply bind_Ok in Hrun as (_ & _ & Hrun). apply bind_Ok in Hrun as (_ & _ & Hrun).
  apply bind_Ok in Hrun as (k1 & H1 & Hrun). apply bind_Ok in Hrun as (k2 & H2 & H3).
  apply (for_dof_Ok_inv _ (same_lengths k)) in H1;
    [|apply same_lengths_refl|
     intros k0 dof k0' Hk0 Hb; apply (same_lengths_trans _ k0); [done|write_lengths Hb]].
  apply (for_dof_Ok_inv _ (same_lengths k)) in H2;
    [|done|
     intros k0 dof k0' Hk0 Hb; apply (same_lengths_trans _ k0); [done|write_lengths Hb]].
  apply (for_dof_Ok_inv _ (same_lengths k)) in H3; [done|done|].
  intros k0 dof k0' Hk0 Hb. apply (same_lengths_trans _ k0); [done|].
  by apply setVelocity_lengths in Hb.
Qed.

Lemma map_index_subseteq (table : gmap Z Z) (gid : Z) : table ⊆ (map_index 0 table gid).2.
Proof.
  unfold map_index. destruct (table !! gid) eqn:Hg; cbn; [done|].
  by apply insert_subseteq.
Qed.

Lemma setPartialStressPoint_frame (reference previous : list Scalar) (dt : Scalar)
    (physPoints : nat → Point) (st st' : gmap Z Z * Kinematics) (item : nat * Z) :
  setPartialStressPoint reference previous dt physPoints st item = Ok st' →
  st.1 ⊆ st'.1 ∧ same_lengths st.2 st'.2.
Proof.
  unfold setPartialStressPoint. intros Hrun.
  pose proof (map_index_subseteq st.1 item.2) as Hsub.
  destruct (map_index 0 st.1 item.2) as [lid table]. cbn [snd] in Hsub.
  apply bind_Ok in Hrun as (_ & _ & Hrun).
  apply bind_Ok in Hrun as (k1 & H1 & Hrun). apply bind_Ok in Hrun as (k2 & H2 & Hrun).
  apply bind_Ok in Hrun as (k3 & H3 & Hrun). injection Hrun as <-. cbn [fst snd].
  split; [done|].
  apply (for_dof_Ok_inv _ (same_lengths st.2)) in H1;
    [|apply same_lengths_refl|
     intros k0 dof k0' Hk0 Hb; apply (same_lengths_trans _ k0); [done|write_lengths Hb]].
  apply (for_dof_Ok_inv _ (same_lengths st.2)) in H2;
    [|done|
     intros k0 dof k0' Hk0 Hb; apply (same_lengths_trans _ k0); [done|write_lengths Hb]].
  apply (for_dof_Ok_inv _ (same_lengths st.2)) in H3; [done|done|].
  intros k0 dof k0' Hk0 Hb. apply (same_lengths_trans _ k0); [done|].
  by apply setVelocity_lengths in Hb.
Qed.

Section Frame.
Context `{!Intrepid} `{!PeridigmKernels}.

Lemma setPartialStressElement_frame (degree : Z) (reference previous : list Scalar)
    (dt : Scalar) (solution : Tpetra_Vector) (st st' : gmap Z Z * Kinematics)
    (pse : PartialStressElement) :
  setPartialStressElement degree reference previous dt solution st pse = Ok st' →
  st.1 ⊆ st'.1 ∧ same_lengths st.2 st'.2.
Proof.
  unfold setPartialStressElement. intros Hrun.
  apply bind_Ok in Hrun as (cellWorkset & _ & Hrun).
  refine (for_each_Ok_inv _ (λ st1, st.1 ⊆ st1.1 ∧ same_lengths st.2 st1.2) _ _ _ _ _ Hrun).
  - split; [done|apply same_lengths_refl].
  - intros st1 item st2 _ [Hsub Hlen] Hbody.
    apply setPartialStressPoint_frame in Hbody as [Hsub' Hlen'].
    split; [by etrans|by apply (same_lengths_trans _ st1.2)].
Qed.

(** X8: every call of [setCurrentTimeAndDisplacement] that returns leaves
    the previous time, the previous solution positions, the lists of sphere
    and partial-stress elements and the other tables of the manager as they
    are, and in the solver the map, the reference positions and the force
    vector; the position, displacement and velocity vectors keep their
    lengths, and the id table changes only by ids that were absent. *)
Theorem setCurrentTimeAndDisplacement_preserves (time : Scalar) (solution : Tpetra_Vector)
    (s s' : PeridigmManager) :
  setCurrentTimeAndDisplacement time solution s = Ok s' →
  hasPeridynamics s' = hasPeridynamics s
  ∧ previousTime s' = previousTime s
  ∧ previousSolutionPositions s' = previousSolutionPositions s
  ∧ sphereElementGlobalNodeIds s' = sphereElementGlobalNodeIds s
  ∧ partialStressElements s' = partialStressElements s
  ∧ cubatureDegree s' = cubatureDegree s
  ∧ blockNameToBlockId s' = blockNameToBlockId s
  ∧ worksetLocalIdToGlobalId s' = worksetLocalIdToGlobalId s
  ∧ albanyPartialStressElementGlobalIdToPeridigmGlobalIds s'
    = albanyPartialStressElementGlobalIdToPeridigmGlobalIds s
  ∧ outputFields s' = outputFields s
  ∧ peridigmNodeGlobalIds (idTable s') = peridigmNodeGlobalIds (idTable s)
  ∧ peridigmGlobalIdToPeridigmLocalId (idTable s)
    ⊆ peridigmGlobalIdToPeridigmLocalId (idTable s')
  ∧ (hasPeridynamics s = true →
     ∃ solver solver', peridigm s = Some solver ∧ peridigm s' = Some solver'
       ∧ peridigm_globalIds solver' = peridigm_globalIds solver
       ∧ peridigm_cellVolume solver' = peridigm_cellVolume solver
       ∧ peridigm_blockId solver' = peridigm_blockId solver
       ∧ getX solver' = getX solver
       ∧ getForce_vector solver' = getForce_vector solver
       ∧ length (getY solver') = length (getY solver)
       ∧ length (getU solver') = length (getU solver)
       ∧ length (getV solver') = length (getV solver)).
Proof.
  unfold setCurrentTimeAndDisplacement. intros Hrun.
  destruct (hasPeridynamics s) eqn:Hhas.
  2: { injection Hrun as <-. rewrite Hhas. split_and!; done. }
  cbv zeta in Hrun.
  apply bind_Ok in Hrun as (solver & Hsolver & Hrun).
  destruct (peridigm s) as [solver0|] eqn:Hp; [|done]. injection Hsolver as ->.
  apply bind_Ok in Hrun as (k & Hspheres & Hrun).
  apply bind_Ok in Hrun as ([table k'] & Hloop & Hrun).
  injection Hrun as <-. cbn.
  set (k0 := {| positions := getY solver; displacements := getU solver;
                velocities := getV solver |}) in *.
  assert (Hk : same_lengths k0 k).
  { refine (for_each_Ok_inv _ (same_lengths k0) _ _ _ _ _ Hspheres).
    - apply same_lengths_refl.
    - intros k1 g k2 _ Hk1 Hb. apply (same_lengths_trans _ k1); [done|].
      by apply setSpherePoint_lengths in Hb. }
  assert (Hk' : peridigmGlobalIdToPeridigmLocalId (idTable s) ⊆ table ∧ same_lengths k0 k').
  { refine (for_each_Ok_inv _
              (λ st, peridigmGlobalIdToPeridigmLocalId (idTable s) ⊆ st.1
                     ∧ same_lengths k0 st.2) _ _ (table, k') _ _ Hloop).
    - done.
    - intros st1 pse st2 _ [Hsub Hlen] Hb.
      apply setPartialStressElement_frame in Hb as [Hsub' Hlen'].
      split; [by etrans|by apply (same_lengths_trans _ st1.2)]. }
  destruct Hk' as [Hsub (LY & LU & LV)].
  split_and!; try done.
  intros _. exists solver. eexists. split; [done|]. split; [reflexivity|]. cbn.
  split_and!; done.
Qed.

End Frame.

Section FrameWitness.
Import LinearTet Examples.

Lemma setCurrentTimeAndDisplacement_preserves_witness :
  ∃ s', setCurrentTimeAndDisplacement 1%Qc (solutionAtNode5 (qc 1 10, 0, 0)%Qc) sphereState
        = Ok s'
    ∧ previousTime s' = 0%Qc
    ∧ previousSolutionPositions s' = [1; 0; 0]%Qc.
Proof.
  destruct (setCurrentTimeAndDisplacement 1%Qc (solutionAtNode5 (qc 1 10, 0, 0)%Qc) sphereState)
    as [s'| |] eqn:Hrun; [|vm_compute in Hrun; discriminate..].
  exists s'. split; [reflexivity|].
  destruct (setCurrentTimeAndDisplacement_preserves _ _ _ _ Hrun) as (_ & Ht & Hprev & _).
  split; [exact Ht|exact Hprev].
Defined.

End FrameWitness.
(** ** Nodes the solution vector does not hold (lines 563-564 and 628-632) *)

Lemma for_each_app {A St} (body : St → A → outcome St) (s : St) (l k : list A) :
  for_each body s (l ++ k) = (s' ← for_each body s l; for_each body s' k).
Proof.
  revert s. induction l as [|a l IH]; intros s; [done|]. cbn.
  destruct (body s a) as [s1|f|]; cbn; [apply IH|done|done].
Qed.

(** A loop that cannot abort and has an iteration that is undefined on every
    state is undefined. *)
Lemma for_each_Undefined {A St} (body : St → A → outcome St) (Inv : St → Prop)
    (l : list A) (s : St) (a : A) :
  Inv s →
  (∀ s b, b ∈ l → Inv s → (∀ f, body s b ≠ Fatal f) ∧ ∀ s', body s b = Ok s' → Inv s') →
  a ∈ l → (∀ s, body s a = Undefined) →
  for_each body s l = Undefined.
Proof.
  intros Hs Hstep Ha Hund. revert s Hs.
  induction l as [|b l IH]; intros s Hs; [by apply elem_of_nil in Ha|].
  cbn. destruct (Hstep s b) as [Hno Hinv]; [by left|done|].
  apply elem_of_cons in Ha as [->|Ha].
  - by rewrite Hund.
  - destruct (body s b) as [s1|f|] eqn:Hb; cbn; [|by destruct (Hno f)|done].
    apply IH; [intros ? ? ?; apply Hstep; by right|done|by apply Hinv].
Qed.

Lemma setCellWorksetNode_missing (solution : Tpetra_Vector) (initialPositions : list Scalar)
    (cellWorkset : list Point) (i : nat) (node : Z) :
  getLocalElement solution (Int.mul 3 (albanyId node)) = -1 →
  setCellWorksetNode solution initialPositions cellWorkset (i, node) = Undefined.
Proof.
  intros Hno. unfold setCellWorksetNode. cbn [fst snd]. rewrite Hno.
  assert (Hread : read_at (getData solution) (offset (-1) 0) = Undefined) by reflexivity.
  rewrite Hread.
  destruct (read_at initialPositions (index3 (Z.of_nat i) 0)) as [x|f|] eqn:Hx;
    cbn [mbind outcome_bind]; [done|by apply read_at_not_Fatal in Hx|done].
Qed.

Lemma setPartialStressPoint_failure (reference previous : list Scalar) (dt : Scalar)
    (physPoints : nat → Point) (st : gmap Z Z * Kinematics) (item : nat * Z) (f : failure) :
  setPartialStressPoint reference previous dt physPoints st item = Fatal f →
  f = InvalidPartialStressLocalId.
Proof.
  unfold setPartialStressPoint. destruct (map_index 0 st.1 item.2) as [lid table].
  intros Hrun. apply bind_Fatal in Hrun as [Hrun|(_ & _ & Hrun)].
  { by apply test_for_except_Fatal in Hrun as [_ ->]. }
  exfalso. apply bind_Fatal in Hrun as [Hrun|(? & _ & Hrun)].
  { apply for_dof_not_Fatal in Hrun; [done|]. intros ? ? Hb. fatal_cases Hb. }
  apply bind_Fatal in Hrun as [Hrun|(? & _ & Hrun)].
  { apply for_dof_not_Fatal in Hrun; [done|]. intros ? ? Hb. fatal_cases Hb. }
  apply bind_Fatal in Hrun as [Hrun|(? & _ & Hrun)]; [|done].
  apply for_dof_not_Fatal in Hrun; [done|]. intros ? ?. apply setVelocity_not_Fatal.
Qed.

Lemma setSpherePoint_no_displacement (globalIds : list Z) (reference previous : list Scalar)
    (dt : Scalar) (solution : Tpetra_Vector) (k : Kinematics) (globalId : Z) :
  globalId ∈ globalIds → getLocalElement solution (Int.mul 3 globalId) = -1 →
  setSpherePoint globalIds reference previous dt solution k globalId
  = Fatal InvalidAlbanyLocalId.
Proof.
  intros Hg Hno. unfold setSpherePoint.
  destruct (LID_present _ _ Hg) as (l & Hl & _). rewrite Hl, Hno.
  rewrite (bool_decide_eq_false_2 (Z.of_nat l = -1)) by lia. done.
Qed.

Section MissingNode.
Context `{!Intrepid} `{!PeridigmKernels}.

Lemma setPartialStressElement_failure (degree : Z) (reference previous : list Scalar)
    (dt : Scalar) (solution : Tpetra_Vector) (st : gmap Z Z * Kinematics)
    (pse : PartialStressElement) (f : failure) :
  setPartialStressElement degree reference previous dt solution st pse = Fatal f →
  f = InvalidPartialStressLocalId.
Proof.
  unfold setPartialStressElement. intros Hrun.
  apply bind_Fatal in Hrun as [Hrun|(cellWorkset & _ & Hrun)].
  - exfalso. apply (for_each_failure _ (λ _, False) _ _ _) in Hrun; [done|].
    intros ? ? ? _ Hb. by apply setCellWorksetNode_not_Fatal in Hb.
  - apply (for_each_failure _ (λ f, f = InvalidPartialStressLocalId) _ _ _) in Hrun; [done|].
    intros ? ? ? _. apply setPartialStressPoint_failure.
Qed.

Lemma setPartialStressElement_missing (degree : Z) (reference previous : list Scalar)
    (dt : Scalar) (solution : Tpetra_Vector) (st : gmap Z Z * Kinematics)
    (pse : PartialStressElement) (node : Z) :
  node ∈ begin_nodes (albanyElement pse) →
  getLocalElement solution (Int.mul 3 (albanyId node)) = -1 →
  setPartialStressElement degree reference previous dt solution st pse = Undefined.
Proof.
  intros Hnode Hno. unfold setPartialStressElement.
  apply list_elem_of_lookup in Hnode as (i & Hi).
  rewrite (for_each_Undefined _ (λ _, True) _ _ (i, node)); [done|done| | |].
  - intros cw item _ _. split; [|done]. intros f. apply setCellWorksetNode_not_Fatal.
  - by apply (elem_of_lookup_imap_2 pair _ node i).
  - intros cw. by apply setCellWorksetNode_missing.
Qed.

(** X9: a sphere element whose node the map of the solution vector lacks
    makes the call abort with the invalid-Albany-local-id failure (line
    564); for the nodes of a partial-stress element there is no such check:
    the index -1 the map returns is used to read the displacement array
    (lines 630-632), which is undefined behaviour. *)
Theorem setCurrentTimeAndDisplacement_node_without_displacement (time : Scalar)
    (solution : Tpetra_Vector) (s : PeridigmManager) (solver : Peridigm) :
  hasPeridynamics s = true → peridigm s = Some solver →
  solverSized solver (previousSolutionPositions s) →
  Z.of_nat (length (getData solution)) ≤ Int.max_signed →
  (∀ passed g rest,
     sphereElementGlobalNodeIds s = passed ++ g :: rest →
     Forall (sphereReady (peridigm_globalIds solver) solution) passed →
     g ∈ peridigm_globalIds solver →
     getLocalElement solution (Int.mul 3 g) = -1 →
     setCurrentTimeAndDisplacement time solution s = Fatal InvalidAlbanyLocalId)
  ∧ (∀ pse node,
       Forall (sphereReady (peridigm_globalIds solver) solution) (sphereElementGlobalNodeIds s) →
       noInvalidLocalId (peridigmGlobalIdToPeridigmLocalId (idTable s)) →
       pse ∈ partialStressElements s →
       node ∈ begin_nodes (albanyElement pse) →
       getLocalElement solution (Int.mul 3 (albanyId node)) = -1 →
       setCurrentTimeAndDisplacement time solution s = Undefined).
Proof.
  intros Hhas Hsolver (HX & HY & HU & HV & Hprev & Hsmall) Hdata.
  unfold setCurrentTimeAndDisplacement. rewrite Hhas, Hsolver. cbv zeta.
  cbn [from_option mbind outcome_bind].
  set (dt := if bool_decide _ then _ else _).
  set (k0 := {| positions := getY solver; displacements := getU solver;
                velocities := getV solver |}).
  split.
  - intros passed g rest Hsplit Hready Hg Hno.
    rewrite Hsplit, for_each_app.
    rewrite (sphere_loop_run (peridigm_globalIds solver) (getX solver)
               (previousSolutionPositions s) dt solution k0 passed); try done.
    cbn [mbind outcome_bind for_each].
    by rewrite setSpherePoint_no_displacement.
  - intros pse node Hready Hinv Hpse Hnode Hno.
    rewrite (sphere_loop_run (peridigm_globalIds solver) (getX solver)
               (previousSolutionPositions s) dt solution k0); try done.
    cbn [mbind outcome_bind].
    rewrite (for_each_Undefined _ (λ st, noInvalidLocalId st.1) _ _ pse); [done|done| |done|].
    + intros st pse' _ Hst. split.
      * intros f Hf. pose proof (setPartialStressElement_failure _ _ _ _ _ _ _ _ Hf) as ->.
        by apply (setPartialStressElement_spec _ _ _ _ _ st pse') in Hf.
      * by apply setPartialStressElement_spec.
    + intros st. by apply (setPartialStressElement_missing _ _ _ _ _ _ _ node).
Qed.

End MissingNode.

Section MissingNodeWitness.
Import LinearTet Examples MoreExamples.

Lemma setCurrentTimeAndDisplacement_node_without_displacement_witness :
  setCurrentTimeAndDisplacement 1%Qc solutionAtNode0 sphereState = Fatal InvalidAlbanyLocalId
  ∧ setCurrentTimeAndDisplacement 1%Qc solutionAtNode0 tetState = Undefined.
Proof.
  split.
  - refine (proj1 (setCurrentTimeAndDisplacement_node_without_displacement
                     1%Qc solutionAtNode0 sphereState sphereSolver _ _ _ _) [] 5 [] _ _ _ _).
    + reflexivity.
    + reflexivity.
    + unfold solverSized. cbn. unfold Int.max_signed. lia.
    + cbn. unfold Int.max_signed. lia.
    + reflexivity.
    + constructor.
    + cbn. left.
    + reflexivity.
  - refine (proj2 (setCurrentTimeAndDisplacement_node_without_displacement
                     1%Qc solutionAtNode0 tetState tetSolver _ _ _ _) tetElement 3 _ _ _ _ _).
    + reflexivity.
    + reflexivity.
    + exact tetState_sized.
    + cbn. unfold Int.max_signed. lia.
    + constructor.
    + intros gid lid Hl. cbn in Hl. apply lookup_singleton_Some in Hl as [_ <-]. done.
    + cbn. left.
    + cbn. left.
    + reflexivity.
Defined.

End MissingNodeWitness.
(** ** [updateState] (lines 655-664) *)

Lemma mapM_read_seq (v : list Scalar) (a n : nat) :
  (a + n ≤ length v)%nat →
  mapM (λ i, read_at v (Z.of_nat i)) (seq a n) = Ok (take n (drop a v)).
Proof.
  revert a. induction n as [|n IH]; intros a Hlen; [done|].
  cbn [seq mapM].
  destruct (lookup_lt_is_Some_2 v a) as [x Hx]; [lia|].
  rewrite (read_at_lookup v a x Hx). cbn [mbind outcome_bind].
  rewrite IH by lia. cbn [mbind outcome_bind mret outcome_ret].
  f_equal. rewrite (drop_S v x a Hx). done.
Qed.

Lemma mapM_read_seq_short (v : list Scalar) (a n : nat) :
  (a ≤ length v)%nat → (length v < a + n)%nat →
  mapM (λ i, read_at v (Z.of_nat i)) (seq a n) = Undefined.
Proof.
  revert a. induction n as [|n IH]; intros a Ha Hlen; [lia|].
  cbn [seq mapM]. destruct (v !! a) as [x|] eqn:Hx.
  - rewrite (read_at_lookup v a x Hx). cbn [mbind outcome_bind].
    apply lookup_lt_Some in Hx. by rewrite IH by lia.
  - unfold read_at. rewrite bool_decide_eq_true_2 by lia. by rewrite Nat2Z.id, Hx.
Qed.

Section UpdateState.
Context `{!Intrepid} `{!PeridigmKernels}.

Lemma updateState_run (s : PeridigmManager) (solver : Peridigm) :
  hasPeridynamics s = true → peridigm s = Some solver →
  (length (previousSolutionPositions s) ≤ length (getY solver))%nat →
  updateState s
  = Ok (withSolver s (currentTime s)
          (take (length (previousSolutionPositions s)) (getY solver))
          (Peridigm_updateState solver)).
Proof.
  intros Hhas Hsolver Hlen. unfold updateState. rewrite Hhas, Hsolver.
  cbn [from_option mbind outcome_bind].
  rewrite mapM_read_seq by (cbn; lia). cbn [mbind outcome_bind]. by rewrite drop_0.
Qed.

(** X10: with peridynamics present, [updateState] sets the previous time to
    the current time and copies the solver's current positions, entry by
    entry over the length of [previousSolutionPositions], before it calls
    the solver's own update; when the solver's vector is shorter than
    [previousSolutionPositions] the copy reads past its end, which is
    undefined behaviour. *)
Theorem updateState_copies_current_positions (s : PeridigmManager) (solver : Peridigm) :
  hasPeridynamics s = true → peridigm s = Some solver →
  ((length (previousSolutionPositions s) ≤ length (getY solver))%nat →
   updateState s
   = Ok (withSolver s (currentTime s)
           (take (length (previousSolutionPositions s)) (getY solver))
           (Peridigm_updateState solver)))
  ∧ ((length (getY solver) < length (previousSolutionPositions s))%nat →
     updateState s = Undefined).
Proof.
  intros Hhas Hsolver. unfold updateState. rewrite Hhas, Hsolver.
  cbn [from_option mbind outcome_bind]. split; intros Hlen.
  - rewrite mapM_read_seq by (cbn; lia). cbn [mbind outcome_bind]. by rewrite drop_0.
  - by rewrite mapM_read_seq_short by (cbn; lia).
Qed.

(** X11: where the loops of [setCurrentTimeAndDisplacement] pass, the call
    followed by [updateState] leaves the time of the call as previous time
    and the current positions the call computed, the whole vector, as
    previous solution positions; the solver is the one the solver's own
    update returns. *)
Theorem updateState_after_setCurrentTimeAndDisplacement (time : Scalar)
    (solution : Tpetra_Vector) (s : PeridigmManager) (solver : Peridigm) :
  hasPeridynamics s = true → peridigm s = Some solver →
  solverSized solver (previousSolutionPositions s) →
  Z.of_nat (length (getData solution)) ≤ Int.max_signed →
  Forall (sphereReady (peridigm_globalIds solver) solution) (sphereElementGlobalNodeIds s) →
  Forall (elementReady (length (peridigm_globalIds solver)) solution
            (peridigmGlobalIdToPeridigmLocalId (idTable s))) (partialStressElements s) →
  ∃ s1 solver1 s2,
    setCurrentTimeAndDisplacement time solution s = Ok s1
    ∧ peridigm s1 = Some solver1
    ∧ updateState s1 = Ok s2
    ∧ previousTime s2 = time
    ∧ currentTime s2 = time
    ∧ previousSolutionPositions s2 = getY solver1
    ∧ peridigm s2 = Some (Peridigm_updateState solver1).
Proof.
  intros Hhas Hsolver Hsized Hdata Hspheres Helements.
  pose proof (setCurrentTimeAndDisplacement_result time solution s solver
                Hhas Hsolver Hsized Hdata Hspheres Helements) as Hrun.
  destruct Hsized as (HX & HY & HU & HV & Hprev & Hsmall).
  destruct (kinematicsAfter_lengths time solution s solver) as (LY & _).
  eexists _, _, _. split; [exact Hrun|]. split; [reflexivity|].
  split.
  - apply updateState_run.
    + exact Hhas.
    + reflexivity.
    + cbn. lia.
  - cbn. split_and!; try reflexivity.
    apply take_ge. lia.
Qed.

End UpdateState.

Section UpdateStateWitness.
Import LinearTet Examples MoreExamples.

Lemma updateState_copies_current_positions_witness :
  updateState
    {| hasPeridynamics := true;
       previousTime := 0%Qc; currentTime := 1%Qc; timeStep := 1%Qc;
       cubatureDegree := 1;
       blockNameToBlockId := ∅;
       idTable := {| peridigmNodeGlobalIds := [5]; peridigmGlobalIdToPeridigmLocalId := ∅ |};
       sphereElementGlobalNodeIds := [];
       partialStressElements := [];
       previousSolutionPositions := [0; 0; 0; 0]%Qc;
       peridigm := Some (Peridigm_new [5] [1; 0; 0]%Qc [1%Qc] [1]);
       worksetLocalIdToGlobalId := ∅;
       albanyPartialStressElementGlobalIdToPeridigmGlobalIds := ∅;
       outputFields := [] |}
  = Undefined.
Proof.
  refine (proj2 (updateState_copies_current_positions _ (Peridigm_new [5] [1; 0; 0]%Qc [1%Qc] [1])
                   _ _) _).
  - reflexivity.
  - reflexivity.
  - cbn. lia.
Defined.

Lemma updateState_after_setCurrentTimeAndDisplacement_witness :
  ∃ s1 solver1 s2,
    setCurrentTimeAndDisplacement 1%Qc apexLifted tetState = Ok s1
    ∧ peridigm s1 = Some solver1
    ∧ updateState s1 = Ok s2
    ∧ previousTime s2 = 1%Qc
    ∧ previousSolutionPositions s2 = getY solver1.
Proof.
  destruct (updateState_after_setCurrentTimeAndDisplacement 1%Qc apexLifted tetState tetSolver)
    as (s1 & solver1 & s2 & Hrun & Hsolver & Hupdate & Ht & _ & Hprev & _).
  - reflexivity.
  - reflexivity.
  - exact tetState_sized.
  - cbn. unfold Int.max_signed. lia.
  - constructor.
  - by apply tetSolution_ready.
  - by exists s1, solver1, s2.
Defined.

End UpdateStateWitness.
(** ** The steps a returning [initialize] has passed *)

Section InitializeSteps.
Context `{!Intrepid} `{!PeridigmKernels}.

Lemma initialize_inv (params : Params) (disc : option STKDiscretization) (comm : Comm)
    (s s' : PeridigmManager) :
  hasPeridigmParameters params = true →
  initialize params disc comm s = Ok s' →
  let degree := default 2 (cubatureDegreeParam params) in
  let db := materialDataBase params in
  ∃ stk coordinates p1,
    disc = Some stk ∧ spatial_dimension stk = 3
    ∧ coordinatesField stk = Some coordinates
    ∧ pass1 db degree (get_parts stk) s = Ok p1
    ∧ let reg := registerPartialStressIds (p1_idTable p1) (allocatedIds comm p1) in
      (p1_peridynamicsBlocks p1 = [] ∧ p1_peridynamicPartialStressBlocks p1 = []
       ∧ s' = stateWithoutBlocks s degree p1 reg.1)
      ∨ (¬ (p1_peridynamicsBlocks p1 = [] ∧ p1_peridynamicPartialStressBlocks p1 = [])
         ∧ ∃ p2 worksets,
             for_each (pass2_block stk coordinates db (partCellTopologyData (get_parts stk))
                         degree (peridigmNodeGlobalIds reg.1) reg.2)
               (pass2_start s p1 reg.1) (stkElementBlocks (get_parts stk)) = Ok p2
             ∧ isMpiComm comm = true
             ∧ for_each worksetEntry (worksetLocalIdToGlobalId s) (getElemGIDws stk)
               = Ok worksets
             ∧ s' = stateInitialized s degree reg.1 p2 worksets).
Proof.
  intros Hparams Hrun degree db. unfold initialize in Hrun. rewrite Hparams in Hrun.
  cbn [negb] in Hrun. cbv zeta in Hrun.
  destruct disc as [stk|]; [|done]. cbn [from_option mbind outcome_bind] in Hrun.
  apply bind_Ok in Hrun as (u & Hdim & Hrun).
  apply test_for_except_Ok in Hdim. apply bool_decide_eq_false in Hdim.
  destruct (coordinatesField stk) as [coordinates|] eqn:Hfield; [|done].
  cbn [from_option mbind outcome_bind] in Hrun.
  apply bind_Ok in Hrun as (p1 & Hpass1 & Hrun).
  exists stk, coordinates, p1. split; [done|]. split; [by destruct (decide (spatial_dimension stk = 3))|].
  split; [done|]. split; [exact Hpass1|].
  cbv zeta. unfold allocatedIds.
  destruct (registerPartialStressIds _ _) as [table localIds]. cbn [fst snd].
  case_bool_decide as Hblocks.
  - left. destruct Hblocks as [? ?]. injection Hrun as <-. done.
  - right. split; [done|].
    apply bind_Ok in Hrun as (p2 & Hpass2 & Hrun).
    apply bind_Ok in Hrun as (u' & Hmpi & Hrun).
    apply test_for_except_Ok in Hmpi. apply negb_false_iff in Hmpi.
    apply bind_Ok in Hrun as (? & _ & Hrun).
    apply bind_Ok in Hrun as (? & _ & Hrun).
    apply bind_Ok in Hrun as (? & _ & Hrun).
    apply bind_Ok in Hrun as (? & _ & Hrun).
    apply bind_Ok in Hrun as (worksets & Hws & Hrun).
    injection Hrun as <-. exists p2, worksets. done.
Qed.

End InitializeSteps.
(** ** The workset table (lines 388-396) *)

Lemma map_index_default `{Countable K} {V} (dflt : V) (m : gmap K V) (k : K) :
  (map_index dflt m k).1 = default dflt (m !! k)
  ∧ ∀ k', default dflt ((map_index dflt m k).2 !! k') = default dflt (m !! k').
Proof.
  unfold map_index. destruct (m !! k) as [v|] eqn:Hk; cbn; [done|]. split; [done|].
  intros k'. destruct (decide (k = k')) as [<-|Hne].
  - by rewrite lookup_insert_eq, Hk.
  - by rewrite lookup_insert_ne.
Qed.

Lemma worksetEntry_Ok (table table' : gmap Z (list Z)) (entry : Z * (Z * Z)) :
  worksetEntry table entry = Ok table' →
  entry.2.2 = Z.of_nat (length (default [] (table !! entry.2.1)))
  ∧ ∀ ws, default [] (table' !! ws)
          = default [] (table !! ws) ++ (if decide (entry.2.1 = ws) then [Int.wrap entry.1] else []).
Proof.
  unfold worksetEntry. intros Hrun.
  destruct (map_index_default [] table entry.2.1) as [Hread Hkeep].
  destruct (map_index [] table entry.2.1) as [wsGIDs table1]. cbn [fst snd] in Hread, Hkeep.
  apply bind_Ok in Hrun as (u & Htest & Hrun).
  apply test_for_except_Ok in Htest. apply bool_decide_eq_false in Htest.
  injection Hrun as <-. subst wsGIDs. split.
  - destruct (decide (entry.2.2 = Z.of_nat (length (default [] (table !! entry.2.1))))); done.
  - intros ws. case_decide as Hws.
    + subst ws. by rewrite lookup_insert_eq.
    + rewrite lookup_insert_ne by done. by rewrite Hkeep, app_nil_r.
Qed.

(** The table after the loop holds, per workset, the global element ids of
    its entries in list order; every entry carried the next local id of its
    workset. *)
Lemma worksetEntries_spec (table0 table : gmap Z (list Z)) (entries : list (Z * (Z * Z))) :
  for_each worksetEntry table0 entries = Ok table →
  (∀ ws, default [] (table !! ws)
         = default [] (table0 !! ws)
           ++ ((λ e, Int.wrap e.1) <$> filter (λ e, e.2.1 = ws) entries))
  ∧ (∀ i e, entries !! i = Some e →
       e.2.2 = Z.of_nat (length (default [] (table0 !! e.2.1))
                         + length (filter (λ e', e'.2.1 = e.2.1) (take i entries)))).
Proof.
  intros Hrun.
  refine (for_each_Ok_passed _
            (λ passed tbl,
               (∀ ws, default [] (tbl !! ws)
                      = default [] (table0 !! ws)
                        ++ ((λ e, Int.wrap e.1) <$> filter (λ e, e.2.1 = ws) passed))
               ∧ (∀ i e, passed !! i = Some e →
                    e.2.2 = Z.of_nat (length (default [] (table0 !! e.2.1))
                                      + length (filter (λ e', e'.2.1 = e.2.1) (take i passed)))))
            _ _ _ _ _ Hrun).
  - split; [intros ws; by rewrite app_nil_r|]. intros i e Hi. done.
  - intros passed e rest tbl tbl' _ [Hcontent Hlids] Hbody.
    apply worksetEntry_Ok in Hbody as [Hlid Hnew]. split.
    + intros ws. rewrite Hnew, Hcontent, <- app_assoc. f_equal.
      rewrite filter_app, fmap_app. f_equal.
      rewrite filter_cons. cbn beta. repeat case_decide; done.
    + intros i e' Hi. destruct (decide (i < length passed)%nat) as [Hlt|Hge].
      * rewrite lookup_app_l in Hi by done. rewrite take_app_le by lia. by apply Hlids.
      * assert (i = length passed) as ->.
        { apply lookup_lt_Some in Hi. rewrite length_app in Hi. cbn in Hi. lia. }
        rewrite list_lookup_middle in Hi by done. injection Hi as <-.
        rewrite take_app_length. rewrite Hlid, Hcontent, length_app, length_fmap. done.
Qed.

(** The table read at the workset and local id of an entry gives back its
    global element id. *)
Lemma worksetEntries_lookup (table0 table : gmap Z (list Z)) (entries : list (Z * (Z * Z)))
    (i : nat) (gid ws lid : Z) :
  for_each worksetEntry table0 entries = Ok table →
  entries !! i = Some (gid, (ws, lid)) →
  lid = Z.of_nat (length (default [] (table0 !! ws))
                  + length (filter (λ e, e.2.1 = ws) (take i entries)))
  ∧ ∃ gids, table !! ws = Some gids ∧ gids !! Z.to_nat lid = Some (Int.wrap gid).
Proof.
  intros Hws Hi.
  destruct (worksetEntries_spec _ _ _ Hws) as [Hcontent Hlids].
  pose proof (Hlids i _ Hi) as Hlid. cbn [fst snd] in Hlid.
  split; [exact Hlid|].
  specialize (Hcontent ws).
  set (base := default [] (table0 !! ws)) in *.
  rewrite <- (take_drop_middle _ i _ Hi) in Hcontent at 1.
  rewrite filter_app, filter_cons in Hcontent. cbn [fst snd] in Hcontent.
  rewrite decide_True in Hcontent by done.
  rewrite fmap_app, fmap_cons in Hcontent. cbn [fst] in Hcontent.
  destruct (table !! ws) as [gids|] eqn:Hgids; cbn in Hcontent.
  - exists gids. split; [done|]. rewrite Hcontent, Hlid, Nat2Z.id.
    rewrite app_assoc. apply list_lookup_middle.
    by rewrite length_app, length_fmap.
  - exfalso. apply (f_equal length) in Hcontent.
    rewrite !length_app in Hcontent. cbn in Hcontent. lia.
Qed.

Section Worksets.
Context `{!Intrepid} `{!PeridigmKernels}.

(** X12: when [initialize] returns with peridynamics present, the workset
    table holds for every workset the global element ids of its entries of
    [getElemGIDws()], in the order of that list, after those it held before;
    every entry carried the next local id of its workset (otherwise
    [initialize] does not return), and the table read at the workset and
    local id of an entry gives back its global element id. *)
Theorem initialize_workset_table (params : Params) (stk : STKDiscretization) (comm : Comm)
    (s s' : PeridigmManager) :
  hasPeridigmParameters params = true →
  initialize params (Some stk) comm s = Ok s' →
  hasPeridynamics s' = true →
  (∀ ws, default [] (worksetLocalIdToGlobalId s' !! ws)
         = default [] (worksetLocalIdToGlobalId s !! ws)
           ++ ((λ e, Int.wrap e.1) <$> filter (λ e, e.2.1 = ws) (getElemGIDws stk)))
  ∧ (∀ i gid ws lid, getElemGIDws stk !! i = Some (gid, (ws, lid)) →
       lid = Z.of_nat (length (default [] (worksetLocalIdToGlobalId s !! ws))
                       + length (filter (λ e, e.2.1 = ws) (take i (getElemGIDws stk))))
       ∧ ∃ gids, worksetLocalIdToGlobalId s' !! ws = Some gids
           ∧ gids !! Z.to_nat lid = Some (Int.wrap gid)).
Proof.
  intros Hparams Hrun Hhas.
  destruct (initialize_inv params (Some stk) comm s s' Hparams Hrun)
    as (stk' & coordinates & p1 & [= <-] & _ & _ & _ & Hcases).
  cbv zeta in Hcases. destruct Hcases as [(_ & _ & ->)|(_ & p2 & worksets & _ & _ & Hws & ->)].
  { done. }
  cbn [worksetLocalIdToGlobalId stateInitialized].
  split; [by apply (worksetEntries_spec _ _ _ Hws)|].
  intros i gid ws lid Hi. by apply (worksetEntries_lookup _ _ _ _ _ _ _ Hws Hi).
Qed.

End Worksets.

Section WorksetsWitness.
Import LinearTet Examples.

Lemma initialize_workset_table_witness :
  ∃ s', initialize twoBlockParams (Some twoBlockMesh) singleRank PeridigmManager_new = Ok s'
    ∧ worksetLocalIdToGlobalId s' !! 0 = Some [0; 4].
Proof.
  destruct (initialize twoBlockParams (Some twoBlockMesh) singleRank PeridigmManager_new)
    as [s'| |] eqn:Hrun; [|vm_compute in Hrun; discriminate..].
  exists s'. split; [reflexivity|].
  assert (Hhas : hasPeridynamics s' = true).
  { vm_compute in Hrun. by injection Hrun as <-. }
  destruct (initialize_workset_table twoBlockParams twoBlockMesh singleRank
              PeridigmManager_new s' eq_refl Hrun Hhas) as [Hcontent Hlook].
  destruct (Hlook 1%nat 4 0 1 eq_refl) as (_ & gids & Hgids & _).
  specialize (Hcontent 0). rewrite Hgids in Hcontent. rewrite Hgids. f_equal.
  exact Hcontent.
Defined.

End WorksetsWitness.
(** ** The arrays [initialize] hands to the solver (lines 223-385) *)

Lemma write_point_length (v v' : list Scalar) (l : Z) (p : Point) :
  write_point v l p = Ok v' → length v' = length v.
Proof.
  unfold write_point. intros Hrun.
  apply bind_Ok in Hrun as (v1 & H1 & Hrun). apply bind_Ok in Hrun as (v2 & H2 & H3).
  apply write_at_Ok in H1 as [_ ->]. apply write_at_Ok in H2 as [_ ->].
  apply write_at_Ok in H3 as [_ ->]. by rewrite !length_insert.
Qed.

Section Sizes.
Context `{!Intrepid} `{!PeridigmKernels}.

Lemma pass2_sphereElement_lengths (coordinates : Z → option Point)
    (volume : Z → option Scalar) (bId : Z) (st st' : Pass2) (e : Element) :
  pass2_sphereElement coordinates volume bId st e = Ok st' →
  length (initialX st') = length (initialX st)
  ∧ length (cellVolume st') = length (cellVolume st)
  ∧ length (blockId st') = length (blockId st).
Proof.
  unfold pass2_sphereElement. intros Hrun.
  apply bind_Ok in Hrun as (u & _ & Hrun). apply bind_Ok in Hrun as (node & _ & Hrun).
  destruct (map_index 0 _ (albanyId node)) as [localId table].
  apply bind_Ok in Hrun as (u' & _ & Hrun).
  apply bind_Ok in Hrun as (b & Hb & Hrun). apply bind_Ok in Hrun as (vol & _ & Hrun).
  apply bind_Ok in Hrun as (cv & Hcv & Hrun). apply bind_Ok in Hrun as (c & _ & Hrun).
  apply bind_Ok in Hrun as (x & Hx & Hrun). injection Hrun as <-. cbn.
  apply write_at_Ok in Hb as [_ ->]. apply write_at_Ok in Hcv as [_ ->].
  apply write_point_length in Hx. by rewrite !length_insert.
Qed.

Lemma pass2_quadPoint_lengths (nodeGlobalIds localIds : list Z) (bId : Z)
    (weightedMeasures : nat → Scalar) (physPoints : nat → Point)
    (st st' : QuadPointLoop) (qp : nat) :
  pass2_quadPoint nodeGlobalIds localIds bId weightedMeasures physPoints st qp = Ok st' →
  length (qp_initialX st') = length (qp_initialX st)
  ∧ length (qp_cellVolume st') = length (qp_cellVolume st)
  ∧ length (qp_blockId st') = length (qp_blockId st).
Proof.
  unfold pass2_quadPoint. intros Hrun.
  apply bind_Ok in Hrun as (localId & _ & Hrun). apply bind_Ok in Hrun as (globalId & _ & Hrun).
  apply bind_Ok in Hrun as (b & Hb & Hrun). apply bind_Ok in Hrun as (cv & Hcv & Hrun).
  apply bind_Ok in Hrun as (x & Hx & Hrun). injection Hrun as <-. cbn.
  apply write_at_Ok in Hb as [_ ->]. apply write_at_Ok in Hcv as [_ ->].
  apply write_point_length in Hx. by rewrite !length_insert.
Qed.

Lemma pass2_partialStressElement_lengths (coordinates : Z → option Point)
    (nodeGlobalIds localIds : list Z) (topology : CellTopologyData) (degree bId : Z)
    (st st' : Pass2) (e : Element) :
  pass2_partialStressElement coordinates nodeGlobalIds localIds topology degree bId st e
  = Ok st' →
  length (initialX st') = length (initialX st)
  ∧ length (cellVolume st') = length (cellVolume st)
  ∧ length (blockId st') = length (blockId st).
Proof.
  unfold pass2_partialStressElement. intros Hrun.
  apply bind_Ok in Hrun as (u & _ & Hrun). apply bind_Ok in Hrun as (cellWorkset & _ & Hrun).
  apply bind_Ok in Hrun as (points & Hloop & Hrun). injection Hrun as <-. cbn.
  refine (for_each_Ok_inv _
            (λ q, length (qp_initialX q) = length (initialX st)
                  ∧ length (qp_cellVolume q) = length (cellVolume st)
                  ∧ length (qp_blockId q) = length (blockId st)) _ _ _ _ _ Hloop).
  - done.
  - intros q qp q' _ (? & ? & ?) Hb. apply pass2_quadPoint_lengths in Hb as (? & ? & ?).
    split_and!; congruence.
Qed.

Lemma pass2_block_lengths (disc : STKDiscretization) (coordinates : Z → option Point)
    (db : option (string → string)) (topologies : gmap string CellTopologyData)
    (degree : Z) (nodeGlobalIds localIds : list Z) (st st' : Pass2) (part : Part) :
  pass2_block disc coordinates db topologies degree nodeGlobalIds localIds st part = Ok st' →
  length (initialX st') = length (initialX st)
  ∧ length (cellVolume st') = length (cellVolume st)
  ∧ length (blockId st') = length (blockId st).
Proof.
  unfold pass2_block.
  destruct (map_index 0 (p2_blockNameToBlockId st) (part_name part)) as [bId names].
  repeat case_decide.
  - intros Hrun. apply bind_Ok in Hrun as (volume & _ & Hrun).
    refine (for_each_Ok_inv _
              (λ q, length (initialX q) = length (initialX st)
                    ∧ length (cellVolume q) = length (cellVolume st)
                    ∧ length (blockId q) = length (blockId st)) _ _ _ _ _ Hrun).
    + done.
    + intros q e q' _ (? & ? & ?) Hb. apply pass2_sphereElement_lengths in Hb as (? & ? & ?).
      split_and!; congruence.
  - intros Hrun.
    refine (for_each_Ok_inv _
              (λ q, length (initialX q) = length (initialX st)
                    ∧ length (cellVolume q) = length (cellVolume st)
                    ∧ length (blockId q) = length (blockId st)) _ _ _ _ _ Hrun).
    + done.
    + intros q e q' _ (? & ? & ?) Hb.
      apply pass2_partialStressElement_lengths in Hb as (? & ? & ?).
      split_and!; congruence.
  - by intros [= <-].
Qed.

(** X13: when [initialize] returns with peridynamics present, the solver
    was built over the registered global ids from an array of three initial
    coordinates per point and arrays of one volume and one block id per
    point, and [previousSolutionPositions] is a copy of the initial
    coordinates; so the state satisfies the size conditions
    [setCurrentTimeAndDisplacement] relies on whenever three times the
    number of points fits in [int]. *)
Theorem initialize_solver_arrays (params : Params) (disc : option STKDiscretization)
    (comm : Comm) (s s' : PeridigmManager) :
  hasPeridigmParameters params = true →
  initialize params disc comm s = Ok s' →
  hasPeridynamics s' = true →
  ∃ initialX cellVolume blockId,
    let n := length (peridigmNodeGlobalIds (idTable s')) in
    peridigm s' = Some (Peridigm_new (peridigmNodeGlobalIds (idTable s'))
                          initialX cellVolume blockId)
    ∧ previousSolutionPositions s' = initialX
    ∧ length initialX = (3 * n)%nat
    ∧ length cellVolume = n
    ∧ length blockId = n
    ∧ (3 * Z.of_nat n ≤ Int.max_signed →
       ∀ solver, peridigm s' = Some solver →
         solverSized solver (previousSolutionPositions s')).
Proof.
  intros Hparams Hrun Hhas.
  destruct (initialize_inv params disc comm s s' Hparams Hrun)
    as (stk & coordinates & p1 & _ & _ & _ & _ & Hcases).
  cbv zeta in Hcases. destruct Hcases as [(_ & _ & ->)|(_ & p2 & worksets & Hpass2 & _ & _ & ->)].
  { done. }
  set (table := (registerPartialStressIds (p1_idTable p1) (allocatedIds comm p1)).1) in *.
  assert (Hlen : length (initialX p2) = (3 * length (peridigmNodeGlobalIds table))%nat
                 ∧ length (cellVolume p2) = length (peridigmNodeGlobalIds table)
                 ∧ length (blockId p2) = length (peridigmNodeGlobalIds table)).
  { refine (for_each_Ok_inv _
              (λ q, length (initialX q) = (3 * length (peridigmNodeGlobalIds table))%nat
                    ∧ length (cellVolume q) = length (peridigmNodeGlobalIds table)
                    ∧ length (blockId q) = length (peridigmNodeGlobalIds table))
              _ _ _ _ _ Hpass2).
    - cbn. by rewrite !length_replicate.
    - intros q part q' _ (? & ? & ?) Hb. apply pass2_block_lengths in Hb as (? & ? & ?).
      split_and!; congruence. }
  destruct Hlen as (LX & LV & LB).
  exists (initialX p2), (cellVolume p2), (blockId p2).
  cbn [stateInitialized peridigm previousSolutionPositions idTable peridigmNodeGlobalIds].
  split_and!; try done.
  intros Hsmall solver [= <-]. unfold solverSized, Peridigm_new. cbn.
  rewrite !length_replicate. split_and!; done.
Qed.

End Sizes.

Section SizesWitness.
Import LinearTet Examples.

Lemma initialize_solver_arrays_witness :
  ∃ s' solver,
    initialize twoBlockParams (Some twoBlockMesh) singleRank PeridigmManager_new = Ok s'
    ∧ peridigm s' = Some solver
    ∧ previousSolutionPositions s' = getX solver
    ∧ length (getX solver) = 6%nat.
Proof.
  destruct (initialize twoBlockParams (Some twoBlockMesh) singleRank PeridigmManager_new)
    as [s'| |] eqn:Hrun; [|vm_compute in Hrun; discriminate..].
  assert (Hhas : hasPeridynamics s' = true).
  { vm_compute in Hrun. by injection Hrun as <-. }
  assert (Hn : length (peridigmNodeGlobalIds (idTable s')) = 2%nat).
  { vm_compute in Hrun. by injection Hrun as <-. }
  destruct (initialize_solver_arrays twoBlockParams (Some twoBlockMesh) singleRank
              PeridigmManager_new s' eq_refl Hrun Hhas)
    as (x & v & b & Hsolver & Hprev & Hx & _).
  eexists s', _. split; [reflexivity|]. split; [exact Hsolver|].
  split; [exact Hprev|]. cbn. rewrite Hx, Hn. reflexivity.
Defined.

End SizesWitness.
(** ** What the first loop of [initialize] leaves (lines 91-158) *)

Lemma registerAll_app (t : IdTable) (a b : list Z) :
  registerAll t (a ++ b) = registerAll (registerAll t a) b.
Proof. unfold registerAll. apply foldl_app. Qed.

Lemma registerAll_ids (t : IdTable) (globalIds : list Z) :
  peridigmNodeGlobalIds (registerAll t globalIds) = peridigmNodeGlobalIds t ++ globalIds.
Proof.
  revert t. induction globalIds as [|g globalIds IH]; intros t; [by rewrite app_nil_r|].
  change (registerAll t (g :: globalIds)) with (registerAll (registerId t g).2 globalIds).
  rewrite IH. cbn. by rewrite <- app_assoc.
Qed.

Lemma registerSphereElement_Ok (t t' : IdTable) (e : Element) :
  registerSphereElement t e = Ok t' →
  length (begin_nodes e) = 1%nat ∧ t' = (registerId t (sphereNodeId e)).2.
Proof.
  unfold registerSphereElement. intros Hrun.
  apply bind_Ok in Hrun as (u & Htest & Hrun).
  apply test_for_except_Ok in Htest. apply bool_decide_eq_false in Htest.
  apply bind_Ok in Hrun as (node & Hnode & Hrun). injection Hrun as <-.
  apply read_at_Ok in Hnode as [_ Hnode].
  change (begin_nodes e !! 0%nat = Some node) in Hnode.
  unfold sphereNodeId. rewrite head_lookup, Hnode. cbn. split; [|done].
  unfold num_nodes in Htest. destruct (decide (length (begin_nodes e) = 1%nat)); [done|].
  exfalso. apply Htest. lia.
Qed.

Lemma registerSphereElements_Ok (elements : list Element) (t t' : IdTable) :
  for_each registerSphereElement t elements = Ok t' →
  Forall (λ e, length (begin_nodes e) = 1%nat) elements
  ∧ t' = registerAll t (sphereNodeId <$> elements).
Proof.
  revert t. induction elements as [|e elements IH]; intros t Hrun.
  - injection Hrun as <-. done.
  - cbn in Hrun. apply bind_Ok in Hrun as (t1 & He & Hrun).
    apply registerSphereElement_Ok in He as [Hone ->].
    destruct (IH _ Hrun) as [Hall ->]. split; [by constructor|done].
Qed.

Lemma filter_snoc {A} (P : A → Prop) `{!∀ x, Decision (P x)} (l : list A) (x : A) :
  filter P (l ++ [x]) = filter P l ++ (if decide (P x) then [x] else []).
Proof. rewrite filter_app. by f_equal. Qed.

Lemma model_exclusive (db : option (string → string)) (part : Part) :
  modelOf db part = "Peridynamics" → modelOf db part ≠ "Peridynamic Partial Stress".
Proof. intros ->. done. Qed.

Section Pass1.
Context `{!Intrepid} `{!PeridigmKernels}.

(** The state after the first loop, read off the element blocks. *)
Lemma pass1_result (db : option (string → string)) (degree : Z) (parts : list Part)
    (s : PeridigmManager) (p1 : Pass1) :
  pass1 db degree parts s = Ok p1 →
  let blocks := stkElementBlocks parts in
  Forall (λ part, ∃ bId, parseBlockId (part_name part) = Ok bId) blocks
  ∧ Forall (λ part, Forall (λ e, length (begin_nodes e) = 1%nat) (locally_owned_elements part))
           (sphereBlocks db blocks)
  ∧ p1_idTable p1 = registerAll (idTable s) (sphereNodeIds db blocks)
  ∧ p1_peridynamicsBlocks p1 = part_name <$> sphereBlocks db blocks
  ∧ p1_peridynamicPartialStressBlocks p1 = part_name <$> partialStressBlocks db blocks
  ∧ p1_numPartialStressIds p1
    = countPartialStressIds db (partCellTopologyData parts) degree blocks
  ∧ (p1_maxAlbanyElementId p1, p1_maxAlbanyNodeId p1) = maxAlbanyIds blocks.
Proof.
  unfold pass1. intros Hrun. cbv zeta.
  refine (for_each_Ok_passed _
            (λ passed st,
               Forall (λ part, ∃ bId, parseBlockId (part_name part) = Ok bId) passed
               ∧ Forall (λ part, Forall (λ e, length (begin_nodes e) = 1%nat)
                                   (locally_owned_elements part))
                        (sphereBlocks db passed)
               ∧ p1_idTable st = registerAll (idTable s) (sphereNodeIds db passed)
               ∧ p1_peridynamicsBlocks st = part_name <$> sphereBlocks db passed
               ∧ p1_peridynamicPartialStressBlocks st
                 = part_name <$> partialStressBlocks db passed
               ∧ p1_numPartialStressIds st
                 = countPartialStressIds db (partCellTopologyData parts) degree passed
               ∧ (p1_maxAlbanyElementId st, p1_maxAlbanyNodeId st) = maxAlbanyIds passed)
            _ _ _ _ _ Hrun).
  - split_and!; try done; constructor.
  - intros passed part rest st st' _ (Hparse & Hone & Htable & Hs & Hps & Hnum & Hmax) Hbody.
    unfold pass1_block in Hbody.
    apply bind_Ok in Hbody as (bId & HbId & Hbody).
    apply bind_Ok in Hbody as ([[table blocks'] numIds] & Hbranch & Hbody).
    injection Hbody as <-.
    cbn [p1_idTable p1_peridynamicsBlocks p1_peridynamicPartialStressBlocks
         p1_numPartialStressIds p1_maxAlbanyElementId p1_maxAlbanyNodeId].
    assert (Hmax' : foldl trackMaxIds (p1_maxAlbanyElementId st, p1_maxAlbanyNodeId st)
                      (locally_owned_elements part)
                    = maxAlbanyIds (passed ++ [part])).
    { unfold maxAlbanyIds. rewrite bind_app, foldl_app. fold (maxAlbanyIds passed).
      rewrite <- Hmax. cbn. by rewrite app_nil_r. }
    unfold sphereNodeIds, countPartialStressIds, sphereBlocks, partialStressBlocks.
    rewrite !filter_snoc.
    fold (sphereBlocks db passed) (partialStressBlocks db passed).
    change (materialModelNameOf db (part_name part)) with (modelOf db part) in Hbranch.
    split; [apply Forall_app; split; [done|]; constructor; [by exists bId|constructor]|].
    destruct (decide (modelOf db part = "Peridynamics")) as [Hm|Hm].
    + rewrite (decide_False (P := modelOf db part = "Peridynamic Partial Stress"))
        by (by apply model_exclusive).
      apply bind_Ok in Hbranch as (table' & Hloop & Hbranch). injection Hbranch as <- <- <-.
      apply registerSphereElements_Ok in Hloop as [Hnodes ->].
      rewrite !app_nil_r. cbn [fst snd].
      split_and!; try done.
      * apply Forall_app. split; [done|]. by repeat constructor.
      * rewrite bind_app, registerAll_app. fold (sphereNodeIds db passed).
        rewrite <- Htable. cbn. by rewrite app_nil_r.
      * rewrite fmap_app, Hs. done.
      * rewrite Hmax'. by destruct (maxAlbanyIds (passed ++ [part])).
    + destruct (decide (modelOf db part = "Peridynamic Partial Stress")) as [Hm'|Hm'].
      * injection Hbranch as <- <- <-. rewrite !app_nil_r. cbn [fst snd].
        split_and!; try done.
        -- rewrite fmap_app, Hps. done.
        -- rewrite foldl_app. fold (countPartialStressIds db (partCellTopologyData parts)
                                     degree passed).
           rewrite <- Hnum. done.
        -- rewrite Hmax'. by destruct (maxAlbanyIds (passed ++ [part])).
      * injection Hbranch as <- <- <-. rewrite !app_nil_r. cbn [fst snd].
        split_and!; try done.
        rewrite Hmax'. by destruct (maxAlbanyIds (passed ++ [part])).
Qed.

End Pass1.
(** ** What a returning [initialize] has checked *)

Lemma for_each_Ok_each {A St} (body : St → A → outcome St) (l : list A) (s s' : St) :
  for_each body s l = Ok s' → ∀ a, a ∈ l → ∃ s1 s2, body s1 a = Ok s2.
Proof.
  revert s. induction l as [|b l IH]; intros s Hrun a Ha; [by apply elem_of_nil in Ha|].
  cbn in Hrun. apply bind_Ok in Hrun as (s1 & Hb & Hrun).
  apply elem_of_cons in Ha as [->|Ha]; [by exists s, s1|]. by apply (IH s1).
Qed.

Lemma mapM_Ok_Forall {A B} (g : A → outcome B) (l : list A) (r : list B) :
  mapM g l = Ok r → Forall (λ a, ∃ b, g a = Ok b) l.
Proof.
  revert r. induction l as [|a l IH]; intros r Hrun; [constructor|].
  cbn in Hrun. apply bind_Ok in Hrun as (b & Hb & Hrun).
  apply bind_Ok in Hrun as (r' & Hr & _). constructor; [by exists b|by apply (IH r')].
Qed.

Section Valid.
Context `{!Intrepid} `{!PeridigmKernels}.

Lemma pass2_sphereElement_Ok (coordinates : Z → option Point) (volume : Z → option Scalar)
    (bId : Z) (st st' : Pass2) (e : Element) :
  pass2_sphereElement coordinates volume bId st e = Ok st' →
  length (begin_nodes e) = 1%nat
  ∧ is_Some (volume (identifier e))
  ∧ Forall (λ node, is_Some (coordinates node)) (begin_nodes e).
Proof.
  unfold pass2_sphereElement. intros Hrun.
  apply bind_Ok in Hrun as (u & Htest & Hrun).
  apply test_for_except_Ok in Htest. apply bool_decide_eq_false in Htest.
  apply bind_Ok in Hrun as (node & Hnode & Hrun).
  destruct (map_index 0 _ (albanyId node)) as [localId table].
  apply bind_Ok in Hrun as (u' & _ & Hrun).
  apply bind_Ok in Hrun as (b & _ & Hrun). apply bind_Ok in Hrun as (vol & Hvol & Hrun).
  apply bind_Ok in Hrun as (cv & _ & Hrun). apply bind_Ok in Hrun as (c & Hc & _).
  apply read_at_Ok in Hnode as [_ Hnode].
  change (begin_nodes e !! 0%nat = Some node) in Hnode.
  assert (Hone : length (begin_nodes e) = 1%nat).
  { unfold num_nodes in Htest. destruct (decide (length (begin_nodes e) = 1%nat)); [done|].
    exfalso. apply Htest. lia. }
  split; [done|]. split.
  - destruct (volume (identifier e)); [by eexists|done].
  - destruct (begin_nodes e) as [|n [|? ?]]; try done. injection Hnode as ->.
    constructor; [|constructor]. destruct (coordinates node); [by eexists|done].
Qed.

Lemma pass2_partialStressElement_Ok (coordinates : Z → option Point)
    (nodeGlobalIds localIds : list Z) (topology : CellTopologyData) (degree bId : Z)
    (st st' : Pass2) (e : Element) :
  pass2_partialStressElement coordinates nodeGlobalIds localIds topology degree bId st e
  = Ok st' →
  length (begin_nodes e) = getNodeCount topology
  ∧ Forall (λ node, is_Some (coordinates node)) (begin_nodes e).
Proof.
  unfold pass2_partialStressElement. intros Hrun.
  apply bind_Ok in Hrun as (u & Htest & Hrun).
  apply test_for_except_Ok in Htest. apply bool_decide_eq_false in Htest.
  apply bind_Ok in Hrun as (cellWorkset & Hcw & _). split.
  - unfold num_nodes in Htest.
    destruct (decide (length (begin_nodes e) = getNodeCount topology)); [done|].
    exfalso. apply Htest. lia.
  - apply mapM_Ok_Forall in Hcw. eapply Forall_impl; [exact Hcw|].
    intros node [p Hp]. destruct (coordinates node); [by eexists|done].
Qed.

Lemma pass2_block_Ok (disc : STKDiscretization) (coordinates : Z → option Point)
    (db : option (string → string)) (topologies : gmap string CellTopologyData)
    (degree : Z) (nodeGlobalIds localIds : list Z) (st st' : Pass2) (part : Part) :
  pass2_block disc coordinates db topologies degree nodeGlobalIds localIds st part = Ok st' →
  (modelOf db part = "Peridynamics" →
   ∃ volume, volumeField disc = Some volume
     ∧ Forall (λ e, length (begin_nodes e) = 1%nat
                    ∧ is_Some (volume (identifier e))
                    ∧ Forall (λ node, is_Some (coordinates node)) (begin_nodes e))
              (locally_owned_elements part))
  ∧ (modelOf db part = "Peridynamic Partial Stress" →
     Forall (λ e, length (begin_nodes e)
                  = getNodeCount (default Node (topologies !! part_name part))
                  ∧ Forall (λ node, is_Some (coordinates node)) (begin_nodes e))
            (locally_owned_elements part)).
Proof.
  unfold pass2_block, modelOf.
  destruct (map_index 0 (p2_blockNameToBlockId st) (part_name part)) as [bId names].
  intros Hrun. split; intros Hm; rewrite Hm in Hrun.
  - rewrite decide_True in Hrun by done.
    apply bind_Ok in Hrun as (volume & Hvol & Hrun).
    destruct (volumeField disc) as [volume'|]; [|done]. injection Hvol as ->.
    exists volume. split; [done|]. apply Forall_forall. intros e He.
    destruct (for_each_Ok_each _ _ _ _ Hrun e He) as (s1 & s2 & Hb).
    by apply pass2_sphereElement_Ok in Hb.
  - rewrite decide_False, decide_True in Hrun by done.
    apply Forall_forall. intros e He.
    destruct (for_each_Ok_each _ _ _ _ Hrun e He) as (s1 & s2 & Hb).
    by apply pass2_partialStressElement_Ok in Hb.
Qed.

(** X14: [initialize] with the Peridigm parameter list returns only for an
    STK discretization of dimension three with a coordinates field whose
    element-block names all yield a block id and whose sphere blocks hold
    one-node elements only; it leaves peridynamics present exactly when some
    element block carries one of the two peridynamic material models, and
    then the communicator is an MPI communicator, a volume field exists when
    there is a sphere block, every sphere element has a volume and node
    coordinates, and every element of a partial-stress block has the node
    count of the block's topology and coordinates at all its nodes. *)
Theorem initialize_returns_on_valid_input_only (params : Params)
    (disc : option STKDiscretization) (comm : Comm) (s s' : PeridigmManager) :
  hasPeridigmParameters params = true →
  initialize params disc comm s = Ok s' →
  ∃ stk coordinates,
    let blocks := stkElementBlocks (get_parts stk) in
    let db := materialDataBase params in
    disc = Some stk ∧ spatial_dimension stk = 3
    ∧ coordinatesField stk = Some coordinates
    ∧ Forall (λ part, ∃ bId, parseBlockId (part_name part) = Ok bId) blocks
    ∧ Forall (λ part, Forall (λ e, length (begin_nodes e) = 1%nat)
                        (locally_owned_elements part))
             (sphereBlocks db blocks)
    ∧ (hasPeridynamics s' = true
       ↔ sphereBlocks db blocks ≠ [] ∨ partialStressBlocks db blocks ≠ [])
    ∧ (hasPeridynamics s' = true →
       isMpiComm comm = true
       ∧ (sphereBlocks db blocks ≠ [] → is_Some (volumeField stk))
       ∧ (∀ volume, volumeField stk = Some volume →
            Forall (λ part,
                      Forall (λ e, is_Some (volume (identifier e))
                                   ∧ Forall (λ node, is_Some (coordinates node))
                                            (begin_nodes e))
                             (locally_owned_elements part))
                   (sphereBlocks db blocks))
       ∧ Forall (λ part,
                   Forall (λ e,
                             length (begin_nodes e)
                             = getNodeCount
                                 (default Node
                                    (partCellTopologyData (get_parts stk) !! part_name part))
                             ∧ Forall (λ node, is_Some (coordinates node)) (begin_nodes e))
                          (locally_owned_elements part))
                (partialStressBlocks db blocks)).
Proof.
  intros Hparams Hrun.
  destruct (initialize_inv params disc comm s s' Hparams Hrun)
    as (stk & coordinates & p1 & -> & Hdim & Hcoord & Hpass1 & Hcases).
  destruct (pass1_result _ _ _ _ _ Hpass1) as (Hparse & Hone & _ & Hs & Hps & _).
  exists stk, coordinates. cbv zeta. split_and!; try done.
  - cbv zeta in Hcases.
    destruct Hcases as [(Hs0 & Hps0 & ->)|(Hne & p2 & worksets & _ & _ & _ & ->)]; cbn.
    + rewrite Hs in Hs0. rewrite Hps in Hps0.
      apply fmap_nil_inv in Hs0. apply fmap_nil_inv in Hps0.
      split; [done|]. intros [?|?]; done.
    + split; [|done]. intros _. rewrite Hs, Hps in Hne.
      destruct (sphereBlocks _ _) eqn:E1; [|by left].
      destruct (partialStressBlocks _ _) eqn:E2; [|by right].
      exfalso. by apply Hne.
  - intros Hhas. cbv zeta in Hcases.
    destruct Hcases as [(_ & _ & ->)|(_ & p2 & worksets & Hpass2 & Hmpi & _ & _)]; [done|].
    assert (Hblocks : ∀ part, part ∈ stkElementBlocks (get_parts stk) →
              (modelOf (materialDataBase params) part = "Peridynamics" →
               ∃ volume, volumeField stk = Some volume
                 ∧ Forall (λ e, length (begin_nodes e) = 1%nat
                                ∧ is_Some (volume (identifier e))
                                ∧ Forall (λ node, is_Some (coordinates node)) (begin_nodes e))
                          (locally_owned_elements part))
              ∧ (modelOf (materialDataBase params) part = "Peridynamic Partial Stress" →
                 Forall (λ e, length (begin_nodes e)
                              = getNodeCount
                                  (default Node
                                     (partCellTopologyData (get_parts stk) !! part_name part))
                              ∧ Forall (λ node, is_Some (coordinates node)) (begin_nodes e))
                        (locally_owned_elements part))).
    { intros part Hpart. destruct (for_each_Ok_each _ _ _ _ Hpass2 part Hpart) as (s1 & s2 & Hb).
      by apply pass2_block_Ok in Hb. }
    split_and!; [done| | |].
    + intros Hne. destruct (sphereBlocks _ _) as [|part rest] eqn:E; [done|].
      assert (Hin : part ∈ sphereBlocks (materialDataBase params)
                             (stkElementBlocks (get_parts stk))) by (rewrite E; left).
      apply list_elem_of_filter in Hin as [Hm Hin].
      destruct (proj1 (Hblocks part Hin) Hm) as (volume & -> & _). by eexists.
    + intros volume Hvol. apply Forall_forall. intros part Hpart.
      apply list_elem_of_filter in Hpart as [Hm Hin].
      destruct (proj1 (Hblocks part Hin) Hm) as (volume' & Hvol' & Hall).
      rewrite Hvol in Hvol'. injection Hvol' as <-.
      eapply Forall_impl; [exact Hall|]. by intros e (_ & ? & ?).
    + apply Forall_forall. intros part Hpart.
      apply list_elem_of_filter in Hpart as [Hm Hin].
      exact (proj2 (Hblocks part Hin) Hm).
Qed.

End Valid.

Section ValidWitness.
Import LinearTet Examples.

Lemma initialize_returns_on_valid_input_only_witness :
  ∃ s', initialize twoBlockParams (Some twoBlockMesh) singleRank PeridigmManager_new = Ok s'
    ∧ hasPeridynamics s' = true
    ∧ is_Some (volumeField twoBlockMesh).
Proof.
  destruct (initialize twoBlockParams (Some twoBlockMesh) singleRank PeridigmManager_new)
    as [s'| |] eqn:Hrun; [|vm_compute in Hrun; discriminate..].
  destruct (initialize_returns_on_valid_input_only twoBlockParams (Some twoBlockMesh)
              singleRank PeridigmManager_new s' eq_refl Hrun)
    as (stk & coordinates & [= <-] & _ & _ & _ & _ & Hiff & Hpresent).
  assert (Hhas : hasPeridynamics s' = true).
  { apply Hiff. left. vm_compute. discriminate. }
  destruct (Hpresent Hhas) as (_ & Hvol & _).
  exists s'. split; [reflexivity|]. split; [exact Hhas|].
  apply Hvol. vm_compute. discriminate.
Defined.

End ValidWitness.
(** ** The points [initialize] registers *)

Lemma registerPartialStressIds_registerAll (t : IdTable) (globalIds : list Z) :
  (registerPartialStressIds t globalIds).1 = registerAll t globalIds
  ∧ (registerPartialStressIds t globalIds).2
    = (λ i, Int.of_size (length (peridigmNodeGlobalIds t) + i)) <$> seq 0 (length globalIds).
Proof.
  unfold registerPartialStressIds, registerAll.
  induction globalIds as [|g globalIds IH] using rev_ind; [done|].
  rewrite !foldl_app. cbn [foldl].
  destruct (foldl _ (t, []) globalIds) as [t1 localIds]. cbn [fst snd] in IH |- *.
  destruct IH as [-> ->]. split; [done|].
  rewrite length_app. cbn [length]. rewrite Nat.add_1_r, seq_S, fmap_app. cbn.
  f_equal. f_equal.
  fold (registerAll t globalIds). by rewrite registerAll_ids, length_app.
Qed.

Section Register.
Context `{!Intrepid} `{!PeridigmKernels}.

Lemma pass2_sphereElement_list (coordinates : Z → option Point) (volume : Z → option Scalar)
    (bId : Z) (st st' : Pass2) (e : Element) :
  pass2_sphereElement coordinates volume bId st e = Ok st' →
  p2_sphereElementGlobalNodeIds st' = p2_sphereElementGlobalNodeIds st ++ [sphereNodeId e].
Proof.
  unfold pass2_sphereElement. intros Hrun.
  apply bind_Ok in Hrun as (u & _ & Hrun). apply bind_Ok in Hrun as (node & Hnode & Hrun).
  destruct (map_index 0 _ (albanyId node)) as [localId table].
  apply bind_Ok in Hrun as (u' & _ & Hrun).
  apply bind_Ok in Hrun as (b & _ & Hrun). apply bind_Ok in Hrun as (vol & _ & Hrun).
  apply bind_Ok in Hrun as (cv & _ & Hrun). apply bind_Ok in Hrun as (c & _ & Hrun).
  apply bind_Ok in Hrun as (x & _ & Hrun). injection Hrun as <-. cbn.
  apply read_at_Ok in Hnode as [_ Hnode].
  change (begin_nodes e !! 0%nat = Some node) in Hnode.
  unfold sphereNodeId. by rewrite head_lookup, Hnode.
Qed.

Lemma pass2_partialStressElement_list (coordinates : Z → option Point)
    (nodeGlobalIds localIds : list Z) (topology : CellTopologyData) (degree bId : Z)
    (st st' : Pass2) (e : Element) :
  pass2_partialStressElement coordinates nodeGlobalIds localIds topology degree bId st e
  = Ok st' →
  p2_sphereElementGlobalNodeIds st' = p2_sphereElementGlobalNodeIds st.
Proof.
  unfold pass2_partialStressElement. intros Hrun.
  apply bind_Ok in Hrun as (u & _ & Hrun). apply bind_Ok in Hrun as (cellWorkset & _ & Hrun).
  apply bind_Ok in Hrun as (points & _ & Hrun). by injection Hrun as <-.
Qed.

Lemma pass2_block_list (disc : STKDiscretization) (coordinates : Z → option Point)
    (db : option (string → string)) (topologies : gmap string CellTopologyData)
    (degree : Z) (nodeGlobalIds localIds : list Z) (st st' : Pass2) (part : Part) :
  pass2_block disc coordinates db topologies degree nodeGlobalIds localIds st part = Ok st' →
  p2_sphereElementGlobalNodeIds st'
  = p2_sphereElementGlobalNodeIds st ++ sphereNodeIds db [part].
Proof.
  unfold pass2_block, sphereNodeIds, sphereBlocks.
  destruct (map_index 0 (p2_blockNameToBlockId st) (part_name part)) as [bId names].
  rewrite filter_cons, filter_nil. unfold modelOf.
  intros Hrun. repeat case_decide; try done.
  - apply bind_Ok in Hrun as (volume & _ & Hrun). cbn. rewrite app_nil_r.
    refine (for_each_Ok_passed _
              (λ passed q, p2_sphereElementGlobalNodeIds q
                           = p2_sphereElementGlobalNodeIds st ++ (sphereNodeId <$> passed))
              _ _ _ _ _ Hrun).
    + cbn. by rewrite app_nil_r.
    + intros passed e rest q q' _ Hq Hb. apply pass2_sphereElement_list in Hb.
      by rewrite Hb, Hq, fmap_app, app_assoc.
  - cbn. rewrite app_nil_r.
    refine (for_each_Ok_inv _
              (λ q, p2_sphereElementGlobalNodeIds q = p2_sphereElementGlobalNodeIds st)
              _ _ _ _ _ Hrun).
    + done.
    + intros q e q' _ Hq Hb. apply pass2_partialStressElement_list in Hb. congruence.
  - injection Hrun as <-. cbn. by rewrite app_nil_r.
Qed.

Lemma sphereNodeIds_app (db : option (string → string)) (a b : list Part) :
  sphereNodeIds db (a ++ b) = sphereNodeIds db a ++ sphereNodeIds db b.
Proof. unfold sphereNodeIds, sphereBlocks. by rewrite filter_app, bind_app. Qed.

Lemma pass2_list (disc : STKDiscretization) (coordinates : Z → option Point)
    (db : option (string → string)) (topologies : gmap string CellTopologyData)
    (degree : Z) (nodeGlobalIds localIds : list Z) (st st' : Pass2) (blocks : list Part) :
  for_each (pass2_block disc coordinates db topologies degree nodeGlobalIds localIds) st blocks
  = Ok st' →
  p2_sphereElementGlobalNodeIds st'
  = p2_sphereElementGlobalNodeIds st ++ sphereNodeIds db blocks.
Proof.
  intros Hrun.
  refine (for_each_Ok_passed _
            (λ passed q, p2_sphereElementGlobalNodeIds q
                         = p2_sphereElementGlobalNodeIds st ++ sphereNodeIds db passed)
            _ _ _ _ _ Hrun).
  - cbn. by rewrite app_nil_r.
  - intros passed part rest q q' _ Hq Hb. apply pass2_block_list in Hb.
    by rewrite Hb, Hq, sphereNodeIds_app, app_assoc.
Qed.

Lemma scanOf_pass1 (db : option (string → string)) (degree : Z) (parts : list Part)
    (s : PeridigmManager) (p1 : Pass1) :
  pass1 db degree parts s = Ok p1 → scanOf p1 = rankScanOf db degree parts.
Proof.
  intros Hrun. destruct (pass1_result _ _ _ _ _ Hrun) as (_ & _ & _ & _ & _ & Hnum & Hmax).
  unfold scanOf, rankScanOf. rewrite Hnum, <- Hmax. done.
Qed.

(** X15: when [initialize] returns with peridynamics present, the list of
    registered global ids is the list it was before, followed by the node
    ids of the sphere elements in the order of the blocks and of their
    elements, followed by the partial-stress ids the allocator gives this
    rank for the maxima and the count of the first loop; the sphere node ids
    are also what [sphereElementGlobalNodeIds] gains, so every one of them is
    an id of the solver's map. *)
Theorem initialize_registers_points (params : Params) (stk : STKDiscretization) (comm : Comm)
    (s s' : PeridigmManager) :
  hasPeridigmParameters params = true →
  initialize params (Some stk) comm s = Ok s' →
  hasPeridynamics s' = true →
  let db := materialDataBase params in
  let degree := default 2 (cubatureDegreeParam params) in
  let spheres := sphereNodeIds db (stkElementBlocks (get_parts stk)) in
  peridigmNodeGlobalIds (idTable s')
  = peridigmNodeGlobalIds (idTable s) ++ spheres
    ++ partialStressIdsOf comm (rankScanOf db degree (get_parts stk))
  ∧ sphereElementGlobalNodeIds s' = sphereElementGlobalNodeIds s ++ spheres
  ∧ ∃ solver, peridigm s' = Some solver
      ∧ peridigm_globalIds solver = peridigmNodeGlobalIds (idTable s')
      ∧ Forall (λ g, g ∈ peridigm_globalIds solver) spheres.
Proof.
  intros Hparams Hrun Hhas. cbv zeta.
  set (db := materialDataBase params).
  set (degree := default 2 (cubatureDegreeParam params)).
  set (spheres := sphereNodeIds db (stkElementBlocks (get_parts stk))).
  destruct (initialize_inv params (Some stk) comm s s' Hparams Hrun)
    as (stk' & coordinates & p1 & [= <-] & _ & _ & Hpass1 & Hcases).
  cbv zeta in Hcases.
  destruct Hcases as [(_ & _ & ->)|(_ & p2 & worksets & Hpass2 & _ & _ & ->)]; [done|].
  destruct (pass1_result _ _ _ _ _ Hpass1) as (_ & _ & Htable & _).
  pose proof (scanOf_pass1 _ _ _ _ _ Hpass1) as Hscan.
  destruct (registerPartialStressIds_registerAll (p1_idTable p1) (allocatedIds comm p1))
    as [Hreg _].
  assert (Hids : peridigmNodeGlobalIds
                   (registerPartialStressIds (p1_idTable p1) (allocatedIds comm p1)).1
                 = peridigmNodeGlobalIds (idTable s) ++ spheres
                   ++ partialStressIdsOf comm (rankScanOf db degree (get_parts stk))).
  { rewrite Hreg, registerAll_ids, Htable, registerAll_ids, <- app_assoc.
    unfold allocatedIds, partialStressIdsOf. fold db degree in Hscan. rewrite <- Hscan.
    done. }
  cbn [stateInitialized idTable peridigmNodeGlobalIds sphereElementGlobalNodeIds peridigm].
  split; [exact Hids|]. split.
  - apply pass2_list in Hpass2. exact Hpass2.
  - eexists. split; [reflexivity|]. cbn. split; [done|].
    rewrite Hids. apply Forall_forall. intros g Hg.
    apply elem_of_app. right. apply elem_of_app. by left.
Qed.

End Register.

Section RegisterWitness.
Import LinearTet Examples.

Lemma initialize_registers_points_witness :
  ∃ s', initialize twoBlockParams (Some twoBlockMesh) singleRank PeridigmManager_new = Ok s'
    ∧ peridigmNodeGlobalIds (idTable s') = [5; 5]
    ∧ sphereElementGlobalNodeIds s' = [5].
Proof.
  destruct (initialize twoBlockParams (Some twoBlockMesh) singleRank PeridigmManager_new)
    as [s'| |] eqn:Hrun; [|vm_compute in Hrun; discriminate..].
  assert (Hhas : hasPeridynamics s' = true).
  { vm_compute in Hrun. by injection Hrun as <-. }
  destruct (initialize_registers_points twoBlockParams twoBlockMesh singleRank
              PeridigmManager_new s' eq_refl Hrun Hhas) as (Hids & Hspheres & _).
  exists s'. split; [reflexivity|]. split.
  - rewrite Hids. vm_compute. reflexivity.
  - rewrite Hspheres. vm_compute. reflexivity.
Defined.

End RegisterWitness.
(** ** The ids of the material points (lines 350-359) *)

Section PointIds.
Context `{!Intrepid} `{!PeridigmKernels}.

Lemma countPartialStressIds_exact (db : option (string → string))
    (topologies : gmap string CellTopologyData) (degree : Z) (blocks : list Part) :
  Z.of_nat (totalQuadPoints db topologies degree blocks) ≤ Int.max_signed →
  countPartialStressIds db topologies degree blocks
  = Z.of_nat (totalQuadPoints db topologies degree blocks).
Proof.
  unfold countPartialStressIds, totalQuadPoints.
  induction (partialStressBlocks db blocks) as [|part l IH] using rev_ind; [done|].
  rewrite foldl_app, sum_list_with_app. cbn [foldl sum_list_with]. intros Hfit.
  rewrite IH by lia. rewrite Int_wrap_id; [lia|].
  unfold Int.in_range, Int.min_signed. lia.
Qed.

Section Loop.
Variables (base allocated : list Z).
Hypothesis Hfit : Z.of_nat (length base + length allocated) ≤ Int.max_signed.

Let ids := base ++ allocated.
Let localIds := (λ i, Int.of_size (length base + i)) <$> seq 0 (length allocated).

Lemma localIds_lookup (j : nat) (localId : Z) :
  localIds !! j = Some localId →
  (j < length allocated)%nat ∧ localId = Z.of_nat (length base + j).
Proof.
  unfold localIds. rewrite list_lookup_fmap. intros Hj.
  destruct (seq 0 (length allocated) !! j) as [i|] eqn:Hi; [|done].
  apply lookup_seq in Hi as [-> Hlt]. injection Hj as <-. split; [done|].
  apply Int_of_size_exact. lia.
Qed.

Lemma pass2_quadPoint_ids (bId : Z) (weightedMeasures : nat → Scalar)
    (physPoints : nat → Point) (st st' : QuadPointLoop) (qp j : nat) :
  qp_index st = Z.of_nat j →
  pass2_quadPoint ids localIds bId weightedMeasures physPoints st qp = Ok st' →
  (j < length allocated)%nat ∧ qp_index st' = Z.of_nat (S j)
  ∧ ∃ g, allocated !! j = Some g
      ∧ qp_peridigmGlobalIds st' = qp_peridigmGlobalIds st ++ [g].
Proof.
  intros Hj. unfold pass2_quadPoint. rewrite Hj. intros Hrun.
  apply bind_Ok in Hrun as (localId & Hl & Hrun).
  apply bind_Ok in Hrun as (globalId & Hg & Hrun).
  apply bind_Ok in Hrun as (b & _ & Hrun). apply bind_Ok in Hrun as (cv & _ & Hrun).
  apply bind_Ok in Hrun as (x & _ & Hrun). injection Hrun as <-. cbn.
  apply read_at_Ok in Hl as [_ Hl]. rewrite Nat2Z.id in Hl.
  apply localIds_lookup in Hl as [Hlt ->].
  apply read_at_Ok in Hg as [_ Hg]. rewrite Nat2Z.id in Hg.
  unfold ids in Hg. rewrite lookup_app_r in Hg by lia.
  replace (length base + j - length base)%nat with j in Hg by lia.
  split; [done|]. split.
  - rewrite Int_add_exact; [lia|]. unfold Int.in_range, Int.min_signed. lia.
  - by exists globalId.
Qed.

Lemma pass2_partialStressElement_ids (coordinates : Z → option Point)
    (topology : CellTopologyData) (degree bId : Z) (st st' : Pass2) (e : Element) (j : nat) :
  peridigmPartialStressIndex st = Z.of_nat j → (j ≤ length allocated)%nat →
  pass2_partialStressElement coordinates ids localIds topology degree bId st e = Ok st' →
  let q := length (getCubature topology degree) in
  (j + q ≤ length allocated)%nat
  ∧ peridigmPartialStressIndex st' = Z.of_nat (j + q)
  ∧ partialStressPointIds (p2_partialStressElements st')
    = partialStressPointIds (p2_partialStressElements st) ++ take q (drop j allocated).
Proof.
  intros Hj Hjle. unfold pass2_partialStressElement. intros Hrun. cbv zeta.
  apply bind_Ok in Hrun as (u & _ & Hrun). apply bind_Ok in Hrun as (cellWorkset & _ & Hrun).
  apply bind_Ok in Hrun as (points & Hloop & Hrun). injection Hrun as <-. cbn.
  assert (Hinv : qp_index points = Z.of_nat (j + length (getCubature topology degree))
                 ∧ (j + length (getCubature topology degree) ≤ length allocated)%nat
                 ∧ qp_peridigmGlobalIds points
                   = take (length (getCubature topology degree)) (drop j allocated)).
  { assert (Hseq : qp_index points
                     = Z.of_nat (j + length (seq 0 (length (getCubature topology degree))))
                   ∧ (j + length (seq 0 (length (getCubature topology degree)))
                      ≤ length allocated)%nat
                   ∧ qp_peridigmGlobalIds points
                     = take (length (seq 0 (length (getCubature topology degree))))
                         (drop j allocated));
      [|by rewrite length_seq in Hseq].
    refine (for_each_Ok_passed _
              (λ passed q, qp_index q = Z.of_nat (j + length passed)
                           ∧ (j + length passed ≤ length allocated)%nat
                           ∧ qp_peridigmGlobalIds q = take (length passed) (drop j allocated))
              _ _ _ _ _ Hloop).
    - cbn. rewrite Hj, Nat.add_0_r.
      split; [done|]. split; [lia|done].
    - intros passed qp rest q q' _ (Hidx & _ & Hgids) Hb.
      apply (pass2_quadPoint_ids _ _ _ _ _ _ _ Hidx) in Hb as (Hlt & Hidx' & g & Hg & Hgids').
      rewrite length_app. cbn [length].
      split; [rewrite Hidx'; f_equal; lia|]. split; [lia|].
      rewrite Hgids', Hgids, Nat.add_1_r.
      symmetry. apply take_S_r. by rewrite lookup_drop. }
  destruct Hinv as (Hidx & Hle & Hgids).
  split; [done|]. split; [done|].
  unfold partialStressPointIds. rewrite bind_app. cbn. by rewrite app_nil_r, Hgids.
Qed.

Lemma pass2_sphereElement_index (coordinates : Z → option Point)
    (volume : Z → option Scalar) (bId : Z) (st st' : Pass2) (e : Element) :
  pass2_sphereElement coordinates volume bId st e = Ok st' →
  peridigmPartialStressIndex st' = peridigmPartialStressIndex st
  ∧ p2_partialStressElements st' = p2_partialStressElements st.
Proof.
  unfold pass2_sphereElement. intros Hrun.
  apply bind_Ok in Hrun as (u & _ & Hrun). apply bind_Ok in Hrun as (node & _ & Hrun).
  destruct (map_index 0 _ (albanyId node)) as [localId table].
  apply bind_Ok in Hrun as (u' & _ & Hrun).
  apply bind_Ok in Hrun as (b & _ & Hrun). apply bind_Ok in Hrun as (vol & _ & Hrun).
  apply bind_Ok in Hrun as (cv & _ & Hrun). apply bind_Ok in Hrun as (c & _ & Hrun).
  apply bind_Ok in Hrun as (x & _ & Hrun). by injection Hrun as <-.
Qed.

Lemma totalQuadPoints_app (db : option (string → string))
    (topologies : gmap string CellTopologyData) (degree : Z) (a b : list Part) :
  totalQuadPoints db topologies degree (a ++ b)
  = (totalQuadPoints db topologies degree a + totalQuadPoints db topologies degree b)%nat.
Proof.
  unfold totalQuadPoints, partialStressBlocks. by rewrite filter_app, sum_list_with_app.
Qed.

Lemma pass2_block_ids (disc : STKDiscretization) (coordinates : Z → option Point)
    (db : option (string → string)) (topologies : gmap string CellTopologyData)
    (degree : Z) (st st' : Pass2) (part : Part) (j : nat) :
  peridigmPartialStressIndex st = Z.of_nat j → (j ≤ length allocated)%nat →
  pass2_block disc coordinates db topologies degree ids localIds st part = Ok st' →
  let q := totalQuadPoints db topologies degree [part] in
  (j + q ≤ length allocated)%nat
  ∧ peridigmPartialStressIndex st' = Z.of_nat (j + q)
  ∧ partialStressPointIds (p2_partialStressElements st')
    = partialStressPointIds (p2_partialStressElements st) ++ take q (drop j allocated).
Proof.
  intros Hj Hjle. unfold pass2_block, totalQuadPoints, partialStressBlocks.
  destruct (map_index 0 (p2_blockNameToBlockId st) (part_name part)) as [bId names].
  rewrite filter_cons, filter_nil. unfold modelOf. cbv zeta.
  intros Hrun. destruct (decide (materialModelNameOf db (part_name part) = "Peridynamics"))
    as [Hm|Hm].
  - rewrite decide_False by (by rewrite Hm). cbn [sum_list_with].
    rewrite Nat.add_0_r, take_0, app_nil_r.
    apply bind_Ok in Hrun as (volume & _ & Hrun).
    assert (Hinv : peridigmPartialStressIndex st' = peridigmPartialStressIndex st
                   ∧ p2_partialStressElements st' = p2_partialStressElements st).
    { refine (for_each_Ok_inv _
                (λ q, peridigmPartialStressIndex q = peridigmPartialStressIndex st
                      ∧ p2_partialStressElements q = p2_partialStressElements st)
                _ _ _ _ _ Hrun).
      - done.
      - intros q e q' _ [? ?] Hb. apply pass2_sphereElement_index in Hb as [? ?].
        split; congruence. }
    destruct Hinv as [-> ->]. done.
  - destruct (decide (materialModelNameOf db (part_name part) = "Peridynamic Partial Stress"))
      as [Hm'|Hm'].
    + cbn [sum_list_with]. rewrite Nat.add_0_r.
      set (nq := numQuadPointsOf topologies degree part).
      assert (Hinv : peridigmPartialStressIndex st'
                     = Z.of_nat (j + nq * length (locally_owned_elements part))
                     ∧ (j + nq * length (locally_owned_elements part) ≤ length allocated)%nat
                     ∧ partialStressPointIds (p2_partialStressElements st')
                       = partialStressPointIds (p2_partialStressElements st)
                         ++ take (nq * length (locally_owned_elements part))
                              (drop j allocated)).
      { refine (for_each_Ok_passed _
                  (λ passed q,
                     peridigmPartialStressIndex q = Z.of_nat (j + nq * length passed)
                     ∧ (j + nq * length passed ≤ length allocated)%nat
                     ∧ partialStressPointIds (p2_partialStressElements q)
                       = partialStressPointIds (p2_partialStressElements st)
                         ++ take (nq * length passed) (drop j allocated))
                  _ _ _ _ _ Hrun).
        - cbn. rewrite Nat.mul_0_r, Nat.add_0_r, take_0, app_nil_r. done.
        - intros passed e rest q q' _ (Hidx & Hle & Hpts) Hb.
          destruct (pass2_partialStressElement_ids _ _ _ _ _ _ _ _ Hidx Hle Hb)
            as (Hle' & Hidx' & Hpts').
          fold nq in Hle', Hidx', Hpts'.
          rewrite length_app. cbn [length].
          replace (j + nq * (length passed + 1))%nat
            with (j + nq * length passed + nq)%nat by lia.
          split; [done|]. split; [done|].
          rewrite Hpts', Hpts, <- app_assoc. f_equal.
          replace (nq * (length passed + 1))%nat with (nq * length passed + nq)%nat by lia.
          rewrite <- (take_take_drop (drop j allocated)). f_equal.
          by rewrite drop_drop. }
      destruct Hinv as (? & ? & ?). done.
    + injection Hrun as <-. cbn [sum_list_with peridigmPartialStressIndex
                                 p2_partialStressElements].
      rewrite Nat.add_0_r, take_0, app_nil_r. done.
Qed.

Lemma pass2_ids (disc : STKDiscretization) (coordinates : Z → option Point)
    (db : option (string → string)) (topologies : gmap string CellTopologyData)
    (degree : Z) (st st' : Pass2) (blocks : list Part) :
  peridigmPartialStressIndex st = 0 →
  for_each (pass2_block disc coordinates db topologies degree ids localIds) st blocks
  = Ok st' →
  let q := totalQuadPoints db topologies degree blocks in
  (q ≤ length allocated)%nat
  ∧ partialStressPointIds (p2_partialStressElements st')
    = partialStressPointIds (p2_partialStressElements st) ++ take q allocated.
Proof.
  intros Hzero Hrun. cbv zeta.
  assert (Hinv : peridigmPartialStressIndex st'
                 = Z.of_nat (totalQuadPoints db topologies degree blocks)
                 ∧ (totalQuadPoints db topologies degree blocks ≤ length allocated)%nat
                 ∧ partialStressPointIds (p2_partialStressElements st')
                   = partialStressPointIds (p2_partialStressElements st)
                     ++ take (totalQuadPoints db topologies degree blocks) allocated).
  { refine (for_each_Ok_passed _
              (λ passed q,
                 peridigmPartialStressIndex q
                 = Z.of_nat (totalQuadPoints db topologies degree passed)
                 ∧ (totalQuadPoints db topologies degree passed ≤ length allocated)%nat
                 ∧ partialStressPointIds (p2_partialStressElements q)
                   = partialStressPointIds (p2_partialStressElements st)
                     ++ take (totalQuadPoints db topologies degree passed) allocated)
              _ _ _ _ _ Hrun).
    - cbn. rewrite Hzero, app_nil_r. split; [done|]. split; [lia|done].
    - intros passed part rest q q' _ (Hidx & Hle & Hpts) Hb.
      destruct (pass2_block_ids _ _ _ _ _ _ _ _ _ Hidx Hle Hb) as (Hle' & Hidx' & Hpts').
      rewrite totalQuadPoints_app. split; [done|]. split; [done|].
      rewrite Hpts', Hpts, <- app_assoc. f_equal.
      by rewrite <- (take_take_drop allocated). }
  destruct Hinv as (_ & ? & ?). done.
Qed.

End Loop.

Lemma initialize_point_ids_prefix (params : Params) (stk : STKDiscretization)
    (comm : Comm) (s s' : PeridigmManager) :
  hasPeridigmParameters params = true →
  initialize params (Some stk) comm s = Ok s' →
  hasPeridynamics s' = true →
  Z.of_nat (length (peridigmNodeGlobalIds (idTable s'))) ≤ Int.max_signed →
  let db := materialDataBase params in
  let degree := default 2 (cubatureDegreeParam params) in
  let allocated := partialStressIdsOf comm (rankScanOf db degree (get_parts stk)) in
  let q := totalQuadPoints db (partCellTopologyData (get_parts stk)) degree
             (stkElementBlocks (get_parts stk)) in
  (q ≤ length allocated)%nat
  ∧ Z.of_nat (length allocated) ≤ Int.max_signed
  ∧ partialStressPointIds (partialStressElements s')
    = partialStressPointIds (partialStressElements s) ++ take q allocated.
Proof.
  intros Hparams Hrun Hhas Hfit. cbv zeta.
  set (db := materialDataBase params).
  set (degree := default 2 (cubatureDegreeParam params)).
  set (blocks := stkElementBlocks (get_parts stk)).
  set (topologies := partCellTopologyData (get_parts stk)).
  destruct (initialize_inv params (Some stk) comm s s' Hparams Hrun)
    as (stk' & coordinates & p1 & [= <-] & _ & _ & Hpass1 & Hcases).
  cbv zeta in Hcases.
  destruct Hcases as [(_ & _ & ->)|(_ & p2 & worksets & Hpass2 & _ & _ & ->)]; [done|].
  pose proof (scanOf_pass1 _ _ _ _ _ Hpass1) as Hscan. fold db degree in Hscan.
  destruct (registerPartialStressIds_registerAll (p1_idTable p1) (allocatedIds comm p1))
    as [Hreg Hlocal].
  assert (Halloc : allocatedIds comm p1 = partialStressIdsOf comm (rankScanOf db degree (get_parts stk))).
  { unfold allocatedIds, partialStressIdsOf. by rewrite <- Hscan. }
  set (allocated := partialStressIdsOf comm (rankScanOf db degree (get_parts stk))) in *.
  set (base := peridigmNodeGlobalIds (p1_idTable p1)) in *.
  cbn [stateInitialized idTable peridigmNodeGlobalIds partialStressElements] in Hfit |- *.
  rewrite Hreg, registerAll_ids, Halloc in Hfit. fold base in Hfit.
  rewrite length_app in Hfit.
  fold db degree blocks topologies in Hpass2.
  rewrite Hlocal, Hreg, registerAll_ids, Halloc in Hpass2. fold base in Hpass2.
  destruct (pass2_ids base allocated Hfit stk coordinates db topologies degree
              (pass2_start s p1 (registerAll (p1_idTable p1) allocated)) p2 blocks
              eq_refl Hpass2) as [Hle Hpts].
  cbn [pass2_start p2_partialStressElements] in Hpts.
  split; [exact Hle|]. split; [lia|exact Hpts].
Qed.

(** The partial-stress ids of this rank are as many as the quadrature
    points, when these can be counted in [int]. *)
Lemma length_partialStressIdsOf (comm : Comm) (db : option (string → string)) (degree : Z)
    (parts : list Part) :
  let q := totalQuadPoints db (partCellTopologyData parts) degree (stkElementBlocks parts) in
  Z.of_nat q ≤ Int.max_signed →
  length (partialStressIdsOf comm (rankScanOf db degree parts)) = q.
Proof.
  cbv zeta. intros Hq. unfold partialStressIdsOf. rewrite length_partialStressGlobalIds.
  cbn [rankScanOf numPartialStressIds].
  rewrite countPartialStressIds_exact by done. apply Nat2Z.id.
Qed.

(** X16: when [initialize] returns with peridynamics present and the
    registered points are fewer than 2^31, the material points of the
    partial-stress elements it has added carry, in the order of the blocks,
    of their elements and of their quadrature points, exactly the
    partial-stress ids allocated to this rank: every allocated id is used
    once, and their number is the number of quadrature points. *)
Theorem initialize_partial_stress_point_ids (params : Params) (stk : STKDiscretization)
    (comm : Comm) (s s' : PeridigmManager) :
  hasPeridigmParameters params = true →
  initialize params (Some stk) comm s = Ok s' →
  hasPeridynamics s' = true →
  Z.of_nat (length (peridigmNodeGlobalIds (idTable s'))) ≤ Int.max_signed →
  let db := materialDataBase params in
  let degree := default 2 (cubatureDegreeParam params) in
  let allocated := partialStressIdsOf comm (rankScanOf db degree (get_parts stk)) in
  partialStressPointIds (partialStressElements s')
  = partialStressPointIds (partialStressElements s) ++ allocated
  ∧ length allocated
    = totalQuadPoints db (partCellTopologyData (get_parts stk)) degree
        (stkElementBlocks (get_parts stk)).
Proof.
  intros Hparams Hrun Hhas Hfit. cbv zeta.
  destruct (initialize_point_ids_prefix params stk comm s s' Hparams Hrun Hhas Hfit)
    as (Hle & Hsmall & Hpts).
  assert (Hq : Z.of_nat (totalQuadPoints (materialDataBase params)
                           (partCellTopologyData (get_parts stk))
                           (default 2 (cubatureDegreeParam params))
                           (stkElementBlocks (get_parts stk))) ≤ Int.max_signed) by lia.
  pose proof (length_partialStressIdsOf comm (materialDataBase params)
                (default 2 (cubatureDegreeParam params)) (get_parts stk) Hq) as Hlen.
  cbv zeta in Hlen.
  split; [|exact Hlen].
  rewrite Hpts. f_equal. apply take_ge. lia.
Qed.

End PointIds.

Section PointIdsWitness.
Import LinearTet Examples.

Lemma initialize_partial_stress_point_ids_witness :
  ∃ s', initialize twoBlockParams (Some twoBlockMesh) singleRank PeridigmManager_new = Ok s'
    ∧ partialStressPointIds (partialStressElements s') = [5].
Proof.
  destruct (initialize twoBlockParams (Some twoBlockMesh) singleRank PeridigmManager_new)
    as [s'| |] eqn:Hrun; [|vm_compute in Hrun; discriminate..].
  assert (Hhas : hasPeridynamics s' = true).
  { vm_compute in Hrun. by injection Hrun as <-. }
  assert (Hn : length (peridigmNodeGlobalIds (idTable s')) = 2%nat).
  { vm_compute in Hrun. by injection Hrun as <-. }
  destruct (initialize_partial_stress_point_ids twoBlockParams twoBlockMesh singleRank
              PeridigmManager_new s' eq_refl Hrun Hhas) as [Hpts _].
  - rewrite Hn. unfold Int.max_signed. lia.
  - exists s'. split; [reflexivity|]. rewrite Hpts. vm_compute. reflexivity.
Defined.

End PointIdsWitness.
(** ** Material point ids and the ids of the mesh *)

Lemma trackMaxIds_nodes (m : Z) (nodes : list Z) :
  let m' := foldl (λ m node, let nodeId := albanyId node in
                             if bool_decide (nodeId > m) then nodeId else m) m nodes in
  m ≤ m' ∧ ∀ node, node ∈ nodes → albanyId node ≤ m'.
Proof.
  cbv zeta. revert m. induction nodes as [|n nodes IH]; intros m.
  - split; [done|]. intros node Hnode. by apply elem_of_nil in Hnode.
  - cbn [foldl]. destruct (IH (if bool_decide (albanyId n > m) then albanyId n else m))
      as [Hle Hall].
    split; [case_bool_decide; lia|].
    intros node Hnode. apply elem_of_cons in Hnode as [->|Hnode]; [|by apply Hall].
    case_bool_decide; lia.
Qed.

Lemma trackMaxIds_upper (m : Z * Z) (e : Element) :
  m.1 ≤ (trackMaxIds m e).1 ∧ m.2 ≤ (trackMaxIds m e).2
  ∧ albanyId (identifier e) ≤ (trackMaxIds m e).1
  ∧ ∀ node, node ∈ begin_nodes e → albanyId node ≤ (trackMaxIds m e).2.
Proof.
  destruct m as [me mn]. unfold trackMaxIds. cbn [fst snd].
  destruct (trackMaxIds_nodes mn (begin_nodes e)) as [Hle Hall].
  split_and!; [case_bool_decide; lia|done|case_bool_decide; lia|done].
Qed.

Lemma foldl_trackMaxIds_upper (elements : list Element) (m : Z * Z) :
  m.1 ≤ (foldl trackMaxIds m elements).1 ∧ m.2 ≤ (foldl trackMaxIds m elements).2
  ∧ ∀ e, e ∈ elements →
      albanyId (identifier e) ≤ (foldl trackMaxIds m elements).1
      ∧ ∀ node, node ∈ begin_nodes e → albanyId node ≤ (foldl trackMaxIds m elements).2.
Proof.
  revert m. induction elements as [|e0 elements IH]; intros m.
  - split; [done|]. split; [done|]. intros e He. by apply elem_of_nil in He.
  - cbn [foldl]. destruct (IH (trackMaxIds m e0)) as (H1 & H2 & Hall).
    destruct (trackMaxIds_upper m e0) as (G1 & G2 & G3 & G4).
    split; [lia|]. split; [lia|].
    intros e He. apply elem_of_cons in He as [->|He]; [|by apply Hall].
    split; [lia|]. intros node Hnode. specialize (G4 node Hnode). lia.
Qed.

Lemma maxAlbanyIds_upper (blocks : list Part) (part : Part) (e : Element) :
  part ∈ blocks → e ∈ locally_owned_elements part →
  0 ≤ (maxAlbanyIds blocks).1 ∧ 0 ≤ (maxAlbanyIds blocks).2
  ∧ albanyId (identifier e) ≤ (maxAlbanyIds blocks).1
  ∧ ∀ node, node ∈ begin_nodes e → albanyId node ≤ (maxAlbanyIds blocks).2.
Proof.
  intros Hpart He. unfold maxAlbanyIds.
  destruct (foldl_trackMaxIds_upper (blocks ≫= locally_owned_elements) (0, 0))
    as (H1 & H2 & Hall).
  split; [done|]. split; [done|]. apply Hall. apply list_elem_of_bind. by exists part.
Qed.

Section Above.
Context `{!Intrepid} `{!PeridigmKernels}.

(** X17: when [initialize] returns with peridynamics present, the ids of
    the ranks fit in [int] and this rank is one of the communicator, every
    material point of a partial-stress element that [initialize] has added
    has a global id greater than the Albany id of every element this rank
    owns in an element block, and not smaller than the Albany id of every
    node of such an element; it is greater than all those node ids as well
    unless the largest of them is the largest element id plus one. *)
Theorem initialize_point_ids_above_mesh_ids (params : Params) (stk : STKDiscretization)
    (comm : Comm) (s s' : PeridigmManager) (x : Z) (part : Part) (e : Element) :
  hasPeridigmParameters params = true →
  initialize params (Some stk) comm s = Ok s' →
  hasPeridynamics s' = true →
  Z.of_nat (length (peridigmNodeGlobalIds (idTable s'))) ≤ Int.max_signed →
  let scan := rankScanOf (materialDataBase params) (default 2 (cubatureDegreeParam params))
                (get_parts stk) in
  let scans := <[getRank comm := scan]> (rankScans comm) in
  (getRank comm < length (rankScans comm))%nat →
  Forall (λ r, 0 ≤ numPartialStressIds r) (rankScans comm) →
  lowestPossiblePartialStressId scans + sumZ (rankCounts scans) ≤ Int.max_signed →
  maxAlbanyElementId scan < Int.max_signed →
  maxAlbanyNodeId scan < Int.max_signed →
  x ∈ partialStressPointIds (partialStressElements s') →
  x ∉ partialStressPointIds (partialStressElements s) →
  part ∈ stkElementBlocks (get_parts stk) → e ∈ locally_owned_elements part →
  albanyId (identifier e) < x
  ∧ ∀ node, node ∈ begin_nodes e →
      albanyId node ≤ x
      ∧ (maxAlbanyNodeId scan ≠ maxAlbanyElementId scan + 1 → albanyId node < x).
Proof.
  intros Hparams Hrun Hhas Hfit scan scans Hrank Hcounts Hsum HmaxE HmaxN Hx Hold Hpart He.
  destruct (initialize_point_ids_prefix params stk comm s s' Hparams Hrun Hhas Hfit)
    as (_ & _ & Hpts).
  rewrite Hpts in Hx. apply elem_of_app in Hx as [Hx|Hx]; [done|].
  apply subseteq_take in Hx.
  fold scan in Hx.
  assert (Hscan : scans !! getRank comm = Some scan).
  { unfold scans. by apply list_lookup_insert_eq. }
  assert (Hids : partialStressIdsOf comm scan = rankPartialStressIds scans (getRank comm)).
  { unfold partialStressIdsOf, rankPartialStressIds. fold scans.
    by rewrite (rankCounts_lookup scans _ scan Hscan). }
  assert (Hpos : 0 < numPartialStressIds scan).
  { unfold partialStressIdsOf, partialStressGlobalIds in Hx.
    apply list_elem_of_fmap in Hx as (i & _ & Hi). apply elem_of_seqZ in Hi. lia. }
  assert (Hall : Forall (λ r, 0 ≤ numPartialStressIds r) scans).
  { unfold scans. apply Forall_insert; [done|lia]. }
  rewrite Hids in Hx.
  pose proof (rankPartialStressIds_lower scans _ x Hall Hsum Hx) as Hlow.
  pose proof (lowestPossiblePartialStressId_upper scans scan
                (list_elem_of_lookup_2 _ _ _ Hscan)) as Hup.
  destruct (maxAlbanyIds_upper (stkElementBlocks (get_parts stk)) part e Hpart He)
    as (H0e & H0n & Hel & Hnodes).
  change ((maxAlbanyIds (stkElementBlocks (get_parts stk))).1)
    with (maxAlbanyElementId scan) in H0e, Hel.
  change ((maxAlbanyIds (stkElementBlocks (get_parts stk))).2)
    with (maxAlbanyNodeId scan) in H0n, Hnodes.
  destruct (localLowest_spec (maxAlbanyElementId scan) (maxAlbanyNodeId scan))
    as (L1 & L2 & L3); [unfold Int.min_signed; lia..|].
  split; [lia|]. intros node Hnode. specialize (Hnodes node Hnode).
  split; [lia|]. intros Hne. apply L3 in Hne. lia.
Qed.

End Above.

Section AboveWitness.
Import LinearTet Examples.

Lemma initialize_point_ids_above_mesh_ids_witness :
  ∃ s', initialize (params "Peridynamic Partial Stress") (Some (tetMesh (0, 0, 1)%Qc))
          singleRank PeridigmManager_new = Ok s'
    ∧ albanyId (identifier tet) < 5
    ∧ ∀ node, node ∈ begin_nodes tet → albanyId node ≤ 5.
Proof.
  destruct (initialize (params "Peridynamic Partial Stress") (Some (tetMesh (0, 0, 1)%Qc))
              singleRank PeridigmManager_new) as [s'| |] eqn:Hrun;
    [|vm_compute in Hrun; discriminate..].
  assert (Hs : hasPeridynamics s' = true ∧ peridigmNodeGlobalIds (idTable s') = [5]
               ∧ partialStressPointIds (partialStressElements s') = [5]).
  { vm_compute in Hrun. by injection Hrun as <-. }
  destruct Hs as (Hhas & Hn & Hpts).
  exists s'. split; [reflexivity|].
  destruct (initialize_point_ids_above_mesh_ids (params "Peridynamic Partial Stress")
              (tetMesh (0, 0, 1)%Qc) singleRank PeridigmManager_new s' 5
              {| part_name := "block_1"; is_auto_declared_part := false;
                 primary_entity_rank := ELEMENT_RANK; get_cell_topology := Tetrahedron_4;
                 locally_owned_elements := [tet] |} tet eq_refl Hrun Hhas)
    as [Hel Hnodes].
  - rewrite Hn. cbn. unfold Int.max_signed. lia.
  - cbn. lia.
  - repeat constructor. cbn. lia.
  - vm_compute. discriminate.
  - vm_compute. reflexivity.
  - vm_compute. reflexivity.
  - rewrite Hpts. left.
  - cbn. apply not_elem_of_nil.
  - cbn. left.
  - cbn. left.
  - split; [exact Hel|]. intros node Hnode. by apply Hnodes.
Defined.

End AboveWitness.
(** ** The element table (lines 399-403) *)

Lemma partialStressElementIds_app (table : gmap Z (list Z))
    (elements elements' : list PartialStressElement) :
  partialStressElementIds table (elements ++ elements')
  = partialStressElementIds (partialStressElementIds table elements) elements'.
Proof. apply foldl_app. Qed.

Lemma partialStressElementIds_absent (elements : list PartialStressElement)
    (table : gmap Z (list Z)) (k : Z) :
  (∀ pse, pse ∈ elements → elementIdOf pse ≠ k) →
  partialStressElementIds table elements !! k = table !! k.
Proof.
  revert table. induction elements as [|pse elements IH]; intros table Hno; [done|].
  cbn. rewrite IH by (intros p Hp; apply Hno; by right).
  apply lookup_insert_ne. apply Hno. by left.
Qed.

Lemma partialStressElementIds_last (table : gmap Z (list Z))
    (before after : list PartialStressElement) (pse : PartialStressElement) :
  (∀ p, p ∈ after → elementIdOf p ≠ elementIdOf pse) →
  partialStressElementIds table (before ++ pse :: after) !! elementIdOf pse
  = Some (peridigmGlobalIds pse).
Proof.
  intros Hno. rewrite partialStressElementIds_app. cbn.
  rewrite partialStressElementIds_absent by done. apply lookup_insert_eq.
Qed.

Section ElementTable.
Context `{!Intrepid} `{!PeridigmKernels}.

(** X18: when [initialize] returns with peridynamics present, the element
    table read at the Albany id of a partial-stress element gives the global
    ids of the material points of the last element of the list with that id,
    and at an id no partial-stress element has it holds what it held
    before. *)
Theorem initialize_element_table (params : Params) (stk : STKDiscretization) (comm : Comm)
    (s s' : PeridigmManager) :
  hasPeridigmParameters params = true →
  initialize params (Some stk) comm s = Ok s' →
  hasPeridynamics s' = true →
  (∀ before pse after,
     partialStressElements s' = before ++ pse :: after →
     (∀ p, p ∈ after → elementIdOf p ≠ elementIdOf pse) →
     albanyPartialStressElementGlobalIdToPeridigmGlobalIds s' !! elementIdOf pse
     = Some (peridigmGlobalIds pse))
  ∧ (∀ k, (∀ pse, pse ∈ partialStressElements s' → elementIdOf pse ≠ k) →
       albanyPartialStressElementGlobalIdToPeridigmGlobalIds s' !! k
       = albanyPartialStressElementGlobalIdToPeridigmGlobalIds s !! k).
Proof.
  intros Hparams Hrun Hhas.
  destruct (initialize_inv params (Some stk) comm s s' Hparams Hrun)
    as (stk' & coordinates & p1 & [= <-] & _ & _ & _ & Hcases).
  cbv zeta in Hcases. destruct Hcases as [(_ & _ & ->)|(_ & p2 & worksets & _ & _ & _ & ->)].
  { done. }
  cbn [albanyPartialStressElementGlobalIdToPeridigmGlobalIds partialStressElements
       stateInitialized].
  split.
  - intros before pse after -> Hno. by apply partialStressElementIds_last.
  - intros k Hno. by apply partialStressElementIds_absent.
Qed.

End ElementTable.

Section ElementTableWitness.
Import LinearTet Examples.

Lemma initialize_element_table_witness :
  ∃ s', initialize (params "Peridynamic Partial Stress") (Some (tetMesh (0, 0, 1)%Qc))
          singleRank PeridigmManager_new = Ok s'
    ∧ albanyPartialStressElementGlobalIdToPeridigmGlobalIds s' !! 4 = Some [5]
    ∧ albanyPartialStressElementGlobalIdToPeridigmGlobalIds s' !! 1 = None.
Proof.
  destruct (initialize (params "Peridynamic Partial Stress") (Some (tetMesh (0, 0, 1)%Qc))
              singleRank PeridigmManager_new) as [s'| |] eqn:Hrun;
    [|vm_compute in Hrun; discriminate..].
  assert (Hs : hasPeridynamics s' = true
               ∧ ∃ pse, partialStressElements s' = [] ++ pse :: []
                        ∧ elementIdOf pse = 4 ∧ peridigmGlobalIds pse = [5]).
  { vm_compute in Hrun. injection Hrun as <-. split; [reflexivity|].
    eexists. split; [reflexivity|]. split; reflexivity. }
  destruct Hs as (Hhas & pse & Hlist & Hid & Hgids).
  destruct (initialize_element_table (params "Peridynamic Partial Stress")
              (tetMesh (0, 0, 1)%Qc) singleRank PeridigmManager_new s' eq_refl Hrun Hhas)
    as [Hlast Habsent].
  exists s'. split; [reflexivity|]. split.
  - rewrite <- Hid, <- Hgids. apply (Hlast [] pse [] Hlist).
    intros p Hp. by apply elem_of_nil in Hp.
  - rewrite Habsent; [reflexivity|]. intros p Hp. rewrite Hlist in Hp. cbn in Hp.
    apply list_elem_of_singleton in Hp as ->. rewrite Hid. done.
Defined.

End ElementTableWitness.
(** ** [getPartialStress] (lines 691-707) *)

Lemma withElementTables_id (s : PeridigmManager) :
  withElementTables s (worksetLocalIdToGlobalId s)
    (albanyPartialStressElementGlobalIdToPeridigmGlobalIds s) = s.
Proof. by destruct s. Qed.

(** The loop of lines 702-704 after [n] of its nine iterations. *)
Lemma copyPartialStress_prefix (data : Epetra_Vector) (l i : nat)
    (values : list (list Scalar)) (row : list Scalar) (n : nat) :
  values !! i = Some row → (9 ≤ length row)%nat →
  (9 * l + 9 ≤ length (epetra_values data))%nat →
  9 * Z.of_nat l + 8 ≤ Int.max_signed →
  (n ≤ 9)%nat →
  for_each (copyPartialStress data (Z.of_nat l) i) values (seqZ 0 (Z.of_nat n))
  = Ok (<[i := take n (drop (9 * l) (epetra_values data)) ++ drop n row]> values).
Proof.
  intros Hrow Hlen Hdata Hfit. induction n as [|n IH]; intros Hn.
  - cbn. rewrite drop_0. by rewrite list_insert_id.
  - rewrite Nat2Z.inj_succ, <- Z.add_1_r, seqZ_app by lia.
    rewrite for_each_app, IH by lia. cbn [mbind outcome_bind].
    change (seqZ (0 + Z.of_nat n) 1) with [0 + Z.of_nat n]. cbn [for_each].
    unfold copyPartialStress.
    rewrite Int_mul_exact by (unfold Int.in_range, Int.min_signed; lia).
    rewrite Int_add_exact by (unfold Int.in_range, Int.min_signed; lia).
    destruct (lookup_lt_is_Some_2 (epetra_values data) (9 * l + n)) as [d Hd]; [lia|].
    replace (9 * Z.of_nat l + (0 + Z.of_nat n)) with (Z.of_nat (9 * l + n)) by lia.
    rewrite (read_at_lookup _ _ _ Hd). cbn [mbind outcome_bind].
    rewrite (read_at_lookup _ i (take n (drop (9 * l) (epetra_values data)) ++ drop n row)).
    2:{ apply list_lookup_insert_eq. by eapply lookup_lt_Some. }
    cbn [mbind outcome_bind].
    assert (Htake : length (take n (drop (9 * l) (epetra_values data))) = n).
    { rewrite length_take, length_drop. lia. }
    rewrite Z.add_0_l, write_at_in_range.
    2:{ rewrite length_app, Htake, length_drop. lia. }
    cbn [mbind outcome_bind].
    rewrite write_at_in_range.
    2:{ rewrite length_insert. by eapply lookup_lt_Some. }
    f_equal. rewrite list_insert_insert_eq. f_equal.
    destruct (lookup_lt_is_Some_2 row n) as [r Hr]; [lia|].
    rewrite (drop_S row r n Hr).
    rewrite insert_app_r_alt by lia. rewrite Htake, Nat.sub_diag. cbn [insert list_insert].
    rewrite (take_S_r _ n d) by (by rewrite lookup_drop).
    by rewrite <- app_assoc.
Qed.

Lemma copyPartialStress_row (data : Epetra_Vector) (l i : nat)
    (values : list (list Scalar)) (row : list Scalar) :
  values !! i = Some row → (9 ≤ length row)%nat →
  (9 * l + 9 ≤ length (epetra_values data))%nat →
  9 * Z.of_nat l + 8 ≤ Int.max_signed →
  for_each (copyPartialStress data (Z.of_nat l) i) values (seqZ 0 9)
  = Ok (<[i := stressRow data l row]> values).
Proof.
  intros Hrow Hlen Hdata Hfit.
  exact (copyPartialStress_prefix data l i values row 9 Hrow Hlen Hdata Hfit (le_n 9)).
Qed.

(** The conditions under which every material point of the list finds its
    nine values and its row. *)
Lemma stressRows_snoc (data : Epetra_Vector) (gids : list Z) (g : Z)
    (values : list (list Scalar)) (row : list Scalar) :
  values !! length gids = Some row →
  stressRows data (gids ++ [g]) values
  = <[length gids := stressRow data (Z.to_nat (LID (epetra_globalIds data) g)) row]>
      (stressRows data gids values).
Proof.
  intros Hrow. unfold stressRows. apply list_eq. intros i.
  destruct (decide (i = length gids)) as [->|Hne].
  - rewrite list_lookup_insert_eq by (rewrite length_imap; by eapply lookup_lt_Some).
    rewrite list_lookup_imap, Hrow. cbn. by rewrite list_lookup_middle.
  - rewrite list_lookup_insert_ne by done. rewrite !list_lookup_imap.
    destruct (values !! i) as [r|]; [|done]. cbn. f_equal.
    destruct (decide (i < length gids)%nat).
    + by rewrite lookup_app_l.
    + rewrite !lookup_ge_None_2; [done|lia|]. rewrite length_app. cbn. lia.
Qed.

Lemma stressRows_nil (data : Epetra_Vector) (values : list (list Scalar)) :
  stressRows data [] values = values.
Proof.
  unfold stressRows. apply list_eq. intros i. rewrite list_lookup_imap.
  by destruct (values !! i).
Qed.

Lemma stressRows_lookup_old (data : Epetra_Vector) (gids : list Z)
    (values : list (list Scalar)) (i : nat) :
  (length gids ≤ i)%nat → stressRows data gids values !! i = values !! i.
Proof.
  intros Hi. unfold stressRows. rewrite list_lookup_imap.
  destruct (values !! i) as [r|]; [|done]. cbn. by rewrite lookup_ge_None_2.
Qed.

Section StressValues.
Context `{!PeridigmBlocks}.

Lemma getPartialStressPoints_Ok (data : Epetra_Vector) (gids : list Z)
    (values : list (list Scalar)) :
  length (epetra_values data) = (9 * length (epetra_globalIds data))%nat →
  9 * Z.of_nat (length (epetra_globalIds data)) ≤ Int.max_signed →
  Forall (λ g, g ∈ epetra_globalIds data) gids →
  (length gids ≤ length values)%nat →
  (∀ i row, (i < length gids)%nat → values !! i = Some row → (9 ≤ length row)%nat) →
  for_each (getPartialStressPoint (Some data)) values (imap pair gids)
  = Ok (stressRows data gids values).
Proof.
  intros Hdata Hfit. induction gids as [|g gids IH] using rev_ind; intros Hin Hlen Hrows.
  - cbn. by rewrite stressRows_nil.
  - apply Forall_app in Hin as [Hin Hg]. rewrite Forall_singleton in Hg.
    rewrite length_app in Hlen. cbn in Hlen.
    rewrite imap_app, for_each_app.
    rewrite IH; [|done|lia|]; cycle 1.
    { intros i row Hi. apply Hrows. rewrite length_app. lia. }
    cbn [mbind outcome_bind imap for_each]. rewrite Nat.add_0_r.
    unfold getPartialStressPoint. cbn [from_option mbind outcome_bind fst snd].
    destruct (LID_present _ _ Hg) as (l & Hl & Hlook & _). rewrite Hl.
    apply lookup_lt_Some in Hlook.
    rewrite bool_decide_eq_false_2 by lia. cbn [test_for_except mbind outcome_bind].
    destruct (lookup_lt_is_Some_2 values (length gids)) as [row Hrow]; [lia|].
    rewrite (copyPartialStress_row data l (length gids) _ row).
    + rewrite (stressRows_snoc data gids g values row Hrow). by rewrite Hl, Nat2Z.id.
    + by rewrite stressRows_lookup_old.
    + apply (Hrows (length gids)); [|done]. rewrite length_app. cbn. lia.
    + lia.
    + lia.
Qed.

Lemma getPartialStressPoint_absent (data : Epetra_Vector) (values : list (list Scalar))
    (i : nat) (g : Z) :
  g ∉ epetra_globalIds data →
  getPartialStressPoint (Some data) values (i, g) = Fatal GetPartialStressInvalidGlobalId.
Proof.
  intros Hg. unfold getPartialStressPoint. cbn [from_option mbind outcome_bind fst snd].
  by rewrite (LID_absent _ _ Hg).
Qed.

Lemma getPartialStressPoints_Fatal (data : Epetra_Vector) (good rest : list Z) (g : Z)
    (values : list (list Scalar)) :
  length (epetra_values data) = (9 * length (epetra_globalIds data))%nat →
  9 * Z.of_nat (length (epetra_globalIds data)) ≤ Int.max_signed →
  Forall (λ g, g ∈ epetra_globalIds data) good →
  g ∉ epetra_globalIds data →
  (length good ≤ length values)%nat →
  (∀ i row, (i < length good)%nat → values !! i = Some row → (9 ≤ length row)%nat) →
  for_each (getPartialStressPoint (Some data)) values (imap pair (good ++ g :: rest))
  = Fatal GetPartialStressInvalidGlobalId.
Proof.
  intros Hdata Hfit Hgood Hg Hlen Hrows.
  rewrite imap_app, for_each_app.
  rewrite (getPartialStressPoints_Ok data good values Hdata Hfit Hgood Hlen Hrows).
  cbn [mbind outcome_bind imap for_each].
  by rewrite (getPartialStressPoint_absent data _ _ g Hg).
Qed.

(** X19: with peridynamics present, for an element the workset table and the
    element table know and block data that hold nine values per id, all
    ids of the element's material points among them, [getPartialStress]
    returns and leaves the manager as it was; row [i] of the values then
    starts with the nine values the data hold for the [i]-th material point
    of the element, and everything else in the values is unchanged. *)
Theorem getPartialStress_values (blockName : string) (worksetIndex worksetLocalElementId : Z)
    (values : list (list Scalar)) (s : PeridigmManager) (solver : Peridigm)
    (data : Epetra_Vector) (wsGIDs gids : list Z) (globalElementId : Z) :
  hasPeridynamics s = true →
  peridigm s = Some solver →
  Peridigm_getBlockData solver blockName "Partial_Stress" = Some data →
  worksetLocalIdToGlobalId s !! worksetIndex = Some wsGIDs →
  0 ≤ worksetLocalElementId →
  wsGIDs !! Z.to_nat worksetLocalElementId = Some globalElementId →
  albanyPartialStressElementGlobalIdToPeridigmGlobalIds s !! globalElementId = Some gids →
  length (epetra_values data) = (9 * length (epetra_globalIds data))%nat →
  9 * Z.of_nat (length (epetra_globalIds data)) ≤ Int.max_signed →
  Forall (λ g, g ∈ epetra_globalIds data) gids →
  (length gids ≤ length values)%nat →
  (∀ i row, (i < length gids)%nat → values !! i = Some row → (9 ≤ length row)%nat) →
  ∃ values',
    getPartialStress blockName worksetIndex worksetLocalElementId values s = Ok (s, values')
    ∧ length values' = length values
    ∧ (∀ i g (j : nat), gids !! i = Some g → (j < 9)%nat →
         ∃ row', values' !! i = Some row'
           ∧ row' !! j
             = epetra_values data !! (9 * Z.to_nat (LID (epetra_globalIds data) g) + j)%nat)
    ∧ (∀ i row, values !! i = Some row →
         ∃ row', values' !! i = Some row' ∧ length row' = length row
           ∧ ∀ j, (length gids ≤ i)%nat ∨ (9 ≤ j)%nat → row' !! j = row !! j).
Proof.
  intros Hhas Hsolver Hblock Hws Hlid Hel Hids Hdata Hfit Hin Hlen Hrows.
  exists (stressRows data gids values).
  assert (Hl : ∀ g, g ∈ gids →
                 (9 * Z.to_nat (LID (epetra_globalIds data) g) + 9
                  ≤ length (epetra_values data))%nat).
  { intros g Hg. rewrite Forall_forall in Hin.
    destruct (LID_present _ _ (Hin g Hg)) as (l & -> & Hlook & _).
    apply lookup_lt_Some in Hlook. lia. }
  split_and!.
  - unfold getPartialStress. rewrite Hhas.
    rewrite (map_index_present _ _ _ _ Hws).
    rewrite (proj2 (read_at_Ok wsGIDs worksetLocalElementId globalElementId)) by done.
    cbn [mbind outcome_bind]. rewrite (map_index_present _ _ _ _ Hids).
    rewrite Hsolver. cbn [from_option mbind outcome_bind]. rewrite Hblock.
    rewrite (getPartialStressPoints_Ok data gids values Hdata Hfit Hin Hlen Hrows).
    cbn [mbind outcome_bind]. by rewrite withElementTables_id.
  - unfold stressRows. apply length_imap.
  - intros i g j Hi Hj.
    destruct (lookup_lt_is_Some_2 values i) as [row Hrow].
    { apply lookup_lt_Some in Hi. lia. }
    exists (stressRow data (Z.to_nat (LID (epetra_globalIds data) g)) row). split.
    + unfold stressRows. rewrite list_lookup_imap, Hrow. cbn. by rewrite Hi.
    + unfold stressRow. specialize (Hl g (list_elem_of_lookup_2 _ _ _ Hi)).
      rewrite lookup_app_l by (rewrite length_take, length_drop; lia).
      rewrite lookup_take_lt by lia. by rewrite lookup_drop.
  - intros i row Hrow.
    destruct (gids !! i) as [g|] eqn:Hi.
    + exists (stressRow data (Z.to_nat (LID (epetra_globalIds data) g)) row).
      pose proof (Hl g (list_elem_of_lookup_2 _ _ _ Hi)) as Hg.
      pose proof (lookup_lt_Some _ _ _ Hi) as Hlt.
      pose proof (Hrows i row Hlt Hrow) as Hnine.
      assert (Htake : length (take 9 (drop (9 * Z.to_nat (LID (epetra_globalIds data) g))
                                        (epetra_values data))) = 9%nat).
      { rewrite length_take, length_drop. lia. }
      split_and!.
      * unfold stressRows. rewrite list_lookup_imap, Hrow. cbn. by rewrite Hi.
      * unfold stressRow. rewrite length_app, Htake, length_drop. lia.
      * intros j [Hge|Hj]; [lia|]. unfold stressRow.
        rewrite lookup_app_r by lia. rewrite Htake, lookup_drop. f_equal. lia.
    + exists row. split_and!; [|done..].
      unfold stressRows. rewrite list_lookup_imap, Hrow. cbn. by rewrite Hi.
Qed.

(** X20: with peridynamics present, [getPartialStress] for an element of a
    known workset that the element table does not hold changes no value and
    throws nothing, also when the solver has no such block data; it leaves
    the manager with an empty entry for that element in the element table
    and otherwise as it was. *)
Theorem getPartialStress_unknown_element (blockName : string)
    (worksetIndex worksetLocalElementId : Z) (values : list (list Scalar))
    (s : PeridigmManager) (solver : Peridigm) (wsGIDs : list Z) (globalElementId : Z) :
  hasPeridynamics s = true →
  peridigm s = Some solver →
  worksetLocalIdToGlobalId s !! worksetIndex = Some wsGIDs →
  0 ≤ worksetLocalElementId →
  wsGIDs !! Z.to_nat worksetLocalElementId = Some globalElementId →
  albanyPartialStressElementGlobalIdToPeridigmGlobalIds s !! globalElementId = None →
  getPartialStress blockName worksetIndex worksetLocalElementId values s
  = Ok (withElementTables s (worksetLocalIdToGlobalId s)
          (<[globalElementId := []]>
             (albanyPartialStressElementGlobalIdToPeridigmGlobalIds s)),
        values).
Proof.
  intros Hhas Hsolver Hws Hlid Hel Hids.
  unfold getPartialStress. rewrite Hhas.
  rewrite (map_index_present _ _ _ _ Hws).
  rewrite (proj2 (read_at_Ok wsGIDs worksetLocalElementId globalElementId)) by done.
  cbn [mbind outcome_bind]. rewrite (map_index_absent _ _ _ Hids).
  rewrite Hsolver. reflexivity.
Qed.

(** X21: with peridynamics present and block data that hold nine values per
    id, [getPartialStress] throws for an element one of whose material
    points has a global id the data do not hold, when the points before it
    have theirs there and find their rows. *)
Theorem getPartialStress_invalid_global_id (blockName : string)
    (worksetIndex worksetLocalElementId : Z) (values : list (list Scalar))
    (s : PeridigmManager) (solver : Peridigm) (data : Epetra_Vector)
    (wsGIDs good rest : list Z) (g globalElementId : Z) :
  hasPeridynamics s = true →
  peridigm s = Some solver →
  Peridigm_getBlockData solver blockName "Partial_Stress" = Some data →
  worksetLocalIdToGlobalId s !! worksetIndex = Some wsGIDs →
  0 ≤ worksetLocalElementId →
  wsGIDs !! Z.to_nat worksetLocalElementId = Some globalElementId →
  albanyPartialStressElementGlobalIdToPeridigmGlobalIds s !! globalElementId
  = Some (good ++ g :: rest) →
  length (epetra_values data) = (9 * length (epetra_globalIds data))%nat →
  9 * Z.of_nat (length (epetra_globalIds data)) ≤ Int.max_signed →
  Forall (λ g, g ∈ epetra_globalIds data) good →
  g ∉ epetra_globalIds data →
  (length good ≤ length values)%nat →
  (∀ i row, (i < length good)%nat → values !! i = Some row → (9 ≤ length row)%nat) →
  getPartialStress blockName worksetIndex worksetLocalElementId values s
  = Fatal GetPartialStressInvalidGlobalId.
Proof.
  intros Hhas Hsolver Hblock Hws Hlid Hel Hids Hdata Hfit Hgood Hg Hlen Hrows.
  unfold getPartialStress. rewrite Hhas.
  rewrite (map_index_present _ _ _ _ Hws).
  rewrite (proj2 (read_at_Ok wsGIDs worksetLocalElementId globalElementId)) by done.
  cbn [mbind outcome_bind]. rewrite (map_index_present _ _ _ _ Hids).
  rewrite Hsolver. cbn [from_option mbind outcome_bind]. rewrite Hblock.
  by rewrite (getPartialStressPoints_Fatal data good rest g values Hdata Hfit Hgood Hg Hlen Hrows).
Qed.

End StressValues.

Section StressValuesWitness.
Import LinearTet Examples MoreExamples.

Lemma getPartialStress_values_witness :
  ∃ values', getPartialStress "block_1" 0 0 [replicate 10 0%Qc] tetState
             = Ok (tetState, values')
    ∧ ∃ row', values' !! 0%nat = Some row' ∧ row' !! 8%nat = Some (qc 9 1)
              ∧ row' !! 9%nat = Some 0%Qc.
Proof.
  destruct (getPartialStress_values "block_1" 0 0 [replicate 10 0%Qc] tetState tetSolver
              {| epetra_globalIds := [5];
                 epetra_values := (λ n, qc n 1) <$> [1; 2; 3; 4; 5; 6; 7; 8; 9] |}
              [4] [5] 4)
    as (values' & Hrun & _ & Hnew & Hold).
  - reflexivity.
  - reflexivity.
  - reflexivity.
  - reflexivity.
  - lia.
  - reflexivity.
  - reflexivity.
  - reflexivity.
  - cbn. unfold Int.max_signed. lia.
  - repeat constructor.
  - cbn. lia.
  - intros i row Hi Hrow. destruct i as [|i]; [|cbn in Hi; lia].
    injection Hrow as <-. cbn. lia.
  - exists values'. split; [exact Hrun|].
    destruct (Hnew 0%nat 5 8%nat eq_refl) as (row' & Hrow' & H8); [lia|].
    destruct (Hold 0%nat (replicate 10 0%Qc) eq_refl) as (row'' & Hrow'' & _ & H9).
    exists row'. split; [exact Hrow'|]. split; [exact H8|].
    rewrite Hrow' in Hrow''. injection Hrow'' as <-. apply (H9 9%nat). right. lia.
Defined.

Lemma getPartialStress_unknown_element_witness :
  getPartialStress "block_1" 0 0 [replicate 9 0%Qc] sphereState
  = Ok (withElementTables sphereState {[0 := [0]]} {[0 := []]}, [replicate 9 0%Qc]).
Proof.
  apply (getPartialStress_unknown_element "block_1" 0 0 [replicate 9 0%Qc] sphereState
           sphereSolver [0] 0).
  - reflexivity.
  - reflexivity.
  - reflexivity.
  - lia.
  - reflexivity.
  - reflexivity.
Defined.

Lemma getPartialStress_invalid_global_id_witness :
  @getPartialStress noStressData "block_1" 0 0 [replicate 9 0%Qc] tetState
  = Fatal GetPartialStressInvalidGlobalId.
Proof.
  apply (@getPartialStress_invalid_global_id noStressData "block_1" 0 0 [replicate 9 0%Qc]
           tetState tetSolver {| epetra_globalIds := []; epetra_values := [] |}
           [4] [] [] 5 4).
  - reflexivity.
  - reflexivity.
  - reflexivity.
  - reflexivity.
  - lia.
  - reflexivity.
  - reflexivity.
  - reflexivity.
  - cbn. unfold Int.max_signed. lia.
  - constructor.
  - apply not_elem_of_nil.
  - cbn. lia.
  - intros i row Hi. cbn in Hi. lia.
Defined.

End StressValuesWitness.
(** ** [getPartialStress] after [initialize] *)

Section StressAfterInitialize.
Context `{!Intrepid} `{!PeridigmKernels} `{!PeridigmBlocks}.

(** X22: after an [initialize] that returns with peridynamics present,
    [getPartialStress] at the workset and local id of an entry of
    [getElemGIDws()] reads the stress of the material points of the
    partial-stress element whose Albany id is the entry's global element id
    (the last such element of the list), when the block data hold nine
    values per id and the ids of these points; it returns and leaves the
    manager as it was. *)
Theorem getPartialStress_after_initialize (params : Params) (stk : STKDiscretization)
    (comm : Comm) (s s' : PeridigmManager) (blockName : string) (i : nat) (gid ws lid : Z)
    (before after : list PartialStressElement) (pse : PartialStressElement)
    (solver : Peridigm) (data : Epetra_Vector) (values : list (list Scalar)) :
  hasPeridigmParameters params = true →
  initialize params (Some stk) comm s = Ok s' →
  hasPeridynamics s' = true →
  getElemGIDws stk !! i = Some (gid, (ws, lid)) →
  partialStressElements s' = before ++ pse :: after →
  elementIdOf pse = Int.wrap gid →
  (∀ p, p ∈ after → elementIdOf p ≠ elementIdOf pse) →
  peridigm s' = Some solver →
  Peridigm_getBlockData solver blockName "Partial_Stress" = Some data →
  length (epetra_values data) = (9 * length (epetra_globalIds data))%nat →
  9 * Z.of_nat (length (epetra_globalIds data)) ≤ Int.max_signed →
  Forall (λ g, g ∈ epetra_globalIds data) (peridigmGlobalIds pse) →
  (length (peridigmGlobalIds pse) ≤ length values)%nat →
  (∀ i row, (i < length (peridigmGlobalIds pse))%nat → values !! i = Some row →
            (9 ≤ length row)%nat) →
  getPartialStress blockName ws lid values s'
  = Ok (s', stressRows data (peridigmGlobalIds pse) values).
Proof.
  intros Hparams Hrun Hhas Hi Hlist Hid Hlast Hsolver Hblock Hdata Hfit Hin Hlen Hrows.
  destruct (initialize_inv params (Some stk) comm s s' Hparams Hrun)
    as (stk' & coordinates & p1 & [= <-] & _ & _ & _ & Hcases).
  cbv zeta in Hcases. destruct Hcases as [(_ & _ & ->)|(_ & p2 & worksets & _ & _ & Hws & Hs')].
  { done. }
  destruct (worksetEntries_lookup _ _ _ _ _ _ _ Hws Hi) as (Hlid & wsGIDs & Hlook & Hel).
  assert (Htable : albanyPartialStressElementGlobalIdToPeridigmGlobalIds s' !! Int.wrap gid
                   = Some (peridigmGlobalIds pse)).
  { rewrite <- Hid. rewrite Hs' in Hlist |- *.
    cbn [albanyPartialStressElementGlobalIdToPeridigmGlobalIds partialStressElements
         stateInitialized] in Hlist |- *.
    rewrite Hlist. by apply partialStressElementIds_last. }
  assert (Hwsl : worksetLocalIdToGlobalId s' !! ws = Some wsGIDs).
  { by rewrite Hs'. }
  unfold getPartialStress. rewrite Hhas.
  rewrite (map_index_present _ _ _ _ Hwsl).
  rewrite (proj2 (read_at_Ok wsGIDs lid (Int.wrap gid))) by (split; [lia|done]).
  cbn [mbind outcome_bind]. rewrite (map_index_present _ _ _ _ Htable).
  rewrite Hsolver. cbn [from_option mbind outcome_bind]. rewrite Hblock.
  rewrite (getPartialStressPoints_Ok data _ values Hdata Hfit Hin Hlen Hrows).
  cbn [mbind outcome_bind]. by rewrite withElementTables_id.
Qed.

End StressAfterInitialize.

Section StressAfterInitializeWitness.
Import LinearTet Examples MoreExamples.

Lemma getPartialStress_after_initialize_witness :
  ∃ s', initialize (params "Peridynamic Partial Stress") (Some (tetMesh (0, 0, 1)%Qc))
          singleRank PeridigmManager_new = Ok s'
    ∧ getPartialStress "block_1" 0 0 [replicate 10 0%Qc] s'
      = Ok (s', [((λ n, qc n 1) <$> [1; 2; 3; 4; 5; 6; 7; 8; 9]) ++ [0%Qc]]).
Proof.
  destruct (initialize (params "Peridynamic Partial Stress") (Some (tetMesh (0, 0, 1)%Qc))
              singleRank PeridigmManager_new) as [s'| |] eqn:Hrun;
    [|vm_compute in Hrun; discriminate..].
  assert (Hs : hasPeridynamics s' = true
               ∧ ∃ pse solver, partialStressElements s' = [] ++ pse :: []
                   ∧ elementIdOf pse = Int.wrap 4 ∧ peridigmGlobalIds pse = [5]
                   ∧ peridigm s' = Some solver).
  { vm_compute in Hrun. injection Hrun as <-. split; [reflexivity|].
    eexists _, _. split_and!; reflexivity. }
  destruct Hs as (Hhas & pse & solver & Hlist & Hid & Hgids & Hsolver).
  exists s'. split; [reflexivity|].
  rewrite (getPartialStress_after_initialize (params "Peridynamic Partial Stress")
             (tetMesh (0, 0, 1)%Qc) singleRank PeridigmManager_new s' "block_1" 0%nat 4 0 0
             [] [] pse solver
             {| epetra_globalIds := [5];
                epetra_values := (λ n, qc n 1) <$> [1; 2; 3; 4; 5; 6; 7; 8; 9] |}
             [replicate 10 0%Qc] eq_refl Hrun Hhas eq_refl Hlist Hid).
  - rewrite Hgids. reflexivity.
  - intros p Hp. by apply elem_of_nil in Hp.
  - exact Hsolver.
  - reflexivity.
  - reflexivity.
  - cbn. unfold Int.max_signed. lia.
  - rewrite Hgids. repeat constructor.
  - rewrite Hgids. cbn. lia.
  - rewrite Hgids. intros i row Hi Hrow. destruct i as [|i]; [|cbn in Hi; lia].
    injection Hrow as <-. cbn. lia.
Defined.

End StressAfterInitializeWitness.
(** ** Two calls of [setCurrentTimeAndDisplacement] with [updateState]
    between them *)

Section SpherePoint.
Context `{!Intrepid}.

(** The entries of a sphere point that no partial-stress point shares, in
    the vectors [setCurrentTimeAndDisplacement] computes. *)
Lemma sphere_point_after (time : Scalar) (solution : Tpetra_Vector) (s : PeridigmManager)
    (solver : Peridigm) (g : Z) (l : nat) (x p u : Point) :
  solverSized solver (previousSolutionPositions s) →
  Forall (sphereReady (peridigm_globalIds solver) solution) (sphereElementGlobalNodeIds s) →
  Forall (elementReady (length (peridigm_globalIds solver)) solution
            (peridigmGlobalIdToPeridigmLocalId (idTable s))) (partialStressElements s) →
  g ∈ sphereElementGlobalNodeIds s →
  LID (peridigm_globalIds solver) g = Z.of_nat l →
  point_at (getX solver) l = Some x →
  point_at (previousSolutionPositions s) l = Some p →
  displacementAt solution g u →
  (∀ pse gid, pse ∈ partialStressElements s → gid ∈ peridigmGlobalIds pse →
     localIdOf (peridigmGlobalIdToPeridigmLocalId (idTable s)) gid ≠ Z.of_nat l) →
  point_at (positions (kinematicsAfter time solution s solver)) l = Some (padd x u)
  ∧ point_at (displacements (kinematicsAfter time solution s solver)) l = Some u
  ∧ point_at (velocities (kinematicsAfter time solution s solver)) l
    = Some (pdiv (psub (padd x u) p) (timeStepFor time (previousTime s))).
Proof.
  intros (HX & HY0 & HU0 & HV0 & Hprev & Hsmall) Hspheres Helements Hg Hl Hx Hp Hu Hother.
  unfold kinematicsAfter.
  set (dt := timeStepFor time (previousTime s)).
  set (k0 := {| positions := getY solver; displacements := getU solver;
                velocities := getV solver |}).
  set (A := sphereUpdate _ _ _ _ _ <$> _).
  set (B := _ ≫= _).
  destruct (foldl_put_frame B (foldl put k0 A) l) as (-> & -> & ->).
  { intros w Hw. apply partialStressUpdates_ids in Hw
      as (pse & i & gid & Hpse & Hgid & Hw1 & _).
    assert (Hin : gid ∈ peridigmGlobalIds pse) by (by eapply list_elem_of_lookup_2).
    rewrite Forall_forall in Helements.
    destruct (Helements pse Hpse) as (_ & _ & _ & Hrange).
    specialize (Hrange gid Hin). specialize (Hother pse gid Hpse Hin). lia. }
  rewrite Forall_forall in Hspheres.
  set (w := sphereUpdate (peridigm_globalIds solver) (getX solver)
              (previousSolutionPositions s) dt solution g).
  assert (Hw : w = (l, (padd x u, u, pdiv (psub (padd x u) p) dt))).
  { unfold w, sphereUpdate. rewrite Hl, Nat2Z.id, Hx, Hp.
    by rewrite (displacementAt_displacementOf _ _ _ Hu). }
  pose proof (point_from_length _ _ _ Hx) as Hlen.
  destruct (foldl_put_values A k0 w) as (HYw & HUw & HVw).
  - apply list_elem_of_fmap. by exists g.
  - intros w' Hw' Heq. apply list_elem_of_fmap in Hw' as (g' & -> & Hg').
    destruct (Hspheres g' Hg') as (Hin' & _). destruct (Hspheres g Hg) as (Hin & _).
    assert (g' = g) as ->; [|done].
    unfold w, sphereUpdate in Heq. cbn [fst] in Heq.
    pose proof (LID_range (peridigm_globalIds solver) g).
    pose proof (LID_range (peridigm_globalIds solver) g').
    destruct (LID_present _ _ Hin') as (l' & Hl' & _).
    symmetry. apply (LID_inj (peridigm_globalIds solver)); [done|]. lia.
  - rewrite Hw. cbn. lia.
  - rewrite Hw. cbn. lia.
  - rewrite Hw. cbn. lia.
  - rewrite Hw in HYw, HUw, HVw. done.
Qed.

End SpherePoint.

Section Velocity.
Context `{!Intrepid} `{!PeridigmKernels}.

(** X23: let the loops of [setCurrentTimeAndDisplacement] pass for two
    solution vectors, and let the solver's own update keep the global ids,
    the reference positions and the lengths of the vectors.  Then a call at
    [t1] with the first vector, [updateState], and a call at a later time
    [t2] with the second vector leave the time step [t2 - t1], and at every
    sphere point whose entries no partial-stress point shares the velocity
    ((x + b) - (x + a)) / (t2 - t1), with the operations in this order: [x]
    is the reference position, [a] and [b] are the first and the second
    displacement, and the previous position the second call subtracts is
    the current position [x + a] the first call stored. *)
Theorem sphere_velocity_between_calls (t1 t2 : Scalar) (u1 u2 : Tpetra_Vector)
    (s : PeridigmManager) (solver : Peridigm) (g : Z) (l : nat) (x a b : Point) :
  hasPeridynamics s = true → peridigm s = Some solver →
  solverSized solver (previousSolutionPositions s) →
  Z.of_nat (length (getData u1)) ≤ Int.max_signed →
  Z.of_nat (length (getData u2)) ≤ Int.max_signed →
  Forall (sphereReady (peridigm_globalIds solver) u1) (sphereElementGlobalNodeIds s) →
  Forall (sphereReady (peridigm_globalIds solver) u2) (sphereElementGlobalNodeIds s) →
  Forall (elementReady (length (peridigm_globalIds solver)) u1
            (peridigmGlobalIdToPeridigmLocalId (idTable s))) (partialStressElements s) →
  Forall (elementReady (length (peridigm_globalIds solver)) u2
            (peridigmGlobalIdToPeridigmLocalId (idTable s))) (partialStressElements s) →
  (∀ sv, peridigm_globalIds (Peridigm_updateState sv) = peridigm_globalIds sv
         ∧ getX (Peridigm_updateState sv) = getX sv
         ∧ length (getY (Peridigm_updateState sv)) = length (getY sv)
         ∧ length (getU (Peridigm_updateState sv)) = length (getU sv)
         ∧ length (getV (Peridigm_updateState sv)) = length (getV sv)) →
  (t1 < t2)%Qc →
  g ∈ sphereElementGlobalNodeIds s →
  LID (peridigm_globalIds solver) g = Z.of_nat l →
  point_at (getX solver) l = Some x →
  displacementAt u1 g a → displacementAt u2 g b →
  (∀ pse gid, pse ∈ partialStressElements s → gid ∈ peridigmGlobalIds pse →
     localIdOf (peridigmGlobalIdToPeridigmLocalId (idTable s)) gid ≠ Z.of_nat l) →
  ∃ s1 s2 s3 solver3,
    setCurrentTimeAndDisplacement t1 u1 s = Ok s1
    ∧ updateState s1 = Ok s2
    ∧ setCurrentTimeAndDisplacement t2 u2 s2 = Ok s3
    ∧ peridigm s3 = Some solver3
    ∧ timeStep s3 = (t2 - t1)%Qc
    ∧ point_at (getY solver3) l = Some (padd x b)
    ∧ point_at (getV solver3) l
      = Some (pdiv (psub (padd x b) (padd x a)) (t2 - t1)%Qc).
Proof.
  intros Hhas Hsolver Hsized Hd1 Hd2 Hsph1 Hsph2 Hel1 Hel2 Hkernel Hlt Hg Hl Hx Ha Hb Hother.
  pose proof (setCurrentTimeAndDisplacement_result t1 u1 s solver
                Hhas Hsolver Hsized Hd1 Hsph1 Hel1) as Hrun1.
  destruct (kinematicsAfter_lengths t1 u1 s solver) as (LY & LU & LV).
  pose proof Hsized as (HX & HY & HU & HV & Hprev & Hsmall).
  set (s1 := stateAfter t1 u1 s solver) in *.
  set (solver1 := {| peridigm_globalIds := peridigm_globalIds solver;
                     peridigm_cellVolume := peridigm_cellVolume solver;
                     peridigm_blockId := peridigm_blockId solver;
                     peridigm_timeStep := timeStepFor t1 (previousTime s);
                     getX := getX solver;
                     getY := positions (kinematicsAfter t1 u1 s solver);
                     getU := displacements (kinematicsAfter t1 u1 s solver);
                     getV := velocities (kinematicsAfter t1 u1 s solver);
                     getForce_vector := getForce_vector solver |}).
  assert (Hsolver1 : peridigm s1 = Some solver1) by reflexivity.
  assert (Hrun2 : updateState s1
                  = Ok (withSolver s1 t1 (positions (kinematicsAfter t1 u1 s solver))
                          (Peridigm_updateState solver1))).
  { rewrite (updateState_run s1 solver1 Hhas Hsolver1) by (cbn; lia).
    do 2 f_equal. apply take_ge. cbn. lia. }
  set (s2 := withSolver s1 t1 (positions (kinematicsAfter t1 u1 s solver))
               (Peridigm_updateState solver1)) in *.
  destruct (Hkernel solver1) as (Kids & KX & KY & KU & KV).
  cbn [solver1 peridigm_globalIds getX getY getU getV] in Kids, KX, KY, KU, KV.
  assert (Hsized2 : solverSized (Peridigm_updateState solver1) (previousSolutionPositions s2)).
  { unfold solverSized. rewrite Kids, KX, KY, KU, KV. cbn. split_and!; lia. }
  assert (Hsph2' : Forall (sphereReady (peridigm_globalIds (Peridigm_updateState solver1)) u2)
                     (sphereElementGlobalNodeIds s2)).
  { by rewrite Kids. }
  assert (Hel2' : Forall (elementReady (length (peridigm_globalIds (Peridigm_updateState solver1)))
                            u2 (peridigmGlobalIdToPeridigmLocalId (idTable s2)))
                    (partialStressElements s2)).
  { rewrite Kids. cbn. eapply Forall_impl; [exact Hel2|]. intros pse Hpse.
    eapply elementReady_ext; [|exact Hpse]. intros gid. apply touchTable_localIdOf. }
  pose proof (setCurrentTimeAndDisplacement_result t2 u2 s2 (Peridigm_updateState solver1)
                Hhas eq_refl Hsized2 Hd2 Hsph2' Hel2') as Hrun3.
  assert (Hl' : (3 * l + 2 < 3 * length (peridigm_globalIds solver))%nat).
  { rewrite Forall_forall in Hsph1. destruct (Hsph1 g Hg) as (Hin & _).
    destruct (LID_present _ _ Hin) as (l' & Hl'' & Hlook & _).
    apply lookup_lt_Some in Hlook. lia. }
  destruct (point_from_is_Some (previousSolutionPositions s) (3 * l)) as [p Hp]; [lia|].
  destruct (sphere_point_after t1 u1 s solver g l x p a Hsized Hsph1 Hel1 Hg Hl Hx Hp Ha Hother)
    as (HY1 & _ & _).
  destruct (sphere_point_after t2 u2 s2 (Peridigm_updateState solver1) g l x (padd x a) b
              Hsized2 Hsph2' Hel2') as (HY3 & _ & HV3).
  - exact Hg.
  - by rewrite Kids.
  - by rewrite KX.
  - exact HY1.
  - exact Hb.
  - intros pse gid Hpse Hgid. cbn. rewrite touchTable_localIdOf. exact (Hother pse gid Hpse Hgid).
  - assert (Hdt : timeStepFor t2 (previousTime s2) = (t2 - t1)%Qc).
    { apply timeStepFor_cases. cbn. unfold Qcminus. apply Qclt_minus_iff in Hlt. exact Hlt. }
    eexists _, _, _, _. split; [exact Hrun1|]. split; [exact Hrun2|]. split; [exact Hrun3|].
    split; [reflexivity|]. split; [exact Hdt|].
    split; [exact HY3|]. cbn [getV]. by rewrite HV3, Hdt.
Qed.

End Velocity.

Section VelocityWitness.
Import LinearTet Examples.

Lemma sphere_velocity_between_calls_witness :
  ∃ s1 s2 s3 solver3,
    setCurrentTimeAndDisplacement 1%Qc (solutionAtNode5 (qc 1 4, 0, 0)%Qc) sphereState = Ok s1
    ∧ updateState s1 = Ok s2
    ∧ setCurrentTimeAndDisplacement (qc 3 1) (solutionAtNode5 (qc 1 2, 0, 0)%Qc) s2 = Ok s3
    ∧ peridigm s3 = Some solver3
    ∧ timeStep s3 = (qc 3 1 - 1)%Qc
    ∧ point_at (getY solver3) 0 = Some (padd (1, 0, 0)%Qc (qc 1 2, 0, 0)%Qc)
    ∧ point_at (getV solver3) 0
      = Some (pdiv (psub (padd (1, 0, 0)%Qc (qc 1 2, 0, 0)%Qc)
                         (padd (1, 0, 0)%Qc (qc 1 4, 0, 0)%Qc)) (qc 3 1 - 1)%Qc).
Proof.
  apply (sphere_velocity_between_calls 1%Qc (qc 3 1) (solutionAtNode5 (qc 1 4, 0, 0)%Qc)
           (solutionAtNode5 (qc 1 2, 0, 0)%Qc) sphereState sphereSolver 5 0).
  - reflexivity.
  - reflexivity.
  - unfold solverSized. cbn. unfold Int.max_signed. split_and!; (reflexivity || lia).
  - cbn. unfold Int.max_signed. lia.
  - cbn. unfold Int.max_signed. lia.
  - repeat constructor. exists (qc 1 4, 0, 0)%Qc, 0%nat. split; reflexivity.
  - repeat constructor. exists (qc 1 2, 0, 0)%Qc, 0%nat. split; reflexivity.
  - constructor.
  - constructor.
  - intros sv. split_and!; reflexivity.
  - reflexivity.
  - cbn. left.
  - reflexivity.
  - reflexivity.
  - exists 0%nat. split; reflexivity.
  - exists 0%nat. split; reflexivity.
  - intros pse gid Hpse. cbn in Hpse. by apply elem_of_nil in Hpse.
Defined.

End VelocityWitness.
(** ** What the second loop of [initialize] stores for one element *)

Lemma point_at_flatten_points (ps : list Point) (i : nat) :
  point_at (flatten_points ps) i = ps !! i.
Proof.
  revert i. induction ps as [|[[x y] z] ps IH]; intros i.
  - by destruct i.
  - destruct i as [|i]; [done|].
    change (((x, y, z) :: ps) !! S i) with (ps !! i).
    rewrite <- (IH i). unfold point_at, point_from.
    replace (3 * S i)%nat with (3 + 3 * i)%nat by lia.
    change (flatten_points ((x, y, z) :: ps)) with ([x; y; z] ++ flatten_points ps).
    replace (3 + 3 * i + 1)%nat with (3 + (3 * i + 1))%nat by lia.
    replace (3 + 3 * i + 2)%nat with (3 + (3 * i + 2))%nat by lia.
    reflexivity.
Qed.

Section ElementPoints.
Context `{!Intrepid}.

(** The node coordinates read back from the flat storage of an element are
    the ones that were stored. *)
Lemma initialCellWorkset_flatten (e : Element) (topology : CellTopologyData)
    (cellWorkset : list Point) (gids : list Z) :
  length cellWorkset = length (begin_nodes e) →
  length (begin_nodes e) = getNodeCount topology →
  initialCellWorkset {| albanyElement := e; cellTopologyData := topology;
                        albanyNodeInitialPositions := flatten_points cellWorkset;
                        peridigmGlobalIds := gids |}
  = cellWorkset.
Proof.
  intros Hlen Hcount. unfold initialCellWorkset. cbn.
  rewrite Hcount, Nat.sub_diag. cbn. rewrite app_nil_r.
  apply list_eq. intros i. rewrite list_lookup_imap.
  destruct (begin_nodes e !! i) as [node|] eqn:Hi; cbn.
  - rewrite point_at_flatten_points.
    destruct (lookup_lt_is_Some_2 cellWorkset i) as [p Hp].
    { apply lookup_lt_Some in Hi. lia. }
    by rewrite Hp.
  - symmetry. apply lookup_ge_None_2. apply lookup_ge_None_1 in Hi. lia.
Qed.

(** X24: [initialize] stores for a sphere element, at the local id its node
    is registered under, the id of the block, the volume of the element
    and the coordinates of the node; it leaves the entries of every other
    local id and the id table as they were and appends the Albany id of the
    node to the list of sphere nodes. *)
Theorem pass2_sphereElement_point (coordinates : Z → option Point)
    (volume : Z → option Scalar) (bId : Z) (st : Pass2) (e : Element) (node : Z) (l : nat)
    (v : Scalar) (p : Point) :
  begin_nodes e = [node] →
  p2_peridigmGlobalIdToPeridigmLocalId st !! albanyId node = Some (Z.of_nat l) →
  (l < length (cellVolume st))%nat →
  length (blockId st) = length (cellVolume st) →
  length (initialX st) = (3 * length (cellVolume st))%nat →
  3 * Z.of_nat (length (cellVolume st)) ≤ Int.max_signed →
  volume (identifier e) = Some v →
  coordinates node = Some p →
  ∃ st', pass2_sphereElement coordinates volume bId st e = Ok st'
    ∧ blockId st' !! l = Some bId
    ∧ cellVolume st' !! l = Some v
    ∧ point_at (initialX st') l = Some p
    ∧ (∀ l', l' ≠ l →
         blockId st' !! l' = blockId st !! l'
         ∧ cellVolume st' !! l' = cellVolume st !! l'
         ∧ point_at (initialX st') l' = point_at (initialX st) l')
    ∧ p2_sphereElementGlobalNodeIds st' = p2_sphereElementGlobalNodeIds st ++ [albanyId node]
    ∧ p2_peridigmGlobalIdToPeridigmLocalId st' = p2_peridigmGlobalIdToPeridigmLocalId st
    ∧ p2_partialStressElements st' = p2_partialStressElements st.
Proof.
  intros Hnodes Hl Hlt HlenB HlenX Hsmall Hv Hp.
  unfold pass2_sphereElement, num_nodes. rewrite Hnodes. cbn [length].
  rewrite bool_decide_eq_false_2 by (intros Hne; done).
  cbn [test_for_except mbind outcome_bind].
  change (read_at [node] 0) with (Ok node). cbn [mbind outcome_bind].
  rewrite (map_index_present _ _ _ _ Hl).
  rewrite bool_decide_eq_false_2 by lia. cbn [test_for_except mbind outcome_bind].
  rewrite write_at_in_range by lia. cbn [mbind outcome_bind].
  rewrite Hv. cbn [from_option mbind outcome_bind].
  rewrite write_at_in_range by lia. cbn [mbind outcome_bind].
  rewrite Hp. cbn [from_option mbind outcome_bind].
  rewrite write_point_set_point by lia. cbn [mbind outcome_bind].
  eexists. split; [reflexivity|].
  cbn [blockId cellVolume initialX p2_sphereElementGlobalNodeIds
       p2_peridigmGlobalIdToPeridigmLocalId p2_partialStressElements].
  split_and!; [| | | |done..].
  - apply list_lookup_insert_eq. lia.
  - apply list_lookup_insert_eq. lia.
  - apply point_at_set_point. lia.
  - intros l' Hne. split_and!.
    + by apply list_lookup_insert_ne.
    + by apply list_lookup_insert_ne.
    + by apply point_at_set_point_ne.
Qed.

(** X25: for an element of a partial-stress block whose node count matches
    its topology and whose nodes have coordinates, [initialize] stores at
    the local id of each quadrature point (these being distinct and inside
    the arrays) the id of the block and the image of the reference point
    under the map of the element's node coordinates, and leaves the entries
    of every other local id as they were.  The element it records holds the
    global ids of these local ids in the order of the quadrature points,
    and the node coordinates read back from it are the ones of the mesh. *)
Theorem pass2_partialStressElement_points (coordinates : Z → option Point)
    (nodeGlobalIds localIds : list Z) (topology : CellTopologyData) (degree bId : Z)
    (st : Pass2) (e : Element) (first : nat) :
  let cubature := getCubature topology degree in
  num_nodes e = Z.of_nat (getNodeCount topology) →
  Forall (λ node, is_Some (coordinates node)) (begin_nodes e) →
  peridigmPartialStressIndex st = Z.of_nat first →
  Z.of_nat (first + length cubature) ≤ Int.max_signed →
  3 * Z.of_nat (length (cellVolume st)) ≤ Int.max_signed →
  length (blockId st) = length (cellVolume st) →
  length (initialX st) = (3 * length (cellVolume st))%nat →
  (∀ qp, (qp < length cubature)%nat →
     ∃ l : nat, localIds !! (first + qp)%nat = Some (Z.of_nat l)
       ∧ (l < length nodeGlobalIds)%nat ∧ (l < length (cellVolume st))%nat) →
  (∀ qp qp' l, (qp < length cubature)%nat → (qp' < length cubature)%nat →
     localIds !! (first + qp)%nat = Some l → localIds !! (first + qp')%nat = Some l →
     qp = qp') →
  ∃ st' pse,
    pass2_partialStressElement coordinates nodeGlobalIds localIds topology degree bId st e
    = Ok st'
    ∧ p2_partialStressElements st' = p2_partialStressElements st ++ [pse]
    ∧ albanyElement pse = e
    ∧ cellTopologyData pse = topology
    ∧ mapM (λ node, from_option Ok Undefined (coordinates node)) (begin_nodes e)
      = Ok (initialCellWorkset pse)
    ∧ length (peridigmGlobalIds pse) = length cubature
    ∧ peridigmPartialStressIndex st' = Z.of_nat (first + length cubature)
    ∧ (∀ qp l, (qp < length cubature)%nat →
         localIds !! (first + qp)%nat = Some (Z.of_nat l) →
         blockId st' !! l = Some bId
         ∧ point_at (initialX st') l
           = Some (mapToPhysicalFrame cubature.*1 (initialCellWorkset pse) topology qp)
         ∧ peridigmGlobalIds pse !! qp = nodeGlobalIds !! l)
    ∧ (∀ l', (∀ qp, (qp < length cubature)%nat →
                localIds !! (first + qp)%nat ≠ Some (Z.of_nat l')) →
         blockId st' !! l' = blockId st !! l'
         ∧ cellVolume st' !! l' = cellVolume st !! l'
         ∧ point_at (initialX st') l' = point_at (initialX st) l').
Proof.
  intros cubature Hcount Hcoords Hindex Hsmall Hvsmall HlenB HlenX Hids Hinj.
  destruct (mapM_coordinates coordinates (begin_nodes e) Hcoords) as (cellWorkset & Hcw & Hcwlen).
  unfold pass2_partialStressElement. fold cubature.
  rewrite bool_decide_eq_false_2 by (intros Hne; done).
  cbn [test_for_except mbind outcome_bind]. rewrite Hcw. cbn [mbind outcome_bind].
  set (physPoints := mapToPhysicalFrame _ _ _).
  set (measures := computeCellMeasure _ _).
  destruct (for_each_seq
              (pass2_quadPoint nodeGlobalIds localIds bId measures physPoints)
              (λ k q, qp_index q = Z.of_nat (first + k)
                      ∧ length (qp_cellVolume q) = length (cellVolume st)
                      ∧ length (qp_blockId q) = length (cellVolume st)
                      ∧ length (qp_initialX q) = (3 * length (cellVolume st))%nat
                      ∧ length (qp_peridigmGlobalIds q) = k
                      ∧ (∀ qp l, (qp < k)%nat →
                           localIds !! (first + qp)%nat = Some (Z.of_nat l) →
                           qp_blockId q !! l = Some bId
                           ∧ point_at (qp_initialX q) l = Some (physPoints qp)
                           ∧ qp_peridigmGlobalIds q !! qp = nodeGlobalIds !! l)
                      ∧ (∀ l', (∀ qp, (qp < k)%nat →
                                  localIds !! (first + qp)%nat ≠ Some (Z.of_nat l')) →
                           qp_blockId q !! l' = blockId st !! l'
                           ∧ qp_cellVolume q !! l' = cellVolume st !! l'
                           ∧ point_at (qp_initialX q) l' = point_at (initialX st) l'))
              (length cubature)
              {| qp_initialX := initialX st; qp_cellVolume := cellVolume st;
                 qp_blockId := blockId st; qp_index := peridigmPartialStressIndex st;
                 qp_peridigmGlobalIds := [] |})
    as (points & Hrun & Hidx & _ & _ & _ & Hglen & Hpoints & Hframe).
  - cbn. split_and!; [rewrite Hindex; f_equal; lia|done..| |done].
    intros ? ? ?. lia.
  - intros k q Hk (Hqi & HqV & HqB & HqX & HqG & Hq & Hqf).
    destruct (Hids k Hk) as (l & Hl & Hlg & Hlv).
    destruct (lookup_lt_is_Some_2 nodeGlobalIds l Hlg) as [g Hg].
    unfold pass2_quadPoint. rewrite Hqi.
    rewrite (read_at_lookup _ _ _ Hl). cbn [mbind outcome_bind].
    rewrite (read_at_lookup _ _ _ Hg). cbn [mbind outcome_bind].
    rewrite write_at_in_range by lia. cbn [mbind outcome_bind].
    rewrite write_at_in_range by lia. cbn [mbind outcome_bind].
    rewrite write_point_set_point by lia. cbn [mbind outcome_bind].
    eexists. split; [reflexivity|].
    cbn [qp_index qp_cellVolume qp_blockId qp_initialX qp_peridigmGlobalIds].
    rewrite !length_insert, length_set_point, length_app. cbn [length].
    split_and!; [|done|done|done|lia| |].
    + rewrite Int_add_exact by (unfold Int.in_range, Int.min_signed; lia). lia.
    + intros qp l' Hqp Hl'. destruct (decide (qp = k)) as [->|Hne].
      * rewrite Hl in Hl'. injection Hl' as Hl'. apply Nat2Z.inj in Hl'. subst l'.
        split_and!.
        -- apply list_lookup_insert_eq. lia.
        -- apply point_at_set_point. lia.
        -- rewrite <- HqG. by rewrite list_lookup_middle.
      * assert (l ≠ l').
        { intros <-. apply Hne. by apply (Hinj qp k (Z.of_nat l)); [lia|..]. }
        destruct (Hq qp l') as (HB & HP & HG); [lia|done|].
        split_and!.
        -- by rewrite list_lookup_insert_ne.
        -- by rewrite point_at_set_point_ne.
        -- rewrite lookup_app_l by lia. done.
    + intros l' Hno.
      assert (l ≠ l').
      { intros <-. by apply (Hno k); [lia|]. }
      destruct (Hqf l') as (HB & HV & HP).
      { intros qp Hqp. apply Hno. lia. }
      split_and!.
      * by rewrite list_lookup_insert_ne.
      * by rewrite list_lookup_insert_ne.
      * by rewrite point_at_set_point_ne.
  - rewrite Hrun. cbn [mbind outcome_bind].
    assert (Hnodes : length (begin_nodes e) = getNodeCount topology).
    { unfold num_nodes in Hcount. lia. }
    eexists _, _. split; [reflexivity|].
    cbn [p2_partialStressElements albanyElement cellTopologyData peridigmGlobalIds
         peridigmPartialStressIndex blockId cellVolume initialX].
    rewrite (initialCellWorkset_flatten e topology cellWorkset (qp_peridigmGlobalIds points)
              Hcwlen Hnodes).
    split_and!; [done..|exact Hpoints|exact Hframe].
Qed.

End ElementPoints.

Section ElementPointsWitness.
Import LinearTet Examples.

Lemma pass2_sphereElement_point_witness :
  ∃ st', pass2_sphereElement (λ node, if bool_decide (node = 6) then Some (1, 0, 0)%Qc else None)
           (λ element, if bool_decide (element = 1) then Some 1%Qc else None) 1 tetPass2
           {| identifier := 1; begin_nodes := [6] |} = Ok st'
    ∧ blockId st' !! 0%nat = Some 1
    ∧ cellVolume st' !! 0%nat = Some 1%Qc
    ∧ point_at (initialX st') 0 = Some (1, 0, 0)%Qc.
Proof.
  destruct (pass2_sphereElement_point
              (λ node, if bool_decide (node = 6) then Some (1, 0, 0)%Qc else None)
              (λ element, if bool_decide (element = 1) then Some 1%Qc else None) 1 tetPass2
              {| identifier := 1; begin_nodes := [6] |} 6 0 1%Qc (1, 0, 0)%Qc)
    as (st' & Hrun & HB & HV & HP & _).
  - reflexivity.
  - reflexivity.
  - cbn. lia.
  - reflexivity.
  - reflexivity.
  - cbn. unfold Int.max_signed. lia.
  - reflexivity.
  - reflexivity.
  - by exists st'.
Defined.

Lemma pass2_partialStressElement_points_witness :
  ∃ st' pse,
    pass2_partialStressElement (tetCoordinates (0, 0, 1)%Qc) [5] [0] Tetrahedron_4 1 1
      tetPass2 tet = Ok st'
    ∧ p2_partialStressElements st' = [pse]
    ∧ blockId st' !! 0%nat = Some 1
    ∧ point_at (initialX st') 0
      = Some (mapToPhysicalFrame (getCubature Tetrahedron_4 1).*1 (initialCellWorkset pse)
                Tetrahedron_4 0)
    ∧ peridigmGlobalIds pse !! 0%nat = Some 5.
Proof.
  destruct (pass2_partialStressElement_points (tetCoordinates (0, 0, 1)%Qc) [5] [0]
              Tetrahedron_4 1 1 tetPass2 tet 0)
    as (st' & pse & Hrun & Hlist & _ & _ & _ & _ & _ & Hpoints & _).
  - reflexivity.
  - repeat (apply Forall_cons; split; [eexists; vm_compute; reflexivity|]). apply Forall_nil_2.
  - reflexivity.
  - vm_compute. discriminate.
  - vm_compute. discriminate.
  - reflexivity.
  - reflexivity.
  - intros qp Hqp. vm_compute in Hqp. exists 0%nat. destruct qp as [|qp]; [|lia].
    cbn. split_and!; [reflexivity|lia|lia].
  - intros qp qp' l Hqp Hqp' _ _. vm_compute in Hqp, Hqp'. lia.
  - destruct (Hpoints 0%nat 0%nat) as (HB & HP & HG); [vm_compute; lia|reflexivity|].
    exists st', pse. by split_and!.
Defined.

End ElementPointsWitness.
(** ** Sphere points and partial-stress points after [initialize] *)



Section NotShared.
Context `{!Intrepid} `{!PeridigmKernels}.






End NotShared.

Section NotSharedWitness.
Import LinearTet Examples.


End NotSharedWitness.
